(* ===== verification/_CoqProject ===== *)
-Q . S2P
Prelude.v
Prog.v
Model.v
Services.v
Sim.v
Storage.v
Queue.v
Strconv.v
Rfc3339.v
Json.v
JsonText.v
Events.v
Worker.v
Scheduler.v
Api.v
Config.v
Main.v
Dashboard.v
System.v
Hub.v
Leader.v
Instance.v
Metrics.v
Docs.v
