(* ===== verification/Prelude.v ===== *)
(** * GoQueue: a verification development

    GoQueue is a distributed job queue.  Jobs are rows of a PostgreSQL table; their
    identifiers wait in Redis, in one list per queue or in a sorted set of scheduled jobs.
    An HTTP API creates, lists, cancels, retries and deletes jobs.  A pool of workers pops
    identifiers and runs the handler registered for the type of the job; a failed job is
    scheduled again with an exponential backoff until it is dead.  One instance, elected by
    an advisory lock, runs the scheduler: it moves due jobs to their queues, pushes pending
    jobs that may have missed their queue and fails jobs that run for too long.  Every change
    is published as an event, on which a dashboard refreshes its pages over WebSockets.

    ** How the code is modelled

    A Go function that calls a service is a program: a tree of effects (statements sent to
    PostgreSQL, commands sent to Redis, the clock, the random source, updates of metrics),
    written in monadic notation, with the early returns, ignored errors and error texts of
    the source.  Log output is left out.  Integers of Go are [Z] with their wrap-around
    written out where it can occur ([wrap64]); times and durations are nanoseconds.

    PostgreSQL, Redis, [google/uuid], [math.Pow], [html/template],
    the zone of the local clock and the Prometheus client are not part of the sources.  They
    are classes with the documented behaviour the code relies on as laws: any call may fail
    at any moment, a failed write may or may not have taken effect, a stream of rows may
    break off.  The sessions of PostgreSQL and its advisory locks are a class of their own
    ([AdvisoryLocks]): a lost answer may leave the lock taken, and closing a connection need
    not reach the server.  What the code itself contributes (the SQL conditions and updates, the
    numbering of placeholders, the Lua script) is in the programs.  [Sim.v] implements the
    classes of services by an in-memory database, queue and clock with a schedule of faults;
    the witnesses run on it.  What the code uses of Go's standard library ([strconv],
    [time], [encoding/json]) is modelled in files of its own.

    A program has two readings.  [run] executes it alone; the theorems about single
    operations hold for every world, and those that speak of success assume [all_ok], that
    no call of that run fails.  [pstep] interleaves any number of programs effect by effect;
    [safe_reachable] reduces properties of all interleavings to one proof per program.
    Goroutines that meet at locks, channels and contexts (scheduler, pool, hub, elector, the
    main goroutine) are step relations over records of the fields of the code.

    ** Files

    - [Prelude]: results, machine integers, time, slices, tactics and hints.
    - [Prog]: programs, their weakest preconditions, interleaving.
    - [Model] ([internal/model/job.go]): statuses, transition table, backoff, [Job].
    - [Services], [Sim]: the interfaces to the outside and their reference implementation.
    - [Storage] ([internal/storage/postgres.go]): every query of [PostgresStorage], and its
      constructor and migrations as calls that may fail.
    - [Queue] ([internal/queue/redis.go]): [Push], [Pop], [Schedule], [GetDueJobs] with its
      script, [QueueLength], and the constructor.
    - [Strconv]: [strconv.Atoi], [time.ParseDuration] and the [float64] arithmetic of page
      counts, from the standard library.
    - [Rfc3339]: the calendar, [Time.MarshalJSON] and [time.Parse] for the layout RFC 3339,
      with the fast path of the library and the general parser.
    - [Json]: UTF-8, quoting, the scanner, the decoding of strings, integers and times into
      the fields of a struct, and the printing of values.
    - [JsonText]: the grammar of JSON as a relation, and that the scanner and the decoders
      recognise exactly its texts.
    - [Events] ([internal/dashboard/event.go]): [JobEvent], its encoding and decoding,
      [PublishJobEvent].
    - [Worker] ([internal/worker/worker.go]): registry, worker loop, [processJob],
      [handleFailure]; Module [Pool]: [Start], [Stop] and the wait group.
    - [Scheduler] ([internal/scheduler/scheduler.go]): the three passes and their loops;
      Module [Lifecycle]: [Start], [Stop], mutex, contexts and goroutines as a step relation.
    - [Api] ([internal/api/]): decoding of bodies, handlers, middlewares, responses, the
      table of routes.
    - [Config] ([internal/config/config.go]): [Load] over any environment.
    - [Main] ([cmd/goqueue/main.go]): demo handlers, registry, log level, start-up, the
      collectors of metrics and their loops.
    - [Dashboard] ([internal/dashboard/templates.go], [handler.go], [publisher.go],
      [internal/api/dashboard.go]): data of the pages and fragments, chart, subscriber.
    - [System]: all of these programs, interleaved.
    - [Hub] ([internal/dashboard/hub.go], [client.go]): clients and channels.
    - [Leader] ([internal/leader/leader.go]): the interface to sessions and the advisory lock;
      electors, whose goroutine goes one call on its connection at a time, so that [Stop] may
      come in between.
    - [Instance] ([cmd/goqueue/main.go]): the goroutines of a process (main, elector,
      scheduler, pool, requests), its shutdown, and several processes at one database.
    - [Metrics] ([internal/metrics/metrics.go]): the collectors with their labels, the
      interface to the Prometheus client, what each update of the programs does to them.
    - [Docs] ([docs/docs.go]): the Swagger document, and the answers of the API as JSON.

    ** What is shown

    - The table of transitions is the state machine of the eight statuses; the backoff is
      [2^n] seconds up to 33 retries and overflows beyond.
    - Storage: creation and reading round-trip, deletion removes dead jobs only, listings
      are exact (number, order, page).  Queue: the lists refine FIFO queues, the script
      splits the schedule at the current second without loss or repetition.
    - Worker: what becomes of a job, with all failures (six outcomes) and without (the
      handler decides); how often a failing job runs; balanced gauge; termination on
      cancellation; the pool waits for its workers.
    - Scheduler: each pass moves, pushes or fails exactly the jobs it should when nothing
      fails, and does no harm when something does; the loops start and stop consistently
      under every interleaving.
    - API: for each endpoint what each status code says about the table and the queues;
      nothing under [/api/v1] without the key; pages of a listing cover it; statistics are
      exact; a body means the JSON object it begins with, whichever of its texts it is;
      answers have the codes and the schemas the documentation gives, the payload, bodies that
      cannot be encoded and an undocumented 500 excepted.  Dashboard: charts are exact, page
      counts agree, nothing is changed; every published event is read back by the
      subscriber and refreshes the pages.
    - Hub: no panic on a channel while it runs, bounded channels, no sender that waits for
      good, a [Shutdown] that closes every client's channel; a client receives the messages broadcast since it was registered, in order, until
      it is dropped.
    - Leader election: mutual exclusion on live sessions.  Instances: the processes of a
      cluster refine the election, the scheduler of a process runs only under it; the
      connections are closed after the last worker has returned; the shutdown ends as soon as
      the workers return, whatever requests, scheduler and election do; the start-up stops at
      the first error.
    - Metrics: every update of every program names a registered collector, with a value in
      UTF-8 for each label and a kind that allows it, so no update panics; the gauge of active workers counts the
      jobs in progress.  Configuration and collectors.
    - System: the table stays well formed and Redis holds well-formed identifiers only,
      however everything interleaves and fails.
    - Behaviours one would not want are theorems too: a job dies one retry earlier than its
      documentation says; a retry whose schedule entry is lost
      stays lost; due jobs are lost when a push fails; recovery queues waiting jobs again,
      which then run twice; cancelled jobs still run; a broken stream of rows goes
      unnoticed; a poll interval of zero is accepted; [Shutdown] of the hub can panic; a
      client whose writer died stays registered; two schedulers can run after a session
      breaks; [Stop] of the elector can crash the process; a process can
      exit while its scheduler and a request run and with the result of a job unsaved; the dashboard page
      carries the API key; payloads are documented as arrays of integers and answers 401
      not at all.

    ** Bounds and fuel

    Loops over [select] take the list of the cases the [select]s choose and say whether
    they returned, so they are total for every schedule.  [durationLoop] has as fuel the
    length of its text, which [durationLoop_fuel] shows to be enough.  The scanner of JSON
    has the nesting limit of the library (10000) as its depth and the length of the text as
    the fuel of its loops, each turn of which consumes a character; so has [unquote].  The
    schemas of the documentation are nested less than five deep, the fuel of [conforms].
    The page count in floating point is exact below [2^53] jobs, which the theorems assume.

    ** What is not modelled

    The network below the services and the HTTP server (library calls); the text of the SQL
    migrations; chi's matching of paths (the request is given matched); the HTML templates
    and [NewTemplateRenderer], which parses them; the descriptive texts of [docs/docs.go];
    log output.  Responses are values, not texts.  [LeaderElector.sleep] only waits and is
    part of the steps that may come at any time.  Where the elector and its [Stop] test
    [e.conn], close it and set it to nil, the three are one step. *)

From Stdlib Require Export ZArith Lia.
From stdpp Require Export sorting relations numbers.
From stdpp Require Export base gmap strings list.

#[global] Set Default Goal Selector "!".

Declare Scope go_scope.
Delimit Scope go_scope with go.

(** ** Results of fallible calls

    A Go function returning [(T, error)] returns [Ok v] or [Err msg]; the error is kept as
    its message, since that is what the program passes on ([fmt.Errorf] wrapping and
    [err.Error()] in HTTP bodies). *)
Inductive result (A : Type) : Type :=
| Ok (a : A)
| Err (e : string).

Arguments Ok {A} a.
Arguments Err {A} e.

Definition is_ok {A} (r : result A) : bool :=
  match r with Ok _ => true | Err _ => false end.

(** [fmt.Errorf("ctx: %w", err)]. *)
Definition wrap_err {A} (ctx : string) (r : result A) : result A :=
  match r with Ok a => Ok a | Err e => Err (ctx +:+ ": " +:+ e) end.

Lemma wrap_err_ok {A} ctx (r : result A) a : wrap_err ctx r = Ok a <-> r = Ok a.
Proof. destruct r; simpl; split; congruence. Qed.

(** ** Machine integers

    Go's [int] and [int64] are 64-bit two's complement; arithmetic wraps. *)
Definition wrap64 (z : Z) : Z := ((z + 2^63) `mod` 2^64 - 2^63)%Z.

Definition in_int64 (z : Z) : Prop := (- 2^63 <= z < 2^63)%Z.

Definition in_int32 (z : Z) : Prop := (- 2^31 <= z < 2^31)%Z.

#[global] Instance in_int64_dec z : Decision (in_int64 z).
Proof. unfold in_int64. apply _. Defined.

#[global] Instance in_int32_dec z : Decision (in_int32 z).
Proof. unfold in_int32. apply _. Defined.

Lemma wrap64_id z : in_int64 z -> wrap64 z = z.
Proof. unfold in_int64, wrap64. intros. rewrite Z.mod_small; lia. Qed.

Lemma wrap64_range z : in_int64 (wrap64 z).
Proof.
  unfold in_int64, wrap64. pose proof (Z.mod_pos_bound (z + 2^63) (2^64)). lia.
Qed.

Lemma wrap64_multiple k : wrap64 (k * 2^64) = 0%Z.
Proof.
  unfold wrap64. rewrite Z.add_comm, Z_mod_plus_full, Z.mod_small; lia.
Qed.

(** Wrapping as one goes or once at the end is the same. *)
Lemma wrap64_add a b : wrap64 (wrap64 a + b) = wrap64 (a + b).
Proof.
  unfold wrap64. f_equal.
  replace ((a + 2^63) `mod` 2^64 - 2^63 + b + 2^63)%Z with ((a + 2^63) `mod` 2^64 + b)%Z by lia.
  rewrite Zplus_mod_idemp_l. f_equal. lia.
Qed.

Lemma in_int32_succ z : in_int32 z -> wrap64 (z + 1) = (z + 1)%Z.
Proof. unfold in_int32. intros. apply wrap64_id. unfold in_int64. lia. Qed.

(** ** Time

    A [time.Time] is its number of nanoseconds since the Unix epoch, a [time.Duration] a
    number of nanoseconds. *)
Abbreviation Time := Z (only parsing).
Abbreviation Duration := Z (only parsing).

Definition Second : Duration := 1000000000.

(** [t.Unix()]: whole seconds since the epoch, rounded towards minus infinity. *)
Definition Unix (t : Time) : Z := (t `div` Second)%Z.

Lemma Unix_mono t1 t2 : (t1 <= t2)%Z -> (Unix t1 <= Unix t2)%Z.
Proof. unfold Unix, Second. intros. apply Z.div_le_mono; lia. Qed.

(** ** Lists *)

(** The rows [OFFSET o LIMIT l] keeps. *)
Definition slice {A} (off lim : Z) (l : list A) : list A :=
  take (Z.to_nat lim) (drop (Z.to_nat off) l).

Lemma slice_length {A} off lim (l : list A) : length (slice off lim l) <= Z.to_nat lim.
Proof. unfold slice. rewrite length_take. lia. Qed.

Lemma elem_of_slice {A} off lim (l : list A) x : x ∈ slice off lim l -> x ∈ l.
Proof.
  unfold slice. intros Hx.
  eapply subseteq_drop, subseteq_take, Hx.
Qed.

Lemma NoDup_slice {A} off lim (l : list A) : NoDup l -> NoDup (slice off lim l).
Proof.
  intros Hl. unfold slice.
  eapply sublist_NoDup; [exact Hl|].
  etrans; [apply sublist_take|apply sublist_drop].
Qed.

Lemma slice_all {A} lim (l : list A) : length l <= Z.to_nat lim -> slice 0 lim l = l.
Proof. intros. unfold slice. rewrite drop_0. by apply take_ge. Qed.

(** Filtering looks at the elements of the list only. *)
Lemma filter_iff_in {A} (P Q : A -> Prop) `{!forall x, Decision (P x)}
    `{!forall x, Decision (Q x)} (l : list A) :
  (forall x, x ∈ l -> P x <-> Q x) -> filter P l = filter Q l.
Proof.
  induction l as [|x l IH]; intros HPQ; [done|]. rewrite !filter_cons.
  rewrite IH by (intros; apply HPQ; by right). specialize (HPQ x ltac:(left)).
  do 2 case_decide; tauto.
Qed.

(** ** Runs *)

(** What every step keeps holds at the end of a run. *)
Lemma rtc_invariant {A} (I : A -> Prop) (R : A -> A -> Prop) x y :
  (forall a b, I a -> R a b -> I b) -> I x -> rtc R x y -> I y.
Proof. intros Hstep Hx Hrun. induction Hrun as [|a b c Hab _ IH]; [done|]. by eapply IH, Hstep. Qed.

(** ** Automation *)

Create HintDb goq discriminated.
#[export] Hint Constants Opaque : goq.
#[export] Hint Variables Opaque : goq.
#[export] Hint Resolve wrap64_range : goq.

(** Split every conjunction and existential of the context, and substitute. *)
Ltac crush_ex :=
  repeat match goal with
  | H : exists _, _ |- _ => destruct H
  | H : _ /\ _ |- _ => destruct H
  | H : @eq (_ * _) _ _ |- _ => injection H as ?; subst
  end; simplify_eq/=.

(** Case on the scrutinee of a [match] or [if] of the goal. *)
Ltac case_goal :=
  match goal with
  | |- context [match ?x with _ => _ end] => destruct x eqn:?
  end.
