(* ===== verification/Prog.v ===== *)
(** * Programs with effects

    A Go function that talks to its surroundings is a finite tree of effects: [Ret] returns,
    [Vis e k] performs the effect [e] and continues with its answer.  The same tree has two
    readings.  [run] executes it alone, on a state that answers effects.  [pstep] executes a
    pool of them, interleaved effect by effect, with new goroutines started at any moment:
    this is how the worker pool, the scheduler loops and the HTTP handlers share Postgres and
    Redis.  [safe_reachable] is the proof rule for properties of every interleaving. *)

From S2P Require Import Prelude.

Section Prog.
Context {E : Type} {R : E -> Type}.

Inductive prog (A : Type) : Type :=
| Ret (a : A)
| Vis (e : E) (k : R e -> prog A).

Arguments Ret {A} a.
Arguments Vis {A} e k.

Fixpoint bind {A B} (p : prog A) (f : A -> prog B) : prog B :=
  match p with
  | Ret a => f a
  | Vis e k => Vis e (fun x => bind (k x) f)
  end.

Definition trigger (e : E) : prog (R e) := Vis e Ret.

(** [for _, x := range l { body(x) }]; a [continue] of the source is a [Ret tt] of the
    body. *)
Fixpoint for_each {A} (l : list A) (body : A -> prog unit) : prog unit :=
  match l with
  | [] => Ret tt
  | x :: l => bind (body x) (fun _ => for_each l body)
  end.

(** [effects P p]: every effect [p] may perform, whatever the answers, satisfies [P]. *)
Fixpoint effects {A} (P : E -> Prop) (p : prog A) : Prop :=
  match p with
  | Ret _ => True
  | Vis e k => P e /\ forall x, effects P (k x)
  end.

Lemma effects_bind {A B} P (p : prog A) (f : A -> prog B) :
  effects P p -> (forall a, effects P (f a)) -> effects P (bind p f).
Proof.
  induction p as [a|e k IH]; simpl; [auto|]. intros [He Hk] Hf. split; [done|]. auto.
Qed.

Lemma effects_trigger P (e : E) : P e -> effects P (trigger e).
Proof. by split. Qed.

Lemma effects_for_each {A} P (l : list A) body :
  (forall x, effects P (body x)) -> effects P (for_each l body).
Proof. intros H. induction l as [|x l IH]; simpl; [done|]. by apply effects_bind. Qed.

Lemma effects_mono {A} (P Q : E -> Prop) (p : prog A) :
  (forall e, P e -> Q e) -> effects P p -> effects Q p.
Proof.
  intros HPQ. induction p as [a|e k IH]; simpl; [done|]. intros [He Hk]. split; auto.
Qed.

Section Run.
Context {W : Type} (exec : forall e : E, W -> R e * W).

Fixpoint run {A} (p : prog A) (w : W) : A * W :=
  match p with
  | Ret a => (a, w)
  | Vis e k => let (x, w') := exec e w in run (k x) w'
  end.

Lemma run_vis {A} e (k : R e -> prog A) w :
  run (Vis e k) w = let (x, w') := exec e w in run (k x) w'.
Proof. done. Qed.

Lemma run_bind {A B} (p : prog A) (f : A -> prog B) w :
  run (bind p f) w = run (f (run p w).1) (run p w).2.
Proof.
  revert w. induction p as [a|e k IH]; intros w; simpl; [done|].
  destruct (exec e w) as [x w']. apply IH.
Qed.

Lemma run_trigger e w : run (trigger e) w = exec e w.
Proof. unfold trigger. simpl. by destruct (exec e w). Qed.

Lemma run_split {A} (p : prog A) w a : (run p w).1 = a -> run p w = (a, (run p w).2).
Proof. intros <-. apply surjective_pairing. Qed.

(** [wp p Q w]: run on [w], [p] ends with an answer and a state that satisfy [Q]. *)
Definition wp {A} (p : prog A) (Q : A -> W -> Prop) (w : W) : Prop :=
  Q (run p w).1 (run p w).2.

Lemma wp_run {A} (p : prog A) (Q : A -> W -> Prop) w a w' :
  run p w = (a, w') -> wp p Q w -> Q a w'.
Proof. unfold wp. by intros ->. Qed.

Lemma wp_ret {A} (a : A) (Q : A -> W -> Prop) w : Q a w -> wp (Ret a) Q w.
Proof. done. Qed.

Lemma wp_bind {A B} (p : prog A) (f : A -> prog B) Q w :
  wp p (fun a w' => wp (f a) Q w') w -> wp (bind p f) Q w.
Proof. unfold wp. by rewrite run_bind. Qed.

Lemma wp_trigger e (Q : R e -> W -> Prop) w :
  (forall x w', exec e w = (x, w') -> Q x w') -> wp (trigger e) Q w.
Proof. unfold wp. rewrite run_trigger. destruct (exec e w). eauto. Qed.

Lemma wp_mono {A} (p : prog A) (Q Q' : A -> W -> Prop) w :
  wp p Q w -> (forall a w', Q a w' -> Q' a w') -> wp p Q' w.
Proof. unfold wp. eauto. Qed.

Lemma wp_any {A} (p : prog A) (Q : A -> W -> Prop) w : (forall a w', Q a w') -> wp p Q w.
Proof. unfold wp. auto. Qed.

(** The loop rule: an invariant of the remaining elements. *)
Lemma wp_for_each {A} (I : list A -> W -> Prop) (body : A -> prog unit) l w :
  I l w ->
  (forall x l' w', I (x :: l') w' -> wp (body x) (fun _ w'' => I l' w'') w') ->
  wp (for_each l body) (fun _ w' => I [] w') w.
Proof.
  intros HI Hbody. revert w HI.
  induction l as [|x l IH]; intros w HI; simpl; [by apply wp_ret|].
  apply wp_bind. eapply wp_mono; [by apply Hbody|]. intros; by apply IH.
Qed.

(** The same with an invariant of the elements already treated. *)
Lemma wp_for_range {A} (I : list A -> W -> Prop) (body : A -> prog unit) l w :
  I [] w ->
  (forall pre x post w', l = pre ++ x :: post -> I pre w' ->
     wp (body x) (fun _ w'' => I (pre ++ [x]) w'') w') ->
  wp (for_each l body) (fun _ w' => I l w') w.
Proof.
  intros HI Hbody.
  eapply wp_mono; [apply (wp_for_each (fun rest w' => exists pre, l = pre ++ rest /\ I pre w'))|].
  - by exists [].
  - intros x rest w' (pre & Hl & Hpre). eapply wp_mono; [by eapply Hbody|].
    intros ? w'' Hw. exists (pre ++ [x]). by rewrite <- app_assoc.
  - intros ? w' (pre & -> & Hpre). by rewrite app_nil_r.
Qed.

(** A relation that every allowed effect respects, and that composes, holds of the run. *)
Lemma effects_run {A} P (Rel : W -> W -> Prop) (p : prog A) w :
  (forall w, Rel w w) -> (forall w1 w2 w3, Rel w1 w2 -> Rel w2 w3 -> Rel w1 w3) ->
  (forall e w, P e -> Rel w (exec e w).2) ->
  effects P p -> Rel w (run p w).2.
Proof.
  intros Hrefl Htrans Hexec. revert w.
  induction p as [a|e k IH]; simpl; intros w Hp; [apply Hrefl|].
  destruct Hp as [He Hk]. specialize (Hexec e w He).
  destruct (exec e w) as [x w']. eapply Htrans; [exact Hexec|]. by apply IH.
Qed.

(** ** Runs without failures

    [all_ok p w]: every effect of the run of [p] on [w] got an answer that [answered]
    accepts.  [wpok] is [wp] for such runs: with it a program's result can be stated exactly,
    where [wp] has to allow for every failure. *)
Section AllOk.
Context (answered : forall e : E, R e -> Prop).

Fixpoint all_ok {A} (p : prog A) (w : W) : Prop :=
  match p with
  | Ret _ => True
  | Vis e k => let (x, w') := exec e w in answered e x /\ all_ok (k x) w'
  end.

(** The test that a run had no failure. *)
Fixpoint all_okb {A} (answeredb : forall e : E, R e -> bool) (p : prog A) (w : W) : bool :=
  match p with
  | Ret _ => true
  | Vis e k => let (x, w') := exec e w in answeredb e x && all_okb answeredb (k x) w'
  end.

Lemma all_okb_true {A} answeredb (p : prog A) w :
  (forall e x, answeredb e x = true -> answered e x) ->
  all_okb answeredb p w = true -> all_ok p w.
Proof.
  intros Hb. revert w. induction p as [a|e k IH]; intros w; simpl; [done|].
  destruct (exec e w) as [x w']. intros [? ?]%andb_true_iff. split; auto.
Qed.

Lemma all_ok_bind {A B} (p : prog A) (f : A -> prog B) w :
  all_ok (bind p f) w <-> all_ok p w /\ all_ok (f (run p w).1) (run p w).2.
Proof.
  revert w. induction p as [a|e k IH]; intros w; simpl; [tauto|].
  destruct (exec e w) as [x w']. rewrite IH. tauto.
Qed.

Definition wpok {A} (p : prog A) (Q : A -> W -> Prop) (w : W) : Prop :=
  all_ok p w -> wp p Q w.

Lemma wpok_ret {A} (a : A) (Q : A -> W -> Prop) w : Q a w -> wpok (Ret a) Q w.
Proof. intros HQ _. exact HQ. Qed.

Lemma wpok_bind {A B} (p : prog A) (f : A -> prog B) Q w :
  wpok p (fun a w' => wpok (f a) Q w') w -> wpok (bind p f) Q w.
Proof.
  unfold wpok, wp. rewrite all_ok_bind, run_bind. intros H [Hp Hf]. by apply H.
Qed.

Lemma wpok_trigger e (Q : R e -> W -> Prop) w :
  (forall x w', exec e w = (x, w') -> answered e x -> Q x w') -> wpok (trigger e) Q w.
Proof.
  intros HQ. unfold wpok, wp. rewrite run_trigger. unfold trigger. simpl.
  destruct (exec e w) as [x w']. intros [? _]. by apply HQ.
Qed.

Lemma wpok_mono {A} (p : prog A) (Q Q' : A -> W -> Prop) w :
  wpok p Q w -> (forall a w', Q a w' -> Q' a w') -> wpok p Q' w.
Proof. unfold wpok, wp. eauto. Qed.

(** What holds of every run holds of the runs without failures. *)
Lemma wp_wpok {A} (p : prog A) (Q : A -> W -> Prop) w : wp p Q w -> wpok p Q w.
Proof. intros HQ _. exact HQ. Qed.

Lemma wpok_for_range {A} (I : list A -> W -> Prop) (body : A -> prog unit) l w :
  I [] w ->
  (forall pre x post w', l = pre ++ x :: post -> I pre w' ->
     wpok (body x) (fun _ w'' => I (pre ++ [x]) w'') w') ->
  wpok (for_each l body) (fun _ w' => I l w') w.
Proof.
  intros HI Hbody.
  assert (Hgen : forall rest pre w, l = pre ++ rest -> I pre w ->
    wpok (for_each rest body) (fun _ w' => I l w') w).
  { induction rest as [|x rest IH]; intros pre w' Hl Hpre; simpl.
    - apply wpok_ret. by rewrite Hl, app_nil_r.
    - apply wpok_bind. eapply wpok_mono; [by eapply Hbody|].
      intros ? w'' Hw. apply (IH (pre ++ [x])); [by rewrite <- app_assoc|done]. }
  by apply (Hgen l []).
Qed.

Lemma wpok_run {A} (p : prog A) (Q : A -> W -> Prop) w :
  all_ok p w -> wpok p Q w -> Q (run p w).1 (run p w).2.
Proof. intros H HQ. by apply HQ. Qed.

End AllOk.

(** ** Interleavings *)

(** A pool of goroutines and the shared state.  [spawn] says which programs may be started:
    a loop of the source is the unbounded respawning of its body. *)
Inductive pstep (spawn : prog unit -> Prop) :
    list (prog unit) * W -> list (prog unit) * W -> Prop :=
| pstep_effect ts i e k w x w' :
    ts !! i = Some (Vis e k) -> exec e w = (x, w') ->
    pstep spawn (ts, w) (<[i := k x]> ts, w')
| pstep_spawn ts p w :
    spawn p -> pstep spawn (ts, w) (ts ++ [p], w).

(** [safe I Q p]: from every state satisfying [I], each effect of [p] re-establishes [I],
    whatever the other goroutines did in between, as long as they keep [I] too; and the
    answer of [p] satisfies [Q]. *)
Fixpoint safe {A} (I : W -> Prop) (Q : A -> Prop) (p : prog A) : Prop :=
  match p with
  | Ret a => Q a
  | Vis e k => forall w, I w -> let (x, w') := exec e w in I w' /\ safe I Q (k x)
  end.

Lemma safe_ret {A} I (Q : A -> Prop) a : Q a -> safe I Q (Ret a).
Proof. done. Qed.

Lemma safe_bind {A B} I (Q : B -> Prop) (p : prog A) (f : A -> prog B) :
  safe I (fun a => safe I Q (f a)) p -> safe I Q (bind p f).
Proof.
  induction p as [a|e k IH]; simpl; [auto|].
  intros Hp w Hw. specialize (Hp w Hw).
  destruct (exec e w) as [x w']. destruct Hp; split; [done|]. by apply IH.
Qed.

Lemma safe_mono {A} I (Q Q' : A -> Prop) (p : prog A) :
  safe I Q p -> (forall a, Q a -> Q' a) -> safe I Q' p.
Proof.
  intros Hp HQ. induction p as [a|e k IH]; simpl in *; [auto|].
  intros w Hw. specialize (Hp w Hw). destruct (exec e w) as [x w'].
  destruct Hp. split; auto.
Qed.

Lemma safe_trigger I e (Q : R e -> Prop) :
  (forall w x w', I w -> exec e w = (x, w') -> I w' /\ Q x) -> safe I Q (trigger e).
Proof.
  unfold trigger. simpl. intros H w Hw.
  destruct (exec e w) as [x w'] eqn:Hx. by apply (H w).
Qed.

Lemma safe_for_each {A} I (l : list A) body :
  (forall x, x ∈ l -> safe I (fun _ => True) (body x)) ->
  safe I (fun _ => True) (for_each l body).
Proof.
  induction l as [|x l IH]; simpl; intros H; [done|].
  apply safe_bind. eapply safe_mono; [apply H; left|]. intros _ _.
  apply IH. intros; apply H; by right.
Qed.

(** A safe program run alone keeps the invariant. *)
Lemma safe_run {A} I (Q : A -> Prop) (p : prog A) w : safe I Q p -> I w -> I (run p w).2.
Proof.
  revert w. induction p as [a|e k IH]; simpl; intros w Hp Hw; [done|].
  specialize (Hp w Hw). destruct (exec e w) as [x w']. destruct Hp. by apply IH.
Qed.

(** The rule for interleavings: if every goroutine that is running or may be started is
    safe for [I], then [I] holds after any number of interleaved steps. *)
Lemma safe_reachable (I : W -> Prop) (spawn : prog unit -> Prop) ts w ts' w' :
  (forall p, spawn p -> safe I (fun _ => True) p) ->
  Forall (safe I (fun _ => True)) ts -> I w ->
  rtc (pstep spawn) (ts, w) (ts', w') -> I w'.
Proof.
  intros Hspawn Hts Hw Hsteps.
  assert (Hall : Forall (safe I (fun _ => True)) (ts', w').1 /\ I (ts', w').2); [|by destruct Hall].
  revert Hts Hw. change ts with (ts, w).1 at 1. change w with (ts, w).2 at 2.
  induction Hsteps as [|c1 c2 c3 Hstep _ IH]; intros Hts Hw; [done|].
  apply IH.
  - destruct Hstep as [ts1 i e k w1 x w2 Hi Hx|ts1 p w1 Hp]; simpl in *.
    + apply Forall_insert; [done|].
      pose proof (Forall_lookup_1 _ _ _ _ Hts Hi) as Hsafe. simpl in Hsafe.
      specialize (Hsafe w1 Hw). rewrite Hx in Hsafe. by destruct Hsafe.
    + apply Forall_app. auto.
  - destruct Hstep as [ts1 i e k w1 x w2 Hi Hx|ts1 p w1 Hp]; simpl in *; [|done].
    pose proof (Forall_lookup_1 _ _ _ _ Hts Hi) as Hsafe. simpl in Hsafe.
    specialize (Hsafe w1 Hw). rewrite Hx in Hsafe. by destruct Hsafe.
Qed.

End Run.
End Prog.

Arguments prog {E} R A.
Arguments Ret {E R A} a.
Arguments Vis {E R A} e k.
Arguments run {E R W} exec {A} p w : simpl never.
Arguments all_ok {E R W} exec answered {A} p w : simpl never.

Notation "'let*' x ':=' p 'in' q" := (bind p (fun x => q))
  (at level 10, x pattern, p at level 100, q at level 200) : go_scope.
Notation "p ;;; q" := (bind p (fun _ => q))
  (at level 199, right associativity) : go_scope.

(** Turn a goal about the outcome of a run into a [wp] goal; when the answer is not a
    variable, it becomes an equation to introduce. *)
Ltac wp_start Hrun :=
  match type of Hrun with
  | run _ _ _ = (?r, ?w') =>
      first
        [ is_var r; pattern r, w'; refine (wp_run _ _ _ _ _ _ Hrun _); cbv beta; clear Hrun;
          try clear r; try clear w'
        | let x := fresh "r" in let Hx := fresh "Hr" in
          remember r as x eqn:Hx in Hrun; revert Hx; pattern x, w';
          refine (wp_run _ _ _ _ _ _ Hrun _); cbv beta; clear Hrun x;
          try clear w' ]
  end.
