(* ===== verification/Model.v ===== *)
(** * The job model ([internal/model/job.go])

    Job statuses and their transition table, the retry backoff, and the [Job] entity. *)

From S2P Require Import Prelude.

Local Open Scope string_scope.

(** ** Statuses: [type JobStatus string] and its constants *)

Definition JobStatus := string.

Definition StatusPending   : JobStatus := "pending".
Definition StatusScheduled : JobStatus := "scheduled".
Definition StatusRunning   : JobStatus := "running".
Definition StatusCompleted : JobStatus := "completed".
Definition StatusFailed    : JobStatus := "failed".
Definition StatusRetrying  : JobStatus := "retrying".
Definition StatusDead      : JobStatus := "dead".
Definition StatusCancelled : JobStatus := "cancelled".

Definition validStatuses : gmap string bool :=
  list_to_map [(StatusPending, true); (StatusScheduled, true); (StatusRunning, true);
               (StatusCompleted, true); (StatusFailed, true); (StatusRetrying, true);
               (StatusDead, true); (StatusCancelled, true)].

Definition allowedTransitions : gmap string (list JobStatus) :=
  list_to_map
    [(StatusPending,   [StatusRunning; StatusScheduled; StatusCancelled]);
     (StatusScheduled, [StatusRunning; StatusCancelled]);
     (StatusRunning,   [StatusCompleted; StatusFailed; StatusCancelled]);
     (StatusFailed,    [StatusRetrying; StatusDead]);
     (StatusRetrying,  [StatusRunning]);
     (StatusDead,      [StatusPending])].

(** A Go map lookup of an absent key gives the zero value. *)
Definition IsValid (s : JobStatus) : bool := default false (validStatuses !! s).

Definition CanTransitionTo (s target : JobStatus) : bool :=
  (fix loop (l : list JobStatus) : bool :=
     match l with
     | [] => false
     | allowed :: l => if bool_decide (allowed = target) then true else loop l
     end) (default [] (allowedTransitions !! s)).

(** ** Backoff *)

(** Go leaves the conversion of a float outside the range of [int64] to the platform;
    [f2i_out_of_range r] is what it gives for [math.Pow(2, r)], [63 <= r]. *)
Class GoPlatform := {
  f2i_out_of_range : Z -> Z;
  f2i_out_of_range_int64 : forall r, in_int64 (f2i_out_of_range r)
}.

(** [time.Duration(math.Pow(2, float64(r)))]: powers of two are exact floats, a fraction
    truncates to 0. *)
Definition pow2_int64 `{GoPlatform} (r : Z) : Z :=
  if (r <? 0)%Z then 0%Z else if (r <=? 62)%Z then (2 ^ r)%Z else f2i_out_of_range r.

Definition BackoffDuration `{GoPlatform} (retryCount : Z) : Duration :=
  wrap64 (pow2_int64 retryCount * Second).

(** ** Jobs *)

(** [uuid.UUID] is [[16]byte]: a 128-bit number. *)
Record UUID := MkUUID { uuid_bits : N; uuid_range : Is_true (uuid_bits <? 2^128)%N }.

Lemma UUID_eq (u v : UUID) : uuid_bits u = uuid_bits v -> u = v.
Proof.
  destruct u as [a Ha], v as [b Hb]. simpl. intros ->. f_equal. apply proof_irrel.
Qed.

#[global] Instance UUID_eq_dec : EqDecision UUID.
Proof.
  intros u v. destruct (decide (uuid_bits u = uuid_bits v)) as [H|H].
  - left. by apply UUID_eq.
  - right. congruence.
Defined.

(** The identifier with the low 128 bits of [n]. *)
Lemma uuid_of_N_range n : Is_true (n `mod` 2^128 <? 2^128)%N.
Proof. apply Is_true_true, N.ltb_lt, N.mod_lt. done. Qed.

Definition uuid_of_N (n : N) : UUID := MkUUID (n `mod` 2^128) (uuid_of_N_range n).

#[global] Instance UUID_countable : Countable UUID.
Proof.
  refine (inj_countable' uuid_bits uuid_of_N _).
  intros [n Hn]. apply UUID_eq. simpl.
  apply N.mod_small, N.ltb_lt, Is_true_true, Hn.
Defined.

Record Job := mkJob {
  ID          : UUID;
  Queue       : string;
  JobType     : string;
  Payload     : string;
  Status      : JobStatus;
  MaxRetries  : Z;
  RetryCount  : Z;
  RunAt       : option Time;
  StartedAt   : option Time;
  CompletedAt : option Time;
  JobError    : string;
  CreatedAt   : Time;
  UpdatedAt   : Time
}.

#[global] Instance Job_eq_dec : EqDecision Job.
Proof. solve_decision. Defined.

(** ** The specification of the state machine

    The eight statuses as a type, and the transitions the README draws. *)
Module StateMachine.

Inductive St :=
| Pending | Scheduled | Running | Completed | Failed | Retrying | Dead | Cancelled.

#[global] Instance St_eq_dec : EqDecision St.
Proof. solve_decision. Defined.

Definition name (s : St) : JobStatus :=
  match s with
  | Pending => StatusPending | Scheduled => StatusScheduled | Running => StatusRunning
  | Completed => StatusCompleted | Failed => StatusFailed | Retrying => StatusRetrying
  | Dead => StatusDead | Cancelled => StatusCancelled
  end.

Inductive trans : St -> St -> Prop :=
| pending_running : trans Pending Running
| pending_scheduled : trans Pending Scheduled
| pending_cancelled : trans Pending Cancelled
| scheduled_running : trans Scheduled Running
| scheduled_cancelled : trans Scheduled Cancelled
| running_completed : trans Running Completed
| running_failed : trans Running Failed
| running_cancelled : trans Running Cancelled
| failed_retrying : trans Failed Retrying
| failed_dead : trans Failed Dead
| retrying_running : trans Retrying Running
| dead_pending : trans Dead Pending.

#[global] Instance name_inj : Inj (=) (=) name.
Proof. by intros [] [] ?. Qed.

End StateMachine.

Import StateMachine.

Lemma IsValid_name s : IsValid (name s) = true.
Proof. by destruct s. Qed.

Lemma IsValid_inv s : IsValid s = true -> exists st, s = name st.
Proof.
  unfold IsValid. destruct (validStatuses !! s) as [b|] eqn:Hs; [intros _|done].
  apply elem_of_list_to_map_2 in Hs.
  repeat (apply elem_of_cons in Hs as [Hs|Hs];
          [injection Hs as -> _; first [by exists Pending|by exists Scheduled|by exists Running
            |by exists Completed|by exists Failed|by exists Retrying|by exists Dead
            |by exists Cancelled]|]).
  by apply elem_of_nil in Hs.
Qed.

(** The loop of [CanTransitionTo] is a membership test. *)
Lemma CanTransitionTo_elem s t :
  CanTransitionTo s t = true <-> t ∈ default [] (allowedTransitions !! s).
Proof.
  unfold CanTransitionTo. generalize (default [] (allowedTransitions !! s)).
  induction l as [|a l IH]; [by rewrite elem_of_nil|].
  rewrite elem_of_cons, <- IH. case_bool_decide; [split; [by left|done]|].
  split; [by right|]. by intros [-> |].
Qed.

(** Conclude with a given transition of the state machine. *)
Ltac by_trans c := solve [do 2 eexists; split_and!; [..|exact c]; reflexivity].

(** (C28) [IsValid] accepts exactly the eight statuses, and on them [CanTransitionTo] decides
    exactly the transitions of the state machine; an unknown status has no successor and no
    transition leads to one. *)
Theorem transition_table_refines_state_machine s t :
  (IsValid s = true <-> exists st, s = name st) /\
  (CanTransitionTo s t = true <->
     exists a b, s = name a /\ t = name b /\ trans a b).
Proof.
  split; [split; [apply IsValid_inv|intros [st ->]; apply IsValid_name]|].
  rewrite CanTransitionTo_elem. split.
  - destruct (allowedTransitions !! s) as [l|] eqn:Hs; simpl; [|by rewrite elem_of_nil].
    apply elem_of_list_to_map_2 in Hs. rewrite !elem_of_cons, elem_of_nil in Hs.
    destruct_or!; simplify_eq; rewrite ?elem_of_cons, ?elem_of_nil; intros;
      destruct_or!; subst; try done;
      first [by_trans pending_running|by_trans pending_scheduled|by_trans pending_cancelled
            |by_trans scheduled_running|by_trans scheduled_cancelled
            |by_trans running_completed|by_trans running_failed|by_trans running_cancelled
            |by_trans failed_retrying|by_trans failed_dead|by_trans retrying_running
            |by_trans dead_pending].
  - intros (a & b & -> & -> & Htr). apply CanTransitionTo_elem. by destruct Htr.
Qed.

(** A job that is completed or cancelled has no successor in the table; every other status
    has one. *)
Theorem terminal_statuses st :
  (forall t, CanTransitionTo (name st) t = false) <-> st = Completed \/ st = Cancelled.
Proof.
  split.
  - intros H. destruct st; auto;
      [specialize (H StatusRunning)|specialize (H StatusRunning)|specialize (H StatusFailed)
      |specialize (H StatusDead)|specialize (H StatusRunning)|specialize (H StatusPending)];
      done.
  - by intros [-> | ->] t.
Qed.

(** ** Backoff *)

Section Backoff.
Context `{GoPlatform}.

(** (C29) Up to 33 retries the delay is exactly [2^retryCount] seconds, as the comment on
    [BackoffDuration] says, and from one retry to the next it doubles. *)
Theorem BackoffDuration_exact r :
  (0 <= r <= 33)%Z ->
  BackoffDuration r = (2 ^ r * Second)%Z /\ (0 < BackoffDuration r)%Z /\
  ((r < 33)%Z -> BackoffDuration (r + 1) = (2 * BackoffDuration r)%Z).
Proof.
  assert (Hexact : forall r, (0 <= r <= 33)%Z -> BackoffDuration r = (2 ^ r * Second)%Z).
  { intros q Hq. unfold BackoffDuration, pow2_int64.
    rewrite (proj2 (Z.ltb_ge _ _)), (proj2 (Z.leb_le _ _)) by lia.
    apply wrap64_id. unfold in_int64, Second.
    pose proof (Z.pow_le_mono_r 2 q 33). pose proof (Z.pow_pos_nonneg 2 q). lia. }
  intros Hr. rewrite Hexact by done. unfold Second. split; [done|split].
  - pose proof (Z.pow_pos_nonneg 2 r). lia.
  - intros Hlt. rewrite Hexact, Z.pow_add_r by lia. unfold Second. lia.
Qed.

(** From 34 retries on the product overflows [int64]: the delay is then never
    [2^retryCount] seconds, at 34 it is negative, and from 55 retries to 62 it is zero. *)
Theorem BackoffDuration_overflow r :
  (34 <= r)%Z ->
  BackoffDuration r <> (2 ^ r * Second)%Z /\
  (BackoffDuration 34 < 0)%Z /\
  ((55 <= r <= 62)%Z -> BackoffDuration r = 0%Z).
Proof.
  intros Hr. split; [|split].
  - pose proof (wrap64_range (pow2_int64 r * Second)) as Hw. unfold in_int64 in Hw.
    unfold BackoffDuration, Second in *. pose proof (Z.pow_le_mono_r 2 34 r). lia.
  - vm_compute. done.
  - intros Hr'. unfold BackoffDuration, pow2_int64.
    rewrite (proj2 (Z.ltb_ge _ _)), (proj2 (Z.leb_le _ _)) by lia.
    replace (2 ^ r * Second)%Z with (2 ^ (r - 55) * 1953125 * 2 ^ 64)%Z;
      [apply wrap64_multiple|].
    replace r with (r - 55 + 55)%Z at 2 by lia. rewrite Z.pow_add_r by lia.
    unfold Second. lia.
Qed.

End Backoff.
