(* ===== verification/Services.v ===== *)
(** * The services the program talks to

    PostgreSQL, Redis, the clock, the random source and [google/uuid] are not part of the
    sources.  Each is a class: the operations the program calls, on a state it does not look
    into, and the documented behaviour the program relies on, stated on what a client can
    observe (the rows of [jobs]; the lists and sorted sets of Redis).  A call may fail at any
    moment; a failed write may or may not have been applied, never half of it.  [Sim.v] has
    an instance of every class.

    The SQL statements and the Lua script are source code: [Storage.v] and [Queue.v]
    translate them into the statement forms below. *)

From S2P Require Import Prelude Prog Model.

(** ** google/uuid *)

Class UuidLib := {
  uuid_Parse : string -> option UUID;
  uuid_String : UUID -> string;
  uuid_Parse_String : forall u, uuid_Parse (uuid_String u) = Some u;
  uuid_String_nonempty : forall u, uuid_String u <> EmptyString
}.

#[global] Instance uuid_String_inj `{UuidLib} : Inj (=) (=) uuid_String.
Proof. intros u v Huv. apply (inj Some). by rewrite <- !uuid_Parse_String, Huv. Qed.

(** ** PostgreSQL *)

Abbreviation Table := (gmap UUID Job).

(** How values are stored: [TIMESTAMPTZ] keeps microseconds, [JSONB] a normal form of the
    document, [date_trunc] rounds down. *)
Class PgTypes := {
  pg_ts : Time -> Time;
  pg_ts_resolution : forall t, (0 <= t - pg_ts t < 1000)%Z;
  pg_ts_mono : forall t u, (t <= u)%Z -> (pg_ts t <= pg_ts u)%Z;
  pg_jsonb : string -> string;
  pg_jsonb_idem : forall s, pg_jsonb (pg_jsonb s) = pg_jsonb s;
  pg_date_trunc : string -> Time -> Time;
  pg_date_trunc_le : forall f t, (pg_date_trunc f t <= t)%Z
}.

Inductive OrderBy := CREATED_AT_DESC | CREATED_AT_ASC | STARTED_AT_ASC.

(** [NULL]s sort last in ascending order. *)
Definition order_le (o : OrderBy) (a b : Job) : Prop :=
  match o with
  | CREATED_AT_DESC => (CreatedAt b <= CreatedAt a)%Z
  | CREATED_AT_ASC => (CreatedAt a <= CreatedAt b)%Z
  | STARTED_AT_ASC =>
      match StartedAt a, StartedAt b with
      | Some x, Some y => (x <= y)%Z
      | None, Some _ => False
      | _, None => True
      end
  end.

(** The statement forms; a [set] and a [cond] may refer to the server's [now()]. *)
Inductive PgStmt :=
| INSERT_jobs (queue type payload : string) (status : JobStatus)
    (max_retries retry_count : Z) (run_at : option Time)
| SELECT_jobs (cond : Job -> bool) (order : option OrderBy) (limit_offset : option (Z * Z))
| COUNT_jobs (cond : Job -> bool)
| UPDATE_jobs (set : Time -> Job -> Job) (cond : Job -> bool)
| DELETE_jobs (cond : Job -> bool)
| GROUP_queue_status (cond : Job -> bool) (by_queue : bool)
| GROUP_bucket_status (field : string) (cond : Time -> Job -> bool).

(** What iterating over [pgx.Rows] gives: the outcome of each [Scan], then [rows.Err()]. *)
Record Rows (A : Type) := MkRows { rows_read : list (result A); rows_err : option string }.

Arguments MkRows {A} rows_read rows_err.
Arguments rows_read {A} r.
Arguments rows_err {A} r.

Definition pg_resp (s : PgStmt) : Type :=
  match s with
  | INSERT_jobs _ _ _ _ _ _ _ => result Job
  | SELECT_jobs _ _ _ => result (Rows Job)
  | COUNT_jobs _ | UPDATE_jobs _ _ | DELETE_jobs _ => result Z
  | GROUP_queue_status _ _ => result (Rows (string * string * Z))
  | GROUP_bucket_status _ _ => result (Rows (Time * string * Z))
  end.

(** The rows of the table, in no particular order. *)
Definition rows_of (t : Table) : list Job := (map_to_list t).*2.

Lemma elem_of_rows_of t j : j ∈ rows_of t <-> exists id, t !! id = Some j.
Proof.
  unfold rows_of. rewrite list_elem_of_fmap. split.
  - intros ([id j'] & -> & Hin). exists id. by apply elem_of_map_to_list.
  - intros [id Hid]. exists (id, j). split; [done|]. by apply elem_of_map_to_list.
Qed.

(** The answer [page] as it arrives: complete, cut by a connection error that only
    [rows.Err()] reports, or cut by a row that does not scan. *)
Inductive delivered {A} (page : list A) : Rows A -> Prop :=
| delivered_all : delivered page (MkRows (Ok <$> page) None)
| delivered_cut p e : p `prefix_of` page -> delivered page (MkRows (Ok <$> p) (Some e))
| delivered_scan p e oe :
    p `prefix_of` page -> delivered page (MkRows ((Ok <$> p) ++ [Err e]) oe).

(** The rows matching [cond], ordered (ties in any order), [LIMIT]ed. *)
Definition selects (cond : Job -> bool) (order : option OrderBy) (lo : option (Z * Z))
    (t : Table) (page : list Job) : Prop :=
  exists l, l ≡ₚ filter (fun j => cond j = true) (rows_of t) /\
    (forall o, order = Some o -> StronglySorted (order_le o) l) /\
    page = match lo with None => l | Some (lim, off) => slice off lim l end.

(** [GROUP BY key]: one entry per key present, with its number of rows. *)
Definition groups {K} `{EqDecision K} (key : Job -> K) (jobs : list Job)
    (gs : list (K * Z)) : Prop :=
  NoDup gs.*1 /\
  forall k c, (k, c) ∈ gs <->
    c = Z.of_nat (length (filter (fun j => key j = k) jobs)) /\ (0 < c)%Z.

(** [ORDER BY bucket]. *)
Definition bucket_le (a b : Time * string * Z) : Prop := (a.1.1 <= b.1.1)%Z.

Section PgSpec.
Context `{PgTypes}.

Definition new_row (id : UUID) (now : Time) (q ty pl : string) (st : JobStatus)
    (mr rc : Z) (ra : option Time) : Job :=
  {| ID := id; Queue := q; JobType := ty; Payload := pg_jsonb pl; Status := st;
     MaxRetries := mr; RetryCount := rc; RunAt := pg_ts <$> ra; StartedAt := None;
     CompletedAt := None; JobError := EmptyString; CreatedAt := now; UpdatedAt := now |}.

(** [INT] columns: a value outside 32 bits is refused. *)
Definition row_fits (j : Job) : Prop := in_int32 (MaxRetries j) /\ in_int32 (RetryCount j).

Definition sql_update (set : Time -> Job -> Job) (cond : Job -> bool) (now : Time)
    (t : Table) : Table :=
  (fun j => if cond j then set now j else j) <$> t.

Definition sql_delete (cond : Job -> bool) (t : Table) : Table :=
  filter (fun p => cond p.2 = false) t.

Definition matching (cond : Job -> bool) (t : Table) : Z :=
  Z.of_nat (length (filter (fun j => cond j = true) (rows_of t))).

(** [commits eff ok t r t']: an auto-committed write.  On success the effect is applied; on
    failure it is applied or not. *)
Definition commits {A} (eff : Table -> A -> Table -> Prop) (t : Table) (r : result A)
    (t' : Table) : Prop :=
  match r with
  | Ok a => eff t a t'
  | Err _ => t' = t \/ exists a, eff t a t'
  end.

Definition inserts (q ty pl : string) (st : JobStatus) (mr rc : Z) (ra : option Time)
    (t : Table) (j : Job) (t' : Table) : Prop :=
  exists id now, t !! id = None /\ j = new_row id now q ty pl st mr rc ra /\
    row_fits j /\ t' = <[id := j]> t.

Definition updates (set : Time -> Job -> Job) (cond : Job -> bool)
    (t : Table) (n : Z) (t' : Table) : Prop :=
  exists now, n = matching cond t /\ t' = sql_update set cond now t /\
    (forall id j, t !! id = Some j -> cond j = true -> row_fits (set now j)).

Definition deletes (cond : Job -> bool) (t : Table) (n : Z) (t' : Table) : Prop :=
  n = matching cond t /\ t' = sql_delete cond t.

(** What each statement does to the table and answers when the server's clock says [now].
    (Of the times that writes store nothing is relied on but that they are there.) *)
Definition pg_spec (s : PgStmt) (now : Time) (t : Table) : pg_resp s -> Table -> Prop :=
  match s return pg_resp s -> Table -> Prop with
  | INSERT_jobs q ty pl st mr rc ra => commits (inserts q ty pl st mr rc ra) t
  | SELECT_jobs cond order lo => fun r t' =>
      t' = t /\ forall rs, r = Ok rs ->
        (forall lim off, lo = Some (lim, off) -> (0 <= lim /\ 0 <= off)%Z) /\
        exists page, selects cond order lo t page /\ delivered page rs
  | COUNT_jobs cond => fun r t' =>
      t' = t /\ forall n, r = Ok n -> n = matching cond t
  | UPDATE_jobs set cond => commits (updates set cond) t
  | DELETE_jobs cond => commits (deletes cond) t
  | GROUP_queue_status cond by_queue => fun r t' =>
      t' = t /\ forall rs, r = Ok rs ->
        exists gs, groups (fun j => (Queue j, Status j))
                     (filter (fun j => cond j = true) (rows_of t)) gs /\ delivered gs rs
  | GROUP_bucket_status field cond => fun r t' =>
      t' = t /\ forall rs, r = Ok rs ->
        exists gs,
          groups (fun j => (pg_date_trunc field (UpdatedAt j), Status j))
            (filter (fun j => cond now j = true) (rows_of t)) gs /\
          StronglySorted bucket_le gs /\ delivered gs rs
  end.

End PgSpec.

Class Postgres `{PgTypes} := {
  pg_state : Type;
  pg_table : pg_state -> Table;
  pg_now : pg_state -> Time;
  pg_run : forall s : PgStmt, pg_state -> pg_resp s * pg_state;
  pg_law : forall s st r st', pg_run s st = (r, st') ->
    pg_spec s (pg_now st) (pg_table st) r (pg_table st')
}.

(** ** Redis *)

Record RdData := MkRd {
  rd_lists : gmap string (list string);
  rd_zsets : gmap string (gmap string Z)
}.

(** An absent key is an empty list or set. *)
Definition rd_list (d : RdData) (k : string) : list string := default [] (rd_lists d !! k).
Definition rd_zset (d : RdData) (k : string) : gmap string Z := default ∅ (rd_zsets d !! k).

Definition set_list (k : string) (l : list string) (d : RdData) : RdData :=
  MkRd (<[k := l]> (rd_lists d)) (rd_zsets d).
Definition set_zset (k : string) (z : gmap string Z) (d : RdData) : RdData :=
  MkRd (rd_lists d) (<[k := z]> (rd_zsets d)).

(** The commands a Lua script may [redis.call]; both bounds are [-inf] and [max]. *)
Inductive RedisCall :=
| ZRANGEBYSCORE (key : string) (max : Z)
| ZREMRANGEBYSCORE (key : string) (max : Z).

Definition call_resp (c : RedisCall) : Type :=
  match c with ZRANGEBYSCORE _ _ => list string | ZREMRANGEBYSCORE _ _ => Z end.

Abbreviation Lua := (prog call_resp).

Definition due (max : Z) (z : gmap string Z) : gmap string Z :=
  filter (fun p => (p.2 <= max)%Z) z.
Definition not_due (max : Z) (z : gmap string Z) : gmap string Z :=
  filter (fun p => ~ (p.2 <= max)%Z) z.

Definition call_spec (c : RedisCall) (d : RdData) : call_resp c -> RdData -> Prop :=
  match c return call_resp c -> RdData -> Prop with
  | ZRANGEBYSCORE k max => fun ms d' =>
      d' = d /\ ms ≡ₚ (map_to_list (due max (rd_zset d k))).*1 /\
      StronglySorted (fun a b => forall x y, rd_zset d k !! a = Some x ->
        rd_zset d k !! b = Some y -> (x <= y)%Z) ms
  | ZREMRANGEBYSCORE k max => fun n d' =>
      d' = set_zset k (not_due max (rd_zset d k)) d /\
      n = Z.of_nat (size (due max (rd_zset d k)))
  end.

(** A script runs to its end with nothing in between. *)
Fixpoint lua_spec {A} (p : Lua A) (d : RdData) (a : A) (d' : RdData) : Prop :=
  match p with
  | Ret x => a = x /\ d' = d
  | Vis c k => exists x d1, call_spec c d x d1 /\ lua_spec (k x) d1 a d'
  end.

(** [EVAL] runs a script that returns a table: the answer is never [nil]. *)
Inductive RdCmd :=
| LPUSH (key value : string)
| BRPOP (keys : list string) (timeout : Duration)
| LLEN (key : string)
| ZADD (key : string) (score : Z) (member : string)
| EVAL (script : Lua (list string))
| PUBLISH (channel message : string).

(** go-redis answers a value, the sentinel [redis.Nil], or another error. *)
Inductive reply (A : Type) : Type :=
| RVal (a : A)
| RNil
| RErr (e : string).

Arguments RVal {A} a.
Arguments RNil {A}.
Arguments RErr {A} e.

Definition rd_resp (c : RdCmd) : Type :=
  match c with
  | LPUSH _ _ | LLEN _ | ZADD _ _ _ | PUBLISH _ _ => reply Z
  | BRPOP _ _ => reply (string * string)
  | EVAL _ => reply (list string)
  end.

(** [BRPOP]: the last element of the first non-empty list, in the order of the keys. *)
Inductive pops (d : RdData) : list string -> string * string -> RdData -> Prop :=
| pops_here k ks l v :
    rd_list d k = l ++ [v] -> pops d (k :: ks) (k, v) (set_list k l d)
| pops_next k ks kv d' :
    rd_list d k = [] -> pops d ks kv d' -> pops d (k :: ks) kv d'.

Definition rd_commits {A} (eff : A -> RdData -> Prop) (d : RdData) (r : reply A)
    (d' : RdData) : Prop :=
  match r with
  | RVal a => eff a d'
  | RNil => d' = d
  | RErr _ => d' = d \/ exists a, eff a d'
  end.

Definition pushes (k v : string) (d : RdData) (n : Z) (d' : RdData) : Prop :=
  d' = set_list k (v :: rd_list d k) d /\ n = Z.of_nat (S (length (rd_list d k))).

Definition zadds (k : string) (score : Z) (m : string) (d : RdData) (n : Z)
    (d' : RdData) : Prop :=
  d' = set_zset k (<[m := score]> (rd_zset d k)) d /\
  n = (if decide (is_Some (rd_zset d k !! m)) then 0 else 1)%Z.

Definition rd_spec (c : RdCmd) (d : RdData) : rd_resp c -> RdData -> Prop :=
  match c return rd_resp c -> RdData -> Prop with
  | LPUSH k v => fun r d' => r <> RNil /\ rd_commits (pushes k v d) d r d'
  | BRPOP ks _ => fun r d' =>
      rd_commits (pops d ks) d r d' /\
      (r = RNil -> Forall (fun k => rd_list d k = []) ks)
  | LLEN k => fun r d' =>
      d' = d /\ r <> RNil /\ forall n, r = RVal n -> n = Z.of_nat (length (rd_list d k))
  | ZADD k score m => fun r d' => r <> RNil /\ rd_commits (zadds k score m d) d r d'
  | EVAL script => fun r d' => r <> RNil /\ rd_commits (lua_spec script d) d r d'
  | PUBLISH _ _ => fun r d' => d' = d /\ r <> RNil
  end.

Class Redis := {
  rd_state : Type;
  rd_data : rd_state -> RdData;
  rd_run : forall c : RdCmd, rd_state -> rd_resp c * rd_state;
  rd_law : forall c st r st', rd_run c st = (r, st') ->
    rd_spec c (rd_data st) r (rd_data st')
}.

(** ** The host: clock and random source *)

Class Host := {
  host_state : Type;
  host_now : host_state -> Time * host_state;
  host_sleep : Duration -> host_state -> host_state;
  host_Intn : Z -> host_state -> Z * host_state;
  host_Intn_range : forall n h, (0 < n)%Z -> (0 <= (host_Intn n h).1 < n)%Z
}.

(** ** Effects *)

(** Calls on Prometheus metrics are kept as a trace. *)
Inductive MetricOp :=
| MInc (name : string) (labels : list string)
| MDec (name : string) (labels : list string)
| MSet (name : string) (labels : list string) (v : Z)
| MObserve (name : string) (labels : list string) (v : Duration).

#[global] Instance MetricOp_eq_dec : EqDecision MetricOp.
Proof. solve_decision. Defined.

Inductive Eff :=
| EPg (s : PgStmt)
| ERd (c : RdCmd)
| ENow
| ESleep (d : Duration)
| EIntn (n : Z)
| EMetric (m : MetricOp).

Definition eff_resp (e : Eff) : Type :=
  match e with
  | EPg s => pg_resp s
  | ERd c => rd_resp c
  | ENow | EIntn _ => Z
  | ESleep _ | EMetric _ => unit
  end.

Abbreviation go := (prog eff_resp).

Definition pg (s : PgStmt) : go (pg_resp s) := trigger (EPg s).
Definition rd (c : RdCmd) : go (rd_resp c) := trigger (ERd c).
Definition Now : go Time := trigger ENow.
Definition Sleep (d : Duration) : go unit := trigger (ESleep d).
Definition Intn (n : Z) : go Z := trigger (EIntn n).
Definition metric (m : MetricOp) : go unit := trigger (EMetric m).

Section World.
Context `{PG : Postgres} `{RD : Redis} `{HO : Host}.

Record World := MkWorld {
  w_pg : pg_state;
  w_rd : rd_state;
  w_host : host_state;
  w_metrics : list MetricOp
}.

Definition tbl (w : World) : Table := pg_table (w_pg w).
Definition rdd (w : World) : RdData := rd_data (w_rd w).
Definition db_now (w : World) : Time := pg_now (w_pg w).

Definition exec (e : Eff) (w : World) : eff_resp e * World :=
  match e return eff_resp e * World with
  | EPg s => let (r, p) := pg_run s (w_pg w) in
      (r, MkWorld p (w_rd w) (w_host w) (w_metrics w))
  | ERd c => let (r, d) := rd_run c (w_rd w) in
      (r, MkWorld (w_pg w) d (w_host w) (w_metrics w))
  | ENow => let (t, h) := host_now (w_host w) in
      (t, MkWorld (w_pg w) (w_rd w) h (w_metrics w))
  | ESleep d => (tt, MkWorld (w_pg w) (w_rd w) (host_sleep d (w_host w)) (w_metrics w))
  | EIntn n => let (t, h) := host_Intn n (w_host w) in
      (t, MkWorld (w_pg w) (w_rd w) h (w_metrics w))
  | EMetric m => (tt, MkWorld (w_pg w) (w_rd w) (w_host w) (w_metrics w ++ [m]))
  end.

(** The proof rules: an effect changes one part of the world, as its service promises. *)
Lemma wp_pg s (Q : pg_resp s -> World -> Prop) w :
  (forall r w', pg_spec s (db_now w) (tbl w) r (tbl w') -> rdd w' = rdd w ->
     w_metrics w' = w_metrics w -> Q r w') ->
  wp exec (pg s) Q w.
Proof.
  intros HQ. refine (wp_trigger exec (EPg s) Q w _). intros r w' He. simpl in He.
  destruct (pg_run s (w_pg w)) as [r0 p] eqn:Hp. injection He as <- <-.
  apply HQ; [|done..]. by apply pg_law in Hp.
Qed.

Lemma wp_rd c (Q : rd_resp c -> World -> Prop) w :
  (forall r w', rd_spec c (rdd w) r (rdd w') -> tbl w' = tbl w ->
     w_metrics w' = w_metrics w -> Q r w') ->
  wp exec (rd c) Q w.
Proof.
  intros HQ. refine (wp_trigger exec (ERd c) Q w _). intros r w' He. simpl in He.
  destruct (rd_run c (w_rd w)) as [r0 d] eqn:Hd. injection He as <- <-.
  apply HQ; [|done..]. by apply rd_law in Hd.
Qed.

(** [same w w']: the services' data and the metrics are as before. *)
Definition same (w w' : World) : Prop :=
  tbl w' = tbl w /\ rdd w' = rdd w /\ w_metrics w' = w_metrics w.

Lemma wp_Now (Q : Time -> World -> Prop) w :
  (forall t w', same w w' -> Q t w') -> wp exec Now Q w.
Proof.
  intros HQ. refine (wp_trigger exec (ENow) Q w _). intros r w' He. simpl in He.
  destruct (host_now (w_host w)). injection He as <- <-. by apply HQ.
Qed.

(** What the clock says next. *)
Definition clock (w : World) : Time := (host_now (w_host w)).1.

Lemma wp_clock (Q : Time -> World -> Prop) w :
  (forall w', same w w' -> Q (clock w) w') -> wp exec Now Q w.
Proof.
  intros HQ. refine (wp_trigger exec (ENow) Q w _). intros r w' He. simpl in He.
  unfold clock in HQ. destruct (host_now (w_host w)). injection He as <- <-. by apply HQ.
Qed.

(** How the host moves on, and what its clock said at some moment between two worlds. *)
Definition ticks (h h' : host_state) : Prop :=
  (exists t, host_now h = (t, h')) \/ (exists d, h' = host_sleep d h) \/
  (exists n z, host_Intn n h = (z, h')).

Definition later (w w' : World) : Prop := rtc ticks (w_host w) (w_host w').

Definition read_between (w w' : World) (now : Time) : Prop :=
  exists h1 h2, rtc ticks (w_host w) h1 /\ host_now h1 = (now, h2) /\
    rtc ticks h2 (w_host w').

#[global] Instance later_preorder : PreOrder later.
Proof. unfold later. split; [intros w; done|intros w1 w2 w3 H1 H2; by etrans]. Qed.

Lemma run_later {A} (p : go A) w : later w (run exec p w).2.
Proof.
  apply (effects_run exec (fun _ => True) later).
  - done.
  - intros w1 w2 w3. apply transitivity.
  - intros e w1 _. unfold later, ticks. destruct e as [s|c| |d|n|m]; simpl.
    + by destruct (pg_run s (w_pg w1)).
    + by destruct (rd_run c (w_rd w1)).
    + destruct (host_now (w_host w1)) eqn:?. apply rtc_once. simpl. eauto.
    + apply rtc_once. eauto.
    + destruct (host_Intn n (w_host w1)) eqn:?. apply rtc_once. simpl. eauto.
    + done.
  - induction p; simpl; auto.
Qed.

Lemma read_between_later w0 w w' w1 now :
  later w0 w -> later w' w1 -> read_between w w' now -> read_between w0 w1 now.
Proof.
  intros H0 H1 (h1 & h2 & Ha & Hn & Hb). exists h1, h2.
  split_and!; [by etrans|done|by etrans].
Qed.

Lemma wp_reading (Q : Time -> World -> Prop) w :
  (forall t w', same w w' -> read_between w w' t -> Q t w') -> wp exec Now Q w.
Proof.
  intros HQ. refine (wp_trigger exec ENow Q w _). intros r w' He. simpl in He.
  destruct (host_now (w_host w)) as [t h] eqn:Hn. injection He as <- <-. apply HQ; [done|].
  exists (w_host w), h. done.
Qed.

Lemma wp_Sleep d (Q : unit -> World -> Prop) w :
  (forall w', same w w' -> Q tt w') -> wp exec (Sleep d) Q w.
Proof. intros HQ. refine (wp_trigger exec (ESleep d) Q w _). intros r w' [= <- <-]. by apply HQ. Qed.

Lemma wp_Intn n (Q : Z -> World -> Prop) w :
  (forall z w', ((0 < n)%Z -> (0 <= z < n)%Z) -> same w w' -> Q z w') ->
  wp exec (Intn n) Q w.
Proof.
  intros HQ. refine (wp_trigger exec (EIntn n) Q w _). intros r w' He. simpl in He.
  pose proof (host_Intn_range n (w_host w)).
  destruct (host_Intn n (w_host w)). injection He as <- <-. by apply HQ.
Qed.

Lemma wp_metric m (Q : unit -> World -> Prop) w :
  (forall w', tbl w' = tbl w -> rdd w' = rdd w -> w_metrics w' = w_metrics w ++ [m] ->
     Q tt w') -> wp exec (metric m) Q w.
Proof. intros HQ. refine (wp_trigger exec (EMetric m) Q w _). intros r w' [= <- <-]. by apply HQ. Qed.

(** The same rules for interleavings: an invariant of the table and of the Redis data. *)
Definition on_data (P : Table -> RdData -> Prop) (w : World) : Prop := P (tbl w) (rdd w).

Lemma safe_pg P s (Q : pg_resp s -> Prop) :
  (forall now t d r t', P t d -> pg_spec s now t r t' -> P t' d /\ Q r) ->
  safe exec (on_data P) Q (pg s).
Proof.
  intros HQ. apply (safe_trigger exec _ (EPg s)). intros w x w' Hw He. simpl in He.
  destruct (pg_run s (w_pg w)) as [r p] eqn:Hp. injection He as <- <-.
  apply pg_law in Hp. by eapply HQ; [exact Hw|].
Qed.

Lemma safe_rd P c (Q : rd_resp c -> Prop) :
  (forall t d r d', P t d -> rd_spec c d r d' -> P t d' /\ Q r) ->
  safe exec (on_data P) Q (rd c).
Proof.
  intros HQ. apply (safe_trigger exec _ (ERd c)). intros w x w' Hw He. simpl in He.
  destruct (rd_run c (w_rd w)) as [r p] eqn:Hp. injection He as <- <-.
  apply rd_law in Hp. by apply (HQ _ _ _ _ Hw).
Qed.

End World.

(** Programs that use only the clock and the random source. *)
Definition quiet (e : Eff) : Prop :=
  match e with ENow | ESleep _ | EIntn _ => True | _ => False end.

Lemma wp_quiet `{PG : Postgres} `{RD : Redis} `{HO : Host} {A} (p : go A)
    (Q : A -> World -> Prop) w :
  effects quiet p -> (forall a w', same w w' -> Q a w') -> wp exec p Q w.
Proof.
  intros Hp HQ. apply HQ. eapply (effects_run exec quiet same); [..|exact Hp].
  - done.
  - intros w1 w2 w3 (? & ? & ?) (? & ? & ?). split_and!; congruence.
  - intros [] w' He; try done; simpl; by repeat case_match.
Qed.

(** Effects that touch neither the table nor Redis. *)
Definition calm (e : Eff) : Prop :=
  match e with ENow | ESleep _ | EIntn _ | EMetric _ => True | _ => False end.

Lemma safe_calm `{PG : Postgres} `{RD : Redis} `{HO : Host} {A} P (p : go A) :
  effects calm p -> safe exec (on_data P) (fun _ => True) p.
Proof.
  induction p as [a|e k IH]; simpl; [done|]. intros [He Hk] w Hw.
  destruct (exec e w) as [x w'] eqn:Hx. split; [|by apply IH].
  destruct e; simpl in Hx; try done; repeat case_match; by injection Hx as <- <-.
Qed.

(** A service call that did not fail: the write is acknowledged, the rows arrive complete. *)
Definition streamed {A} (r : result (Rows A)) : Prop :=
  exists l, r = Ok (MkRows (Ok <$> l) None).

Definition answered (e : Eff) : eff_resp e -> Prop :=
  match e return eff_resp e -> Prop with
  | EPg s =>
      match s return pg_resp s -> Prop with
      | INSERT_jobs _ _ _ _ _ _ _ => fun r => is_ok r = true
      | SELECT_jobs _ _ _ => streamed
      | COUNT_jobs _ | UPDATE_jobs _ _ | DELETE_jobs _ => fun r => is_ok r = true
      | GROUP_queue_status _ _ => streamed
      | GROUP_bucket_status _ _ => streamed
      end
  | ERd c =>
      match c return rd_resp c -> Prop with
      | LPUSH _ _ | LLEN _ | ZADD _ _ _ | PUBLISH _ _ => fun r => forall e, r <> RErr e
      | BRPOP _ _ => fun r => forall e, r <> RErr e
      | EVAL _ => fun r => forall e, r <> RErr e
      end
  | _ => fun _ => True
  end.

Definition streamedb {A} (r : result (Rows A)) : bool :=
  match r with
  | Ok rs => bool_decide (rows_err rs = None) && forallb is_ok (rows_read rs)
  | Err _ => false
  end.

Lemma streamedb_true {A} (r : result (Rows A)) : streamedb r = true -> streamed r.
Proof.
  destruct r as [[rows err]|]; simpl; [|done].
  intros [Herr%bool_decide_eq_true Hall]%andb_true_iff. simpl in Herr. subst err.
  assert (exists l, rows = Ok <$> l) as [l ->]; [|by exists l].
  induction rows as [|[a|] rows IH]; simpl in Hall; [by exists []| |done].
  destruct (IH Hall) as [l ->]. by exists (a :: l).
Qed.

Definition not_err {A} (r : reply A) : bool :=
  match r with RErr _ => false | _ => true end.

Definition answeredb (e : Eff) : eff_resp e -> bool :=
  match e return eff_resp e -> bool with
  | EPg s =>
      match s return pg_resp s -> bool with
      | INSERT_jobs _ _ _ _ _ _ _ => is_ok
      | SELECT_jobs _ _ _ => streamedb
      | COUNT_jobs _ | UPDATE_jobs _ _ | DELETE_jobs _ => is_ok
      | GROUP_queue_status _ _ => streamedb
      | GROUP_bucket_status _ _ => streamedb
      end
  | ERd c =>
      match c return rd_resp c -> bool with
      | LPUSH _ _ | LLEN _ | ZADD _ _ _ | PUBLISH _ _ => not_err
      | BRPOP _ _ => not_err
      | EVAL _ => not_err
      end
  | _ => fun _ => true
  end.

Lemma answeredb_true e x : answeredb e x = true -> answered e x.
Proof.
  destruct e as [s|c| | | |]; [destruct s|destruct c|..]; simpl; try done;
    try apply streamedb_true; by destruct x.
Qed.

Section WorldOk.
Context `{PG : Postgres} `{RD : Redis} `{HO : Host}.

Lemma wpok_pg s (Q : pg_resp s -> World -> Prop) w :
  (forall r w', pg_spec s (db_now w) (tbl w) r (tbl w') -> rdd w' = rdd w ->
     w_metrics w' = w_metrics w -> answered (EPg s) r -> Q r w') ->
  wpok exec answered (pg s) Q w.
Proof.
  intros HQ. refine (wpok_trigger exec answered (EPg s) Q w _).
  intros r w' He. simpl in He.
  destruct (pg_run s (w_pg w)) as [r0 p] eqn:Hp. injection He as <- <-.
  apply HQ; [|done..]. by apply pg_law in Hp.
Qed.

Lemma wpok_rd c (Q : rd_resp c -> World -> Prop) w :
  (forall r w', rd_spec c (rdd w) r (rdd w') -> tbl w' = tbl w ->
     w_metrics w' = w_metrics w -> answered (ERd c) r -> Q r w') ->
  wpok exec answered (rd c) Q w.
Proof.
  intros HQ. refine (wpok_trigger exec answered (ERd c) Q w _).
  intros r w' He. simpl in He.
  destruct (rd_run c (w_rd w)) as [r0 p] eqn:Hp. injection He as <- <-.
  apply HQ; [|done..]. by apply rd_law in Hp.
Qed.

(** Time passes during a run. *)
Lemma wpok_later {A} (p : go A) (Q : A -> World -> Prop) w :
  wpok exec answered p (fun a w' => later w w' -> Q a w') w -> wpok exec answered p Q w.
Proof. intros HQ Hok. apply (HQ Hok), run_later. Qed.

End WorldOk.

(** Runs on services that satisfy the laws. *)
Abbreviation run_go := (run exec).
Abbreviation wp_go := (wp exec).
Abbreviation all_ok_go := (all_ok exec answered).
Abbreviation all_okb_go := (all_okb exec answeredb).
Abbreviation wpok_go := (wpok exec answered).

(** Check by evaluation that a run had no failure. *)
Ltac all_ok_run :=
  apply (all_okb_true exec answered answeredb); [exact answeredb_true|];
  vm_compute; reflexivity.
