(* ===== verification/Sim.v ===== *)
(** * Reference services

    An in-memory PostgreSQL and Redis, a ticking clock and a toy [uuid] that satisfy every
    class of [Services.v].  Each server carries a schedule of faults, one per call: [Fine],
    [Refuse] (the call fails and nothing happened), [Lost] (it fails after taking effect) or
    [Cut n] (the stream of rows breaks after [n] of them).
    They show that the laws can be met, and the witnesses run the program on them. *)

From Stdlib Require Import Ascii.
From S2P Require Import Prelude Prog Model Services.

Inductive Fault := Fine | Refuse | Lost | Cut (n : nat).

Definition next_fault (fs : list Fault) : Fault * list Fault :=
  match fs with [] => (Fine, []) | f :: fs => (f, fs) end.

(** ** uuid and platform *)

Local Open Scope string_scope.

#[global] Instance sim_platform : GoPlatform.
Proof.
  refine {| f2i_out_of_range := fun _ => (- 2 ^ 63)%Z |}. intros _. unfold in_int64. lia.
Defined.

(** Identifiers print as ["u"] and the binary digits. *)
Fixpoint sim_digits (p : positive) : string :=
  match p with xH => "" | xO p => String "0" (sim_digits p) | xI p => String "1" (sim_digits p) end.

Fixpoint sim_number (s : string) : option positive :=
  match s with
  | EmptyString => Some xH
  | String a s =>
      if decide (a = "0"%char) then xO <$> sim_number s
      else if decide (a = "1"%char) then xI <$> sim_number s else None
  end.

Lemma sim_number_digits p : sim_number (sim_digits p) = Some p.
Proof. induction p as [p IH|p IH|]; simpl; rewrite ?IH; done. Qed.

Definition sim_Parse (s : string) : option UUID :=
  match s with
  | String _ s => (fun p => uuid_of_N (N.pred (Npos p))) <$> sim_number s
  | EmptyString => None
  end.

Definition sim_String (u : UUID) : string := String "u" (sim_digits (N.succ_pos (uuid_bits u))).

#[global] Instance sim_uuid : UuidLib.
Proof.
  refine {| uuid_Parse := sim_Parse; uuid_String := sim_String |}; [|done].
  intros u. unfold sim_String. simpl. rewrite sim_number_digits. simpl. f_equal.
  rewrite N.succ_pos_spec, N.pred_succ. destruct u as [n Hn]. apply UUID_eq. simpl.
  apply N.mod_small, N.ltb_lt, Is_true_true, Hn.
Defined.

(** ** PostgreSQL *)

#[global] Instance sim_types : PgTypes.
Proof.
  refine {| pg_ts := fun t => (t - t `mod` 1000)%Z; pg_jsonb := fun s => s;
            pg_date_trunc := fun _ t => (t - t `mod` (60 * Second))%Z |}.
  - intros t. pose proof (Z.mod_pos_bound t 1000). lia.
  - intros t u Htu. rewrite !Z.mod_eq by lia.
    pose proof (Z.div_le_mono t u 1000). lia.
  - done.
  - intros _ t. pose proof (Z.mod_pos_bound t (60 * Second)). unfold Second in *. lia.
Defined.

Record SimPg := MkSimPg {
  sp_table : Table;
  sp_next : N;
  sp_now : Time;
  sp_faults : list Fault
}.

#[global] Instance order_le_dec o a b : Decision (order_le o a b).
Proof. destruct o; simpl; repeat case_match; apply _. Defined.

#[global] Instance order_le_total o : Total (order_le o).
Proof.
  intros a b. destruct o; simpl; try lia.
  destruct (StartedAt a), (StartedAt b); auto; lia.
Qed.

#[global] Instance order_le_trans o : Transitive (order_le o).
Proof.
  intros a b c. destruct o; simpl; try lia.
  destruct (StartedAt a), (StartedAt b), (StartedAt c); auto; try lia; done.
Qed.

#[global] Instance bucket_le_dec a b : Decision (bucket_le a b).
Proof. unfold bucket_le. apply _. Defined.

#[global] Instance bucket_le_total : Total bucket_le.
Proof. intros a b. unfold bucket_le. lia. Qed.

#[global] Instance bucket_le_trans : Transitive bucket_le.
Proof. intros a b c. unfold bucket_le. lia. Qed.

#[global] Instance row_fits_dec j : Decision (row_fits j).
Proof. unfold row_fits. apply _. Defined.

(** A write of [sim]: [act] gives the answer and the new table, or refuses. *)
Definition sim_write {A} (act : option (A * Table)) (s : SimPg) : result A * SimPg :=
  let (f, fs) := next_fault (sp_faults s) in
  let put t := MkSimPg t (sp_next s + 1) (sp_now s + Second) fs in
  match f, act with
  | (Refuse | Cut _), _ => (Err "connection refused", put (sp_table s))
  | _, None => (Err "value refused", put (sp_table s))
  | Fine, Some (a, t) => (Ok a, put t)
  | Lost, Some (a, t) => (Err "connection lost", put t)
  end.

(** A read; [cut] is what arrives when the stream breaks. *)
Definition sim_read {A} (cut : nat -> A -> result A) (act : result A) (s : SimPg) :
    result A * SimPg :=
  let (f, fs) := next_fault (sp_faults s) in
  (match f, act with
   | Fine, _ => act
   | Cut n, Ok a => cut n a
   | _, _ => Err "connection refused"
   end, MkSimPg (sp_table s) (sp_next s) (sp_now s + Second) fs).

Definition cut_rows {A} (n : nat) (rs : Rows A) : result (Rows A) :=
  Ok (MkRows (take n (rows_read rs)) (Some "connection lost")).

Definition cut_none {A} (n : nat) (a : A) : result A := Err "connection lost".

Definition sim_insert q ty pl st mr rc ra (s : SimPg) : option (Job * Table) :=
  let id := uuid_of_N (sp_next s) in
  let j := new_row id (sp_now s) q ty pl st mr rc ra in
  if decide (sp_table s !! id = None /\ row_fits j)
  then Some (j, <[id := j]> (sp_table s)) else None.

Definition sim_update set cond (s : SimPg) : option (Z * Table) :=
  if decide (Forall (fun j => cond j = true -> row_fits (set (sp_now s) j))
               (rows_of (sp_table s)))
  then Some (matching cond (sp_table s), sql_update set cond (sp_now s) (sp_table s))
  else None.

Definition sim_select cond (order : option OrderBy) (lo : option (Z * Z)) (s : SimPg) :
    result (Rows Job) :=
  let l := filter (fun j => cond j = true) (rows_of (sp_table s)) in
  let l := match order with None => l | Some o => merge_sort (order_le o) l end in
  match lo with
  | None => Ok (MkRows (Ok <$> l) None)
  | Some (lim, off) =>
      if decide (0 <= lim /\ 0 <= off)%Z then Ok (MkRows (Ok <$> slice off lim l) None)
      else Err "OFFSET must not be negative"
  end.

Definition sim_groups {K} `{EqDecision K} (key : Job -> K) (jobs : list Job) :
    list (K * Z) :=
  (fun k => (k, Z.of_nat (length (filter (fun j => key j = k) jobs))))
    <$> remove_dups (key <$> jobs).

Definition sim_pg_run (st : PgStmt) (s : SimPg) : pg_resp st * SimPg :=
  match st return pg_resp st * SimPg with
  | INSERT_jobs q ty pl st mr rc ra => sim_write (sim_insert q ty pl st mr rc ra s) s
  | SELECT_jobs cond order lo => sim_read cut_rows (sim_select cond order lo s) s
  | COUNT_jobs cond => sim_read cut_none (Ok (matching cond (sp_table s))) s
  | UPDATE_jobs set cond => sim_write (sim_update set cond s) s
  | DELETE_jobs cond =>
      sim_write (Some (matching cond (sp_table s), sql_delete cond (sp_table s))) s
  | GROUP_queue_status cond _ =>
      sim_read cut_rows (Ok (MkRows (Ok <$> sim_groups (fun j => (Queue j, Status j))
        (filter (fun j => cond j = true) (rows_of (sp_table s)))) None)) s
  | GROUP_bucket_status field cond =>
      sim_read cut_rows (Ok (MkRows (Ok <$> merge_sort bucket_le
        (sim_groups (fun j => (pg_date_trunc field (UpdatedAt j), Status j))
          (filter (fun j => cond (sp_now s) j = true) (rows_of (sp_table s))))) None)) s
  end.

Lemma sim_write_commits {A} (eff : Table -> A -> Table -> Prop) act s r s' :
  (forall a t, act = Some (a, t) -> eff (sp_table s) a t) ->
  sim_write act s = (r, s') -> commits eff (sp_table s) r (sp_table s').
Proof.
  unfold sim_write. intros Hact.
  destruct (next_fault (sp_faults s)) as [[] fs], act as [[a t]|]; intros [= <- <-];
    simpl; eauto.
Qed.

Lemma sim_groups_spec {K} `{EqDecision K} (key : Job -> K) jobs :
  groups key jobs (sim_groups key jobs).
Proof.
  unfold groups, sim_groups. split.
  - rewrite <- list_fmap_compose.
    rewrite (list_fmap_ext _ id) by done. rewrite list_fmap_id. apply NoDup_remove_dups.
  - intros k c. rewrite list_elem_of_fmap. split.
    + intros (k' & [= -> ->] & Hk'). split; [done|].
      apply elem_of_remove_dups, list_elem_of_fmap in Hk' as (j & -> & Hj).
      assert (Hin : j ∈ filter (fun j' => key j' = key j) jobs)
        by (by apply list_elem_of_filter).
      destruct (filter _ jobs); [by apply elem_of_nil in Hin|simpl; lia].
    + intros [-> Hpos]. exists k. split; [done|].
      apply elem_of_remove_dups.
      destruct (filter (fun j => key j = k) jobs) as [|j l] eqn:Hf; [simpl in Hpos; lia|].
      assert (Hj : j ∈ filter (fun j => key j = k) jobs) by (rewrite Hf; left).
      apply list_elem_of_filter in Hj as [<- Hj]. by apply list_elem_of_fmap_2.
Qed.

Lemma groups_perm {K} `{EqDecision K} (key : Job -> K) jobs gs gs' :
  gs ≡ₚ gs' -> groups key jobs gs -> groups key jobs gs'.
Proof.
  intros Hp [Hnd Hgs]. split; [by rewrite <- Hp|]. intros k c. by rewrite <- Hp, Hgs.
Qed.

Lemma sim_read_spec {A} cut (act : result A) s r s' :
  sim_read cut act s = (r, s') ->
  sp_table s' = sp_table s /\
  forall a, r = Ok a -> act = Ok a \/ exists n a0, act = Ok a0 /\ cut n a0 = Ok a.
Proof.
  unfold sim_read.
  destruct (next_fault (sp_faults s)) as [[] fs], act; intros [= <- <-]; naive_solver.
Qed.

(** A stream of [sim]: the whole page, or its beginning. *)
Lemma sim_rows_delivered {A} (act : result (Rows A)) s r s' :
  sim_read cut_rows act s = (r, s') ->
  sp_table s' = sp_table s /\
  forall rs, r = Ok rs -> exists rs0, act = Ok rs0 /\
    forall page, rs0 = MkRows (Ok <$> page) None -> delivered page rs.
Proof.
  intros [? Hr]%sim_read_spec. split; [done|].
  intros rs Hrs. destruct (Hr rs Hrs) as [->|(n & rs0 & -> & Hcut)]; eexists.
  - split; [done|]. intros page ->. apply delivered_all.
  - split; [done|]. intros page ->. injection Hcut as <-. simpl.
    rewrite <- fmap_take. apply delivered_cut, prefix_take.
Qed.

Lemma sim_select_spec cond order lo s rs :
  sim_select cond order lo s = Ok rs ->
  (forall lim off, lo = Some (lim, off) -> (0 <= lim /\ 0 <= off)%Z) /\
  exists page, selects cond order lo (sp_table s) page /\ rs = MkRows (Ok <$> page) None.
Proof.
  unfold sim_select.
  set (l0 := filter _ _). set (l := match order with None => l0 | Some _ => _ end).
  assert (Hperm : l ≡ₚ l0) by (unfold l; destruct order; [apply merge_sort_Permutation|done]).
  assert (Hsort : forall o, order = Some o -> StronglySorted (order_le o) l)
    by (intros o ->; apply (StronglySorted_merge_sort _)).
  destruct lo as [[lim off]|]; [case_decide as Hlo; [|done]|]; intros [= <-].
  - split; [by intros ?? [= <- <-]|]. eexists. split; [|done]. by exists l.
  - split; [done|]. eexists. split; [|done]. by exists l.
Qed.

Lemma sim_pg_law st s r s' :
  sim_pg_run st s = (r, s') -> pg_spec st (sp_now s) (sp_table s) r (sp_table s').
Proof.
  destruct st as [q ty pl st mr rc ra|cond order lo|cond|set cond|cond|cond b|field cond];
    simpl; intros Hrun.
  - eapply sim_write_commits, Hrun. unfold sim_insert. intros j t Hact.
    case_decide as Hd; [|done]. injection Hact as <- <-. unfold inserts.
    do 2 eexists. split; [apply Hd|]. split; [done|]. split; [apply Hd|done].
  - apply sim_rows_delivered in Hrun as [-> Hr]. split; [done|].
    intros rs ->. destruct (Hr rs eq_refl) as (rs0 & Hrs0 & Hdel).
    apply sim_select_spec in Hrs0 as (Hlo & page & Hsel & ->). eauto 6.
  - apply sim_read_spec in Hrun as [-> Hr]. split; [done|]. intros n ->.
    destruct (Hr n eq_refl) as [Hn|(k & a & _ & Hcut)]; [by injection Hn|done].
  - eapply sim_write_commits, Hrun. unfold sim_update. intros n t Hact.
    case_decide as Hd; [|done]. injection Hact as <- <-. exists (sp_now s).
    split_and!; [done..|]. intros id j Hj. rewrite Forall_forall in Hd. apply Hd.
    apply elem_of_rows_of. eauto.
  - eapply sim_write_commits, Hrun. by intros n t [= <- <-].
  - apply sim_rows_delivered in Hrun as [-> Hr]. split; [done|].
    intros rs ->. destruct (Hr rs eq_refl) as (rs0 & [= <-] & Hdel). eexists.
    split; [apply sim_groups_spec|by apply Hdel].
  - apply sim_rows_delivered in Hrun as [-> Hr]. split; [done|].
    intros rs ->. destruct (Hr rs eq_refl) as (rs0 & [= <-] & Hdel). eexists.
    split; [|split; [|by apply Hdel]].
    + eapply groups_perm; [symmetry; apply merge_sort_Permutation|apply sim_groups_spec].
    + apply (StronglySorted_merge_sort _).
Qed.

#[global] Instance sim_postgres : Postgres :=
  {| pg_state := SimPg; pg_table := sp_table; pg_now := sp_now; pg_run := sim_pg_run; pg_law := sim_pg_law |}.

(** ** Redis *)

Record SimRd := MkSimRd { sr_data : RdData; sr_faults : list Fault }.

Definition zle (a b : string * Z) : Prop := (a.2 <= b.2)%Z.

#[global] Instance zle_dec a b : Decision (zle a b).
Proof. unfold zle. apply _. Defined.

#[global] Instance zle_total : Total zle.
Proof. intros a b. unfold zle. lia. Qed.

#[global] Instance zle_trans : Transitive zle.
Proof. intros a b c. unfold zle. lia. Qed.

Definition sim_call (c : RedisCall) (d : RdData) : call_resp c * RdData :=
  match c return call_resp c * RdData with
  | ZRANGEBYSCORE k max => ((merge_sort zle (map_to_list (due max (rd_zset d k)))).*1, d)
  | ZREMRANGEBYSCORE k max =>
      (Z.of_nat (size (due max (rd_zset d k))), set_zset k (not_due max (rd_zset d k)) d)
  end.

Fixpoint sim_pop (ks : list string) (d : RdData) : option (string * string * RdData) :=
  match ks with
  | [] => None
  | k :: ks =>
      match last (rd_list d k) with
      | Some v => Some (k, v, set_list k (removelast (rd_list d k)) d)
      | None => sim_pop ks d
      end
  end.

Definition sim_reply {A} (act : option (A * RdData)) (s : SimRd) : reply A * SimRd :=
  let (f, fs) := next_fault (sr_faults s) in
  match f, act with
  | (Refuse | Cut _), _ => (RErr "connection refused", MkSimRd (sr_data s) fs)
  | Fine, None => (RNil, MkSimRd (sr_data s) fs)
  | Lost, None => (RErr "connection lost", MkSimRd (sr_data s) fs)
  | Fine, Some (a, d) => (RVal a, MkSimRd d fs)
  | Lost, Some (a, d) => (RErr "connection lost", MkSimRd d fs)
  end.

Definition sim_rd_run (c : RdCmd) (s : SimRd) : rd_resp c * SimRd :=
  let d := sr_data s in
  match c return rd_resp c * SimRd with
  | LPUSH k v =>
      sim_reply (Some (Z.of_nat (S (length (rd_list d k))), set_list k (v :: rd_list d k) d)) s
  | BRPOP ks _ => sim_reply (sim_pop ks d) s
  | LLEN k => sim_reply (Some (Z.of_nat (length (rd_list d k)), d)) s
  | ZADD k score m =>
      sim_reply (Some ((if decide (is_Some (rd_zset d k !! m)) then 0 else 1)%Z,
                       set_zset k (<[m := score]> (rd_zset d k)) d)) s
  | EVAL script => sim_reply (Some (run sim_call script d)) s
  | PUBLISH _ _ => sim_reply (Some (0%Z, d)) s
  end.

Lemma sim_reply_commits {A} (eff : A -> RdData -> Prop) act s r s' :
  (forall a d, act = Some (a, d) -> eff a d) ->
  sim_reply act s = (r, s') ->
  rd_commits eff (sr_data s) r (sr_data s') /\ (r = RNil -> act = None).
Proof.
  unfold sim_reply. intros Hact.
  destruct (next_fault (sr_faults s)) as [[] fs], act as [[a d]|]; intros [= <- <-];
    simpl; split; eauto; done.
Qed.

Lemma sim_pop_spec ks d :
  match sim_pop ks d with
  | Some (kv, d') => pops d ks kv d'
  | None => Forall (fun k => rd_list d k = []) ks
  end.
Proof.
  induction ks as [|k ks IH]; simpl; [done|].
  destruct (last (rd_list d k)) as [v|] eqn:Hlast.
  - apply pops_here. apply last_Some in Hlast as [l Hl]. rewrite Hl.
    by rewrite removelast_last.
  - apply last_None in Hlast. destruct (sim_pop ks d) as [[kv d']|]; by constructor.
Qed.

Lemma sim_call_spec c d : call_spec c d (sim_call c d).1 (sim_call c d).2.
Proof.
  destruct c as [k max|k max]; simpl; [|done].
  set (l := map_to_list (due max (rd_zset d k))). split; [done|split].
  - apply fmap_Permutation, merge_sort_Permutation.
  - assert (Hs : StronglySorted zle (merge_sort zle l)) by apply (StronglySorted_merge_sort _).
    assert (Hin : forall p, p ∈ merge_sort zle l -> rd_zset d k !! p.1 = Some p.2).
    { intros [m x] Hp. rewrite merge_sort_Permutation in Hp.
      apply elem_of_map_to_list in Hp. by apply map_lookup_filter_Some in Hp as [? _]. }
    induction Hs as [|[m x] l' Hl' IH Hall]; simpl; constructor.
    + apply IH. intros; apply Hin. by right.
    + rewrite Forall_forall in Hall. apply Forall_forall. intros m' Hm' y z Hy Hz.
      apply list_elem_of_fmap in Hm' as ([m'' w] & -> & Hp).
      specialize (Hall _ Hp). unfold zle in Hall. simpl in *.
      pose proof (Hin (m, x) ltac:(left)). pose proof (Hin (m'', w) ltac:(by right)).
      simpl in *. congruence.
Qed.

Lemma sim_lua_spec {A} (p : Lua A) d : lua_spec p d (run sim_call p d).1 (run sim_call p d).2.
Proof.
  revert d. induction p as [a|c k IH]; intros d; [done|]. rewrite run_vis. simpl.
  pose proof (sim_call_spec c d). destruct (sim_call c d) as [x d1]. eauto.
Qed.

Lemma sim_rd_law c s r s' :
  sim_rd_run c s = (r, s') -> rd_spec c (sr_data s) r (sr_data s').
Proof.
  destruct c as [k v|ks tm|k|k score m|script|ch msg]; simpl; intros Hrun.
  - apply (sim_reply_commits (pushes k v (sr_data s))) in Hrun as [? Hnil];
      [split; [intros Hr; by apply Hnil in Hr|done]|by intros ?? [= <- <-]].
  - pose proof (sim_pop_spec ks (sr_data s)) as Hpop.
    apply (sim_reply_commits (pops (sr_data s) ks)) in Hrun as [? Hnil].
    + split; [done|]. intros Hr. apply Hnil in Hr. by rewrite Hr in Hpop.
    + intros kv d Heq. by rewrite Heq in Hpop.
  - unfold sim_reply in Hrun.
    destruct (next_fault (sr_faults s)) as [[] fs]; injection Hrun as <- <-;
      split_and!; try done; by intros ? [= <-].
  - apply (sim_reply_commits (zadds k score m (sr_data s))) in Hrun as [? Hnil];
      [split; [intros Hr; by apply Hnil in Hr|done]|by intros ?? [= <- <-]].
  - apply (sim_reply_commits (lua_spec script (sr_data s))) in Hrun as [? Hnil];
      [split; [intros Hr; by apply Hnil in Hr|done]|].
    intros a d Heq. pose proof (sim_lua_spec script (sr_data s)).
    injection Heq as Heq. by rewrite Heq in *.
  - unfold sim_reply in Hrun.
    by destruct (next_fault (sr_faults s)) as [[] fs]; injection Hrun as <- <-.
Qed.

#[global] Instance sim_redis : Redis :=
  {| rd_state := SimRd; rd_data := sr_data; rd_run := sim_rd_run; rd_law := sim_rd_law |}.

(** ** Clock and random numbers *)

(** The clock starts where told and advances one second per reading; [Intn] plays a list. *)
Record SimHost := MkSimHost { sh_now : Time; sh_dice : list Z }.

#[global] Instance sim_host : Host.
Proof.
  refine {| host_state := SimHost;
    host_now := fun h => (sh_now h, MkSimHost (sh_now h + Second) (sh_dice h));
    host_sleep := fun d h => MkSimHost (sh_now h + d) (sh_dice h);
    host_Intn := fun n h => ((default 0 (head (sh_dice h)) `mod` n)%Z,
                             MkSimHost (sh_now h) (tail (sh_dice h))) |}.
  intros n h Hn. simpl. apply Z.mod_pos_bound. lia.
Defined.

(** A world with the given rows, Redis data, faults and clock. *)
Definition sim_world (t : Table) (pf : list Fault) (d : RdData) (rf : list Fault)
    (now : Time) (dice : list Z) : World :=
  MkWorld (MkSimPg t 1000 now pf) (MkSimRd d rf) (MkSimHost now dice) [].

Definition rd_empty : RdData := MkRd ∅ ∅.

(** Sample rows. *)
Definition sim_job (n : N) (q ty : string) (st : JobStatus) (mr rc : Z)
    (run_at started_at : option Time) (created : Time) : Job :=
  {| ID := uuid_of_N n; Queue := q; JobType := ty; Payload := "{}"; Status := st;
     MaxRetries := mr; RetryCount := rc; RunAt := run_at; StartedAt := started_at;
     CompletedAt := None; JobError := ""; CreatedAt := created; UpdatedAt := created |}.

Definition sim_table (l : list Job) : Table := list_to_map ((fun j => (ID j, j)) <$> l).

(** ** Backoff on the reference platform *)

Lemma BackoffDuration_exact_witness :
  BackoffDuration 5 = (32 * Second)%Z /\ BackoffDuration 6 = (2 * BackoffDuration 5)%Z.
Proof.
  destruct (BackoffDuration_exact 5) as (Hval & _ & Hnext); [lia|].
  split; [exact Hval|]. apply Hnext. lia.
Defined.

Lemma BackoffDuration_overflow_witness :
  BackoffDuration 60 <> (2 ^ 60 * Second)%Z /\ BackoffDuration 60 = 0%Z.
Proof.
  destruct (BackoffDuration_overflow 60) as (Hne & _ & Hzero); [lia|].
  split; [exact Hne|]. apply Hzero. lia.
Defined.
