(* ===== verification/Storage.v ===== *)
(** * The PostgreSQL layer ([internal/storage/postgres.go], [migrations/])

    Each method is its SQL statement, the wrapping of its error and the loop over its rows.
    The lemmas give the effect of each method on the table [jobs], keyed by [id]. *)

From S2P Require Import Prelude Prog Model Services Sim.

Local Open Scope string_scope.
Local Open Scope go_scope.
Local Open Scope list_scope.

Record ListFilter := MkFilter {
  f_Status : string;
  f_Queue : string;
  f_Type : string;
  f_Page : Z;
  f_Limit : Z
}.

Record QueueStat := MkQueueStat { qs_Queue : string; qs_Status : string; qs_Count : Z }.

Record TimeSeriesStat := MkTS { ts_Bucket : Time; ts_Status : string; ts_Count : Z }.

(** ** Connections

    [pgxpool] and [golang-migrate] are arguments. *)

Record PostgresStorage (Pool : Type) := MkStorage { pool : Pool; connStr : string }.
Arguments MkStorage {Pool} pool connStr.
Arguments pool {Pool} p.
Arguments connStr {Pool} p.

Definition NewPostgresStorage {Pool} (pgxpool_New : string -> result Pool)
    (Ping : Pool -> result unit) (connStr : string) : result (PostgresStorage Pool) :=
  match pgxpool_New connStr with
  | Err e => Err ("connect to postgres: " +:+ e)
  | Ok pool =>
      match Ping pool with
      | Err e => Err ("ping postgres: " +:+ e)
      | Ok _ => Ok (MkStorage pool connStr)
      end
  end.

(** The errors of [m.Up()]: [migrate.ErrNoChange] or another. *)
Inductive MigrateError := ErrNoChange | UpError (e : string).

Definition RunMigrations {Pool Source Migrate} (iofs_New : result Source)
    (NewWithSourceInstance : Source -> string -> result Migrate)
    (Up : Migrate -> option MigrateError) (s : PostgresStorage Pool) : result unit :=
  match iofs_New with
  | Err e => Err ("create migration source: " +:+ e)
  | Ok d =>
      match NewWithSourceInstance d (connStr s) with
      | Err e => Err ("create migrate instance: " +:+ e)
      | Ok m =>
          match Up m with
          | Some (UpError e) => Err ("run migrations: " +:+ e)
          | Some ErrNoChange | None => Ok tt
          end
      end
  end.

(** ** Rows *)

(** [for rows.Next() { x, err := scan(rows); if err != nil { return nil, err }; append }]. *)
Fixpoint scan_rows {A} (wrap : string -> string) (l : list (result A)) : result (list A) :=
  match l with
  | [] => Ok []
  | Err e :: _ => Err (wrap e)
  | Ok a :: l => match scan_rows wrap l with Ok r => Ok (a :: r) | Err e => Err e end
  end.

(** [scanJobFromRows] and [scanJob] wrap the error of [Scan]. *)
Definition scanJobFromRows_err (e : string) : string := "scan job row: " +:+ e.
Definition scanJob_err (e : string) : string := "scan job: " +:+ e.

(** [QueryRow(...).Scan(...)]: the first row, the error of the stream, or [ErrNoRows]. *)
Definition scanJob (r : result (Rows Job)) : result Job :=
  match r with
  | Err e => Err (scanJob_err e)
  | Ok rs =>
      match rows_read rs with
      | Ok j :: _ => Ok j
      | Err e :: _ => Err (scanJob_err e)
      | [] => Err (scanJob_err (default "no rows in result set" (rows_err rs)))
      end
  end.

(** ** The dynamic [WHERE] clause of [ListJobs] *)

Inductive Column := col_status | col_queue | col_type.

Definition col_value (c : Column) (j : Job) : string :=
  match c with col_status => Status j | col_queue => Queue j | col_type => JobType j end.

Inductive SqlArg := AStr (s : string) | AInt (z : Z).

(** The query under construction: its [AND col = $n] clauses, the arguments appended so far
    and the next placeholder number. *)
Record Query := MkQuery {
  q_where : list (Column * Z);
  q_args : list SqlArg;
  q_argIdx : Z
}.

Definition add_clause (c : Column) (v : string) (q : Query) : Query :=
  if bool_decide (v = "") then q
  else MkQuery (q_where q ++ [(c, q_argIdx q)]) (q_args q ++ [AStr v]) (q_argIdx q + 1).

Definition build_where (filter : ListFilter) : Query :=
  add_clause col_type (f_Type filter)
    (add_clause col_queue (f_Queue filter)
      (add_clause col_status (f_Status filter) (MkQuery [] [] 1))).

(** The argument bound to the placeholder [$n]. *)
Definition placeholder (args : list SqlArg) (n : Z) : option SqlArg :=
  if (1 <=? n)%Z then args !! Z.to_nat (n - 1) else None.

Definition clause_holds (args : list SqlArg) (j : Job) (cl : Column * Z) : bool :=
  match placeholder args cl.2 with
  | Some (AStr v) => bool_decide (col_value cl.1 j = v)
  | _ => false
  end.

(** [WHERE 1=1 AND ...] on a row. *)
Definition where_holds (clauses : list (Column * Z)) (args : list SqlArg) (j : Job) : bool :=
  forallb (clause_holds args j) clauses.

Definition int_arg (args : list SqlArg) (n : Z) : Z :=
  match placeholder args n with Some (AInt z) => z | _ => -1 end.

Definition by_id (id : UUID) (j : Job) : bool := bool_decide (ID j = id).

Definition coalesce {A} (a b : option A) : option A :=
  match a with Some x => Some x | None => b end.

Section Storage.
Context `{PgTypes}.

Definition CreateJob (job : Job) : go (result Job) :=
  let* r := pg (INSERT_jobs (Queue job) (JobType job) (Payload job) (Status job)
                  (MaxRetries job) (RetryCount job) (RunAt job)) in
  Ret (match r with Ok j => Ok j | Err e => Err (scanJob_err e) end).

Definition GetJob (id : UUID) : go (result Job) :=
  let* r := pg (SELECT_jobs (by_id id) None None) in
  Ret (scanJob r).

(** [SET status = $1, started_at = COALESCE($2, started_at),
    completed_at = COALESCE($3, completed_at), updated_at = now()]. *)
Definition set_status (status : JobStatus) (startedAt completedAt : option Time)
    (now : Time) (j : Job) : Job :=
  {| ID := ID j; Queue := Queue j; JobType := JobType j; Payload := Payload j;
     Status := status; MaxRetries := MaxRetries j; RetryCount := RetryCount j;
     RunAt := RunAt j; StartedAt := coalesce startedAt (StartedAt j);
     CompletedAt := coalesce completedAt (CompletedAt j);
     JobError := JobError j; CreatedAt := CreatedAt j; UpdatedAt := now |}.

Definition UpdateJobStatus (id : UUID) (status : JobStatus) : go (result unit) :=
  let* now := Now in
  let startedAt := if bool_decide (status = StatusRunning) then Some (pg_ts now) else None in
  let completedAt :=
    if bool_decide (status = StatusCompleted) then Some (pg_ts now) else None in
  let* r := pg (UPDATE_jobs (set_status status startedAt completedAt) (by_id id)) in
  Ret (match r with Ok _ => Ok tt | Err e => Err ("update job status: " +:+ e) end).

(** [SET status = $1, retry_count = $2, error = $3, updated_at = now()]. *)
Definition set_error (status : JobStatus) (retryCount : Z) (jobErr : string)
    (now : Time) (j : Job) : Job :=
  {| ID := ID j; Queue := Queue j; JobType := JobType j; Payload := Payload j;
     Status := status; MaxRetries := MaxRetries j; RetryCount := retryCount;
     RunAt := RunAt j; StartedAt := StartedAt j; CompletedAt := CompletedAt j;
     JobError := jobErr; CreatedAt := CreatedAt j; UpdatedAt := now |}.

Definition UpdateJobError (id : UUID) (status : JobStatus) (retryCount : Z)
    (jobErr : string) : go (result unit) :=
  let* r := pg (UPDATE_jobs (set_error status retryCount jobErr) (by_id id)) in
  Ret (match r with Ok _ => Ok tt | Err e => Err ("update job error: " +:+ e) end).

Definition ListJobs (filter : ListFilter) : go (result (list Job * Z)) :=
  let q := build_where filter in
  let* c := pg (COUNT_jobs (where_holds (q_where q) (q_args q))) in
  match c with
  | Err e => Ret (Err ("count jobs: " +:+ e))
  | Ok total =>
      let page := if (f_Page filter <? 1)%Z then 1%Z else f_Page filter in
      let limit := if (f_Limit filter <? 1)%Z then 20%Z else f_Limit filter in
      let offset := wrap64 ((page - 1) * limit) in
      let args := q_args q ++ [AInt limit; AInt offset] in
      let* r := pg (SELECT_jobs (where_holds (q_where q) args) (Some CREATED_AT_DESC)
                      (Some (int_arg args (q_argIdx q), int_arg args (q_argIdx q + 1)))) in
      match r with
      | Err e => Ret (Err ("list jobs: " +:+ e))
      | Ok rows =>
          match scan_rows scanJobFromRows_err (rows_read rows) with
          | Err e => Ret (Err e)
          | Ok jobs => Ret (Ok (jobs, total))
          end
      end
  end.

(** The queries of the recovery loops: [LIMIT 100], oldest first. *)
Definition query_jobs (ctx : string) (cond : Job -> bool) (o : OrderBy) :
    go (result (list Job)) :=
  let* r := pg (SELECT_jobs cond (Some o) (Some (100%Z, 0%Z))) in
  match r with
  | Err e => Ret (Err (ctx +:+ ": " +:+ e))
  | Ok rows => Ret (scan_rows scanJobFromRows_err (rows_read rows))
  end.

Definition pending_before (cutoff : Time) (j : Job) : bool :=
  bool_decide (Status j = StatusPending) && bool_decide (RunAt j = None) &&
  (CreatedAt j <? cutoff)%Z.

Definition GetPendingUnqueued (olderThan : Duration) : go (result (list Job)) :=
  let* now := Now in
  query_jobs "get pending unqueued" (pending_before (pg_ts (now - olderThan)))
    CREATED_AT_ASC.

(** A comparison with a [NULL] [started_at] is not true. *)
Definition running_before (cutoff : Time) (j : Job) : bool :=
  bool_decide (Status j = StatusRunning) &&
  match StartedAt j with Some s => (s <? cutoff)%Z | None => false end.

Definition GetStaleRunningJobs (timeout : Duration) : go (result (list Job)) :=
  let* now := Now in
  query_jobs "get stale running jobs"
    (running_before (pg_ts (now + wrap64 (-2 * timeout)))) STARTED_AT_ASC.

Definition to_QueueStat (g : string * string * Z) : QueueStat :=
  MkQueueStat g.1.1 g.1.2 g.2.

Definition queue_stats (ctx : string) (cond : Job -> bool) (by_queue : bool) :
    go (result (list QueueStat)) :=
  let* r := pg (GROUP_queue_status cond by_queue) in
  match r with
  | Err e => Ret (Err (ctx +:+ ": " +:+ e))
  | Ok rows =>
      match scan_rows id (rows_read rows) with
      | Err e => Ret (Err e)
      | Ok gs => Ret (Ok (to_QueueStat <$> gs))
      end
  end.

Definition GetQueueStats : go (result (list QueueStat)) :=
  queue_stats "get queue stats" (fun _ => true) true.

Definition GetQueueStatsByName (queueName : string) : go (result (list QueueStat)) :=
  queue_stats "get queue stats by name" (fun j => bool_decide (Queue j = queueName)) false.

Definition DeleteJob (id : UUID) : go (result unit) :=
  let* r := pg (DELETE_jobs (fun j => by_id id j && bool_decide (Status j = StatusDead))) in
  Ret (match r with
       | Err e => Err ("delete job: " +:+ e)
       | Ok n => if (n =? 0)%Z then Err "job not found or not in dead status" else Ok tt
       end).

Definition in_series (duration : Duration) (now : Time) (j : Job) : bool :=
  (now - duration <? UpdatedAt j)%Z &&
  bool_decide (Status j ∈ [StatusCompleted; StatusFailed; StatusDead]).

Definition to_TimeSeriesStat (g : Time * string * Z) : TimeSeriesStat :=
  MkTS g.1.1 g.1.2 g.2.

(** The only query that looks at [rows.Err()]. *)
Definition GetTimeSeries (duration : Duration) (interval : string) :
    go (result (list TimeSeriesStat)) :=
  let* r := pg (GROUP_bucket_status interval (in_series duration)) in
  match r with
  | Err e => Ret (Err ("get time series: " +:+ e))
  | Ok rows =>
      match scan_rows (fun e => "scan time series: " +:+ e) (rows_read rows) with
      | Err e => Ret (Err e)
      | Ok gs =>
          match rows_err rows with
          | Some e => Ret (Err e)
          | None => Ret (Ok (to_TimeSeriesStat <$> gs))
          end
      end
  end.

(** ** The table as a map

    [id] is the primary key: every row is stored under its own identifier. *)
Definition keyed (t : Table) : Prop := map_Forall (fun id j => ID j = id) t.

#[global] Instance keyed_dec t : Decision (keyed t).
Proof. unfold keyed. apply _. Defined.

Lemma keyed_insert t id j : keyed t -> ID j = id -> keyed (<[id := j]> t).
Proof. intros. by apply map_Forall_insert_2. Qed.

Lemma keyed_NoDup t : keyed t -> NoDup (rows_of t).
Proof.
  intros Hk. unfold rows_of. apply NoDup_fmap_2_strong; [|apply NoDup_map_to_list].
  intros [i a] [k b] Ha%elem_of_map_to_list Hb%elem_of_map_to_list. simpl. intros ->.
  apply Hk in Ha, Hb. simpl in *. congruence.
Qed.

Lemma filter_by_id t id :
  keyed t -> filter (fun j => by_id id j = true) (rows_of t) ≡ₚ option_list (t !! id).
Proof.
  intros Hk. apply NoDup_Permutation.
  - apply NoDup_filter. by apply keyed_NoDup.
  - destruct (t !! id); simpl; [apply NoDup_singleton|apply NoDup_nil_2].
  - intros j. rewrite list_elem_of_filter, elem_of_rows_of. unfold by_id.
    rewrite bool_decide_eq_true. split.
    + intros [<- [id' Hid']]. pose proof (Hk _ _ Hid') as Hid. simpl in Hid.
      subst id'. rewrite Hid'. by left.
    + destruct (t !! id) as [j'|] eqn:Hj; simpl;
        [rewrite list_elem_of_singleton|by rewrite elem_of_nil].
      intros ->. split; [by apply (Hk _ _ Hj)|by exists id].
Qed.

Lemma selects_by_id t id page :
  keyed t -> selects (by_id id) None None t page -> page = option_list (t !! id).
Proof.
  intros Hk (l & Hl & _ & ->). rewrite filter_by_id in Hl by done.
  destruct (t !! id); simpl in *;
    [by apply Permutation_singleton_r in Hl|by apply Permutation_nil_r in Hl].
Qed.

Lemma sql_update_by_id set t id now :
  keyed t -> sql_update set (by_id id) now t = alter (set now) id t.
Proof.
  intros Hk. apply map_eq. intros i. unfold sql_update. rewrite lookup_fmap.
  destruct (t !! i) as [j|] eqn:Hi; simpl.
  - pose proof (Hk _ _ Hi) as Hid. simpl in Hid. unfold by_id. case_bool_decide.
    + subst. by rewrite lookup_alter_eq, Hi.
    + rewrite lookup_alter_ne by congruence. by rewrite Hi.
  - symmetry. rewrite <- not_elem_of_dom, dom_alter_L. by apply not_elem_of_dom.
Qed.

Lemma scan_rows_ok {A} wrap (l : list A) : scan_rows wrap (Ok <$> l) = Ok l.
Proof. induction l as [|a l IH]; csimpl; [done|]. by rewrite IH. Qed.

Lemma scan_rows_err {A} wrap (l : list A) e l' :
  scan_rows wrap ((Ok <$> l) ++ Err e :: l') = Err (wrap e).
Proof. induction l as [|a l IH]; csimpl; [done|]. by rewrite IH. Qed.

(** What the row loops return: the whole page, or with a stream error a prefix of it. *)
Lemma scan_delivered {A} wrap (page l : list A) rs :
  delivered page rs -> scan_rows wrap (rows_read rs) = Ok l ->
  l `prefix_of` page /\ (rows_err rs = None -> l = page).
Proof.
  intros [|p e Hp|p e oe Hp]; simpl; rewrite ?scan_rows_ok, ?scan_rows_err;
    intros [= ->]; done.
Qed.

Lemma scanJob_delivered page rs j :
  delivered page rs -> scanJob (Ok rs) = Ok j -> head page = Some j.
Proof.
  intros [|p e [k ->]|p e oe [k ->]]; simpl.
  - destruct page; simpl; congruence.
  - destruct p; simpl; congruence.
  - destruct p; simpl; congruence.
Qed.

(** ** Effects of the methods *)

(** The row under [id], if any, is replaced by one related to it by [f]. *)
Definition applied (f : Job -> Job -> Prop) (id : UUID) (t t' : Table) : Prop :=
  match t !! id with
  | None => t' = t
  | Some j => exists j', f j j' /\ row_fits j' /\ t' = <[id := j']> t
  end.

(** A write that answered [r]: done on success, done or not on failure. *)
Definition write_of {A} (done : Table -> Table -> Prop) (t : Table) (r : result A)
    (t' : Table) : Prop :=
  match r with Ok _ => done t t' | Err _ => t' = t \/ done t t' end.

(** The rows [UpdateJobStatus] and [UpdateJobError] write. *)
Definition status_set (st : JobStatus) (j j' : Job) : Prop :=
  exists now dbnow,
    j' = set_status st (if bool_decide (st = StatusRunning) then Some (pg_ts now) else None)
           (if bool_decide (st = StatusCompleted) then Some (pg_ts now) else None) dbnow j.

Definition error_set (st : JobStatus) (rc : Z) (msg : string) (j j' : Job) : Prop :=
  exists dbnow, j' = set_error st rc msg dbnow j.

Lemma updates_applied (f : Job -> Job -> Prop) set id t n t' :
  keyed t -> (forall now j, f j (set now j)) ->
  updates set (by_id id) t n t' -> applied f id t t'.
Proof.
  intros Hk Hf (now & _ & -> & Hfits). rewrite sql_update_by_id by done. unfold applied.
  destruct (t !! id) as [j|] eqn:Hj.
  - exists (set now j). split_and!; [done| |].
    + apply (Hfits id j Hj). unfold by_id. apply bool_decide_eq_true. by apply (Hk _ _ Hj).
    + apply map_eq. intros i. rewrite lookup_alter, lookup_insert.
      case_decide; subst; [by rewrite Hj|done].
  - apply map_eq. intros i. rewrite lookup_alter. case_decide; subst; [by rewrite Hj|done].
Qed.

Context `{PG : !Postgres} `{RD : Redis} `{HO : Host}.

(** Only the table may have changed. *)
Definition only_tbl (w w' : World) : Prop :=
  rdd w' = rdd w /\ w_metrics w' = w_metrics w.

Lemma wp_GetJob id (Q : result Job -> World -> Prop) w :
  keyed (tbl w) ->
  (forall r w', same w w' -> (forall j, r = Ok j -> tbl w !! id = Some j) -> Q r w') ->
  wp_go (GetJob id) Q w.
Proof.
  intros Hk HQ. apply wp_bind, wp_pg. intros r w' [Ht Hr] Hrd Hm. apply wp_ret.
  apply HQ; [done|]. intros j Hj.
  destruct r as [rs|]; [|done]. destruct (Hr rs eq_refl) as (_ & page & Hsel & Hdel).
  apply selects_by_id in Hsel; [|done]. subst page.
  apply (scanJob_delivered _ _ _ Hdel) in Hj. by destruct (tbl w !! id).
Qed.

Lemma wp_CreateJob job (Q : result Job -> World -> Prop) w :
  (forall r w', only_tbl w w' ->
     commits (inserts (Queue job) (JobType job) (Payload job) (Status job) (MaxRetries job)
       (RetryCount job) (RunAt job)) (tbl w) r (tbl w') -> Q r w') ->
  wp_go (CreateJob job) Q w.
Proof.
  intros HQ. apply wp_bind, wp_pg. intros r w' Hs Hrd Hm. apply wp_ret.
  apply HQ; [done|]. simpl in r. by destruct r.
Qed.

Lemma wp_update {A} (f : Job -> Job -> Prop) set id (k : result Z -> result A)
    (Q : result A -> World -> Prop) w :
  keyed (tbl w) -> (forall now j, f j (set now j)) ->
  (forall n, exists a, k (Ok n) = Ok a) -> (forall e, exists e', k (Err e) = Err e') ->
  (forall r w', only_tbl w w' -> write_of (applied f id) (tbl w) r (tbl w') -> Q r w') ->
  wp_go (bind (pg (UPDATE_jobs set (by_id id))) (fun r => Ret (k r))) Q w.
Proof.
  intros Hk Hf Hok Herr HQ. apply wp_bind, wp_pg. intros r w' Hs Hrd Hm. apply wp_ret.
  apply HQ; [done|]. simpl in r. destruct r as [n|e]; simpl in Hs.
  - destruct (Hok n) as [a ->]. simpl. eapply updates_applied; eauto.
  - destruct (Herr e) as [e' ->]. simpl.
    destruct Hs as [|[n Hn]]; [by left|right]. eapply updates_applied; eauto.
Qed.

Lemma wp_UpdateJobStatus id st (Q : result unit -> World -> Prop) w :
  keyed (tbl w) ->
  (forall r w', only_tbl w w' ->
     write_of (applied (status_set st) id) (tbl w) r (tbl w') -> Q r w') ->
  wp_go (UpdateJobStatus id st) Q w.
Proof.
  intros Hk HQ. apply wp_bind, wp_Now. intros now w1 (Ht & Hrd & Hm).
  apply (wp_update (status_set st) _ _
    (fun r => match r with Ok _ => Ok tt | Err e => Err ("update job status: " +:+ e) end)).
  - by rewrite Ht.
  - intros dbnow j. by exists now, dbnow.
  - eauto.
  - eauto.
  - intros r w2 [? ?] Hw. apply HQ; [split; congruence|]. by rewrite Ht in Hw.
Qed.

Lemma wp_UpdateJobError id st rc msg (Q : result unit -> World -> Prop) w :
  keyed (tbl w) ->
  (forall r w', only_tbl w w' ->
     write_of (applied (error_set st rc msg) id) (tbl w) r (tbl w') -> Q r w') ->
  wp_go (UpdateJobError id st rc msg) Q w.
Proof.
  intros Hk HQ. unfold UpdateJobError.
  apply (wp_update (error_set st rc msg) _ _
    (fun r => match r with Ok _ => Ok tt | Err e => Err ("update job error: " +:+ e) end));
    eauto.
  intros dbnow j. by exists dbnow.
Qed.

End Storage.

(** ** Filters *)

(** The reference meaning of a [ListFilter]: every non-empty field must match. *)
Definition matches (f : ListFilter) (j : Job) : bool :=
  (bool_decide (f_Status f = "") || bool_decide (Status j = f_Status f)) &&
  (bool_decide (f_Queue f = "") || bool_decide (Queue j = f_Queue f)) &&
  (bool_decide (f_Type f = "") || bool_decide (JobType j = f_Type f)).

(** The dynamically numbered placeholders always refer to the right arguments: whatever
    subset of the filters is set, and whatever is appended to the arguments later, the built
    [WHERE] clause selects exactly the jobs that match the filter... *)
Lemma build_where_matches f extra j :
  let q := build_where f in where_holds (q_where q) (q_args q ++ extra) j = matches f j.
Proof.
  unfold build_where, add_clause, matches.
  destruct (bool_decide (f_Status f = "")), (bool_decide (f_Queue f = "")),
    (bool_decide (f_Type f = "")); unfold where_holds, clause_holds; simpl;
    rewrite ?andb_true_r, ?andb_assoc; done.
Qed.

(** ... and the two placeholders after it are bound to the limit and the offset. *)
Lemma build_where_limit f lim off :
  let q := build_where f in let args := q_args q ++ [AInt lim; AInt off] in
  int_arg args (q_argIdx q) = lim /\ int_arg args (q_argIdx q + 1) = off.
Proof. unfold build_where, add_clause. by repeat case_bool_decide. Qed.

(** ** Deletion by key *)

Lemma matching_by_id t id (P : Job -> bool) :
  keyed t ->
  matching (fun j => by_id id j && P j) t =
  match t !! id with Some j => if P j then 1 else 0 | None => 0 end%Z.
Proof.
  intros Hk. unfold matching.
  rewrite (list_filter_iff _ (fun j => P j = true /\ by_id id j = true))
    by (intros j; rewrite andb_true_iff; tauto).
  rewrite <- list_filter_filter, filter_by_id by done.
  destruct (t !! id) as [j|]; [|done]. simpl option_list. rewrite filter_cons, filter_nil.
  case_decide as HP; [by rewrite HP|]. by apply not_true_is_false in HP as ->.
Qed.

Lemma sql_delete_by_id t id (P : Job -> bool) :
  keyed t ->
  sql_delete (fun j => by_id id j && P j) t =
  match t !! id with Some j => if P j then delete id t else t | None => t end.
Proof.
  intros Hk. unfold sql_delete.
  assert (Hcond : forall i j, t !! i = Some j -> by_id id j = bool_decide (i = id)).
  { intros i j Hi. pose proof (Hk _ _ Hi) as Hid. simpl in Hid. by subst. }
  apply map_eq. intros i. rewrite map_lookup_filter.
  destruct (t !! i) as [j|] eqn:Hi; simpl.
  - rewrite (Hcond i j Hi). case_bool_decide as Hid; simpl.
    + subst i. rewrite Hi. destruct (P j); simpl; [by rewrite lookup_delete_eq|done].
    + destruct (t !! id) as [j'|]; [destruct (P j')|]; rewrite ?lookup_delete_ne by done;
        done.
  - destruct (t !! id) as [j'|] eqn:Hj'; [destruct (P j')|]; try done.
    rewrite lookup_delete_ne by congruence. done.
Qed.

(** ** Sums over groups *)

Lemma filter_either {A} (P1 P2 P : A -> Prop) `{!forall x, Decision (P1 x)}
    `{!forall x, Decision (P2 x)} `{!forall x, Decision (P x)} (l : list A) :
  (forall x, P x <-> P1 x \/ P2 x) -> (forall x, P1 x -> ~ P2 x) ->
  length (filter P l) = length (filter P1 l) + length (filter P2 l).
Proof.
  intros Hor Hdis. induction l as [|x l IH]; [done|]. rewrite !filter_cons.
  specialize (Hor x). specialize (Hdis x).
  do 3 case_decide; simpl; rewrite ?IH; try lia; tauto.
Qed.

(** The counts of the groups whose key satisfies [P]. *)
Definition sum_groups {K} (P : K -> Prop) `{!forall k, Decision (P k)} (gs : list (K * Z)) : Z :=
  foldr (fun g n => if decide (P g.1) then g.2 + n else n)%Z 0%Z gs.

Section Groups.
Context {K : Type} `{EqDecision K} (key : Job -> K) (P : K -> Prop).
Context `{!forall k, Decision (P k)}.

Lemma sum_groups_part jobs gs :
  (forall k c, (k, c) ∈ gs -> c = Z.of_nat (length (filter (fun j => key j = k) jobs))) ->
  NoDup gs.*1 ->
  sum_groups P gs =
  Z.of_nat (length (filter (fun j => P (key j) /\ key j ∈ gs.*1) jobs)).
Proof.
  induction gs as [|[k c] gs IH]; intros Hc Hnd; csimpl.
  - induction jobs as [|j jobs IHj]; [done|]. rewrite filter_cons_False; [apply IHj|].
    + intros k c Hk. by apply elem_of_nil in Hk.
    + intros [_ Hj]. by apply elem_of_nil in Hj.
  - apply NoDup_cons in Hnd as [Hq Hnd]. fold (sum_groups P gs).
    rewrite IH by (try done; intros; apply Hc; by right).
    rewrite (Hc k c) by left. case_decide as Hst.
    + rewrite (filter_either (fun j => key j = k) (fun j => P (key j) /\ key j ∈ gs.*1)
        (fun j => P (key j) /\ key j ∈ k :: gs.*1)); [lia|..].
      * intros j. rewrite elem_of_cons. naive_solver.
      * intros j -> [_ Hin]. by apply Hq.
    + do 2 f_equal. apply list_filter_iff. intros j. rewrite elem_of_cons. naive_solver.
Qed.

(** They add up to the number of jobs whose key satisfies it. *)
Lemma sum_groups_exact jobs gs :
  groups key jobs gs ->
  sum_groups P gs = Z.of_nat (length (filter (fun j => P (key j)) jobs)).
Proof.
  intros [Hnd Hgs]. rewrite (sum_groups_part jobs); [|by intros k c [? _]%Hgs|done].
  do 2 f_equal. apply filter_iff_in. intros j Hj. split; [by intros [? _]|].
  intros HP. split; [done|]. apply list_elem_of_fmap.
  eexists (key j, _). split; [done|]. apply Hgs. split; [reflexivity|].
  assert (j ∈ filter (fun j' => key j' = key j) jobs) as Hin by (by apply list_elem_of_filter).
  destruct (filter _ jobs); [by apply elem_of_nil in Hin|simpl; lia].
Qed.

End Groups.

Section StorageFacts.
Context `{PG : Postgres} `{RD : Redis} `{HO : Host}.

(** ** The methods when no call fails *)

Lemma wpok_GetJob id (Q : result Job -> World -> Prop) w :
  keyed (tbl w) ->
  (forall r w', same w w' ->
     r = match tbl w !! id with
         | Some j => Ok j | None => Err (scanJob_err "no rows in result set") end -> Q r w') ->
  wpok_go (GetJob id) Q w.
Proof.
  intros Hk HQ. apply wpok_bind, wpok_pg. intros r w' [Ht Hr] Hrd Hm [l ->]. apply wpok_ret.
  apply HQ; [done|]. destruct (Hr _ eq_refl) as (_ & page & Hsel & Hdel).
  apply selects_by_id in Hsel; [|done]. subst page.
  assert (l = option_list (tbl w !! id)) as ->.
  { destruct (scan_delivered Datatypes.id _ l _ Hdel) as [_ Hpage];
      [apply scan_rows_ok|by apply Hpage]. }
  by destruct (tbl w !! id).
Qed.

Lemma CreateJob_all_ok job w :
  all_ok_go (CreateJob job) w -> is_ok (run_go (CreateJob job) w).1 = true.
Proof.
  intros Hok. refine (wpok_run exec answered (CreateJob job) (fun r _ => is_ok r = true) w Hok _).
  apply wpok_bind, wpok_pg. intros r w' _ _ _ Hr. apply wpok_ret. simpl in r, Hr. by destruct r.
Qed.

Lemma wpok_update {A} (f : Job -> Job -> Prop) set id (k : result Z -> result A)
    (Q : result A -> World -> Prop) w :
  keyed (tbl w) -> (forall now j, f j (set now j)) ->
  (forall w' n, only_tbl w w' -> applied f id (tbl w) (tbl w') -> Q (k (Ok n)) w') ->
  wpok_go (bind (pg (UPDATE_jobs set (by_id id))) (fun r => Ret (k r))) Q w.
Proof.
  intros Hk Hf HQ. apply wpok_bind, wpok_pg. intros r w' Hs Hrd Hm Hok. apply wpok_ret.
  simpl in r, Hok. destruct r as [n|]; [|done]. apply HQ; [done|].
  eapply updates_applied; eauto.
Qed.

Lemma wpok_UpdateJobStatus id st (Q : result unit -> World -> Prop) w :
  keyed (tbl w) ->
  (forall w', only_tbl w w' -> applied (status_set st) id (tbl w) (tbl w') -> Q (Ok tt) w') ->
  wpok_go (UpdateJobStatus id st) Q w.
Proof.
  intros Hk HQ. apply wpok_bind, wp_wpok, wp_Now. intros now w1 (Ht & Hrd & Hm).
  apply (wpok_update (status_set st) _ _
    (fun r => match r with Ok _ => Ok tt | Err e => Err ("update job status: " +:+ e) end)).
  - by rewrite Ht.
  - intros dbnow j. by exists now, dbnow.
  - intros w2 _ [? ?] Hw. apply HQ; [split; congruence|]. by rewrite Ht in Hw.
Qed.

Lemma wpok_UpdateJobError id st rc msg (Q : result unit -> World -> Prop) w :
  keyed (tbl w) ->
  (forall w', only_tbl w w' -> applied (error_set st rc msg) id (tbl w) (tbl w') ->
     Q (Ok tt) w') ->
  wpok_go (UpdateJobError id st rc msg) Q w.
Proof.
  intros Hk HQ. unfold UpdateJobError.
  apply (wpok_update (error_set st rc msg) _ _
    (fun r => match r with Ok _ => Ok tt | Err e => Err ("update job error: " +:+ e) end));
    eauto.
  intros dbnow j. by exists dbnow.
Qed.

(** The row an update of an existing key leaves behind. *)
Lemma applied_row (f : Job -> Job -> Prop) id t t' j :
  applied f id t t' -> t !! id = Some j ->
  exists j', f j j' /\ row_fits j' /\ t' = <[id := j']> t.
Proof. unfold applied. intros Ha Hj. by rewrite Hj in Ha. Qed.

Lemma write_of_row {A} (f : Job -> Job -> Prop) id t (r : result A) t' j :
  write_of (applied f id) t r t' -> t !! id = Some j ->
  exists j', (j' = j \/ f j j') /\ t' = <[id := j']> t.
Proof.
  intros Hw Hj. assert (Ht : t = <[id := j]> t) by (symmetry; by apply insert_id).
  destruct r; simpl in Hw; [|destruct Hw as [-> |Hw]; [by exists j; auto|]];
    destruct (applied_row _ _ _ _ _ Hw Hj) as (j' & ? & _ & ?); exists j'; auto.
Qed.

(** (C18) A job created with success is stored under a fresh identifier with the fields of the
    request (payload and [run_at] in their stored form), not started, not completed and
    without error; every other row is kept; and reading it back, if the read is answered,
    returns that very row. *)
Theorem CreateJob_GetJob_roundtrip job j w w1 :
  keyed (tbl w) -> run_go (CreateJob job) w = (Ok j, w1) ->
  tbl w !! ID j = None /\ tbl w1 = <[ID j := j]> (tbl w) /\
  (Queue j, JobType j, Status j, MaxRetries j, RetryCount j) =
    (Queue job, JobType job, Status job, MaxRetries job, RetryCount job) /\
  Payload j = pg_jsonb (Payload job) /\ RunAt j = pg_ts <$> RunAt job /\
  (StartedAt j, CompletedAt j, JobError j) = (None, None, "") /\ row_fits j /\
  (forall j' w2, run_go (GetJob (ID j)) w1 = (Ok j', w2) -> j' = j /\ tbl w2 = tbl w1).
Proof.
  intros Hk Hrun.
  assert (Hins : inserts (Queue job) (JobType job) (Payload job) (Status job)
    (MaxRetries job) (RetryCount job) (RunAt job) (tbl w) j (tbl w1)).
  { wp_start Hrun. apply wp_CreateJob. by intros r w' _ Hins ->. }
  destruct Hins as (id & now & Hid & -> & Hfits & Ht). simpl in *.
  split_and!; try done. intros j' w2 Hget.
  wp_start Hget. apply wp_GetJob; [rewrite Ht; by apply keyed_insert|].
  intros r w' (? & _) Hr ->. specialize (Hr j' eq_refl).
  rewrite Ht, lookup_insert_eq in Hr. by injection Hr.
Qed.

(** (C19) [DeleteJob] removes at most the row with the given identifier, and only when its
    status is [dead]; it reports success exactly for such a removal, and its "not found"
    error means the table is unchanged and holds no dead job of that identifier. *)
Theorem DeleteJob_only_dead id w r w' :
  keyed (tbl w) -> run_go (DeleteJob id) w = (r, w') ->
  let removed := exists j, tbl w !! id = Some j /\ Status j = StatusDead /\
                   tbl w' = delete id (tbl w) in
  match r with
  | Ok _ => removed
  | Err e =>
      (tbl w' = tbl w \/ removed) /\
      (e = "job not found or not in dead status" ->
       tbl w' = tbl w /\ forall j, tbl w !! id = Some j -> Status j <> StatusDead)
  end.
Proof.
  intros Hk Hrun removed. unfold removed. clear removed.
  assert (Hdel : forall n t', deletes (fun j => by_id id j && bool_decide (Status j = StatusDead))
      (tbl w) n t' ->
    (n <> 0%Z /\ exists j, tbl w !! id = Some j /\ Status j = StatusDead /\
                   t' = delete id (tbl w)) \/
    (n = 0%Z /\ t' = tbl w /\ forall j, tbl w !! id = Some j -> Status j <> StatusDead)).
  { intros n t' [-> ->]. rewrite matching_by_id, sql_delete_by_id by done.
    destruct (tbl w !! id) as [j|]; [case_bool_decide|]; naive_solver. }
  wp_start Hrun. apply wp_bind, wp_pg. intros r0 w0 Hs _ _. apply wp_ret. simpl in r0.
  destruct r0 as [n|e].
  - destruct (Hdel _ _ Hs) as [[Hn Hrem]|[-> Hnone]].
    + rewrite (proj2 (Z.eqb_neq n 0) Hn). exact Hrem.
    + destruct Hnone as [-> ?]. split; [by left|done].
  - split; [|done]. destruct Hs as [|[n Hs]]; [by left|].
    destruct (Hdel _ _ Hs) as [[_ Hrem]|[_ [Hnone _]]]; [by right|by left].
Qed.

(** ** Lists of jobs *)

(** What a listing returns: the matching rows in the order asked for, and the beginning of
    the page cut out of them. *)
Definition lists (cond : Job -> bool) (o : OrderBy) (off lim : Z) (t : Table)
    (jobs : list Job) : Prop :=
  (0 <= off)%Z /\
  exists l, l ≡ₚ filter (fun j => cond j = true) (rows_of t) /\
    StronglySorted (order_le o) l /\ jobs `prefix_of` slice off lim l.

Lemma lists_elem cond o off lim t jobs j :
  lists cond o off lim t jobs -> j ∈ jobs ->
  cond j = true /\ exists id, t !! id = Some j.
Proof.
  intros (_ & l & Hl & _ & [k Hk]) Hj.
  assert (Hin : j ∈ slice off lim l) by (rewrite Hk; apply elem_of_app; by left).
  apply elem_of_slice in Hin. rewrite Hl, list_elem_of_filter, elem_of_rows_of in Hin. done.
Qed.

Lemma lists_NoDup cond o off lim t jobs :
  keyed t -> lists cond o off lim t jobs -> NoDup jobs.
Proof.
  intros Hk (_ & l & Hl & _ & [k Hsl]).
  assert (Hnd : NoDup (slice off lim l)).
  { apply NoDup_slice. rewrite Hl. by apply NoDup_filter, keyed_NoDup. }
  rewrite Hsl in Hnd. by apply NoDup_app in Hnd as [? _].
Qed.

(** In the middle of a listing: a row of the table that did not occur before. *)
Lemma lists_next cond o off lim t pre j post :
  keyed t -> lists cond o off lim t (pre ++ j :: post) ->
  t !! ID j = Some j /\ j ∉ pre.
Proof.
  intros Hk Hl. split.
  - destruct (lists_elem _ _ _ _ _ _ j Hl) as [_ [id Hid]];
      [rewrite elem_of_app, elem_of_cons; auto|]. by rewrite (Hk _ _ Hid).
  - intros Hj. apply lists_NoDup in Hl; [|done].
    apply NoDup_app in Hl as (_ & Hdis & _). destruct (Hdis j Hj). left.
Qed.

Lemma lists_ext cond cond' o off lim t jobs :
  (forall j, cond j = cond' j) ->
  lists cond o off lim t jobs -> lists cond' o off lim t jobs.
Proof.
  intros Hext (Hoff & l & Hl & Hrest). split; [done|]. exists l. split; [|done].
  rewrite (list_filter_iff _ (fun j => cond j = true)); [done|]. intros j. by rewrite Hext.
Qed.

Lemma selects_lists cond o lim off t rs wrap jobs :
  (exists page, selects cond (Some o) (Some (lim, off)) t page /\ delivered page rs) ->
  (0 <= off)%Z -> scan_rows wrap (rows_read rs) = Ok jobs ->
  lists cond o off lim t jobs.
Proof.
  intros (page & (l & Hl & Hs & ->) & Hdel) Hoff Hscan. split; [done|]. exists l.
  split_and!; [done|by apply Hs|]. by apply (scan_delivered _ _ _ _ Hdel) in Hscan as [? _].
Qed.

Lemma wp_query_jobs ctx cond o (Q : result (list Job) -> World -> Prop) w :
  (forall r w', same w w' ->
     (forall jobs, r = Ok jobs -> lists cond o 0 100 (tbl w) jobs) -> Q r w') ->
  wp_go (query_jobs ctx cond o) Q w.
Proof.
  intros HQ. apply wp_bind, wp_pg. intros r w' [Ht Hr] Hrd Hm. simpl in r.
  destruct r as [rs|e]; apply wp_ret, HQ; try done.
  destruct (Hr rs eq_refl) as [_ Hpage]. intros jobs Hscan.
  eapply selects_lists; [exact Hpage|lia|exact Hscan].
Qed.

(** The whole first page, when nothing fails. *)
Definition lists_all (cond : Job -> bool) (o : OrderBy) (lim : Z) (t : Table)
    (jobs : list Job) : Prop :=
  exists l, l ≡ₚ filter (fun j => cond j = true) (rows_of t) /\
    StronglySorted (order_le o) l /\ jobs = slice 0 lim l.

Lemma lists_all_lists cond o lim t jobs :
  lists_all cond o lim t jobs -> lists cond o 0 lim t jobs.
Proof. intros (l & Hl & Hs & ->). split; [lia|]. by exists l. Qed.

Lemma wpok_query_jobs ctx cond o (Q : result (list Job) -> World -> Prop) w :
  (forall jobs w', same w w' -> lists_all cond o 100 (tbl w) jobs -> Q (Ok jobs) w') ->
  wpok_go (query_jobs ctx cond o) Q w.
Proof.
  intros HQ. apply wpok_bind, wpok_pg. intros r w' [Ht Hr] Hrd Hm [jobs ->]. simpl.
  rewrite scan_rows_ok. apply wpok_ret, HQ; [done|].
  destruct (Hr _ eq_refl) as (_ & page & (l & Hl & Hs & ->) & Hdel).
  exists l. split_and!; [done|by apply Hs|].
  destruct (scan_delivered Datatypes.id _ jobs _ Hdel) as [_ Hpage];
    [apply scan_rows_ok|by apply Hpage].
Qed.

Lemma wpok_queue_stats ctx cond by_queue (Q : result (list QueueStat) -> World -> Prop) w :
  (forall gs w', same w w' ->
     groups (fun j => (Queue j, Status j))
       (filter (fun j => cond j = true) (rows_of (tbl w))) gs ->
     Q (Ok (to_QueueStat <$> gs)) w') ->
  wpok_go (queue_stats ctx cond by_queue) Q w.
Proof.
  intros HQ. apply wpok_bind, wpok_pg. intros r w' [Ht Hr] Hrd Hm [gs ->]. simpl.
  rewrite scan_rows_ok. apply wpok_ret, HQ; [done|].
  destruct (Hr _ eq_refl) as (page & Hg & Hdel).
  destruct (scan_delivered Datatypes.id _ gs _ Hdel) as [_ Hpage]; [apply scan_rows_ok|].
  by rewrite (Hpage eq_refl).
Qed.

Lemma wpok_GetTimeSeries duration interval (Q : result (list TimeSeriesStat) -> World -> Prop) w :
  (forall gs w', same w w' ->
     groups (fun j => (pg_date_trunc interval (UpdatedAt j), Status j))
       (filter (fun j => in_series duration (db_now w) j = true) (rows_of (tbl w))) gs ->
     StronglySorted bucket_le gs -> Q (Ok (to_TimeSeriesStat <$> gs)) w') ->
  wpok_go (GetTimeSeries duration interval) Q w.
Proof.
  intros HQ. apply wpok_bind, wpok_pg. intros r w' [Ht Hr] Hrd Hm [gs ->]. simpl.
  rewrite scan_rows_ok. apply wpok_ret.
  destruct (Hr _ eq_refl) as (page & Hg & Hs & Hdel).
  destruct (scan_delivered Datatypes.id _ gs _ Hdel) as [_ Hpage]; [apply scan_rows_ok|].
  rewrite (Hpage eq_refl). by apply HQ.
Qed.

Lemma matching_ext cond cond' t :
  (forall j, cond j = cond' j) -> matching cond t = matching cond' t.
Proof.
  intros Hext. unfold matching. do 2 f_equal. apply list_filter_iff. intros j. by rewrite Hext.
Qed.

(** The page and the limit [ListJobs] works with. *)
Definition eff_page (f : ListFilter) : Z := if (f_Page f <? 1)%Z then 1%Z else f_Page f.
Definition eff_limit (f : ListFilter) : Z := if (f_Limit f <? 1)%Z then 20%Z else f_Limit f.

Definition listed (f : ListFilter) (t : Table) (jobs : list Job) (total : Z) : Prop :=
  total = matching (matches f) t /\
  lists (matches f) CREATED_AT_DESC (wrap64 ((eff_page f - 1) * eff_limit f)) (eff_limit f)
    t jobs.

Lemma wp_ListJobs f (Q : result (list Job * Z) -> World -> Prop) w :
  (forall r w', same w w' ->
     (forall jobs total, r = Ok (jobs, total) -> listed f (tbl w) jobs total) -> Q r w') ->
  wp_go (ListJobs f) Q w.
Proof.
  intros HQ. unfold ListJobs. apply wp_bind, wp_pg.
  intros c w1 [Ht1 Hc] Hrd1 Hm1. simpl in c. destruct c as [total|e]; [|by apply wp_ret, HQ].
  apply wp_bind, wp_pg. intros r w2 [Ht2 Hr] Hrd2 Hm2. simpl in r.
  assert (Hsame : same w w2) by (split_and!; congruence).
  destruct r as [rs|e]; [|by apply wp_ret, HQ].
  destruct (scan_rows _ (rows_read rs)) as [jobs|e] eqn:Hscan; apply wp_ret, HQ; try done.
  intros jobs' total' [= <- <-]. destruct (Hr rs eq_refl) as [Hlo Hpage].
  specialize (Hlo _ _ eq_refl) as [_ Hoff]. specialize (Hc total eq_refl) as ->.
  pose proof (build_where_matches f) as Hw.
  destruct (build_where_limit f (eff_limit f) (wrap64 ((eff_page f - 1) * eff_limit f)))
    as [Hlim Hoffs]. unfold eff_limit, eff_page in Hlim, Hoffs.
  rewrite Hlim, Hoffs in Hpage. rewrite Hoffs in Hoff. rewrite Ht1 in Hpage. split.
  - apply matching_ext. intros j. rewrite <- (Hw [] j). by rewrite app_nil_r.
  - eapply lists_ext; [intros j; apply Hw|]. eapply selects_lists; eassumption.
Qed.

Lemma wpok_Storage_ListJobs f (Q : result (list Job * Z) -> World -> Prop) w :
  in_int64 ((eff_page f - 1) * eff_limit f) ->
  (forall l w', same w w' ->
     l ≡ₚ filter (fun j => matches f j = true) (rows_of (tbl w)) ->
     StronglySorted (order_le CREATED_AT_DESC) l ->
     Q (Ok (slice ((eff_page f - 1) * eff_limit f) (eff_limit f) l, Z.of_nat (length l))) w') ->
  wpok_go (ListJobs f) Q w.
Proof.
  intros Hoff HQ. unfold ListJobs. apply wpok_bind, wpok_pg.
  intros c w1 [Ht1 Hc] Hrd1 Hm1 Hok. simpl in c, Hok. destruct c as [total|e]; [|done].
  specialize (Hc total eq_refl). apply wpok_bind, wpok_pg.
  intros r w2 [Ht2 Hr] Hrd2 Hm2 [jobs ->]. simpl. rewrite scan_rows_ok. apply wpok_ret.
  destruct (Hr _ eq_refl) as (_ & page & (l & Hl & Hs & Hpage) & Hdel).
  destruct (scan_delivered Datatypes.id _ jobs _ Hdel) as [_ Hjobs]; [apply scan_rows_ok|].
  specialize (Hjobs eq_refl). subst jobs.
  destruct (build_where_limit f (eff_limit f) (wrap64 ((eff_page f - 1) * eff_limit f)))
    as [Hlim Hoffs]. unfold eff_limit, eff_page in Hlim, Hoffs. rewrite Hlim, Hoffs in Hpage.
  fold (eff_page f) (eff_limit f) in Hpage. rewrite wrap64_id in Hpage by done. subst page.
  assert (Hm : l ≡ₚ filter (fun j => matches f j = true) (rows_of (tbl w))).
  { rewrite Hl, Ht1. erewrite list_filter_iff; [done|]. intros j. by rewrite build_where_matches. }
  assert (total = Z.of_nat (length l)) as ->.
  { rewrite Hc, Hm. unfold matching. do 2 f_equal. apply list_filter_iff. intros j.
    by rewrite <- (build_where_matches f [] j), app_nil_r. }
  apply HQ; [split_and!; congruence|done|by apply Hs].
Qed.

(** (C20) A successful [ListJobs] reports the exact number of jobs matching the filter (each
    non-empty field must be equal), and returns the beginning of the requested page of those
    jobs, newest first: only matching rows of the table, none twice, at most [limit] of them;
    nothing is changed. *)
Theorem ListJobs_correct f jobs total w w' :
  keyed (tbl w) -> run_go (ListJobs f) w = (Ok (jobs, total), w') ->
  total = matching (matches f) (tbl w) /\
  (exists l, l ≡ₚ filter (fun j => matches f j = true) (rows_of (tbl w)) /\
     StronglySorted (order_le CREATED_AT_DESC) l /\
     jobs `prefix_of` slice (wrap64 ((eff_page f - 1) * eff_limit f)) (eff_limit f) l) /\
  (forall j, j ∈ jobs -> matches f j = true /\ tbl w !! ID j = Some j) /\
  NoDup jobs /\ (Z.of_nat (length jobs) <= eff_limit f)%Z /\ same w w'.
Proof.
  intros Hk Hrun. wp_start Hrun. apply wp_ListJobs. intros r w1 Hsame Hl ->.
  destruct (Hl _ _ eq_refl) as [Htot Hlists].
  split_and!; [done|by destruct Hlists| |by eapply lists_NoDup| |done].
  - intros j Hj. destruct (lists_elem _ _ _ _ _ _ _ Hlists Hj) as [? [id Hid]].
    split; [done|]. by rewrite (Hk _ _ Hid).
  - destruct Hlists as (_ & l & _ & _ & Hp). apply prefix_length in Hp.
    pose proof (slice_length (wrap64 ((eff_page f - 1) * eff_limit f)) (eff_limit f) l).
    unfold eff_limit in *. destruct (Z.ltb_spec (f_Limit f) 1); lia.
Qed.

End StorageFacts.

(** ** Examples on the reference services *)

Definition ex_table : Table :=
  sim_table [sim_job 1 "email" "send" StatusPending 3 0 None None 5;
             sim_job 2 "email" "send" StatusDead 3 3 None None 7;
             sim_job 3 "report" "gen" StatusPending 3 0 None None 9].

Definition ex_world : World := sim_world ex_table [] rd_empty [] 1000 [].

Definition ex_new : Job := sim_job 0 "email" "send" StatusPending 5 0 None None 0.

Definition ex_created : Job := new_row (uuid_of_N 1000) 1000 "email" "send" "{}"
  StatusPending 5 0 None.

Lemma ex_keyed : keyed ex_table.
Proof. apply (bool_decide_unpack _). by vm_compute. Qed.

Lemma CreateJob_GetJob_roundtrip_witness :
  run_go (CreateJob ex_new) ex_world = (Ok ex_created, (run_go (CreateJob ex_new) ex_world).2) /\
  MaxRetries ex_created = 5%Z /\
  tbl (run_go (CreateJob ex_new) ex_world).2 = <[ID ex_created := ex_created]> ex_table.
Proof.
  assert (Hrun : run_go (CreateJob ex_new) ex_world =
    (Ok ex_created, (run_go (CreateJob ex_new) ex_world).2))
    by (apply run_split; vm_compute; reflexivity).
  pose proof (CreateJob_GetJob_roundtrip ex_new ex_created ex_world _ ex_keyed Hrun)
    as (_ & Ht & Hf & _).
  split; [exact Hrun|]. split; [reflexivity|exact Ht].
Defined.

Lemma DeleteJob_only_dead_witness :
  exists j, ex_table !! uuid_of_N 2 = Some j /\ Status j = StatusDead /\
    tbl (run_go (DeleteJob (uuid_of_N 2)) ex_world).2 = delete (uuid_of_N 2) ex_table.
Proof.
  apply (DeleteJob_only_dead (uuid_of_N 2) ex_world (Ok tt) _ ex_keyed).
  apply run_split. vm_compute. reflexivity.
Defined.

Definition ex_filter : ListFilter := MkFilter "" "email" "" 1 10.

Lemma ListJobs_correct_witness :
  2%Z = matching (matches ex_filter) ex_table /\
  forall j, j ∈ [sim_job 2 "email" "send" StatusDead 3 3 None None 7;
                 sim_job 1 "email" "send" StatusPending 3 0 None None 5] ->
    matches ex_filter j = true.
Proof.
  destruct (ListJobs_correct ex_filter
    [sim_job 2 "email" "send" StatusDead 3 3 None None 7;
     sim_job 1 "email" "send" StatusPending 3 0 None None 5] 2 ex_world
    (run_go (ListJobs ex_filter) ex_world).2 ex_keyed) as (Htot & _ & Hj & _).
  - apply run_split. vm_compute. reflexivity.
  - split; [exact Htot|]. intros j Hin. apply (Hj j Hin).
Defined.

(** [ListJobs] does not look at [rows.Err()]: when the connection breaks while the rows
    are read, it returns the rows read so far as a success.  Here a page of ten with two
    matching jobs comes back with one job, no error, and a total of two. *)
Theorem ListJobs_hides_broken_stream :
  exists (w : World) jobs, keyed (tbl w) /\
    (run_go (ListJobs ex_filter) w).1 = Ok (jobs, 2%Z) /\ length jobs = 1 /\
    (Z.of_nat (length jobs) < 2 < f_Limit ex_filter)%Z.
Proof.
  exists (sim_world ex_table [Fine; Cut 1] rd_empty [] 1000 []),
    [sim_job 2 "email" "send" StatusDead 3 3 None None 7].
  split; [exact ex_keyed|]. split; [vm_compute; reflexivity|done].
Qed.
