(* ===== verification/Queue.v ===== *)
(** * The Redis queue ([internal/queue/redis.go])

    Job identifiers wait in one list per queue, pushed on the left and popped on the right,
    and in one sorted set of scheduled jobs scored by their due second. *)

From S2P Require Import Prelude Prog Model Services Sim.

Local Open Scope string_scope.
Local Open Scope go_scope.
Local Open Scope list_scope.

Definition scheduledSetKey : string := "goqueue:scheduled".

Definition queueKey (queue : string) : string := "goqueue:queue:" +:+ queue.

(** [go-redis] is an argument. *)
Record RedisQueue (Client : Type) := MkRedisQueue { client : Client }.
Arguments MkRedisQueue {Client} client.

Definition NewRedisQueue {Client} (NewClient : string -> Client) (Ping : Client -> result unit)
    (addr : string) : result (RedisQueue Client) :=
  let client := NewClient addr in
  match Ping client with
  | Err e => Err ("connect to redis: " +:+ e)
  | Ok _ => Ok (MkRedisQueue client)
  end.

(** The Lua script, with [KEYS[1]] and [ARGV[1]]. *)
Definition getDueJobsScript (key : string) (max : Z) : Lua (list string) :=
  let* results := trigger (ZRANGEBYSCORE key max) in
  if (0 <? Z.of_nat (length results))%Z
  then trigger (ZREMRANGEBYSCORE key max) ;;; Ret results
  else Ret results.

(** [.Err()] of a command whose value is not used. *)
Definition reply_err {A} (r : reply A) : result unit :=
  match r with RVal _ => Ok tt | RNil => Err "redis: nil" | RErr e => Err e end.

Definition QueueLength (queueName : string) : go (result Z) :=
  let* r := rd (LLEN (queueKey queueName)) in
  Ret (match r with RVal n => Ok n | RNil => Err "redis: nil" | RErr e => Err e end).

Definition Push (queue jobID : string) : go (result unit) :=
  let* r := rd (LPUSH (queueKey queue) jobID) in
  Ret (reply_err r).

(** [""] stands for a timeout without any job. *)
Definition Pop (queues : list string) (timeout : Duration) : go (result string) :=
  let keys := queueKey <$> queues in
  let* r := rd (BRPOP keys timeout) in
  Ret (match r with
       | RNil => Ok ""
       | RErr e => Err ("brpop: " +:+ e)
       | RVal (_, v) => Ok v
       end).

Definition Schedule (jobID : string) (runAt : Time) : go (result unit) :=
  let* r := rd (ZADD scheduledSetKey (Unix runAt) jobID) in
  Ret (reply_err r).

Definition GetDueJobs (now : Time) : go (result (list string)) :=
  let* r := rd (EVAL (getDueJobsScript scheduledSetKey (Unix now))) in
  Ret (match r with
       | RNil => Ok []
       | RErr e => Err ("get due jobs: " +:+ e)
       | RVal ids => Ok ids
       end).

#[global] Instance queueKey_inj : Inj (=) (=) queueKey.
Proof. intros a b Hab. unfold queueKey in Hab. by simplify_eq. Qed.

(** ** Effects on the data *)

Definition pushed (q id : string) (d : RdData) : RdData :=
  set_list (queueKey q) (id :: rd_list d (queueKey q)) d.

Definition scheduled (id : string) (t : Time) (d : RdData) : RdData :=
  set_zset scheduledSetKey (<[id := Unix t]> (rd_zset d scheduledSetKey)) d.

(** The scheduled jobs. *)
Abbreviation schedule_of d := (rd_zset d scheduledSetKey).

Lemma rd_list_set k k' l d :
  rd_list (set_list k l d) k' = if decide (k = k') then l else rd_list d k'.
Proof. unfold rd_list, set_list. simpl. rewrite lookup_insert. by case_decide. Qed.

Lemma rd_zset_set k k' z d :
  rd_zset (set_zset k z d) k' = if decide (k = k') then z else rd_zset d k'.
Proof. unfold rd_zset, set_zset. simpl. rewrite lookup_insert. by case_decide. Qed.

(** One execution of the script: the members due by [max], by score, are returned, and what
    stays is the rest. *)
Definition taken (max : Z) (d : RdData) (ids : list string) (d' : RdData) : Prop :=
  ids ≡ₚ (map_to_list (due max (schedule_of d))).*1 /\
  StronglySorted (fun a b => forall x y, schedule_of d !! a = Some x ->
    schedule_of d !! b = Some y -> (x <= y)%Z) ids /\
  schedule_of d' = not_due max (schedule_of d) /\ rd_lists d' = rd_lists d.

Lemma not_due_all max z : due max z = ∅ -> not_due max z = z.
Proof.
  intros Hdue. apply map_eq. intros m. apply option_eq. intros x. unfold not_due.
  rewrite map_lookup_filter_Some. split; [by intros []|]. intros Hm. split; [done|].
  simpl. intros Hx. assert (Hin : due max z !! m = Some x) by by apply map_lookup_filter_Some.
  by rewrite Hdue in Hin.
Qed.

Lemma getDueJobsScript_spec max d ids d' :
  lua_spec (getDueJobsScript scheduledSetKey max) d ids d' -> taken max d ids d'.
Proof.
  unfold getDueJobsScript. simpl. intros (ms & d1 & (-> & Hms & Hsort) & Hrest).
  destruct (Z.ltb_spec 0 (Z.of_nat (length ms))) as [Hlen|Hlen]; simpl in Hrest.
  - destruct Hrest as (n & d2 & [-> _] & -> & ->). split_and!; try done.
    by rewrite rd_zset_set, decide_True.
  - destruct Hrest as [-> ->]. split_and!; try done. symmetry. apply not_due_all.
    assert (ms = []) as -> by (destruct ms; simpl in *; [done|lia]).
    apply Permutation_nil_l in Hms. apply (map_to_list_empty_iff (due max _)).
    by destruct (map_to_list _).
Qed.

Lemma elem_of_taken max d ids d' m :
  taken max d ids d' ->
  m ∈ ids <-> exists x, schedule_of d !! m = Some x /\ (x <= max)%Z.
Proof.
  intros [Hp _]. rewrite Hp, list_elem_of_fmap. unfold due. split.
  - intros ([m' x] & -> & Hin). apply elem_of_map_to_list, map_lookup_filter_Some in Hin.
    by exists x.
  - intros (x & Hm & Hx). exists (m, x). split; [done|].
    by apply elem_of_map_to_list, map_lookup_filter_Some.
Qed.

Lemma taken_NoDup max d ids d' : taken max d ids d' -> NoDup ids.
Proof. intros [Hp _]. rewrite Hp. apply NoDup_fst_map_to_list. Qed.

Lemma taken_rest max d ids d' m x :
  taken max d ids d' ->
  schedule_of d' !! m = Some x <-> schedule_of d !! m = Some x /\ m ∉ ids.
Proof.
  intros Ht. rewrite (elem_of_taken _ _ _ _ m Ht). destruct Ht as (_ & _ & -> & _).
  unfold not_due. rewrite map_lookup_filter_Some. simpl. naive_solver.
Qed.

Lemma taken_subset max d ids d' : taken max d ids d' -> schedule_of d' ⊆ schedule_of d.
Proof.
  intros Ht. apply map_subseteq_spec. intros m x Hm.
  by apply (proj1 (taken_rest _ _ _ _ m x Ht)) in Hm as [? _].
Qed.

(** ** Proof rules *)

Section Queue.
Context `{PG : Postgres} `{RD : Redis} `{HO : Host}.

Definition only_rd (w w' : World) : Prop := tbl w' = tbl w /\ w_metrics w' = w_metrics w.

(** A Redis write that answered [r]. *)
Definition rd_write_of {A} (r : result A) (d dnew d' : RdData) : Prop :=
  match r with Ok _ => d' = dnew | Err _ => d' = d \/ d' = dnew end.

Lemma wp_Push q id (Q : result unit -> World -> Prop) w :
  (forall r w', only_rd w w' ->
     rd_write_of r (rdd w) (pushed q id (rdd w)) (rdd w') -> Q r w') ->
  wp_go (Push q id) Q w.
Proof.
  intros HQ. apply wp_bind, wp_rd. intros r w' [Hnil Hr] Ht Hm. apply wp_ret.
  apply HQ; [done|]. simpl in r. destruct r as [n| |e]; simpl in *; [apply Hr|done|].
  destruct Hr as [|[n [-> _]]]; [by left|by right].
Qed.

Lemma wp_Schedule id t (Q : result unit -> World -> Prop) w :
  (forall r w', only_rd w w' ->
     rd_write_of r (rdd w) (scheduled id t (rdd w)) (rdd w') -> Q r w') ->
  wp_go (Schedule id t) Q w.
Proof.
  intros HQ. apply wp_bind, wp_rd. intros r w' [Hnil Hr] Ht Hm. apply wp_ret.
  apply HQ; [done|]. simpl in r. destruct r as [n| |e]; simpl in *; [apply Hr|done|].
  destruct Hr as [|[n [-> _]]]; [by left|by right].
Qed.

Lemma wp_Pop queues tm (Q : result string -> World -> Prop) w :
  (forall r w', only_rd w w' ->
     match r with
     | Ok v => (exists k, pops (rdd w) (queueKey <$> queues) (k, v) (rdd w')) \/
               (v = "" /\ rdd w' = rdd w /\
                Forall (fun q => rd_list (rdd w) (queueKey q) = []) queues)
     | Err _ => rdd w' = rdd w \/
                exists kv, pops (rdd w) (queueKey <$> queues) kv (rdd w')
     end -> Q r w') ->
  wp_go (Pop queues tm) Q w.
Proof.
  intros HQ. apply wp_bind, wp_rd. intros r w' [Hr Hnil] Ht Hm. apply wp_ret.
  apply HQ; [done|]. simpl in r. destruct r as [[k v]| |e]; simpl in *; [by eauto| |done].
  right. split_and!; [done..|]. specialize (Hnil eq_refl). by rewrite Forall_fmap in Hnil.
Qed.

Lemma wp_GetDueJobs now (Q : result (list string) -> World -> Prop) w :
  (forall r w', only_rd w w' ->
     match r with
     | Ok ids => taken (Unix now) (rdd w) ids (rdd w')
     | Err _ => rdd w' = rdd w \/ exists ids, taken (Unix now) (rdd w) ids (rdd w')
     end -> Q r w') ->
  wp_go (GetDueJobs now) Q w.
Proof.
  intros HQ. apply wp_bind, wp_rd. intros r w' [Hnil Hr] Ht Hm. apply wp_ret.
  apply HQ; [done|]. simpl in r. destruct r as [ids| |e]; simpl in *; [|done|].
  - by apply getDueJobsScript_spec.
  - destruct Hr as [|[ids Hr]]; [by left|right]. exists ids. by apply getDueJobsScript_spec.
Qed.

(** ** The calls when none fails *)

Lemma wpok_Push q id (Q : result unit -> World -> Prop) w :
  (forall w', only_rd w w' -> rdd w' = pushed q id (rdd w) -> Q (Ok tt) w') ->
  wpok_go (Push q id) Q w.
Proof.
  intros HQ. apply wpok_bind, wpok_rd. intros r w' [Hnil Hr] Ht Hm Hok. apply wpok_ret.
  simpl in r. destruct r as [n| |e]; [|done|by destruct (Hok e)].
  apply HQ; [done|]. apply Hr.
Qed.

Lemma wpok_Schedule id t (Q : result unit -> World -> Prop) w :
  (forall w', only_rd w w' -> rdd w' = scheduled id t (rdd w) -> Q (Ok tt) w') ->
  wpok_go (Schedule id t) Q w.
Proof.
  intros HQ. apply wpok_bind, wpok_rd. intros r w' [Hnil Hr] Ht Hm Hok. apply wpok_ret.
  simpl in r. destruct r as [n| |e]; [|done|by destruct (Hok e)].
  apply HQ; [done|]. apply Hr.
Qed.

Lemma wpok_GetDueJobs now (Q : result (list string) -> World -> Prop) w :
  (forall ids w', only_rd w w' ->
     taken (Unix now) (rdd w) ids (rdd w') -> Q (Ok ids) w') ->
  wpok_go (GetDueJobs now) Q w.
Proof.
  intros HQ. apply wpok_bind, wpok_rd. intros r w' [Hnil Hr] Ht Hm Hok. apply wpok_ret.
  simpl in r. destruct r as [ids| |e]; simpl in *; [|done|by destruct (Hok e)].
  apply HQ; [done|]. by apply getDueJobsScript_spec.
Qed.

(** ** The queue as a FIFO *)

(** What a client means by the content of a queue: the waiting identifiers, oldest first. *)
Definition fifo (d : RdData) (q : string) : list string := reverse (rd_list d (queueKey q)).

Lemma fifo_pushed q id d q' :
  fifo (pushed q id d) q' = if decide (q = q') then fifo d q ++ [id] else fifo d q'.
Proof.
  unfold fifo, pushed. rewrite rd_list_set.
  destruct (decide (q = q')) as [->|Hne]; [|by rewrite decide_False by (by intros ?%(inj queueKey))].
  rewrite decide_True by done. by rewrite reverse_cons.
Qed.

Lemma taken_fifo max d ids d' q : taken max d ids d' -> fifo d' q = fifo d q.
Proof. intros (_ & _ & _ & Hl). unfold fifo, rd_list. by rewrite Hl. Qed.

Lemma fifo_pops d qs k v d' :
  pops d (queueKey <$> qs) (k, v) d' ->
  exists q pre post, k = queueKey q /\ qs = pre ++ q :: post /\
    Forall (fun p => fifo d p = []) pre /\ fifo d q = v :: fifo d' q /\
    (forall q', q' <> q -> fifo d' q' = fifo d q') /\ rd_zsets d' = rd_zsets d.
Proof.
  induction qs as [|q qs IH]; intros Hp; [by inversion Hp|].
  rewrite fmap_cons in Hp. inversion Hp as [k0 ks l v0 Hl|k0 ks kv d0 Hnil Hp']; subst.
  - exists q, [], qs. unfold fifo. split_and!; try done.
    + by rewrite Hl, rd_list_set, decide_True, reverse_snoc by done.
    + intros q' Hne. by rewrite rd_list_set, decide_False by (by intros ?%(inj queueKey)).
  - destruct (IH Hp') as (q0 & pre & post & -> & -> & Hpre & Hrest).
    exists q0, (q :: pre), post. split_and!; try done.
    + constructor; [by unfold fifo; rewrite Hnil|done].
    + apply Hrest.
    + apply Hrest.
    + apply Hrest.
Qed.

(** (C4) The Redis lists implement FIFO queues.  A successful [Push] appends to the named
    queue and to no other.  A successful [Pop] takes the oldest identifier of the first
    non-empty queue of its list and leaves all other queues alone, or answers [""] when all
    of them are empty.  A failed call has this effect or none. *)
Theorem queue_refines_fifo :
  (forall q id w r w', run_go (Push q id) w = (r, w') ->
     let after q' := if decide (q = q') then fifo (rdd w) q ++ [id] else fifo (rdd w) q' in
     (forall q', fifo (rdd w') q' = after q') \/
     (is_ok r = false /\ forall q', fifo (rdd w') q' = fifo (rdd w) q')) /\
  (forall qs tm w r w', run_go (Pop qs tm) w = (r, w') ->
     (exists q v pre post, qs = pre ++ q :: post /\
        Forall (fun p => fifo (rdd w) p = []) pre /\ fifo (rdd w) q = v :: fifo (rdd w') q /\
        (forall q', q' <> q -> fifo (rdd w') q' = fifo (rdd w) q') /\
        (r = Ok v \/ is_ok r = false)) \/
     (rdd w' = rdd w /\
      (is_ok r = false \/ (r = Ok "" /\ Forall (fun q => fifo (rdd w) q = []) qs)))).
Proof.
  split.
  - intros q id w r w' Hrun after. unfold after. clear after. wp_start Hrun. apply wp_Push.
    intros r w' _ Hw. assert (Hp := fun q' => fifo_pushed q id (rdd w) q').
    destruct r as [u|e]; simpl in Hw; [rewrite Hw; by left|].
    destruct Hw as [-> | ->]; [by right|by left].
  - intros qs tm w r w' Hrun. wp_start Hrun. apply wp_Pop. intros r w' _ Hw.
    assert (Hpops : forall k v, pops (rdd w) (queueKey <$> qs) (k, v) (rdd w') ->
      r = Ok v \/ is_ok r = false -> exists q v pre post, qs = pre ++ q :: post /\
        Forall (fun p => fifo (rdd w) p = []) pre /\ fifo (rdd w) q = v :: fifo (rdd w') q /\
        (forall q', q' <> q -> fifo (rdd w') q' = fifo (rdd w) q') /\
        (r = Ok v \/ is_ok r = false)).
    { intros k v Hp%fifo_pops Hr. destruct Hp as (q & pre & post & _ & Hqs & ? & ? & ? & _).
      by exists q, v, pre, post. }
    destruct r as [v|e]; [destruct Hw as [[k Hk]|(-> & Hd & Hall)]|destruct Hw as [Hd|[[k v] Hk]]].
    + left. eapply Hpops; [exact Hk|by left].
    + right. split; [done|]. right. split; [done|]. eapply Forall_impl; [exact Hall|].
      intros q Hq. unfold fifo. by rewrite Hq.
    + right. split; [done|by left].
    + left. eapply Hpops; [exact Hk|by right].
Qed.

(** A successful [GetDueJobs] splits the schedule by the second of [now]: it returns,
    each once, exactly the jobs due by then, and exactly the others stay scheduled; the
    queues are untouched.  A job scheduled for a moment not after [now] is therefore
    returned, a returned job was due less than a second after [now], and asking again at the
    same time returns nothing more. *)
Theorem GetDueJobs_takes_due_jobs now w ids w' :
  run_go (GetDueJobs now) w = (Ok ids, w') ->
  NoDup ids /\ rd_lists (rdd w') = rd_lists (rdd w) /\
  (forall m, m ∈ ids <-> exists x, schedule_of (rdd w) !! m = Some x /\ (x <= Unix now)%Z) /\
  (forall m x, schedule_of (rdd w') !! m = Some x <->
     schedule_of (rdd w) !! m = Some x /\ m ∉ ids) /\
  (forall m t, schedule_of (rdd w) !! m = Some (Unix t) ->
     ((t <= now)%Z -> m ∈ ids) /\ (m ∈ ids -> (t < now + Second)%Z)) /\
  (forall ids' w'', run_go (GetDueJobs now) w' = (Ok ids', w'') -> ids' = []).
Proof.
  intros Hrun. wp_start Hrun. apply wp_GetDueJobs. intros r w1 _ Ht ->.
  pose proof (fun m => elem_of_taken _ _ _ _ m Ht) as Hin.
  assert (Hnd : forall m x, schedule_of (rdd w1) !! m = Some x <->
    schedule_of (rdd w) !! m = Some x /\ m ∉ ids).
  { intros. by eapply taken_rest. }
  split_and!; [by eapply taken_NoDup|apply Ht|exact Hin|exact Hnd| |].
  - intros m t Hm. rewrite Hin. split.
    + intros Hle. exists (Unix t). split; [done|]. by apply Unix_mono.
    + intros (x & Hx & Hle). rewrite Hm in Hx. injection Hx as <-.
      unfold Unix, Second in *. pose proof (Z.div_mod t 1000000000).
      pose proof (Z.div_mod now 1000000000). pose proof (Z.mod_pos_bound t 1000000000).
      pose proof (Z.mod_pos_bound now 1000000000). lia.
  - intros ids' w'' Hrun. wp_start Hrun. apply wp_GetDueJobs. intros r w2 _ Ht' ->.
    destruct ids' as [|m ids']; [done|].
    assert (Hm : m ∈ m :: ids') by left. apply (elem_of_taken _ _ _ _ m Ht') in Hm.
    destruct Hm as (x & Hx%Hnd & Hle). destruct Hx as [Hx Hnot]. destruct Hnot. apply Hin. eauto.
Qed.

End Queue.

(** ** Examples *)

Definition ex_sched : RdData :=
  MkRd ∅ {[ scheduledSetKey := {[ "u0" := 5%Z; "u1" := 9%Z; "u00" := 3%Z ]} ]}.

Definition ex_qworld (d : RdData) : World := sim_world ∅ [] d [] 1000 [].

Lemma GetDueJobs_takes_due_jobs_witness :
  NoDup ["u00"; "u0"] /\
  schedule_of (rdd (run_go (GetDueJobs (6 * Second)) (ex_qworld ex_sched)).2) !! "u1" = Some 9%Z.
Proof.
  destruct (GetDueJobs_takes_due_jobs (6 * Second) (ex_qworld ex_sched) ["u00"; "u0"]
    (run_go (GetDueJobs (6 * Second)) (ex_qworld ex_sched)).2) as (Hnd & _ & _ & Hrest & _).
  - apply run_split. vm_compute. reflexivity.
  - split; [exact Hnd|]. apply (Hrest "u1" 9%Z). split; [reflexivity|].
    apply (bool_decide_unpack _). vm_compute. exact I.
Defined.

Lemma queue_refines_fifo_witness :
  fifo (rdd (run_go (Push "email" "u0") (ex_qworld rd_empty)).2) "email" = ["u0"].
Proof.
  destruct (proj1 queue_refines_fifo "email" "u0" (ex_qworld rd_empty) _ _
    (surjective_pairing _)) as [Hall|[Hbad _]].
  - exact (Hall "email").
  - discriminate Hbad.
Defined.
