(* ===== verification/Strconv.v ===== *)
(** * Numbers of the standard library

    [strconv.Atoi], which the handlers call ignoring its error, the [float64] arithmetic of
    [int(math.Ceil(float64(total) / float64(limit)))], and [time.ParseDuration], which the
    configuration relies on. *)

From Stdlib Require Import Ascii.
From S2P Require Import Prelude.

Local Open Scope string_scope.
Local Open Scope Z_scope.

(** ** [strconv.Atoi] *)

Inductive ParseError := ErrSyntax | ErrRange.

Definition digit (c : ascii) : option Z :=
  let n := Z.of_N (N_of_ascii c) in
  if (48 <=? n) && (n <=? 57) then Some (n - 48) else None.

(** [ParseUint(s, 10, 64)] after the digits read so far, from left to right: a value over 64
    bits is reported as soon as it appears, a character that is no digit when it is met. *)
Fixpoint parse_digits (s : string) (n : Z) : Z * option ParseError :=
  match s with
  | EmptyString => (n, None)
  | String c s =>
      match digit c with
      | None => (0, Some ErrSyntax)
      | Some d =>
          if 2^64 <=? n * 10 + d then (2^64 - 1, Some ErrRange)
          else parse_digits s (n * 10 + d)
      end
  end.

Definition ParseUint (s : string) : Z * option ParseError :=
  match s with EmptyString => (0, Some ErrSyntax) | _ => parse_digits s 0 end.

(** [ParseInt(s, 10, 64)] on the sign and the unsigned part. *)
Definition signed (neg : bool) (r : Z * option ParseError) : Z * option ParseError :=
  match r with
  | (_, Some ErrSyntax) => (0, Some ErrSyntax)
  | (un, _) =>
      if negb neg && (2^63 <=? un) then (2^63 - 1, Some ErrRange)
      else if neg && (2^63 <? un) then (- 2^63, Some ErrRange)
      else (if neg then - un else un, None)
  end.

Definition Atoi (s : string) : Z * option ParseError :=
  match s with
  | String "+" s => signed false (ParseUint s)
  | String "-" s => signed true (ParseUint s)
  | _ => signed false (ParseUint s)
  end.

Lemma digit_range c d : digit c = Some d -> 0 <= d <= 9.
Proof.
  unfold digit. destruct (_ && _) eqn:H; [|done]. apply andb_true_iff in H as [?%Z.leb_le ?%Z.leb_le].
  intros [= <-]. lia.
Qed.

Lemma parse_digits_range s n :
  0 <= n < 2^64 -> 0 <= (parse_digits s n).1 < 2^64.
Proof.
  revert n. induction s as [|c s IH]; intros n Hn; simpl; [done|].
  destruct (digit c) as [d|] eqn:Hd; [|simpl; lia]. apply digit_range in Hd.
  destruct (Z.leb_spec (2^64) (n * 10 + d)); [simpl; lia|]. apply IH. lia.
Qed.

(** Whatever the text, the value is an [int]. *)
Lemma Atoi_int64 s : in_int64 (Atoi s).1.
Proof.
  assert (Hs : forall neg t, in_int64 (signed neg (ParseUint t)).1).
  { intros neg t. assert (Hp : 0 <= (ParseUint t).1 < 2^64).
    { unfold ParseUint. destruct t; [simpl; lia|]. apply parse_digits_range. lia. }
    unfold signed, in_int64. destruct (ParseUint t) as [un [[]|]]; simpl in *; [lia| |];
      destruct neg; simpl; repeat case_match; simpl;
      rewrite ?Z.leb_le, ?Z.leb_gt, ?Z.ltb_lt, ?Z.ltb_ge in *; lia. }
  unfold Atoi. repeat case_match; apply Hs.
Qed.

(** ** [float64] *)

(** A non-negative [float64] as a fraction. *)
Record float64 := MkFloat { fl_num : Z; fl_den : Z }.

(** Rounding to nearest, ties to even, of [n / d] to an integer. *)
Definition rne (n d : Z) : Z :=
  let q := n / d in
  let r := n mod d in
  if 2 * r <? d then q
  else if d <? 2 * r then q + 1
  else if Z.even q then q else q + 1.

(** The exponent [e] with [2^e <= n / d < 2^(e+1)]. *)
Definition exponent (n d : Z) : Z :=
  let e := Z.log2 n - Z.log2 d in
  if n * 2 ^ Z.max 0 (- e) <? d * 2 ^ Z.max 0 e then e - 1 else e.

(** The [float64] nearest to [n / d]: a mantissa of 53 bits. *)
Definition round64 (n d : Z) : float64 :=
  if n =? 0 then MkFloat 0 1
  else
    let s := 52 - exponent n d in
    let m := rne (n * 2 ^ Z.max 0 s) (d * 2 ^ Z.max 0 (- s)) in
    MkFloat (m * 2 ^ Z.max 0 (- s)) (2 ^ Z.max 0 s).

Definition float64_of_int (z : Z) : float64 := round64 z 1.

Definition float64_div (a b : float64) : float64 :=
  round64 (fl_num a * fl_den b) (fl_den a * fl_num b).

(** [int(math.Ceil(x))]. *)
Definition int_Ceil (x : float64) : Z := - (- fl_num x / fl_den x).

(** The smallest number of pages of [limit] that holds [total]. *)
Definition ceil_div (total limit : Z) : Z := (total + limit - 1) / limit.

Lemma rne_upper n d K : 0 < d -> n <= K * d -> rne n d <= K.
Proof.
  intros Hd Hn. unfold rne. pose proof (Z.div_mod n d). pose proof (Z.mod_pos_bound n d).
  assert (n / d <= K) by (apply Z.div_le_upper_bound; lia).
  destruct (decide (n / d = K)) as [HK|].
  - assert (Hr : n mod d = 0) by nia. rewrite Hr. rewrite (proj2 (Z.ltb_lt _ _)) by lia. lia.
  - repeat case_match; lia.
Qed.

Lemma rne_lower n d K : 0 < d -> 2 * K * d + d < 2 * n -> K < rne n d.
Proof.
  intros Hd Hn. unfold rne. pose proof (Z.div_mod n d). pose proof (Z.mod_pos_bound n d).
  assert (K <= n / d) by (apply Z.div_le_lower_bound; nia).
  destruct (decide (n / d = K)) as [HK|]; [|repeat case_match; lia].
  assert (Hr : d < 2 * (n mod d)) by nia.
  rewrite (proj2 (Z.ltb_ge _ _)), (proj2 (Z.ltb_lt _ _)) by lia. lia.
Qed.

Lemma exponent_lower n d :
  0 < n -> 0 < d ->
  d * 2 ^ Z.max 0 (exponent n d) <= n * 2 ^ Z.max 0 (- exponent n d).
Proof.
  intros Hn Hd. unfold exponent.
  destruct (Z.ltb_spec (n * 2 ^ Z.max 0 (- (Z.log2 n - Z.log2 d)))
    (d * 2 ^ Z.max 0 (Z.log2 n - Z.log2 d))) as [_|]; [|lia].
  pose proof (Z.log2_spec n Hn) as [Ha _]. pose proof (Z.log2_spec d Hd) as [_ Hb].
  set (a := Z.log2 n) in *. set (b := Z.log2 d) in *.
  assert (0 <= a) by apply Z.log2_nonneg. assert (0 <= b) by apply Z.log2_nonneg.
  replace (Z.succ b) with (b + 1) in Hb by lia.
  destruct (Z.le_gt_cases 0 (a - b - 1)).
  - rewrite (Z.max_r 0 (a - b - 1)), (Z.max_l 0 (- (a - b - 1))) by lia.
    replace a with (b + 1 + (a - b - 1)) in Ha by lia. rewrite Z.pow_add_r in Ha by lia.
    pose proof (Z.pow_pos_nonneg 2 (a - b - 1)). simpl. nia.
  - rewrite (Z.max_l 0 (a - b - 1)), (Z.max_r 0 (- (a - b - 1))) by lia.
    replace (b + 1) with (a + - (a - b - 1)) in Hb by lia. rewrite Z.pow_add_r in Hb by lia.
    pose proof (Z.pow_pos_nonneg 2 (- (a - b - 1))). simpl. nia.
Qed.

(** The mantissa is wide enough: dividing [total] by [limit] and rounding loses less than the
    distance of the quotient to the next page boundary. *)
Lemma exponent_width c n d :
  0 < c -> 0 < n < 2^53 -> 0 < d ->
  0 <= 52 - exponent (c * n) (c * d) /\ d < 2 * 2 ^ (52 - exponent (c * n) (c * d)).
Proof.
  intros Hc Hn Hd. assert (He := exponent_lower (c * n) (c * d) ltac:(nia) ltac:(nia)).
  set (e := exponent (c * n) (c * d)) in *.
  replace (c * d * 2 ^ Z.max 0 e) with (c * (d * 2 ^ Z.max 0 e)) in He by lia.
  replace (c * n * 2 ^ Z.max 0 (- e)) with (c * (n * 2 ^ Z.max 0 (- e))) in He by lia.
  apply Z.mul_le_mono_pos_l in He; [|done].
  destruct (Z.le_gt_cases 0 e).
  - rewrite (Z.max_r 0 e), (Z.max_l 0 (- e)), Z.pow_0_r in He by lia.
    assert (e < 53).
    { apply (Z.pow_lt_mono_r_iff 2); [lia..|]. pose proof (Z.pow_pos_nonneg 2 e). nia. }
    split; [lia|]. apply (Z.mul_lt_mono_pos_r (2 ^ e)); [apply Z.pow_pos_nonneg; lia|].
    rewrite <- Z.mul_assoc, <- Z.pow_add_r by lia.
    replace (52 - e + e) with 52 by lia. lia.
  - rewrite (Z.max_l 0 e), (Z.max_r 0 (- e)), Z.pow_0_r in He by lia. split; [lia|].
    replace (52 - e) with (52 + - e) by lia. rewrite Z.pow_add_r by lia.
    pose proof (Z.pow_pos_nonneg 2 (- e)). nia.
Qed.

(** Rounding a quotient does not change its ceiling. *)
Lemma round64_ceil c n d :
  0 < c -> 0 <= n < 2^53 -> 0 < d ->
  int_Ceil (round64 (c * n) (c * d)) = ceil_div n d.
Proof.
  intros Hc Hn Hd. unfold round64, ceil_div. destruct (Z.eqb_spec (c * n) 0) as [H0|H0].
  { assert (n = 0) by nia. subst n. rewrite Z.div_small; [done|lia]. }
  destruct (exponent_width c n d Hc ltac:(nia) Hd) as [Hs Hwide].
  set (s := 52 - exponent (c * n) (c * d)) in *.
  rewrite (Z.max_r 0 s), (Z.max_l 0 (- s)), Z.pow_0_r, !Z.mul_1_r by lia.
  set (k := (n + d - 1) / d).
  assert (Hk : (k - 1) * d < n <= k * d).
  { unfold k. pose proof (Z.div_mod (n + d - 1) d). pose proof (Z.mod_pos_bound (n + d - 1) d).
    lia. }
  pose proof (Z.pow_pos_nonneg 2 s ltac:(lia) Hs) as Hpos.
  assert (Hup : rne (c * n * 2 ^ s) (c * d) <= k * 2 ^ s).
  { apply rne_upper; [nia|].
    assert (c * 2 ^ s * n <= c * 2 ^ s * (k * d)) by (apply Z.mul_le_mono_nonneg_l; nia). lia. }
  assert (Hlow : (k - 1) * 2 ^ s < rne (c * n * 2 ^ s) (c * d)).
  { apply rne_lower; [nia|].
    assert (2 * 2 ^ s * 1 <= 2 * 2 ^ s * (n - (k - 1) * d)) by (apply Z.mul_le_mono_nonneg_l; lia).
    assert (c * d < c * (2 * 2 ^ s * (n - (k - 1) * d))) by (apply Z.mul_lt_mono_pos_l; lia).
    lia. }
  unfold int_Ceil. simpl. set (m := rne _ _) in *.
  enough (- m / 2 ^ s = - k) by lia. symmetry. apply (Z.div_unique _ _ _ (k * 2 ^ s - m)); [left|]; lia.
Qed.

(** Integers below [2^53] are [float64]s. *)
Lemma float64_of_int_exact n :
  0 < n < 2^53 -> exists c, 0 < c /\ float64_of_int n = MkFloat (c * n) c.
Proof.
  intros Hn. destruct (exponent_width 1 n 1 ltac:(lia) Hn ltac:(lia)) as [Hs _].
  rewrite !Z.mul_1_l in Hs. unfold float64_of_int, round64.
  rewrite (proj2 (Z.eqb_neq n 0)) by lia. set (s := 52 - exponent n 1) in *.
  rewrite (Z.max_r 0 s), (Z.max_l 0 (- s)), Z.pow_0_r, !Z.mul_1_r by lia.
  exists (2 ^ s). split; [by apply Z.pow_pos_nonneg|]. f_equal. unfold rne.
  rewrite Z.div_1_r, Z.mod_1_r. simpl. lia.
Qed.

Lemma ceil_float_exact total limit :
  0 <= total < 2^53 -> 0 < limit < 2^53 ->
  int_Ceil (float64_div (float64_of_int total) (float64_of_int limit)) = ceil_div total limit.
Proof.
  intros Ht Hl. destruct (float64_of_int_exact limit Hl) as (c & Hc & ->).
  destruct (decide (total = 0)) as [->|Hne].
  - unfold float64_div. simpl fl_num. simpl fl_den. rewrite Z.mul_1_l, (Z.mul_comm 0 c).
    apply (round64_ceil c 0 limit); lia.
  - destruct (float64_of_int_exact total ltac:(lia)) as (c' & Hc' & ->). unfold float64_div. simpl.
    replace (c' * total * c) with (c * c' * total) by lia.
    replace (c' * (c * limit)) with (c * c' * limit) by lia.
    apply round64_ceil; [nia|lia..].
Qed.

Example ceil_float_7_3 :
  int_Ceil (float64_div (float64_of_int 7) (float64_of_int 3)) = 3.
Proof. reflexivity. Qed.

(** Without the bound the rounding shows: [2^53 + 1] is not a [float64]. *)
Example ceil_float_inexact :
  int_Ceil (float64_div (float64_of_int (2^53 + 1)) (float64_of_int 1)) = 2^53.
Proof. reflexivity. Qed.

(** ** [time.ParseDuration] *)

Definition float64_mul (a b : float64) : float64 :=
  round64 (fl_num a * fl_num b) (fl_den a * fl_den b).

(** [uint64(x)] of a non-negative [float64]. *)
Definition uint64_of (x : float64) : Z := fl_num x / fl_den x.

(** [leadingInt]: the leading digits; [None] when the value exceeds [2^63]. *)
Fixpoint leadingInt (s : string) (x : Z) : option (Z * string) :=
  match s with
  | String c s' =>
      match digit c with
      | None => Some (x, s)
      | Some d =>
          if 2^63 / 10 <? x then None
          else if 2^63 <? x * 10 + d then None
          else leadingInt s' (x * 10 + d)
      end
  | EmptyString => Some (x, s)
  end.

(** [leadingFraction]: the leading digits as [x / scale]; once the value is too large the
    remaining digits are skipped. *)
Fixpoint leadingFraction (s : string) (x scale : Z) (overflow : bool) : Z * Z * string :=
  match s with
  | String c s' =>
      match digit c with
      | None => (x, scale, s)
      | Some d =>
          if overflow then leadingFraction s' x scale true
          else if (2^63 - 1) / 10 <? x then leadingFraction s' x scale true
          else if 2^63 <? x * 10 + d then leadingFraction s' x scale true
          else leadingFraction s' (x * 10 + d) (scale * 10) false
      end
  | EmptyString => (x, scale, s)
  end.

(** The unit: everything up to the next digit or period. *)
Fixpoint takeUnit (s : string) : string * string :=
  match s with
  | String c s' =>
      if bool_decide (c = "."%char) || bool_decide (is_Some (digit c)) then (EmptyString, s)
      else let (u, rest) := takeUnit s' in (String c u, rest)
  | EmptyString => (EmptyString, s)
  end.

(** [unitMap]; the two micro signs are given by their UTF-8 bytes. *)
Definition unitMap (u : string) : option Z :=
  if bool_decide (u = "ns") then Some 1
  else if bool_decide (u = "us") || bool_decide (u = String "194" (String "181" "s"))
       || bool_decide (u = String "206" (String "188" "s")) then Some 1000
  else if bool_decide (u = "ms") then Some 1000000
  else if bool_decide (u = "s") then Some 1000000000
  else if bool_decide (u = "m") then Some 60000000000
  else if bool_decide (u = "h") then Some 3600000000000
  else None.

(** The number with its optional fraction: value, fraction, scale and the rest; [None] for a
    syntax error. *)
Definition durationNumber (s : string) : option (Z * Z * Z * string) :=
  match s with
  | EmptyString => None
  | String c _ =>
      if negb (bool_decide (c = "."%char) || bool_decide (is_Some (digit c))) then None
      else
        match leadingInt s 0 with
        | None => None
        | Some (v, s1) =>
            let pre := bool_decide (is_Some (digit c)) in
            match s1 with
            | String "." s2 =>
                let '(f, scale, s3) := leadingFraction s2 0 1 false in
                let post := negb (String.length s3 =? String.length s2)%nat in
                if pre || post then Some (v, f, scale, s3) else None
            | _ => if pre then Some (v, 0, 1, s1) else None
            end
        end
  end.

(** One component "12.5h" in nanoseconds, and the rest. *)
Definition durationPart (s : string) : option (Z * string) :=
  match durationNumber s with
  | None => None
  | Some (v, f, scale, s') =>
      let (u, rest) := takeUnit s' in
      if bool_decide (u = EmptyString) then None
      else
        match unitMap u with
        | None => None
        | Some unit =>
            if 2^63 / unit <? v then None
            else
              let v1 := v * unit in
              let v2 :=
                if 0 <? f
                then v1 + uint64_of (float64_mul (float64_of_int f)
                            (float64_div (float64_of_int unit) (float64_of_int scale)))
                else v1 in
              if 2^63 <? v2 then None else Some (v2, rest)
        end
  end.

(** The loop; every turn consumes at least one character, so the length of the text is enough
    fuel. *)
Fixpoint durationLoop (fuel : nat) (s : string) (d : Z) : option Z :=
  match s with
  | EmptyString => Some d
  | _ =>
      match fuel with
      | O => None
      | S fuel =>
          match durationPart s with
          | None => None
          | Some (v, rest) => if 2^63 <? d + v then None else durationLoop fuel rest (d + v)
          end
      end
  end.

(** The value without its sign. *)
Definition durationAbs (s : string) : option Z :=
  if bool_decide (s = "0") then Some 0
  else if bool_decide (s = EmptyString) then None
  else durationLoop (String.length s) s 0.

Definition ParseDuration (s : string) : option Duration :=
  match s with
  | String "-" s => Z.opp <$> durationAbs s
  | String "+" s => d ← durationAbs s; if 2^63 - 1 <? d then None else Some d
  | _ => d ← durationAbs s; if 2^63 - 1 <? d then None else Some d
  end.

Example ParseDuration_30s : ParseDuration "30s" = Some (30 * Second).
Proof. reflexivity. Qed.

Example ParseDuration_mixed : ParseDuration "1h15m30.918s" = Some 4530918000000.
Proof. vm_compute. reflexivity. Qed.

Example ParseDuration_no_unit : ParseDuration "30" = None.
Proof. reflexivity. Qed.

Example ParseDuration_micro : ParseDuration "1.5us" = Some 1500.
Proof. vm_compute. reflexivity. Qed.

Lemma round64_nonneg n d : 0 <= n -> 0 < d -> 0 <= fl_num (round64 n d) /\ 0 < fl_den (round64 n d).
Proof.
  intros Hn Hd. unfold round64. destruct (Z.eqb_spec n 0); simpl; [lia|].
  set (s := 52 - exponent n d).
  pose proof (Z.pow_pos_nonneg 2 (Z.max 0 s) ltac:(lia) ltac:(lia)) as H1.
  pose proof (Z.pow_pos_nonneg 2 (Z.max 0 (- s)) ltac:(lia) ltac:(lia)) as H2.
  split; [|lia]. apply Z.mul_nonneg_nonneg; [|lia]. unfold rne.
  assert (0 <= n * 2 ^ Z.max 0 s / (d * 2 ^ Z.max 0 (- s))) by (apply Z.div_pos; nia).
  repeat case_match; lia.
Qed.

Lemma leadingInt_spec s x y rest :
  leadingInt s x = Some (y, rest) -> 0 <= x ->
  0 <= y /\ (String.length rest <= String.length s)%nat.
Proof.
  revert x. induction s as [|c s IH]; intros x; simpl.
  - intros [= <- <-] ?. simpl. lia.
  - destruct (digit c) as [d|] eqn:Hd; [|intros [= <- <-] ?; simpl; lia].
    apply digit_range in Hd. destruct (_ <? x); [done|]. destruct (_ <? x * 10 + d); [done|].
    intros Hl Hx. apply IH in Hl; [|lia]. lia.
Qed.

Lemma leadingFraction_spec s x scale ov f sc rest :
  leadingFraction s x scale ov = (f, sc, rest) ->
  (String.length rest <= String.length s)%nat.
Proof.
  revert x scale ov. induction s as [|c s IH]; intros x scale ov; simpl; [by intros [= _ _ <-]|].
  destruct (digit c) as [d|]; [|by intros [= _ _ <-]].
  repeat case_match; intros Hl; apply IH in Hl; lia.
Qed.

Lemma takeUnit_length s u rest :
  takeUnit s = (u, rest) -> u <> EmptyString -> (String.length rest < String.length s)%nat.
Proof.
  revert u rest. induction s as [|c s IH]; intros u rest; simpl; [by intros [= <- _]|].
  destruct (_ || _); [by intros [= <- _]|]. destruct (takeUnit s) as [u' rest'] eqn:Hs.
  intros [= <- <-] _. destruct u' as [|a u']; [|pose proof (IH _ _ eq_refl); naive_solver lia].
  enough (String.length rest' <= String.length s)%nat by lia.
  destruct s; simpl in Hs; repeat case_match; simplify_eq; simpl; lia.
Qed.

(** Every turn of the loop consumes text. *)
Lemma durationPart_length s v rest :
  durationPart s = Some (v, rest) -> (String.length rest < String.length s)%nat.
Proof.
  unfold durationPart. destruct (durationNumber s) as [[[[x f] sc] s']|] eqn:Hn; [|done].
  destruct (takeUnit s') as [u rest'] eqn:Hu. case_bool_decide as Hne; [done|].
  pose proof (takeUnit_length _ _ _ Hu Hne) as Hlt.
  assert (Hs' : (String.length s' <= String.length s)%nat).
  { unfold durationNumber in Hn. destruct s as [|c s]; [done|]. destruct (negb _); [done|].
    destruct (leadingInt (String c s) 0) as [[y s1]|] eqn:Hl; [|done].
    apply leadingInt_spec in Hl as [_ Hl]; [|lia].
    repeat case_match; simplify_eq; simpl in *; try lia.
    all: match goal with H : leadingFraction _ _ _ _ = _ |- _ =>
           apply leadingFraction_spec in H; lia end. }
  repeat case_match; try done; intros [= _ <-]; lia.
Qed.

(** More fuel than the length of the text does not change the answer. *)
Lemma durationLoop_fuel fuel s d :
  (String.length s <= fuel)%nat ->
  durationLoop fuel s d = durationLoop (String.length s) s d.
Proof.
  assert (Hgen : forall n f1 f2 s d, (String.length s <= n)%nat -> (String.length s <= f1)%nat ->
    (String.length s <= f2)%nat -> durationLoop f1 s d = durationLoop f2 s d).
  { induction n as [|n IH]; intros f1 f2 [|c t] e Hn H1 H2; simpl in Hn; try lia;
      try (by destruct f1, f2).
    destruct f1 as [|f1], f2 as [|f2]; simpl in H1, H2; try lia. simpl.
    destruct (durationPart (String c t)) as [[v rest]|] eqn:Hp; [|done].
    apply durationPart_length in Hp. simpl in Hp. case_match; [done|]. apply IH; lia. }
  intros H. by apply (Hgen (String.length s)).
Qed.
