(* ===== verification/Rfc3339.v ===== *)
(** * Times as text ([time.Parse] and [Time.MarshalJSON] of the standard library)

    The times of the API and of the events travel as RFC 3339 texts.  [Parse_RFC3339] is
    [time.Parse(time.RFC3339, s)]: a fast path for well-formed texts, and the general parser
    of layouts, specialised to this layout, which accepts somewhat more.  [marshal_time] is
    the text [Time.MarshalJSON] puts between quotes.  A time is its number of nanoseconds
    since the Unix epoch; the offset of its location is an argument of the printer. *)

From Stdlib Require Import Ascii.
From S2P Require Import Prelude Strconv.

Local Open Scope string_scope.
Local Open Scope Z_scope.

(** ** Dates *)

Definition isLeap (y : Z) : bool :=
  (y mod 4 =? 0) && (negb (y mod 100 =? 0) || (y mod 400 =? 0)).

Definition daysIn (m y : Z) : Z :=
  if m =? 2 then if isLeap y then 29 else 28
  else if (m =? 4) || (m =? 6) || (m =? 9) || (m =? 11) then 30 else 31.

(** Days since the epoch of a date of the Gregorian calendar; years are counted from March, so
    that the leap day is the last one. *)
Definition days_of_date (y m d : Z) : Z :=
  let y' := if m <? 3 then y - 1 else y in
  let m' := if m <? 3 then m + 12 else m in
  365 * y' + y' / 4 - y' / 100 + y' / 400 + (153 * m' - 457) / 5 + (d - 1) - 719468.

(** The date of a day: full cycles of 400, 100, 4 and 1 years are taken off one after the
    other; the last cycle of 100 years and the last year of 4 may be one day longer. *)
Definition date_of_days (z : Z) : Z * Z * Z :=
  let z := z + 719468 in
  let n400 := z / 146097 in
  let d := z mod 146097 in
  let n100 := Z.min 3 (d / 36524) in
  let d := d - 36524 * n100 in
  let n4 := d / 1461 in
  let d := d - 1461 * n4 in
  let n1 := Z.min 3 (d / 365) in
  let d := d - 365 * n1 in
  let y := 400 * n400 + 100 * n100 + 4 * n4 + n1 in
  let mp := (5 * d + 2) / 153 in
  let day := d - (153 * mp + 2) / 5 + 1 in
  if mp <? 10 then (y, mp + 3, day) else (y + 1, mp - 9, day).

(** The instant of a date and time of day in UTC. *)
Definition Date (y m d hour min sec nsec : Z) : Time :=
  (((days_of_date y m d * 24 + hour) * 60 + min) * 60 + sec) * Second + nsec.

(** ** Printing *)

Definition digit_chr (d : Z) : ascii := ascii_of_N (Z.to_N (48 + d)).

(** [k] digits of [n], with zeros in front. *)
Fixpoint pad (k : nat) (n : Z) : string :=
  match k with
  | O => ""
  | S k => String (digit_chr (n / 10 ^ Z.of_nat k mod 10)) (pad k n)
  end.

(** [n] as a fraction of [k] digits, without the zeros at its end. *)
Fixpoint frac_digits (k : nat) (n : Z) : string :=
  match k with
  | O => ""
  | S k' => if n mod 10 =? 0 then frac_digits k' (n / 10) else pad k n
  end.

Definition print_frac (nsec : Z) : string :=
  if nsec =? 0 then "" else "." +:+ frac_digits 9 nsec.

Definition print_zone (offset : Z) : string :=
  if offset =? 0 then "Z"
  else
    let zone := Z.quot offset 60 in
    (if zone <? 0 then "-" else "+") +:+ pad 2 (Z.abs zone / 60) +:+ ":" +:+
      pad 2 (Z.abs zone mod 60).

(** [Time.MarshalJSON] without its quotes, in a location [offset] seconds east of UTC. *)
Definition marshal_time (offset : Z) (t : Time) : result string :=
  let sec := t / Second + offset in
  let '(y, m, d) := date_of_days (sec / 86400) in
  let s := sec mod 86400 in
  if (y <? 0) || (9999 <? y) then Err "year outside of range [0,9999]"
  else if 24 <=? Z.abs (Z.quot offset 60) / 60 then Err "timezone hour outside of range [0,23]"
  else Ok (pad 4 y +:+ "-" +:+ pad 2 m +:+ "-" +:+ pad 2 d +:+ "T" +:+
           pad 2 (s / 3600) +:+ ":" +:+ pad 2 (s / 60 mod 60) +:+ ":" +:+ pad 2 (s mod 60) +:+
           print_frac (t mod Second) +:+ print_zone offset).

(** ** Parsing *)

(** The character [c] at the front. *)
Definition expect (c : ascii) (s : string) : option string :=
  match s with String c' s' => if Ascii.eqb c c' then Some s' else None | EmptyString => None end.

(** Exactly [k] digits at the front, after the value [acc]. *)
Fixpoint read_digits (k : nat) (acc : Z) (s : string) : option (Z * string) :=
  match k with
  | O => Some (acc, s)
  | S k =>
      match s with
      | String c s' =>
          match digit c with Some d => read_digits k (acc * 10 + d) s' | None => None end
      | EmptyString => None
      end
  end.

(** [k] digits with a value from [min] to [max]. *)
Definition parseUint (k : nat) (min max : Z) (s : string) : option (Z * string) :=
  '(x, s) ← read_digits k 0 s;
  if (min <=? x) && (x <=? max) then Some (x, s) else None.

Fixpoint span_digits (s : string) : string * string :=
  match s with
  | String c s' =>
      match digit c with
      | Some _ => let (ds, rest) := span_digits s' in (String c ds, rest)
      | None => ("", s)
      end
  | EmptyString => ("", "")
  end.

Fixpoint value_of (ds : string) (acc : Z) : Z :=
  match ds with
  | String c ds => value_of ds (acc * 10 + default 0 (digit c))
  | EmptyString => acc
  end.

(** At most nine digits count. *)
Definition nanoseconds (ds : string) : Z :=
  let ds := String.substring 0 9 ds in
  value_of ds 0 * 10 ^ (9 - Z.of_nat (String.length ds)).

(** The fraction of a second, if there is one; [sep] says which characters may start it. *)
Definition parse_frac (sep : ascii -> bool) (s : string) : Z * string :=
  match s with
  | String p (String c rest) =>
      if sep p then
        match digit c with
        | Some _ => let (ds, rest') := span_digits (String c rest) in (nanoseconds ds, rest')
        | None => (0, s)
        end
      else (0, s)
  | _ => (0, s)
  end.

(** A numeric zone, with the largest hour and minute. *)
Definition parse_offset (maxH maxM : Z) (s : string) : option (Z * string) :=
  match s with
  | String c s =>
      sign ← (if Ascii.eqb c "+" then Some 1 else if Ascii.eqb c "-" then Some (-1) else None);
      '(hr, s) ← parseUint 2 0 maxH s;
      s ← expect ":" s;
      '(mm, s) ← parseUint 2 0 maxM s;
      Some (sign * ((hr * 60 + mm) * 60), s)
  | EmptyString => None
  end.

Definition parse_zone (maxH maxM : Z) (s : string) : option (Z * string) :=
  match s with
  | String "Z" s' => Some (0, s')
  | _ => parse_offset maxH maxM s
  end.

(** [parseRFC3339], the fast path. *)
Definition parseRFC3339 (s : string) : option Time :=
  '(year, s) ← parseUint 4 0 9999 s; s ← expect "-" s;
  '(month, s) ← parseUint 2 1 12 s; s ← expect "-" s;
  '(day, s) ← parseUint 2 1 (daysIn month year) s; s ← expect "T" s;
  '(hour, s) ← parseUint 2 0 23 s; s ← expect ":" s;
  '(min, s) ← parseUint 2 0 59 s; s ← expect ":" s;
  '(sec, s) ← parseUint 2 0 59 s;
  let (nsec, s) := parse_frac (fun c => Ascii.eqb c ".") s in
  '(offset, s) ← parse_zone 23 59 s;
  if bool_decide (s = "")
  then Some (Date year month day hour min sec nsec - offset * Second) else None.

(** [getnum]: two digits, or one where the layout does not insist. *)
Definition getnum (fixed : bool) (s : string) : option (Z * string) :=
  match s with
  | String c s' =>
      d ← digit c;
      match s' with
      | String c2 s'' =>
          match digit c2 with
          | Some d2 => Some (10 * d + d2, s'')
          | None => if fixed then None else Some (d, s')
          end
      | EmptyString => if fixed then None else Some (d, s')
      end
  | EmptyString => None
  end.

Definition getnum_range (fixed : bool) (min max : Z) (s : string) : option (Z * string) :=
  '(x, s) ← getnum fixed s;
  if (min <=? x) && (x <=? max) then Some (x, s) else None.

(** The general parser, along the layout [2006-01-02T15:04:05Z07:00]: the hour may have one
    digit, a comma may start the fraction, and zones go up to 24 hours and 60 minutes. *)
Definition parse (s : string) : option Time :=
  '(year, s) ← read_digits 4 0 s; s ← expect "-" s;
  '(month, s) ← getnum_range true 1 12 s; s ← expect "-" s;
  '(day, s) ← getnum true s; s ← expect "T" s;
  '(hour, s) ← getnum_range false 0 23 s; s ← expect ":" s;
  '(min, s) ← getnum_range true 0 59 s; s ← expect ":" s;
  '(sec, s) ← getnum_range true 0 59 s;
  let (nsec, s) := parse_frac (fun c => Ascii.eqb c "." || Ascii.eqb c ",") s in
  '(offset, s) ← parse_zone 24 60 s;
  if bool_decide (s = "") && ((1 <=? day) && (day <=? daysIn month year))
  then Some (Date year month day hour min sec nsec - offset * Second) else None.

Definition Parse_RFC3339 (s : string) : option Time :=
  match parseRFC3339 s with Some t => Some t | None => parse s end.

(** ** The calendar *)

(** Linear arithmetic with division by constants. *)
Ltac dlia := Z.to_euclidean_division_equations; lia.

(** The parts of [date_of_days] and what they add up to. *)
Lemma cycles z :
  exists a b c e d,
    z = 146097 * a + 36524 * b + 1461 * c + 365 * e + d /\
    0 <= b <= 3 /\ 0 <= c <= 24 /\ 0 <= e <= 3 /\ 0 <= d <= 365 /\
    (d = 365 -> e = 3 /\ (c < 24 \/ b = 3)) /\
    date_of_days (z - 719468) =
      let y := 400 * a + 100 * b + 4 * c + e in
      let mp := (5 * d + 2) / 153 in
      let day := d - (153 * mp + 2) / 5 + 1 in
      if mp <? 10 then (y, mp + 3, day) else (y + 1, mp - 9, day).
Proof.
  set (a := z / 146097). set (d0 := z mod 146097).
  set (b := Z.min 3 (d0 / 36524)). set (d1 := d0 - 36524 * b).
  set (c := d1 / 1461). set (d2 := d1 - 1461 * c).
  set (e := Z.min 3 (d2 / 365)).
  exists a, b, c, e, (d2 - 365 * e).
  assert (H0 : z = 146097 * a + d0 /\ 0 <= d0 < 146097) by (subst a d0; dlia).
  assert (H1 : 0 <= b <= 3 /\ 0 <= d1 <= 36524 /\ (d1 = 36524 -> b = 3)) by (subst b d1; dlia).
  assert (H2 : 0 <= c <= 24 /\ 0 <= d2 <= 1460 /\ (c = 24 -> d2 = 1460 -> d1 = 36524))
    by (subst c d2; dlia).
  assert (H3 : 0 <= e <= 3 /\ 0 <= d2 - 365 * e <= 365 /\ (d2 - 365 * e = 365 -> e = 3))
    by (subst e; dlia).
  split_and!; try lia. unfold date_of_days.
  replace (z - 719468 + 719468) with z by lia. done.
Qed.

(** The lengths of the months from March on. *)
Lemma daysIn_march mp y :
  0 <= mp <= 9 -> daysIn (mp + 3) y = (153 * (mp + 1) + 2) / 5 - (153 * mp + 2) / 5.
Proof.
  intros Hmp. assert (Hc : mp = 0 \/ mp = 1 \/ mp = 2 \/ mp = 3 \/ mp = 4 \/ mp = 5 \/ mp = 6 \/
    mp = 7 \/ mp = 8 \/ mp = 9) by lia.
  by destruct_or!; subst.
Qed.

(** February has its leap day exactly in the years whose count of cycles is full. *)
Lemma isLeap_cycles a b c e :
  0 <= b <= 3 -> 0 <= c <= 24 -> 0 <= e <= 3 -> e = 3 /\ (c < 24 \/ b = 3) ->
  isLeap (400 * a + 100 * b + 4 * c + e + 1) = true.
Proof.
  intros Hb Hc He [-> Hl]. unfold isLeap.
  rewrite andb_true_iff, orb_true_iff, negb_true_iff, !Z.eqb_eq, Z.eqb_neq. dlia.
Qed.

(** A day is the day of its date, and that date exists. *)
Lemma date_of_days_spec z y m d :
  date_of_days z = (y, m, d) ->
  days_of_date y m d = z /\ 1 <= m <= 12 /\ 1 <= d <= daysIn m y.
Proof.
  destruct (cycles (z + 719468)) as (a & b & c & e & n & Hz & Hb & Hc & He & Hn & Hlast & Heq).
  replace (z + 719468 - 719468) with z in Heq by lia. rewrite Heq. clear Heq. cbv zeta.
  set (y' := 400 * a + 100 * b + 4 * c + e).
  assert (Hy : 365 * y' + y' / 4 - y' / 100 + y' / 400 = z + 719468 - n) by (subst y'; dlia).
  assert (Hmp : 0 <= (5 * n + 2) / 153 <= 11) by dlia.
  set (mp := (5 * n + 2) / 153) in *.
  assert (Hday : 0 <= n - (153 * mp + 2) / 5 <= 30) by (subst mp; dlia).
  destruct (Z.ltb_spec mp 10); intros [= <- <- <-]; unfold days_of_date.
  - rewrite (proj2 (Z.ltb_ge (mp + 3) 3)) by lia. split; [|split; [lia|split; [lia|]]].
    + replace ((153 * (mp + 3) - 457) / 5) with ((153 * mp + 2) / 5) by dlia. lia.
    + rewrite daysIn_march by lia. subst mp. dlia.
  - rewrite (proj2 (Z.ltb_lt (mp - 9) 3)) by lia. replace (y' + 1 - 1) with y' by lia.
    split; [|split; [lia|split; [lia|]]].
    + replace ((153 * (mp - 9 + 12) - 457) / 5) with ((153 * mp + 2) / 5) by dlia. lia.
    + unfold daysIn. assert (Hm : mp = 10 \/ mp = 11) by lia.
      destruct Hm as [Hm|Hm].
      * rewrite (proj2 (Z.eqb_neq (mp - 9) 2)) by lia. replace (mp - 9) with 1 by lia. simpl. lia.
      * assert (Hq : (153 * mp + 2) / 5 = 337) by dlia.
        rewrite (proj2 (Z.eqb_eq (mp - 9) 2)), Hq by lia.
        destruct (decide (n = 365)) as [Hlong|]; [|destruct (isLeap _); lia].
        subst y'. rewrite isLeap_cycles by (try lia; by apply Hlast). lia.
Qed.

(** ** Digits *)

Lemma digit_digit_chr d : 0 <= d <= 9 -> digit (digit_chr d) = Some d.
Proof.
  intros Hd. assert (Hc : d = 0 \/ d = 1 \/ d = 2 \/ d = 3 \/ d = 4 \/ d = 5 \/ d = 6 \/ d = 7 \/
    d = 8 \/ d = 9) by lia.
  by destruct_or!; subst.
Qed.

Lemma mod_pow_step n (k : nat) :
  n mod 10 ^ Z.of_nat (S k) =
    (n / 10 ^ Z.of_nat k mod 10) * 10 ^ Z.of_nat k + n mod 10 ^ Z.of_nat k.
Proof.
  rewrite Nat2Z.inj_succ, Z.pow_succ_r, Z.mul_comm by lia. rewrite Z.rem_mul_r by lia. lia.
Qed.

Lemma append_cons c s t : String c s +:+ t = String c (s +:+ t).
Proof. done. Qed.

Lemma append_nil_r s : s +:+ "" = s.
Proof. induction s as [|c s IH]; [done|]. by rewrite append_cons, IH. Qed.

(** Reading what was printed. *)
Lemma read_pad k n acc rest :
  read_digits k acc (pad k n +:+ rest) =
    Some (acc * 10 ^ Z.of_nat k + n mod 10 ^ Z.of_nat k, rest).
Proof.
  revert acc. induction k as [|k IH]; intros acc; cbn [read_digits pad].
  - change (Z.of_nat 0) with 0. rewrite Z.mod_1_r, Z.mul_1_r, Z.add_0_r. done.
  - rewrite append_cons. rewrite digit_digit_chr by (pose proof (Z.mod_pos_bound (n / 10 ^ Z.of_nat k) 10); lia).
    rewrite IH, mod_pow_step.
    rewrite Nat2Z.inj_succ, Z.pow_succ_r by lia. do 2 f_equal. lia.
Qed.

Lemma parseUint_pad k n lo hi rest :
  lo <= n <= hi -> 0 <= n < 10 ^ Z.of_nat k ->
  parseUint k lo hi (pad k n +:+ rest) = Some (n, rest).
Proof.
  intros Hr Hk. unfold parseUint. rewrite read_pad, Z.mul_0_l, Z.add_0_l, Z.mod_small by done. simpl.
  by rewrite (proj2 (Z.leb_le lo n)), (proj2 (Z.leb_le n hi)) by lia.
Qed.

Lemma span_pad k n rest :
  (forall c s, rest = String c s -> digit c = None) ->
  span_digits (pad k n +:+ rest) = (pad k n, rest).
Proof.
  intros Hrest. induction k as [|k IH]; cbn [pad].
  - destruct rest as [|c s]; [done|]. simpl. by rewrite (Hrest c s).
  - rewrite append_cons. cbn [span_digits].
    rewrite digit_digit_chr by (pose proof (Z.mod_pos_bound (n / 10 ^ Z.of_nat k) 10); lia).
    by rewrite IH.
Qed.

Lemma value_pad k n acc :
  value_of (pad k n) acc = acc * 10 ^ Z.of_nat k + n mod 10 ^ Z.of_nat k.
Proof.
  revert acc. induction k as [|k IH]; intros acc; cbn [value_of pad].
  - change (Z.of_nat 0) with 0. rewrite Z.mod_1_r. lia.
  - rewrite digit_digit_chr by (pose proof (Z.mod_pos_bound (n / 10 ^ Z.of_nat k) 10); lia).
    rewrite IH, mod_pow_step, Nat2Z.inj_succ, Z.pow_succ_r by lia. simpl. lia.
Qed.

Lemma length_pad k n : String.length (pad k n) = k.
Proof. induction k as [|k IH]; [done|]. simpl. by rewrite IH. Qed.

Lemma substring_all k s : (String.length s <= k)%nat -> String.substring 0 k s = s.
Proof.
  revert k. induction s as [|c s IH]; intros [|k] Hk; simpl in *; try done; [lia|].
  by rewrite IH by lia.
Qed.

(** A fraction is printed as the digits of a number that, scaled back, is it. *)
Lemma frac_digits_spec k n :
  0 < n < 10 ^ Z.of_nat k ->
  exists j m, frac_digits k n = pad (S j) m /\ (j < k)%nat /\ 0 <= m < 10 ^ Z.of_nat (S j) /\
    n = m * 10 ^ (Z.of_nat k - Z.of_nat (S j)).
Proof.
  revert n. induction k as [|k IH]; intros n Hn; [simpl in Hn; lia|]. cbn [frac_digits].
  destruct (Z.eqb_spec (n mod 10) 0) as [Hz|Hz].
  - assert (Hpow : 10 ^ Z.of_nat (S k) = 10 * 10 ^ Z.of_nat k)
      by (rewrite Nat2Z.inj_succ, Z.pow_succ_r; lia).
    destruct (IH (n / 10)) as (j & m & -> & Hj & Hm & Heq); [dlia|].
    exists j, m. split; [done|]. split; [lia|]. split; [done|].
    replace (Z.of_nat (S k) - Z.of_nat (S j)) with (Z.succ (Z.of_nat k - Z.of_nat (S j))) by lia.
    rewrite Z.pow_succ_r by lia. dlia.
  - exists k, n. split; [done|]. split; [lia|]. split; [lia|]. rewrite Z.sub_diag. lia.
Qed.

Lemma expect_lit c s : expect c (String c "" +:+ s) = Some s.
Proof. change (String c "" +:+ s) with (String c s). unfold expect. by rewrite Ascii.eqb_refl. Qed.

Lemma some_bind {A B} (f : A -> option B) a : (Some a ≫= f) = f a.
Proof. done. Qed.

(** One more number, or one more character, of a printed text. *)
Ltac read_field :=
  first [rewrite parseUint_pad by (try dlia; simpl; dlia) | rewrite expect_lit];
  rewrite some_bind; cbv beta iota.

(** The zone ends the fraction. *)
Lemma print_zone_head offset c s :
  print_zone offset = String c s -> digit c = None /\ Ascii.eqb c "." = false.
Proof.
  unfold print_zone. destruct (offset =? 0); [by intros [= <- <-]|].
  destruct (_ <? 0); by intros [= <- <-].
Qed.

Lemma nanoseconds_pad j m :
  (j <= 9)%nat -> 0 <= m < 10 ^ Z.of_nat j ->
  nanoseconds (pad j m) = m * 10 ^ (9 - Z.of_nat j).
Proof.
  intros Hj Hm. unfold nanoseconds. rewrite substring_all by (rewrite length_pad; lia).
  by rewrite value_pad, length_pad, Z.mul_0_l, Z.add_0_l, Z.mod_small.
Qed.

Lemma parse_print_frac nsec offset :
  0 <= nsec < Second ->
  parse_frac (fun c => Ascii.eqb c ".") (print_frac nsec +:+ print_zone offset) =
    (nsec, print_zone offset).
Proof.
  intros Hn. unfold print_frac. destruct (Z.eqb_spec nsec 0) as [->|Hne].
  - change ("" +:+ print_zone offset) with (print_zone offset). unfold parse_frac.
    destruct (print_zone offset) as [|c [|c' s]] eqn:Hz; [done..|].
    apply print_zone_head in Hz as [_ ->]. done.
  - destruct (frac_digits_spec 9 nsec) as (j & m & -> & Hj & Hm & Heq);
      [unfold Second in Hn; simpl; lia|].
    change (("." +:+ pad (S j) m) +:+ print_zone offset)
      with (String "." (pad (S j) m +:+ print_zone offset)).
    assert (Hspan := span_pad (S j) m (print_zone offset)
      (fun c s Hz => proj1 (print_zone_head offset c s Hz))).
    cbn [pad] in Hspan |- *. rewrite append_cons in Hspan |- *. unfold parse_frac.
    cbn [Ascii.eqb Bool.eqb]. rewrite digit_digit_chr
      by (pose proof (Z.mod_pos_bound (m / 10 ^ Z.of_nat j) 10); lia).
    rewrite Hspan. change (String _ (pad j m)) with (pad (S j) m).
    rewrite nanoseconds_pad by (done || lia). by rewrite Heq.
Qed.

Lemma parse_print_zone offset :
  offset mod 60 = 0 -> Z.abs (Z.quot offset 60) / 60 < 24 ->
  parse_zone 23 59 (print_zone offset) = Some (offset, "").
Proof.
  intros Hmin Hhr. unfold print_zone. destruct (Z.eqb_spec offset 0) as [->|Hne]; [done|].
  set (z := Z.quot offset 60) in *. assert (Hz : offset = 60 * z) by (subst z; dlia).
  clearbody z.
  assert (Hpm : forall c, (c = "+"%char \/ c = "-"%char) ->
    parse_zone 23 59 (String c (pad 2 (Z.abs z / 60) +:+ ":" +:+ pad 2 (Z.abs z mod 60))) =
    Some ((if Ascii.eqb c "+" then 1 else -1) * ((Z.abs z / 60 * 60 + Z.abs z mod 60) * 60), "")).
  { intros c Hc. unfold parse_zone.
    assert (parse_offset 23 59 (String c (pad 2 (Z.abs z / 60) +:+ ":" +:+ pad 2 (Z.abs z mod 60))) =
      Some ((if Ascii.eqb c "+" then 1 else -1) * ((Z.abs z / 60 * 60 + Z.abs z mod 60) * 60), ""))
      as Hp; [|by destruct Hc as [-> | ->]].
    unfold parse_offset. rewrite <- (append_nil_r (pad 2 (Z.abs z mod 60))).
    destruct Hc as [-> | ->]; cbn [Ascii.eqb Bool.eqb]; rewrite some_bind; by repeat read_field. }
  destruct (Z.ltb_spec z 0).
  - refine (eq_trans (Hpm "-"%char ltac:(by right)) _). simpl. do 2 f_equal. dlia.
  - refine (eq_trans (Hpm "+"%char ltac:(by left)) _). simpl. do 2 f_equal. dlia.
Qed.

(** ** Round trip *)

(** A time that is printed is read back, if the offset of its zone is in whole minutes. *)
Lemma parse_marshal_time offset t s :
  marshal_time offset t = Ok s -> offset mod 60 = 0 -> parseRFC3339 s = Some t.
Proof.
  unfold marshal_time. set (sec := t / Second + offset).
  destruct (date_of_days (sec / 86400)) as [[y m] d] eqn:Hdate.
  destruct (Z.ltb_spec y 0); [done|]. destruct (Z.ltb_spec 9999 y); [done|]. cbn [orb].
  destruct (Z.leb_spec 24 (Z.abs (Z.quot offset 60) / 60)); [done|]. intros Hs Hmin.
  match type of Hs with Ok ?x = _ => assert (s = x) as -> by congruence end. clear Hs.
  destruct (date_of_days_spec _ _ _ _ Hdate) as (Hdays & Hm & Hd).
  assert (Hmax : daysIn m y <= 31) by (unfold daysIn; repeat case_match; lia).
  set (n := sec mod 86400). assert (Hn : 0 <= n < 86400 /\ sec = sec / 86400 * 86400 + n)
    by (subst n; dlia).
  clearbody n. destruct Hn as [Hn Hsec]. unfold parseRFC3339. do 11 read_field.
  rewrite parse_print_frac by (unfold Second; dlia).
  rewrite parse_print_zone by done. rewrite some_bind. cbv beta iota.
  rewrite bool_decide_eq_true_2 by done. f_equal. unfold Date. rewrite Hdays.
  clear Hdate Hdays Hd Hmax.
  assert (Hsod : (n / 3600 * 60 + n / 60 mod 60) * 60 + n mod 60 = n) by dlia.
  assert (Ht : t = t / Second * Second + t mod Second) by (unfold Second; dlia).
  assert (Hof : t / Second = sec - offset) by (subst sec; lia). clearbody sec.
  unfold Second in *. nia.
Qed.

(** ** The fast path is only faster *)

Lemma getnum_read fixed s x s' : read_digits 2 0 s = Some (x, s') -> getnum fixed s = Some (x, s').
Proof.
  destruct s as [|c [|c2 s2]]; simpl; [done|by destruct (digit c)|].
  destruct (digit c) as [d|]; [|done]. simpl. destruct (digit c2) as [d2|]; [|done].
  intros [= <- <-]. do 2 f_equal. lia.
Qed.

Lemma getnum_parseUint fixed lo hi s x s' :
  parseUint 2 lo hi s = Some (x, s') -> getnum_range fixed lo hi s = Some (x, s').
Proof.
  unfold parseUint, getnum_range. destruct (read_digits 2 0 s) as [[y r]|] eqn:Hr; [|done].
  by rewrite (getnum_read _ _ _ _ Hr).
Qed.

Lemma parseUint_range k lo hi s x s' :
  parseUint k lo hi s = Some (x, s') -> read_digits k 0 s = Some (x, s') /\ lo <= x <= hi.
Proof.
  unfold parseUint. destruct (read_digits k 0 s) as [[y r]|]; [|done]. simpl.
  destruct (_ && _) eqn:Hc; [|done]. apply andb_true_iff in Hc as [?%Z.leb_le ?%Z.leb_le].
  by intros [= <- <-].
Qed.

Lemma parseUint_mono k lo hi hi' s x s' :
  hi <= hi' -> parseUint k lo hi s = Some (x, s') -> parseUint k lo hi' s = Some (x, s').
Proof.
  intros Hle [Hr Hx]%parseUint_range. unfold parseUint. rewrite Hr. simpl.
  by rewrite (proj2 (Z.leb_le lo x)), (proj2 (Z.leb_le x hi')) by lia.
Qed.

Lemma parse_zone_mono s r : parse_zone 23 59 s = Some r -> parse_zone 24 60 s = Some r.
Proof.
  assert (Hoff : parse_offset 23 59 s = Some r -> parse_offset 24 60 s = Some r).
  { unfold parse_offset. destruct s as [|c s]; [done|].
    destruct (if Ascii.eqb c "+" then _ else _) as [sg|]; [|done]. rewrite !some_bind.
    destruct (parseUint 2 0 23 s) as [[hr s1]|] eqn:H1; [|done].
    rewrite (parseUint_mono 2 0 23 24 s hr s1) by (done || lia). rewrite !some_bind.
    destruct (expect ":" s1) as [s2|]; [|done]. rewrite !some_bind.
    destruct (parseUint 2 0 59 s2) as [[mm s3]|] eqn:H2; [|done].
    by rewrite (parseUint_mono 2 0 59 60 s2 mm s3) by (done || lia). }
  unfold parse_zone. repeat case_match; auto.
Qed.

Lemma parse_frac_comma s n s1 r :
  parse_frac (fun c => Ascii.eqb c ".") s = (n, s1) -> parse_zone 23 59 s1 = Some r ->
  parse_frac (fun c => Ascii.eqb c "." || Ascii.eqb c ",") s = (n, s1).
Proof.
  unfold parse_frac. destruct s as [|p [|c s]]; [done..|].
  destruct (Ascii.eqb_spec p "."%char) as [->|Hp]; [done|]. cbn [orb].
  destruct (Ascii.eqb_spec p ","%char) as [->|]; [|done].
  intros [= <- <-]. done.
Qed.

(** What the fast path accepts, the general parser accepts with the same result. *)
Lemma parseRFC3339_parse s t : parseRFC3339 s = Some t -> parse s = Some t.
Proof.
  unfold parseRFC3339, parse.
  destruct (parseUint 4 0 9999 s) as [[y s1]|] eqn:Hy; [|done].
  apply parseUint_range in Hy as [-> _]. rewrite !some_bind.
  destruct (expect "-" s1) as [s2|]; [|done]. rewrite !some_bind.
  destruct (parseUint 2 1 12 s2) as [[m s3]|] eqn:Hm; [|done].
  rewrite (getnum_parseUint _ _ _ _ _ _ Hm), !some_bind.
  destruct (expect "-" s3) as [s4|]; [|done]. rewrite !some_bind.
  destruct (parseUint 2 1 (daysIn m y) s4) as [[d s5]|] eqn:Hd; [|done].
  apply parseUint_range in Hd as [Hd Hday]. rewrite (getnum_read _ _ _ _ Hd), !some_bind.
  destruct (expect "T" s5) as [s6|]; [|done]. rewrite !some_bind.
  destruct (parseUint 2 0 23 s6) as [[h s7]|] eqn:Hh; [|done].
  rewrite (getnum_parseUint _ _ _ _ _ _ Hh), !some_bind.
  destruct (expect ":" s7) as [s8|]; [|done]. rewrite !some_bind.
  destruct (parseUint 2 0 59 s8) as [[mi s9]|] eqn:Hmi; [|done].
  rewrite (getnum_parseUint _ _ _ _ _ _ Hmi), !some_bind.
  destruct (expect ":" s9) as [s10|]; [|done]. rewrite !some_bind.
  destruct (parseUint 2 0 59 s10) as [[sec s11]|] eqn:Hsec; [|done].
  rewrite (getnum_parseUint _ _ _ _ _ _ Hsec), !some_bind.
  destruct (parse_frac (fun c => Ascii.eqb c ".") s11) as [n s12] eqn:Hf.
  destruct (parse_zone 23 59 s12) as [[o s13]|] eqn:Hz; [|done].
  rewrite (parse_frac_comma _ _ _ _ Hf Hz), (parse_zone_mono _ _ Hz), !some_bind.
  by rewrite (proj2 (Z.leb_le 1 d)), (proj2 (Z.leb_le d (daysIn m y))), andb_true_r by lia.
Qed.

Lemma Parse_RFC3339_parse s : Parse_RFC3339 s = parse s.
Proof.
  unfold Parse_RFC3339. destruct (parseRFC3339 s) as [t|] eqn:Ht; [|done].
  by rewrite (parseRFC3339_parse _ _ Ht).
Qed.

Lemma Parse_marshal_time offset t s :
  marshal_time offset t = Ok s -> offset mod 60 = 0 -> Parse_RFC3339 s = Some t.
Proof. intros Hs Ho. unfold Parse_RFC3339. by rewrite (parse_marshal_time _ _ _ Hs Ho). Qed.

Example Parse_ex1 : Parse_RFC3339 "2024-02-29T12:30:00.5+09:00" = Some 1709177400500000000.
Proof. vm_compute. reflexivity. Qed.

Example Parse_ex2 :
  Parse_RFC3339 "2023-02-29T00:00:00Z" = None /\
  Parse_RFC3339 "2024-01-01T1:02:03,25Z" = Some 1704070923250000000.
Proof. split; vm_compute; reflexivity. Qed.

Example marshal_ex : marshal_time 32400 1709177400500000000 = Ok "2024-02-29T12:30:00.5+09:00".
Proof. vm_compute. reflexivity. Qed.

(** The years of the days from 1970 on up to the end of 9999, with a day to spare. *)
Lemma year_of_days z y m d :
  -1 <= z <= 2932896 -> date_of_days z = (y, m, d) -> 0 <= y <= 9999.
Proof.
  intros Hr. destruct (cycles (z + 719468)) as (a & b & c & e & n & Hz & Hb & Hc & He & Hn & _ & Heq).
  replace (z + 719468 - 719468) with z in Heq by lia. rewrite Heq. clear Heq. cbv zeta.
  assert (Hmp : (5 * n + 2) / 153 < 10 \/ 306 <= n) by dlia.
  destruct (Z.ltb_spec ((5 * n + 2) / 153) 10); intros [= <- <- <-]; lia.
Qed.

(** From 1970 until the last day of the year 9999, in every zone. *)
Definition in_years (t : Time) : Prop := 0 <= t < 253402214400 * Second.

Lemma marshal_time_total offset t :
  in_years t -> Z.abs offset < 86400 -> exists s, marshal_time offset t = Ok s.
Proof.
  intros Ht Ho. unfold in_years, Second in Ht. unfold marshal_time.
  destruct (date_of_days _) as [[y m] d] eqn:Hd.
  apply year_of_days in Hd; [|unfold Second; dlia].
  rewrite (proj2 (Z.ltb_ge y 0)), (proj2 (Z.ltb_ge 9999 y)) by lia. cbn [orb].
  rewrite (proj2 (Z.leb_gt 24 _)) by dlia. by eexists.
Qed.
