(* ===== verification/Json.v ===== *)
(** * JSON ([encoding/json] of the standard library, as far as the program uses it)

    Bodies, responses and events are JSON texts.  A text is a list of runes: a code point is
    itself, a byte that is not part of valid UTF-8 is kept as its negative.  [print] is what
    [json.Marshal] writes, HTML characters escaped; [scan_value] is the scanner that checks a
    text and finds the end of a value; [scan_object] lists the members of an object with the
    raw text of their values, which [decode_string] and the like turn into field values.
    ([JsonText.v] compares all of it with the grammar of JSON.) *)

From Stdlib Require Import Ascii.
From S2P Require Import Prelude Strconv Rfc3339.

Local Open Scope string_scope.
Local Open Scope Z_scope.
Local Open Scope list_scope.

#[local] Set Warnings "-register-all".

(** ** UTF-8 *)

Definition byte (c : ascii) : Z := Z.of_N (N_of_ascii c).
Definition chr (z : Z) : ascii := ascii_of_N (Z.to_N z).

Definition between (lo hi x : Z) : bool := (lo <=? x) && (x <=? hi).
Definition cont (b : Z) : bool := between 128 191 b.

(** The first two bytes of a sequence of two, three and four bytes. *)
Definition two_bytes (b0 b1 : Z) : bool := between 194 223 b0 && cont b1.
Definition three_bytes (b0 b1 : Z) : bool :=
  (b0 =? 224) && between 160 191 b1 || between 225 236 b0 && cont b1 ||
  (b0 =? 237) && between 128 159 b1 || between 238 239 b0 && cont b1.
Definition four_bytes (b0 b1 : Z) : bool :=
  (b0 =? 240) && between 144 191 b1 || between 241 243 b0 && cont b1 ||
  (b0 =? 244) && between 128 143 b1.

Fixpoint decode (s : string) : list Z :=
  match s with
  | EmptyString => []
  | String c0 s1 =>
      if byte c0 <? 128 then byte c0 :: decode s1
      else
        match s1 with
        | EmptyString => [- byte c0]
        | String c1 s2 =>
            if two_bytes (byte c0) (byte c1)
            then (byte c0 - 192) * 64 + (byte c1 - 128) :: decode s2
            else
              match s2 with
              | EmptyString => - byte c0 :: decode s1
              | String c2 s3 =>
                  if three_bytes (byte c0) (byte c1) && cont (byte c2)
                  then (byte c0 - 224) * 4096 + (byte c1 - 128) * 64 + (byte c2 - 128) :: decode s3
                  else
                    match s3 with
                    | EmptyString => - byte c0 :: decode s1
                    | String c3 s4 =>
                        if four_bytes (byte c0) (byte c1) && cont (byte c2) && cont (byte c3)
                        then (byte c0 - 240) * 262144 + (byte c1 - 128) * 4096 +
                             (byte c2 - 128) * 64 + (byte c3 - 128) :: decode s4
                        else - byte c0 :: decode s1
                    end
              end
        end
  end.

Definition encode_rune (z : Z) : string :=
  if z <? 0 then String (chr (- z)) ""
  else if z <? 128 then String (chr z) ""
  else if z <? 2048 then String (chr (192 + z / 64)) (String (chr (128 + z mod 64)) "")
  else if z <? 65536 then
    String (chr (224 + z / 4096)) (String (chr (128 + z / 64 mod 64))
      (String (chr (128 + z mod 64)) ""))
  else
    String (chr (240 + z / 262144)) (String (chr (128 + z / 4096 mod 64))
      (String (chr (128 + z / 64 mod 64)) (String (chr (128 + z mod 64)) ""))).

Definition encode (l : list Z) : string := foldr (fun z s => encode_rune z +:+ s) "" l.

(** A code point that has an encoding. *)
Definition scalar (z : Z) : bool := between 0 55295 z || between 57344 1114111 z.

(** Valid UTF-8. *)
Definition utf8 (s : string) : bool := forallb scalar (decode s).

(** ** Strings *)

Definition hex_digit (d : Z) : Z := if d <? 10 then 48 + d else 87 + d.

(** What [appendString] writes for a rune of a string. *)
Definition quote_rune (z : Z) : list Z :=
  if z <? 0 then decode "\ufffd"
  else if (z =? 34) || (z =? 92) then [92; z]
  else if z =? 8 then decode "\b"
  else if z =? 12 then decode "\f"
  else if z =? 10 then decode "\n"
  else if z =? 13 then decode "\r"
  else if z =? 9 then decode "\t"
  else if (z <? 32) || (z =? 60) || (z =? 62) || (z =? 38)
  then [92; 117; 48; 48; hex_digit (z / 16); hex_digit (z mod 16)]
  else if z =? 8232 then decode "\u2028"
  else if z =? 8233 then decode "\u2029"
  else [z].

Definition quote (s : list Z) : list Z := 34 :: concat (quote_rune <$> s) ++ [34].

Definition hex_value (z : Z) : option Z :=
  if between 48 57 z then Some (z - 48)
  else if between 97 102 z then Some (z - 87)
  else if between 65 70 z then Some (z - 55)
  else None.

Definition getu4 (s : list Z) : option (Z * list Z) :=
  match s with
  | a :: b :: c :: d :: s =>
      a ← hex_value a; b ← hex_value b; c ← hex_value c; d ← hex_value d;
      Some (((a * 16 + b) * 16 + c) * 16 + d, s)
  | _ => None
  end.

(** The single characters after a backslash. *)
Definition escape_value (z : Z) : option Z :=
  if (z =? 34) || (z =? 92) || (z =? 47) then Some z
  else if z =? 98 then Some 8
  else if z =? 102 then Some 12
  else if z =? 110 then Some 10
  else if z =? 114 then Some 13
  else if z =? 116 then Some 9
  else None.

Definition surrogate (r : Z) : bool := between 55296 57343 r.

(** [utf16.DecodeRune], when it is a pair. *)
Definition surrogate_pair (r1 r2 : Z) : option Z :=
  if between 55296 56319 r1 && between 56320 57343 r2
  then Some ((r1 - 55296) * 1024 + (r2 - 56320) + 65536) else None.

(** [unquote] of the characters between the quotes; the fuel is their number. *)
Fixpoint unquote (fuel : nat) (s : list Z) : option (list Z) :=
  match fuel, s with
  | _, [] => Some []
  | O, _ => None
  | S fuel, 92 :: 117 :: s =>
      '(r, s) ← getu4 s;
      if surrogate r then
        match s with
        | 92 :: 117 :: s2 =>
            match getu4 s2 ≫= fun p => r' ← surrogate_pair r p.1; Some (r', p.2) with
            | Some (r', s3) => cons r' <$> unquote fuel s3
            | None => cons 65533 <$> unquote fuel s
            end
        | _ => cons 65533 <$> unquote fuel s
        end
      else cons r <$> unquote fuel s
  | S fuel, 92 :: c :: s => r ← escape_value c; cons r <$> unquote fuel s
  | S fuel, c :: s =>
      if (c =? 34) || between 0 31 c || (c =? 92) then None
      else cons (if c <? 0 then 65533 else c) <$> unquote fuel s
  end.

(** ** The scanner *)

Definition is_ws (z : Z) : bool := (z =? 32) || (z =? 9) || (z =? 13) || (z =? 10).

Fixpoint skip_ws (s : list Z) : list Z :=
  match s with
  | z :: s' => if is_ws z then skip_ws s' else s
  | [] => []
  end.

(** After the opening quote: the characters up to the closing one, and what follows it. *)
Fixpoint scan_string (s : list Z) : option (list Z * list Z) :=
  match s with
  | [] => None
  | z :: s' =>
      if z =? 34 then Some ([], s')
      else if between 0 31 z then None
      else if z =? 92 then
        match s' with
        | 117 :: a :: b :: c :: d :: s2 =>
            if forallb (fun x => bool_decide (is_Some (hex_value x))) [a; b; c; d]
            then '(body, rest) ← scan_string s2; Some (z :: 117 :: a :: b :: c :: d :: body, rest)
            else None
        | e :: s2 =>
            match escape_value e with
            | Some _ => '(body, rest) ← scan_string s2; Some (z :: e :: body, rest)
            | None => None
            end
        | [] => None
        end
      else '(body, rest) ← scan_string s'; Some (z :: body, rest)
  end.

Definition is_digit (z : Z) : bool := between 48 57 z.

Fixpoint skip_digits (s : list Z) : list Z :=
  match s with
  | z :: s' => if is_digit z then skip_digits s' else s
  | [] => []
  end.

(** One digit or more. *)
Definition scan_digits (s : list Z) : option (list Z) :=
  match s with
  | z :: s' => if is_digit z then Some (skip_digits s') else None
  | [] => None
  end.

Definition scan_fraction (s : list Z) : option (list Z) :=
  match s with 46 :: s' => scan_digits s' | _ => Some s end.

Definition scan_exponent (s : list Z) : option (list Z) :=
  match s with
  | (101 | 69) :: (43 | 45) :: s' => scan_digits s'
  | (101 | 69) :: s' => scan_digits s'
  | _ => Some s
  end.

(** No zero in front of other digits. *)
Definition scan_integer (s : list Z) : option (list Z) :=
  match s with 48 :: s' => Some s' | _ => scan_digits s end.

Definition scan_unsigned (s : list Z) : option (list Z) :=
  s ← scan_integer s; s ← scan_fraction s; scan_exponent s.

Definition scan_number (s : list Z) : option (list Z) :=
  scan_unsigned (match s with 45 :: s' => s' | _ => s end).

Fixpoint scan_literal (lit s : list Z) : option (list Z) :=
  match lit, s with
  | [], _ => Some s
  | a :: lit, z :: s => if a =? z then scan_literal lit s else None
  | _ :: _, [] => None
  end.

(** A member: the characters of its name, the raw text of its value. *)
Definition member := (list Z * list Z)%type.

Section Composite.
Context (scan : list Z -> option (list Z)).

(** The value at the front as raw text. *)
Definition raw_value (s : list Z) : option (list Z * list Z) :=
  rest ← scan s; Some (take (length s - length rest) s, rest).

(** After the opening bracket, at an element. *)
Fixpoint scan_elements (fuel : nat) (s : list Z) : option (list Z) :=
  match fuel with
  | O => None
  | S fuel =>
      rest ← scan (skip_ws s);
      match skip_ws rest with
      | 44 :: rest => scan_elements fuel rest
      | 93 :: rest => Some rest
      | _ => None
      end
  end.

(** After the opening brace, at a member. *)
Fixpoint scan_members (fuel : nat) (s : list Z) : option (list member * list Z) :=
  match fuel with
  | O => None
  | S fuel =>
      match skip_ws s with
      | 34 :: s1 =>
          '(name, s2) ← scan_string s1;
          match skip_ws s2 with
          | 58 :: s3 =>
              '(raw, s4) ← raw_value (skip_ws s3);
              match skip_ws s4 with
              | 44 :: s5 => '(ms, rest) ← scan_members fuel s5; Some ((name, raw) :: ms, rest)
              | 125 :: rest => Some ([(name, raw)], rest)
              | _ => None
              end
          | _ => None
          end
      | _ => None
      end
  end.

Definition scan_object (s : list Z) : option (list member * list Z) :=
  match skip_ws s with
  | 125 :: rest => Some ([], rest)
  | _ => scan_members (S (length s)) s
  end.

Definition scan_array (s : list Z) : option (list Z) :=
  match skip_ws s with
  | 93 :: rest => Some rest
  | _ => scan_elements (S (length s)) s
  end.

End Composite.

(** Arrays and objects may be nested this deep. *)
Definition maxNestingDepth : nat := Z.to_nat 10000.

(** A value at the front, with [depth] levels of nesting left. *)
Fixpoint scan_value (depth : nat) (s : list Z) : option (list Z) :=
  match s with
  | 34 :: s => snd <$> scan_string s
  | 123 :: s =>
      match depth with O => None | S depth => snd <$> scan_object (scan_value depth) s end
  | 91 :: s =>
      match depth with O => None | S depth => scan_array (scan_value depth) s end
  | 116 :: _ => scan_literal (decode "true") s
  | 102 :: _ => scan_literal (decode "false") s
  | 110 :: _ => scan_literal (decode "null") s
  | _ => scan_number s
  end.

(** ** Decoding into fields *)

(** [json.Decoder.Decode] into a struct: the members of the object at the front, what follows
    it being left alone; [null] leaves the struct as it is. *)
Definition decode_first (s : list Z) : option (list member) :=
  match skip_ws s with
  | 123 :: s => fst <$> scan_object (scan_value (pred maxNestingDepth)) s
  | 110 :: _ => _ ← scan_literal (decode "null") (skip_ws s); Some []
  | _ => None
  end.

(** [json.Unmarshal] into a struct: nothing but space may follow. *)
Definition unmarshal_members (s : list Z) : option (list member) :=
  match skip_ws s with
  | 123 :: s =>
      '(ms, rest) ← scan_object (scan_value (pred maxNestingDepth)) s;
      if forallb is_ws rest then Some ms else None
  | 110 :: _ =>
      rest ← scan_literal (decode "null") (skip_ws s);
      if forallb is_ws rest then Some [] else None
  | _ => None
  end.

(** [foldName]: names match up to case; the long s and the Kelvin sign fold to letters. *)
Definition fold_rune (z : Z) : Z :=
  if between 97 122 z then z - 32 else if z =? 383 then 83 else if z =? 8490 then 75 else z.

Definition names_field (field : string) (name : list Z) : bool :=
  bool_decide (fold_rune <$> name = fold_rune <$> decode field).

Definition unquoted (body : list Z) : option (list Z) := unquote (length body) body.

(** A field of type [string]; [null] leaves its value. *)
Definition decode_string (old : string) (raw : list Z) : option string :=
  match raw with
  | 110 :: _ => Some old
  | 34 :: s => '(body, _) ← scan_string s; encode <$> unquoted body
  | _ => None
  end.

(** Fields of types [*string] and [*int]. *)
Definition decode_pstring (raw : list Z) : option (option string) :=
  match raw with 110 :: _ => Some None | _ => Some <$> decode_string "" raw end.

Definition decode_pint (raw : list Z) : option (option Z) :=
  match raw with
  | 110 :: _ => Some None
  | _ => match Atoi (encode raw) with (z, None) => Some (Some z) | _ => None end
  end.

(** A field of type [time.Time]: the text between the quotes as it is. *)
Definition decode_time (old : option Time) (raw : list Z) : option (option Time) :=
  match raw with
  | 110 :: _ => Some old
  | 34 :: s => '(body, _) ← scan_string s; Some <$> Parse_RFC3339 (encode body)
  | _ => None
  end.

(** The members one after the other, each with its name unquoted; the decoding of a struct
    goes on after a value of the wrong type, but fails in the end. *)
Definition decode_members {A} (step : A -> list Z -> list Z -> option A) (init : A)
    (ms : list member) : option A :=
  foldl (fun acc m => a ← acc; name ← unquoted m.1; step a name m.2) (Some init) ms.

(** ** Values and their texts *)

Inductive json :=
| JNull
| JBool (b : bool)
| JInt (z : Z)
| JStr (s : string)
| JArr (l : list json)
| JObj (l : list (string * json)).

(** The number of digits of [n]. *)
Fixpoint width (fuel : nat) (n : Z) : nat :=
  match fuel with
  | O => 1%nat
  | S fuel => if n <? 10 then 1%nat else S (width fuel (n / 10))
  end.

Fixpoint digits (k : nat) (n : Z) : list Z :=
  match k with
  | O => []
  | S k => 48 + n / 10 ^ Z.of_nat k mod 10 :: digits k n
  end.

Definition print_int (z : Z) : list Z :=
  (if z <? 0 then [45] else []) ++ digits (width (Z.to_nat (Z.log2 (Z.abs z))) (Z.abs z)) (Z.abs z).

Definition join (sep : Z) (l : list (list Z)) : list Z :=
  match l with
  | [] => []
  | x :: l => x ++ concat ((fun y => sep :: y) <$> l)
  end.

Fixpoint print (j : json) : list Z :=
  match j with
  | JNull => decode "null"
  | JBool b => decode (if b then "true" else "false")
  | JInt z => print_int z
  | JStr s => quote (decode s)
  | JArr l => 91 :: join 44 (map print l) ++ [93]
  | JObj l => 123 :: join 44 (map (fun p => quote (decode p.1) ++ 58 :: print p.2) l) ++ [125]
  end.

(** The levels of nesting. *)
Fixpoint depth (j : json) : nat :=
  match j with
  | JArr l => S (foldr max O (map depth l))
  | JObj l => S (foldr max O (map (fun p => depth p.2) l))
  | _ => O
  end.

(** ** UTF-8, round trip *)

Lemma byte_chr z : 0 <= z < 256 -> byte (chr z) = z.
Proof.
  intros Hz. unfold byte, chr. rewrite N_ascii_embedding by lia. lia.
Qed.

(** Boolean tests as arithmetic. *)
Ltac btests :=
  unfold scalar, two_bytes, three_bytes, four_bytes, surrogate, is_digit, cont, between in *;
  rewrite ?orb_true_iff, ?orb_false_iff in *; rewrite ?andb_true_iff, ?andb_false_iff in *;
  rewrite ?orb_true_iff, ?orb_false_iff, ?Z.leb_le, ?Z.leb_gt, ?Z.ltb_lt, ?Z.ltb_ge, ?Z.eqb_eq, ?Z.eqb_neq in *.

Lemma decode_encode_rune z s : scalar z = true -> decode (encode_rune z +:+ s) = z :: decode s.
Proof.
  intros Hz. unfold encode_rune. assert (Hr : 0 <= z <= 1114111) by (btests; lia).
  rewrite (proj2 (Z.ltb_ge z 0)) by lia.
  destruct (Z.ltb_spec z 128); [|destruct (Z.ltb_spec z 2048); [|destruct (Z.ltb_spec z 65536)]];
    rewrite !append_cons; change ("" +:+ s) with s; cbn [decode]; rewrite !byte_chr by dlia.
  - by rewrite (proj2 (Z.ltb_lt z 128)) by lia.
  - rewrite (proj2 (Z.ltb_ge _ 128)) by dlia.
    assert (Ht : two_bytes (192 + z / 64) (128 + z mod 64) = true) by (btests; dlia). rewrite Ht.
    f_equal. dlia.
  - rewrite (proj2 (Z.ltb_ge _ 128)) by dlia.
    assert (Ht : two_bytes (224 + z / 4096) (128 + z / 64 mod 64) = false) by (btests; dlia).
    assert (Ht3 : three_bytes (224 + z / 4096) (128 + z / 64 mod 64) &&
      cont (128 + z mod 64) = true) by (btests; dlia). rewrite Ht, Ht3. f_equal. dlia.
  - rewrite (proj2 (Z.ltb_ge _ 128)) by dlia.
    assert (Ht : two_bytes (240 + z / 262144) (128 + z / 4096 mod 64) = false) by (btests; dlia).
    assert (Ht3 : three_bytes (240 + z / 262144) (128 + z / 4096 mod 64) = false) by (btests; dlia).
    assert (Ht4 : four_bytes (240 + z / 262144) (128 + z / 4096 mod 64) &&
      cont (128 + z / 64 mod 64) && cont (128 + z mod 64) = true) by (btests; dlia).
    rewrite Ht, Ht3, Ht4. cbn [andb]. f_equal. dlia.
Qed.

Lemma encode_cons z l : encode (z :: l) = encode_rune z +:+ encode l.
Proof. done. Qed.

Lemma decode_encode l : Forall (fun z => scalar z = true) l -> decode (encode l) = l.
Proof.
  induction 1 as [|z l Hz _ IH]; [done|]. by rewrite encode_cons, decode_encode_rune, IH.
Qed.

Lemma byte_range c : 0 <= byte c < 256.
Proof. unfold byte. pose proof (N_ascii_bounded c). lia. Qed.

Lemma chr_byte c z : z = byte c -> chr z = c.
Proof. intros ->. unfold chr, byte. by rewrite N2Z.id, ascii_N_embedding. Qed.

(** The induction of [decode]: at the front of a text is a sequence or a stray byte. *)
Lemma decode_ind (P : string -> list Z -> Prop) :
  P "" [] ->
  (forall c s, 128 <= byte c -> P s (decode s) -> P (String c s) (- byte c :: decode s)) ->
  (forall z p s, scalar z = true -> encode_rune z = p -> P s (decode s) ->
     P (p +:+ s) (z :: decode s)) ->
  forall s, P s (decode s).
Proof.
  intros Hnil Hbad Hgood s. remember (String.length s) as n eqn:Hn. revert s Hn.
  induction n as [n IH] using lt_wf_ind. intros s ->.
  assert (IH' : forall t, (String.length t < String.length s)%nat -> P t (decode t)) by eauto.
  clear IH. destruct s as [|c0 s1]; [done|]. cbn [decode String.length] in *.
  pose proof (byte_range c0) as Hb0. destruct (Z.ltb_spec (byte c0) 128) as [Hlow|Hhigh].
  { apply (Hgood _ (String c0 "")); [btests; lia| |apply IH'; lia].
    unfold encode_rune. rewrite (proj2 (Z.ltb_ge _ 0)), (proj2 (Z.ltb_lt _ 128)) by lia.
    by rewrite (chr_byte c0). }
  assert (Hstray : P (String c0 s1) (- byte c0 :: decode s1)) by (apply Hbad; [done|apply IH'; lia]).
  destruct s1 as [|c1 s2]; [done|]. cbn [String.length] in *. pose proof (byte_range c1) as Hb1.
  destruct (two_bytes _ _) eqn:E2.
  { btests. apply (Hgood _ (String c0 (String c1 ""))); [btests; lia| |apply IH'; lia].
    unfold encode_rune. rewrite (proj2 (Z.ltb_ge _ 0)), (proj2 (Z.ltb_ge _ 128)),
      (proj2 (Z.ltb_lt _ 2048)) by lia. f_equal; [|f_equal]; apply chr_byte; dlia. }
  destruct s2 as [|c2 s3]; [done|]. cbn [String.length] in *. pose proof (byte_range c2) as Hb2.
  destruct (three_bytes _ _ && _) eqn:E3.
  { btests. apply (Hgood _ (String c0 (String c1 (String c2 "")))); [btests; lia| |apply IH'; lia].
    unfold encode_rune. rewrite (proj2 (Z.ltb_ge _ 0)), (proj2 (Z.ltb_ge _ 128)),
      (proj2 (Z.ltb_ge _ 2048)), (proj2 (Z.ltb_lt _ 65536)) by lia.
    f_equal; [|f_equal; [|f_equal]]; apply chr_byte; dlia. }
  destruct s3 as [|c3 s4]; [done|]. cbn [String.length] in *. pose proof (byte_range c3) as Hb3.
  destruct (four_bytes _ _ && _ && _) eqn:E4; [|done].
  btests. apply (Hgood _ (String c0 (String c1 (String c2 (String c3 "")))));
    [btests; lia| |apply IH'; lia].
  unfold encode_rune. rewrite (proj2 (Z.ltb_ge _ 0)), (proj2 (Z.ltb_ge _ 128)),
    (proj2 (Z.ltb_ge _ 2048)), (proj2 (Z.ltb_ge _ 65536)) by lia.
  f_equal; [|f_equal; [|f_equal; [|f_equal]]]; apply chr_byte; dlia.
Qed.

(** Decoding loses nothing. *)
Lemma encode_decode s : encode (decode s) = s.
Proof.
  apply (decode_ind (fun s l => encode l = s)); [done|..].
  - intros c t Hc IH. rewrite encode_cons, IH. unfold encode_rune.
    rewrite (proj2 (Z.ltb_lt (- byte c) 0)) by lia. by rewrite (chr_byte c) by lia.
  - intros z p t Hz <- IH. by rewrite encode_cons, IH.
Qed.

(** The runes of a text. *)
Definition rune_ok (z : Z) : bool := scalar z || (z <? 0).

Lemma decode_ok s : Forall (fun z => rune_ok z = true) (decode s).
Proof.
  apply (decode_ind (fun _ l => Forall (fun z => rune_ok z = true) l)); [done|..].
  - intros c t Hc IH. constructor; [|done]. unfold rune_ok.
    by rewrite (proj2 (Z.ltb_lt _ 0)), orb_true_r by lia.
  - intros z p t Hz _ IH. constructor; [|done]. unfold rune_ok. by rewrite Hz.
Qed.

(** ** Strings, round trip *)

Lemma hex_value_digit d : 0 <= d < 16 -> hex_value (hex_digit d) = Some d.
Proof.
  intros Hd. unfold hex_value, hex_digit. destruct (Z.ltb_spec d 10).
  - assert (Ht : between 48 57 (48 + d) = true) by (btests; lia). rewrite Ht. f_equal. lia.
  - assert (Ht : between 48 57 (87 + d) = false) by (btests; lia).
    assert (Ht2 : between 97 102 (87 + d) = true) by (btests; lia). rewrite Ht, Ht2. f_equal. lia.
Qed.

(** The forms of a quoted rune: a single escape, four hexadecimal digits, or itself. *)
Inductive quoted_as (z : Z) : list Z -> Prop :=
| q_escape e r : escape_value e = Some r -> z = r -> 0 <= z -> quoted_as z [92; e]
| q_hex a b c d va vb vc vd :
    hex_value a = Some va -> hex_value b = Some vb -> hex_value c = Some vc ->
    hex_value d = Some vd ->
    (if z <? 0 then 65533 else z) = ((va * 16 + vb) * 16 + vc) * 16 + vd ->
    quoted_as z [92; 117; a; b; c; d]
| q_plain : 32 <= z -> z <> 34 -> z <> 92 -> quoted_as z [z].

Lemma quote_rune_as z : quoted_as z (quote_rune z).
Proof.
  unfold quote_rune. destruct (Z.ltb_spec z 0) as [Hneg|Hpos].
  { eapply (q_hex z 102 102 102 100); try reflexivity. by rewrite (proj2 (Z.ltb_lt z 0)). }
  assert (Hnn : (if z <? 0 then 65533 else z) = z) by (by rewrite (proj2 (Z.ltb_ge z 0))).
  destruct (Z.eqb_spec z 34) as [->|]; [by eapply q_escape|].
  destruct (Z.eqb_spec z 92) as [->|]; [by eapply q_escape|]. cbn [orb].
  destruct (Z.eqb_spec z 8) as [->|]; [by eapply q_escape|].
  destruct (Z.eqb_spec z 12) as [->|]; [by eapply q_escape|].
  destruct (Z.eqb_spec z 10) as [->|]; [by eapply q_escape|].
  destruct (Z.eqb_spec z 13) as [->|]; [by eapply q_escape|].
  destruct (Z.eqb_spec z 9) as [->|]; [by eapply q_escape|].
  destruct (_ || _) eqn:Hesc.
  { assert (Hlt : z < 64) by (btests; lia).
    eapply q_hex; [reflexivity|reflexivity|apply hex_value_digit; dlia|apply hex_value_digit; dlia|].
    rewrite Hnn. dlia. }
  destruct (Z.eqb_spec z 8232) as [->|]; [by eapply q_hex|].
  destruct (Z.eqb_spec z 8233) as [->|]; [by eapply q_hex|].
  btests. by apply q_plain; lia.
Qed.

Lemma escape_cases e r :
  escape_value e = Some r ->
  e = 34 \/ e = 92 \/ e = 47 \/ e = 98 \/ e = 102 \/ e = 110 \/ e = 114 \/ e = 116.
Proof.
  unfold escape_value. intros He. repeat case_match; simplify_eq; btests; lia.
Qed.

Lemma scan_quoted z q t :
  quoted_as z q ->
  scan_string (q ++ t) = ('(body, rest) ← scan_string t; Some (q ++ body, rest)).
Proof.
  intros [e r He _ _|a b c d va vb vc vd Ha Hb Hc Hd _|H32 H34 H92].
  - apply escape_cases in He. by destruct_or!; subst.
  - cbn [app scan_string]. simpl. rewrite Ha, Hb, Hc, Hd. done.
  - cbn [app scan_string]. rewrite (proj2 (Z.eqb_neq z 34)), (proj2 (Z.eqb_neq z 92)) by lia.
    assert (Hb : between 0 31 z = false) by (btests; lia). by rewrite Hb.
Qed.

(** Stray bytes become the replacement character. *)
Definition sanitize (z : Z) : Z := if z <? 0 then 65533 else z.

Lemma unquote_plain fuel z t :
  z <> 92 ->
  unquote (S fuel) (z :: t) =
    if (z =? 34) || between 0 31 z || (z =? 92) then None
    else cons (sanitize z) <$> unquote fuel t.
Proof.
  intros Hz. destruct z as [|p|p]; [done| |done].
  do 7 (destruct p as [p|p|]; try done).
Qed.

Lemma unquote_quoted fuel z q t :
  rune_ok z = true -> quoted_as z q ->
  unquote (S fuel) (q ++ t) = cons (sanitize z) <$> unquote fuel t.
Proof.
  intros Hz [e r He Hr Hpos|a b c d va vb vc vd Ha Hb Hc Hd Hv|H32 H34 H92].
  - assert (Hsan : sanitize z = z) by (unfold sanitize; by rewrite (proj2 (Z.ltb_ge z 0))).
    rewrite Hsan, Hr. pose proof (escape_cases _ _ He).
    destruct_or!; subst e; injection He as <-; done.
  - cbn [app unquote]. unfold getu4. rewrite Ha, Hb, Hc, Hd. cbn. rewrite <- Hv.
    change (if z <? 0 then 65533 else z) with (sanitize z).
    assert (Hs : surrogate (sanitize z) = false).
    { unfold sanitize, rune_ok in *. destruct (Z.ltb_spec z 0); [done|]. rewrite orb_false_r in Hz.
      btests. lia. }
    by rewrite Hs.
  - cbn [app]. rewrite unquote_plain by done.
    rewrite (proj2 (Z.eqb_neq z 34)), (proj2 (Z.eqb_neq z 92)) by lia.
    assert (Hb : between 0 31 z = false) by (btests; lia). by rewrite Hb.
Qed.

Lemma scan_quote l rest :
  scan_string (concat (quote_rune <$> l) ++ 34 :: rest) =
    Some (concat (quote_rune <$> l), rest).
Proof.
  induction l as [|z l IH]; [done|]. rewrite fmap_cons. cbn [concat]. rewrite <- app_assoc.
  by rewrite (scan_quoted z), IH by apply quote_rune_as.
Qed.

Lemma unquoted_quote l :
  Forall (fun z => rune_ok z = true) l ->
  unquoted (concat (quote_rune <$> l)) = Some (sanitize <$> l).
Proof.
  intros Hl. unfold unquoted. assert (Hfuel : (length l <= length (concat (quote_rune <$> l)))%nat).
  { clear Hl. induction l as [|z l IH]; [done|]. rewrite fmap_cons. cbn [concat length].
    rewrite length_app. pose proof (quote_rune_as z) as [| |]; simpl; lia. }
  revert Hfuel. generalize (length (concat (quote_rune <$> l))) as fuel.
  induction Hl as [|z l Hz _ IH]; intros [|fuel] Hf; simpl in Hf; try done; try lia.
  rewrite fmap_cons. cbn [concat]. rewrite (unquote_quoted _ z) by (done || apply quote_rune_as).
  rewrite IH by lia. done.
Qed.

Lemma sanitize_utf8 s : utf8 s = true -> sanitize <$> decode s = decode s.
Proof.
  unfold utf8. generalize (decode s) as l. induction l as [|z l IH]; [done|].
  cbn [forallb]. rewrite andb_true_iff. intros [Hz Hl]. rewrite fmap_cons, IH by done. f_equal.
  unfold sanitize. rewrite (proj2 (Z.ltb_ge z 0)); [done|]. btests. lia.
Qed.

(** A string field gets what was printed. *)
Lemma decode_quote old s :
  decode_string old (quote (decode s)) = Some (encode (sanitize <$> decode s)).
Proof.
  unfold quote, decode_string. rewrite scan_quote, some_bind.
  by rewrite unquoted_quote by apply decode_ok.
Qed.

(** ** Numbers, round trip *)

(** What may follow a value. *)
Definition stops (s : list Z) : bool :=
  match s with
  | [] => true
  | z :: _ => (z =? 44) || (z =? 93) || (z =? 125)
  end.

Lemma width_spec fuel n :
  0 <= n -> Z.log2 n <= Z.of_nat fuel ->
  exists k, width fuel n = S k /\ n < 10 ^ Z.of_nat (S k) /\ (n = 0 -> k = O) /\
    (0 < n -> 10 ^ Z.of_nat k <= n).
Proof.
  revert n. induction fuel as [|fuel IH]; intros n Hn Hf.
  - assert (Hlog : n < 2) by (destruct (Z.lt_ge_cases n 2) as [|H2]; [done|];
      pose proof (Z.log2_le_mono 2 n H2); change (Z.log2 2) with 1 in *; lia).
    exists O. simpl. lia.
  - cbn [width]. destruct (Z.ltb_spec n 10) as [Hlt|Hge]; [exists O; simpl; lia|].
    assert (Hlog : Z.log2 (n / 10) <= Z.of_nat fuel).
    { assert (Hle : Z.log2 (2 * (n / 10)) <= Z.log2 n) by (apply Z.log2_le_mono; dlia).
      rewrite Z.log2_double in Hle by dlia. lia. }
    destruct (IH (n / 10)) as (k & -> & Hlt & _ & Hle); [dlia|done|].
    exists (S k). rewrite !Nat2Z.inj_succ, !Z.pow_succ_r in * by lia. split; [done|].
    assert (Hq : 0 < n / 10) by dlia. specialize (Hle Hq). split; [dlia|]. split; [lia|]. dlia.
Qed.

Lemma skip_digits_stops s : stops s = true -> skip_digits s = s.
Proof.
  destruct s as [|z s]; [done|]. simpl. intros Hz. assert (Hd : is_digit z = false) by (btests; lia).
  by rewrite Hd.
Qed.

Lemma skip_digits_digits k n rest : skip_digits (digits k n ++ rest) = skip_digits rest.
Proof.
  induction k as [|k IH]; [done|]. cbn [digits app skip_digits].
  assert (Hd : is_digit (48 + n / 10 ^ Z.of_nat k mod 10) = true).
  { pose proof (Z.mod_pos_bound (n / 10 ^ Z.of_nat k) 10). btests. lia. }
  by rewrite Hd.
Qed.

Lemma ten_cases d :
  0 <= d <= 9 -> d = 0 \/ d = 1 \/ d = 2 \/ d = 3 \/ d = 4 \/ d = 5 \/ d = 6 \/ d = 7 \/ d = 8 \/ d = 9.
Proof. lia. Qed.

Lemma scan_tail s : stops s = true -> (scan_fraction s ≫= scan_exponent) = Some s.
Proof.
  destruct s as [|z s]; [done|]. simpl. intros Hz.
  assert (Hc : z = 44 \/ z = 93 \/ z = 125) by (btests; lia). by destruct_or!; subst.
Qed.

Lemma scan_magnitude n rest :
  0 <= n -> stops rest = true ->
  exists d t, digits (width (Z.to_nat (Z.log2 n)) n) n = 48 + d :: t /\ 0 <= d <= 9 /\
    scan_unsigned (48 + d :: t ++ rest) = Some rest.
Proof.
  intros Hn Hrest. destruct (width_spec (Z.to_nat (Z.log2 n)) n) as (k & -> & Hlt & Hz & Hle);
    [done|pose proof (Z.log2_nonneg n); lia|].
  exists (n / 10 ^ Z.of_nat k mod 10), (digits k n). split; [done|].
  set (d := n / 10 ^ Z.of_nat k mod 10).
  assert (Hd : 0 <= d <= 9) by (pose proof (Z.mod_pos_bound (n / 10 ^ Z.of_nat k) 10); subst d; lia).
  split; [done|]. unfold scan_unsigned. destruct (decide (n = 0)) as [->|Hne].
  - rewrite (Hz eq_refl) in *. replace d with 0 by (subst d; done). by apply scan_tail.
  - assert (Hd0 : d <> 0).
    { assert (Hq : 1 <= n / 10 ^ Z.of_nat k < 10).
      { rewrite Nat2Z.inj_succ, Z.pow_succ_r in Hlt by lia.
        split; [apply Z.div_le_lower_bound|apply Z.div_lt_upper_bound]; lia. }
      subst d. rewrite Z.mod_small; lia. }
    assert (Hs : scan_integer (48 + d :: digits k n ++ rest) = Some rest).
    { clearbody d. apply ten_cases in Hd. destruct_or!; subst; try done;
        simpl; by rewrite skip_digits_digits, skip_digits_stops. }
    rewrite Hs. by apply scan_tail.
Qed.

Lemma scan_print_int z rest : stops rest = true -> scan_number (print_int z ++ rest) = Some rest.
Proof.
  intros Hrest. unfold print_int. destruct (scan_magnitude (Z.abs z) rest) as (d & t & -> & Hd & Hs);
    [lia|done|].
  destruct (z <? 0); [exact Hs|]. rewrite <- Hs. apply ten_cases in Hd.
  by destruct_or!; subst.
Qed.

Lemma encode_digits k n : encode (digits k n) = pad k n.
Proof.
  induction k as [|k IH]; [done|]. cbn [digits pad]. rewrite encode_cons, IH.
  pose proof (Z.mod_pos_bound (n / 10 ^ Z.of_nat k) 10). unfold encode_rune.
  rewrite (proj2 (Z.ltb_ge _ 0)), (proj2 (Z.ltb_lt _ 128)) by lia. done.
Qed.

Lemma parse_digits_pad k n acc :
  0 <= acc -> acc * 10 ^ Z.of_nat k + n mod 10 ^ Z.of_nat k < 2 ^ 64 ->
  parse_digits (pad k n) acc = (acc * 10 ^ Z.of_nat k + n mod 10 ^ Z.of_nat k, None).
Proof.
  revert acc. induction k as [|k IH]; intros acc Hacc Hlt; cbn [parse_digits pad].
  - change (Z.of_nat 0) with 0. rewrite Z.mod_1_r. do 2 f_equal. lia.
  - assert (Hd : 0 <= n / 10 ^ Z.of_nat k mod 10 <= 9)
      by (pose proof (Z.mod_pos_bound (n / 10 ^ Z.of_nat k) 10); lia).
    rewrite digit_digit_chr by done. rewrite mod_pow_step in *.
    set (d := n / 10 ^ Z.of_nat k mod 10) in *. set (p := 10 ^ Z.of_nat k) in *.
    assert (Hp : 0 < p) by (subst p; lia).
    assert (Hpow : 10 ^ Z.of_nat (S k) = 10 * p)
      by (subst p; rewrite Nat2Z.inj_succ, Z.pow_succ_r; lia).
    rewrite Hpow in *. pose proof (Z.mod_pos_bound n p Hp).
    assert (Hstep : acc * 10 + d < 2 ^ 64) by nia.
    rewrite (proj2 (Z.leb_gt (2 ^ 64) (acc * 10 + d))) by lia.
    rewrite IH by (try lia; replace ((acc * 10 + d) * p) with (acc * (10 * p) + d * p) by lia; lia).
    f_equal. lia.
Qed.

Lemma Atoi_unsigned c d s :
  digit c = Some d -> Atoi (String c s) = signed false (ParseUint (String c s)).
Proof. by destruct c as [[] [] [] [] [] [] [] []]. Qed.

(** An [int] is read back from its digits. *)
Lemma Atoi_print_int z : in_int64 z -> Atoi (encode (print_int z)) = (z, None).
Proof.
  intros Hz. unfold in_int64 in Hz.
  destruct (width_spec (Z.to_nat (Z.log2 (Z.abs z))) (Z.abs z)) as (k & Hw & Hlt & _);
    [lia|pose proof (Z.log2_nonneg (Z.abs z)); lia|].
  assert (Hp : ParseUint (pad (S k) (Z.abs z)) = (Z.abs z, None)).
  { change (ParseUint (pad (S k) (Z.abs z))) with (parse_digits (pad (S k) (Z.abs z)) 0).
    rewrite parse_digits_pad, Z.mod_small; rewrite ?Z.mod_small; lia || f_equal; lia. }
  unfold print_int. rewrite Hw. destruct (Z.ltb_spec z 0).
  - cbn [app]. rewrite encode_cons, encode_digits.
    change (Atoi (encode_rune 45 +:+ pad (S k) (Z.abs z)))
      with (signed true (ParseUint (pad (S k) (Z.abs z)))).
    rewrite Hp. cbn [signed negb andb]. rewrite (proj2 (Z.ltb_ge (2 ^ 63) (Z.abs z))) by lia.
    f_equal. lia.
  - cbn [app]. rewrite encode_digits. cbn [pad] in Hp |- *. erewrite Atoi_unsigned.
    2:{ apply digit_digit_chr. pose proof (Z.mod_pos_bound (Z.abs z / 10 ^ Z.of_nat k) 10). lia. }
    rewrite Hp. cbn [signed negb andb]. rewrite (proj2 (Z.leb_gt (2 ^ 63) (Z.abs z))) by lia.
    f_equal. lia.
Qed.

(** ** Values, round trip *)

(** The induction on values and the values inside them. *)
Fixpoint json_nested_ind (P : json -> Prop) (Hnull : P JNull) (Hbool : forall b, P (JBool b))
    (Hint : forall z, P (JInt z)) (Hstr : forall s, P (JStr s))
    (Harr : forall l, Forall P l -> P (JArr l))
    (Hobj : forall l, Forall (fun p => P p.2) l -> P (JObj l)) (j : json) : P j :=
  let rec := json_nested_ind P Hnull Hbool Hint Hstr Harr Hobj in
  match j with
  | JNull => Hnull
  | JBool b => Hbool b
  | JInt z => Hint z
  | JStr s => Hstr s
  | JArr l => Harr l ((fix go l := match l return Forall P l with
      | [] => Forall_nil_2 _
      | x :: l => Forall_cons_2 _ _ _ (rec x) (go l) end) l)
  | JObj l => Hobj l ((fix go l := match l return Forall (fun p => P p.2) l with
      | [] => Forall_nil_2 _
      | x :: l => Forall_cons_2 _ _ _ (rec x.2) (go l) end) l)
  end.

Lemma print_head j : exists z t, print j = z :: t /\ is_ws z = false /\ z <> 93.
Proof.
  destruct j as [|[]|z|s|l|l]; try (by eexists _, _; split; [reflexivity|]).
  cbn [print]. unfold print_int.
  destruct (scan_magnitude (Z.abs z) []) as (d & t & -> & Hd & _); [lia|done|].
  destruct (z <? 0); eexists _, _; (split; [reflexivity|]); [done|]. split; [|lia].
  unfold is_ws. rewrite !(proj2 (Z.eqb_neq _ _)) by lia. done.
Qed.

Lemma skip_print j rest : skip_ws (print j ++ rest) = print j ++ rest.
Proof. destruct (print_head j) as (z & t & -> & Hz & _). cbn [app skip_ws]. by rewrite Hz. Qed.

Lemma stops_skip s : stops s = true -> skip_ws s = s.
Proof.
  destruct s as [|z s]; [done|]. simpl. intros Hz.
  assert (Hc : z = 44 \/ z = 93 \/ z = 125) by (btests; lia). by destruct_or!; subst.
Qed.

(** [scan] finds the end of [text]. *)
Definition scans (scan : list Z -> option (list Z)) (text : list Z) : Prop :=
  forall rest, stops rest = true -> scan (text ++ rest) = Some rest.

Lemma raw_value_scans scan text rest :
  scans scan text -> stops rest = true -> raw_value scan (text ++ rest) = Some (text, rest).
Proof.
  intros Hs Hr. unfold raw_value. rewrite (Hs _ Hr), some_bind, length_app.
  replace (length text + length rest - length rest)%nat with (length text) by lia.
  by rewrite take_app_length.
Qed.

Lemma join_cons2 sep x y l : join sep (x :: y :: l) = x ++ sep :: join sep (y :: l).
Proof. done. Qed.

Lemma scan_print_elements scan l fuel rest :
  l <> [] -> Forall (fun j => scans scan (print j)) l -> (length l <= fuel)%nat ->
  scan_elements scan fuel (join 44 (map print l) ++ 93 :: rest) = Some rest.
Proof.
  intros Hne Hl. revert fuel. induction Hl as [|j l Hj Hl IH]; [done|]. intros [|fuel] Hf; [simpl in Hf; lia|].
  cbn [map]. destruct l as [|j2 l].
  - cbn [join map concat fmap list_fmap]. rewrite app_nil_r. cbn [scan_elements].
    rewrite skip_print, (Hj (93 :: rest)) by done. done.
  - cbn [map]. rewrite join_cons2, <- app_assoc. cbn [scan_elements app].
    rewrite skip_print, Hj by done. rewrite some_bind. cbn [skip_ws]. change (is_ws 44) with false. cbv iota.
    apply IH; [done|simpl in *; lia].
Qed.

(** The text of a member and what the scanner makes of it. *)
Definition print_member (p : string * json) : list Z := quote (decode p.1) ++ 58 :: print p.2.

Definition member_of (p : string * json) : member :=
  (concat (quote_rune <$> decode p.1), print p.2).

Lemma scan_print_members scan l fuel rest :
  l <> [] -> Forall (fun p => scans scan (print p.2)) l -> (length l <= fuel)%nat ->
  scan_members scan fuel (join 44 (map print_member l) ++ 125 :: rest) =
    Some (member_of <$> l, rest).
Proof.
  intros Hne Hl. revert fuel. induction Hl as [|p l Hp Hl IH]; [done|].
  intros [|fuel] Hf; [simpl in Hf; lia|].
  assert (Hone : forall t, stops t = true ->
    scan_members scan (S fuel) (print_member p ++ t) =
      match skip_ws t with
      | 44 :: s5 => '(ms, rest) ← scan_members scan fuel s5; Some (member_of p :: ms, rest)
      | 125 :: rest => Some ([member_of p], rest)
      | _ => None
      end).
  { intros t Ht. unfold print_member, quote. cbn [app scan_members]. simpl (skip_ws _).
    rewrite <- !app_assoc. cbn [app]. rewrite scan_quote, some_bind. cbv beta iota.
    cbn [skip_ws]. change (is_ws 58) with false. cbv iota. rewrite skip_print, raw_value_scans by done.
    rewrite some_bind. done. }
  cbn [map]. destruct l as [|p2 l].
  - cbn [join map concat fmap list_fmap]. rewrite app_nil_r, Hone by done. done.
  - cbn [map]. rewrite join_cons2, <- app_assoc. cbn [app]. rewrite Hone by done.
    cbn [skip_ws]. change (is_ws 44) with false. cbv iota. rewrite IH by (done || (simpl in *; lia)). done.
Qed.

Lemma join_length sep (l : list (list Z)) : (length l <= S (length (join sep l)))%nat.
Proof.
  destruct l as [|x l]; [simpl; lia|]. cbn [join length]. rewrite length_app.
  assert (length l <= length (concat ((fun y => sep :: y) <$> l)))%nat; [|lia].
  induction l as [|y l IH]; [done|]. rewrite fmap_cons. cbn [concat length app].
  rewrite length_app. simpl. lia.
Qed.

Lemma max_elem {A} (f : A -> nat) l x : x ∈ l -> (f x <= foldr max O (map f l))%nat.
Proof.
  induction l as [|y l IH]; [by intros ?%elem_of_nil|].
  intros [->|Hx]%elem_of_cons; simpl; [lia|]. specialize (IH Hx). lia.
Qed.

Lemma skip_join {A} (f : A -> list Z) x l rest :
  (forall r, skip_ws (f x ++ r) = f x ++ r) ->
  skip_ws (join 44 (map f (x :: l)) ++ rest) = join 44 (map f (x :: l)) ++ rest.
Proof. intros Hx. cbn [map join]. rewrite <- !app_assoc. apply Hx. Qed.

Lemma scan_number_print z d rest :
  scan_value d (print_int z ++ rest) = scan_number (print_int z ++ rest).
Proof.
  unfold print_int. destruct (scan_magnitude (Z.abs z) []) as (n & t & -> & Hn & _); [lia|done|].
  destruct (z <? 0); [by destruct d|]. apply ten_cases in Hn. by destruct d; destruct_or!; subst.
Qed.

Lemma not_bracket {A} (f : list Z -> A) (b : A) s :
  (exists z t, s = z :: t /\ z <> 93) -> match s with 93 :: r => f r | _ => b end = b.
Proof.
  intros (z & t & -> & Hz). destruct z as [|p|p]; [done| |done].
  do 7 (destruct p as [p|p|]; try done).
Qed.

Lemma not_brace {A} (f : list Z -> A) (b : A) s :
  (exists z t, s = z :: t /\ z <> 125) -> match s with 125 :: r => f r | _ => b end = b.
Proof.
  intros (z & t & -> & Hz). destruct z as [|p|p]; [done| |done].
  do 7 (destruct p as [p|p|]; try done).
Qed.

Lemma scan_print_object scan l rest :
  Forall (fun p => scans scan (print p.2)) l ->
  scan_object scan (join 44 (map print_member l) ++ 125 :: rest) = Some (member_of <$> l, rest).
Proof.
  intros Hl. unfold scan_object. destruct l as [|p l]; [done|].
  rewrite skip_join by done. rewrite not_brace by (by eexists _, _).
  apply scan_print_members; [done|done|]. rewrite length_app.
  pose proof (join_length 44 (map print_member (p :: l))) as Hlen.
  rewrite length_map in Hlen. simpl in *. lia.
Qed.

(** The scanner finds the end of every printed value that is not nested too deep. *)
Lemma scan_print j d : (depth j <= d)%nat -> scans (scan_value d) (print j).
Proof.
  revert d. induction j as [|b|z|s|l IH|l IH] using json_nested_ind; intros d Hd rest Hr.
  - by destruct d.
  - by destruct d, b.
  - cbn [print]. rewrite scan_number_print. by apply scan_print_int.
  - cbn [print]. unfold quote. destruct d; cbn [app scan_value]; rewrite <- app_assoc; cbn [app];
      by rewrite scan_quote.
  - destruct d as [|d]; cbn [depth] in Hd; [lia|]. cbn [print app scan_value].
    unfold scan_array. rewrite <- app_assoc. cbn [app]. destruct l as [|j l]; [done|].
    rewrite skip_join by apply skip_print. rewrite not_bracket.
    { apply scan_print_elements; [done| |].
      2:{ rewrite length_app. pose proof (join_length 44 (map print (j :: l))) as Hlen.
          rewrite length_map in Hlen. simpl in *. lia. }
      apply Forall_forall. intros x Hx. rewrite Forall_forall in IH. apply IH; [done|].
      pose proof (max_elem depth _ _ Hx). lia. }
    cbn [map join]. destruct (print_head j) as (z & t & -> & _ & Hz). by eexists _, _.
  - destruct d as [|d]; cbn [depth] in Hd; [lia|]. cbn [print app scan_value].
    change (fun p : string * json => quote (decode p.1) ++ 58 :: print p.2) with print_member.
    rewrite <- app_assoc. cbn [app]. rewrite scan_print_object; [done|].
    apply Forall_forall. intros x Hx. rewrite Forall_forall in IH. apply IH; [done|].
    pose proof (max_elem (fun p => depth p.2) _ _ Hx). simpl in *. lia.
Qed.

(** ** Texts as bytes *)

Lemma hex_scalar a v : hex_value a = Some v -> scalar a = true.
Proof. unfold hex_value. repeat case_match; intros; simplify_eq; btests; lia. Qed.

Lemma quoted_scalar z q :
  rune_ok z = true -> quoted_as z q -> Forall (fun x => scalar x = true) q.
Proof.
  intros Hz [e r He _ _|a b c d va vb vc vd Ha Hb Hc Hd _|H32 _ _].
  - apply escape_cases in He. destruct_or!; subst; by repeat constructor.
  - repeat (constructor; [first [done|by eapply hex_scalar]|]). constructor.
  - constructor; [|done]. unfold rune_ok in Hz. rewrite (proj2 (Z.ltb_ge z 0)) in Hz by lia.
    by rewrite orb_false_r in Hz.
Qed.

Lemma quote_scalar s : Forall (fun x => scalar x = true) (quote (decode s)).
Proof.
  unfold quote. constructor; [done|]. apply Forall_app. split; [|by repeat constructor].
  pose proof (decode_ok s) as Hs. induction Hs as [|z l Hz _ IH]; [constructor|].
  rewrite fmap_cons. cbn [concat]. apply Forall_app. split; [|done].
  eapply quoted_scalar, quote_rune_as. done.
Qed.

Lemma join_scalar (l : list (list Z)) :
  Forall (Forall (fun x => scalar x = true)) l -> Forall (fun x => scalar x = true) (join 44 l).
Proof.
  destruct 1 as [|x l Hx Hl]; [constructor|]. cbn [join]. apply Forall_app. split; [done|].
  induction Hl as [|y l Hy _ IH]; [constructor|]. rewrite fmap_cons. cbn [concat app].
  constructor; [done|]. by apply Forall_app.
Qed.

Lemma digits_scalar k n : Forall (fun x => scalar x = true) (digits k n).
Proof.
  induction k as [|k IH]; [constructor|]. cbn [digits]. constructor; [|done].
  pose proof (Z.mod_pos_bound (n / 10 ^ Z.of_nat k) 10). btests. lia.
Qed.

Lemma print_scalar j : Forall (fun x => scalar x = true) (print j).
Proof.
  induction j as [|b|z|s|l IH|l IH] using json_nested_ind; cbn [print].
  - by repeat constructor.
  - destruct b; by repeat constructor.
  - apply Forall_app. split; [|apply digits_scalar]. destruct (z <? 0); by repeat constructor.
  - apply quote_scalar.
  - constructor; [done|]. apply Forall_app. split; [|by repeat constructor].
    apply join_scalar, Forall_map. done.
  - constructor; [done|]. apply Forall_app. split; [|by repeat constructor].
    apply join_scalar, Forall_map. eapply Forall_impl; [exact IH|]. intros p Hp.
    apply (Forall_app _ (quote (decode p.1))). split; [apply quote_scalar|]. by constructor.
Qed.

(** The bytes of a printed value are read as its text. *)
Lemma decode_print j : decode (encode (print j)) = print j.
Proof. apply decode_encode, print_scalar. Qed.

(** ** Objects, round trip *)

Lemma unquoted_member p : unquoted (member_of p).1 = Some (sanitize <$> decode p.1).
Proof. apply unquoted_quote, decode_ok. Qed.

(** An object that is not nested too deep is taken apart, whatever follows it. *)
Lemma scan_print_top l rest :
  (depth (JObj l) <= maxNestingDepth)%nat ->
  scan_object (scan_value (pred maxNestingDepth)) (join 44 (map print_member l) ++ 125 :: rest) =
    Some (member_of <$> l, rest).
Proof.
  cbn [depth]. intros Hd. apply scan_print_object, Forall_forall. intros p Hp.
  apply scan_print. pose proof (max_elem (fun p => depth p.2) l p Hp) as Hm. cbv beta in Hm.
  revert Hd. generalize maxNestingDepth. lia.
Qed.

Lemma print_obj_app l rest :
  print (JObj l) ++ rest = 123 :: (join 44 (map print_member l) ++ 125 :: rest).
Proof. cbn [print app]. by rewrite <- app_assoc. Qed.

Lemma unmarshal_print l :
  (depth (JObj l) <= maxNestingDepth)%nat ->
  unmarshal_members (print (JObj l)) = Some (member_of <$> l).
Proof.
  intros Hd. unfold unmarshal_members. rewrite <- (app_nil_r (print (JObj l))).
  rewrite skip_print, print_obj_app. cbv iota. by rewrite scan_print_top.
Qed.

(** ** Fields, round trip *)

(** The text a string field has after it went through a value. *)
Definition text_of (s : string) : string := encode (sanitize <$> decode s).

Lemma text_of_utf8 s : utf8 s = true -> text_of s = s.
Proof. intros Hs. unfold text_of. by rewrite sanitize_utf8, encode_decode. Qed.

(** The first character of a number. *)
Lemma print_int_cases (P : list Z -> Prop) z :
  (forall t, P (45 :: t)) -> (forall d t, 0 <= d <= 9 -> P (48 + d :: t)) -> P (print_int z).
Proof.
  intros Hneg Hpos. unfold print_int.
  destruct (scan_magnitude (Z.abs z) []) as (d & t & -> & Hd & _); [lia|done|].
  destruct (z <? 0); [apply Hneg|by apply Hpos].
Qed.

Lemma decode_string_print old j :
  decode_string old (print j) =
    match j with JNull => Some old | JStr s => Some (text_of s) | _ => None end.
Proof.
  destruct j as [|[]|z|s|l|l]; try done; [|apply decode_quote].
  apply (print_int_cases (fun l => decode_string old l = None)); [done|].
  intros d t Hd%ten_cases. by destruct_or!; subst.
Qed.

Lemma Atoi_syntax c s :
  digit c = None -> c <> "+"%char -> c <> "-"%char -> (Atoi (String c s)).2 = Some ErrSyntax.
Proof. by destruct c as [[] [] [] [] [] [] [] []]. Qed.

(** The characters of a time, which need no escapes. *)
Definition plain_char (c : ascii) : bool :=
  between 43 58 (byte c) || (byte c =? 84) || (byte c =? 90).

Fixpoint plain (s : string) : bool :=
  match s with EmptyString => true | String c s => plain_char c && plain s end.

Lemma plain_app s t : plain s = true -> plain t = true -> plain (s +:+ t) = true.
Proof.
  induction s as [|c s IH]; [done|]. rewrite append_cons. cbn [plain].
  rewrite !andb_true_iff. intros [? ?] ?. split; auto.
Qed.

Lemma plain_pad k n : plain (pad k n) = true.
Proof.
  induction k as [|k IH]; [done|]. cbn [pad plain]. rewrite IH, andb_true_r.
  pose proof (Z.mod_pos_bound (n / 10 ^ Z.of_nat k) 10) as Hd.
  assert (Hc : 0 <= n / 10 ^ Z.of_nat k mod 10 <= 9) by lia. clear Hd. apply ten_cases in Hc.
  by destruct Hc as [-> |[-> |[-> |[-> |[-> |[-> |[-> |[-> |[-> | ->]]]]]]]]].
Qed.

Lemma plain_frac_digits k n : plain (frac_digits k n) = true.
Proof.
  revert n. induction k as [|k IH]; intros n; [done|]. cbn [frac_digits].
  destruct (_ =? 0); [apply IH|apply plain_pad].
Qed.

Lemma plain_marshal_time offset t s : marshal_time offset t = Ok s -> plain s = true.
Proof.
  unfold marshal_time. destruct (date_of_days _) as [[y m] d]. repeat case_match; try done.
  intros Hs. match type of Hs with Ok ?x = _ => assert (s = x) as -> by congruence end. clear Hs.
  repeat (apply plain_app; [first [apply plain_pad|done]|]). apply plain_app.
  - unfold print_frac. case_match; [done|]. apply plain_app; [done|apply plain_frac_digits].
  - unfold print_zone. case_match; [done|]. apply plain_app; [by case_match|].
    apply plain_app; [apply plain_pad|]. apply plain_app; [done|apply plain_pad].
Qed.

Lemma quote_plain s : plain s = true -> concat (quote_rune <$> decode s) = decode s.
Proof.
  induction s as [|c s IH]; [done|]. cbn [plain]. rewrite andb_true_iff. intros [Hc Hs].
  unfold plain_char in Hc. assert (Hr : 43 <= byte c <= 58 \/ byte c = 84 \/ byte c = 90)
    by (btests; lia).
  cbn [decode]. rewrite (proj2 (Z.ltb_lt (byte c) 128)) by lia. rewrite fmap_cons. cbn [concat].
  rewrite IH by done. unfold quote_rune. rewrite (proj2 (Z.ltb_ge _ 0)) by lia.
  rewrite !(proj2 (Z.eqb_neq (byte c) _)) by lia. by rewrite (proj2 (Z.ltb_ge _ 32)) by lia.
Qed.

Lemma decode_time_quote old offset t s :
  marshal_time offset t = Ok s -> offset mod 60 = 0 ->
  decode_time old (quote (decode s)) = Some (Some t).
Proof.
  intros Hs Ho. unfold decode_time, quote. rewrite scan_quote, some_bind. cbv beta iota.
  rewrite quote_plain by (by eapply plain_marshal_time).
  by rewrite encode_decode, (Parse_marshal_time _ _ _ Hs Ho).
Qed.

Lemma plain_utf8 s : plain s = true -> utf8 s = true.
Proof.
  induction s as [|c s IH]; [done|]. cbn [plain]. rewrite andb_true_iff. intros [Hc Hs].
  unfold plain_char in Hc. unfold utf8. cbn [decode].
  rewrite (proj2 (Z.ltb_lt (byte c) 128)) by (btests; lia). cbn [forallb].
  rewrite andb_true_iff. split; [|by apply IH]. btests. lia.
Qed.

(** Decoding a printed object goes through its members as they are. *)
Lemma decode_members_print {A} (step : A -> list Z -> list Z -> option A) init l :
  decode_members step init (member_of <$> l) =
    foldl (fun acc p => a ← acc; step a (sanitize <$> decode p.1) (print p.2)) (Some init) l.
Proof.
  unfold decode_members. generalize (Some init) as acc.
  induction l as [|p l IH]; intros acc; [done|]. rewrite fmap_cons. cbn [foldl]. rewrite IH.
  f_equal. destruct acc as [a|]; [|done]. rewrite !some_bind. by rewrite unquoted_member.
Qed.

(** Decide which field a known name means. *)
Ltac resolve_names :=
  repeat match goal with
  | |- context [names_field ?f ?n] =>
      let b := eval vm_compute in (names_field f n) in change (names_field f n) with b
  end; cbv iota.
