(* ===== verification/JsonText.v ===== *)
(** * The texts of JSON values

    The grammar of JSON, with white space, escapes and numbers of every form, as a relation
    between values and texts, independent of the scanner of [Json.v]; and the proof that the
    scanner and the decoders of fields recognise exactly this grammar. *)

From Stdlib Require Import Ascii.
From S2P Require Import Prelude Strconv Rfc3339 Json.

Local Open Scope string_scope.
Local Open Scope Z_scope.
Local Open Scope list_scope.

#[local] Set Warnings "-register-all".

(** ** The grammar *)

Definition spaces (w : list Z) : Prop := Forall (fun z => is_ws z = true) w.

(** A number keeps its literal, a string its runes. *)
Inductive value :=
| VNull
| VBool (b : bool)
| VNumber (lit : list Z)
| VString (s : list Z)
| VArray (l : list value)
| VObject (l : list (list Z * value)).

(** Four hexadecimal digits. *)
Definition hex4 (a b c d r : Z) : Prop :=
  exists va vb vc vd, hex_value a = Some va /\ hex_value b = Some vb /\ hex_value c = Some vc /\
    hex_value d = Some vd /\ r = ((va * 16 + vb) * 16 + vc) * 16 + vd.

(** The code of an escape [\uXXXX] at the front. *)
Definition next_escape (t : list Z) : option Z :=
  match t with 92 :: 117 :: t => fst <$> getu4 t | _ => None end.

(** The characters between the quotes, and the runes they stand for.  A stray byte and half of
    a surrogate pair stand for the replacement character. *)
Inductive string_text : list Z -> list Z -> Prop :=
| st_nil : string_text [] []
| st_char z t s : z < 0 \/ 32 <= z -> z <> 34 -> z <> 92 -> string_text t s ->
    string_text (z :: t) (sanitize z :: s)
| st_escape e r t s : escape_value e = Some r -> string_text t s ->
    string_text (92 :: e :: t) (r :: s)
| st_unicode a b c d r t s : hex4 a b c d r -> surrogate r = false -> string_text t s ->
    string_text (92 :: 117 :: a :: b :: c :: d :: t) (r :: s)
| st_pair a b c d r a' b' c' d' r' p t s :
    hex4 a b c d r -> hex4 a' b' c' d' r' -> surrogate_pair r r' = Some p -> string_text t s ->
    string_text (92 :: 117 :: a :: b :: c :: d :: 92 :: 117 :: a' :: b' :: c' :: d' :: t) (p :: s)
| st_lone a b c d r t s : hex4 a b c d r -> surrogate r = true ->
    next_escape t ≫= surrogate_pair r = None -> string_text t s ->
    string_text (92 :: 117 :: a :: b :: c :: d :: t) (65533 :: s).

Definition all_digits (l : list Z) : Prop := Forall (fun z => is_digit z = true) l.

(** The parts of a number: no zero in front of other digits, at least one digit after the point
    and in the exponent. *)
Inductive int_text : list Z -> Prop :=
| int_zero : int_text [48]
| int_digits z l : 49 <= z <= 57 -> all_digits l -> int_text (z :: l).

Inductive frac_text : list Z -> Prop :=
| frac_none : frac_text []
| frac_digits z l : all_digits (z :: l) -> frac_text (46 :: z :: l).

Inductive exp_text : list Z -> Prop :=
| exp_none : exp_text []
| exp_digits e sign z l : e = 101 \/ e = 69 -> sign = [] \/ sign = [43] \/ sign = [45] ->
    all_digits (z :: l) -> exp_text (e :: sign ++ z :: l).

Inductive number_text : list Z -> Prop :=
| number_of sign i f x : sign = [] \/ sign = [45] -> int_text i -> frac_text f -> exp_text x ->
    number_text (sign ++ i ++ f ++ x).

(** A member of an object: its name, the text of its value, its value. *)
Record entry := MkEntry { en_Name : list Z; en_Raw : list Z; en_Value : value }.

(** [text d v t]: [t] is a text of [v], nested at most [d] deep.  [elements] and [members] are
    what stands between brackets and between braces. *)
Inductive text : nat -> value -> list Z -> Prop :=
| text_null d : text d VNull (decode "null")
| text_bool d b : text d (VBool b) (decode (if b then "true" else "false"))
| text_number d t : number_text t -> text d (VNumber t) t
| text_string d t s : string_text t s -> text d (VString s) (34 :: t ++ [34])
| text_array_empty d w : spaces w -> text (S d) (VArray []) (91 :: w ++ [93])
| text_array d vs t : elements d vs t -> text (S d) (VArray vs) (91 :: t ++ [93])
| text_object_empty d w : spaces w -> text (S d) (VObject []) (123 :: w ++ [125])
| text_object d es t : members d es t ->
    text (S d) (VObject (map (fun e => (en_Name e, en_Value e)) es)) (123 :: t ++ [125])
with elements : nat -> list value -> list Z -> Prop :=
| elements_one d v w1 t w2 : spaces w1 -> text d v t -> spaces w2 ->
    elements d [v] (w1 ++ t ++ w2)
| elements_more d v vs w1 t w2 t' : spaces w1 -> text d v t -> spaces w2 -> elements d vs t' ->
    elements d (v :: vs) (w1 ++ t ++ w2 ++ 44 :: t')
with members : nat -> list entry -> list Z -> Prop :=
| members_one d name body w1 w2 w3 v t w4 :
    spaces w1 -> string_text body name -> spaces w2 -> spaces w3 -> text d v t -> spaces w4 ->
    members d [MkEntry name t v] (w1 ++ 34 :: body ++ 34 :: w2 ++ 58 :: w3 ++ t ++ w4)
| members_more d name body w1 w2 w3 v t w4 es t' :
    spaces w1 -> string_text body name -> spaces w2 -> spaces w3 -> text d v t -> spaces w4 ->
    members d es t' ->
    members d (MkEntry name t v :: es)
      (w1 ++ 34 :: body ++ 34 :: w2 ++ 58 :: w3 ++ t ++ w4 ++ 44 :: t').

Scheme text_mut := Minimality for text Sort Prop
  with elements_mut := Minimality for elements Sort Prop
  with members_mut := Minimality for members Sort Prop.
Combined Scheme text_mutind from text_mut, elements_mut, members_mut.

(** The text of an object with the entries [es]. *)
Inductive object_text (d : nat) : list entry -> list Z -> Prop :=
| object_empty w : spaces w -> object_text d [] (123 :: w ++ [125])
| object_members es t : members d es t -> object_text d es (123 :: t ++ [125]).

Lemma object_text_value d es t :
  object_text d es t -> text (S d) (VObject (map (fun e => (en_Name e, en_Value e)) es)) t.
Proof. intros [w Hw|es' t' Ht]; [by apply text_object_empty|by apply text_object]. Qed.

(** ** Texts are scanned *)

(** What may follow a value inside an array or an object, or at the end. *)
Definition ends (s : list Z) : Prop :=
  s = [] \/ exists z t, s = z :: t /\
    (z = 32 \/ z = 9 \/ z = 13 \/ z = 10 \/ z = 44 \/ z = 93 \/ z = 125).

Lemma is_ws_cases z : is_ws z = true -> z = 32 \/ z = 9 \/ z = 13 \/ z = 10.
Proof. unfold is_ws. btests. lia. Qed.

Lemma ends_spaces w s : spaces w -> ends s -> ends (w ++ s).
Proof.
  intros [|z t Hz _] Hs; [done|]. right. exists z, (t ++ s). apply is_ws_cases in Hz.
  split; [done|]. tauto.
Qed.

Lemma ends_char z s : z = 44 \/ z = 93 \/ z = 125 -> ends (z :: s).
Proof. intros Hz. right. exists z, s. split; [done|]. tauto. Qed.

Lemma skip_spaces w s : spaces w -> skip_ws (w ++ s) = skip_ws s.
Proof. induction 1 as [|z w Hz _ IH]; [done|]. simpl. by rewrite Hz. Qed.

Lemma skip_char z s : is_ws z = false -> skip_ws (z :: s) = z :: s.
Proof. intros Hz. simpl. by rewrite Hz. Qed.

Lemma hex4_getu4 a b c d r s : hex4 a b c d r -> getu4 (a :: b :: c :: d :: s) = Some (r, s).
Proof. intros (va & vb & vc & vd & Ha & Hb & Hc & Hd & ->). simpl. by rewrite Ha, Hb, Hc, Hd. Qed.

Lemma hex4_scan a b c d r s :
  hex4 a b c d r ->
  scan_string (92 :: 117 :: a :: b :: c :: d :: s) =
    ('(body, rest) ← scan_string s; Some (92 :: 117 :: a :: b :: c :: d :: body, rest)).
Proof.
  intros (va & vb & vc & vd & Ha & Hb & Hc & Hd & _). cbn [scan_string]. simpl.
  by rewrite Ha, Hb, Hc, Hd.
Qed.

Lemma scan_string_text t s rest :
  string_text t s -> scan_string (t ++ 34 :: rest) = Some (t, rest).
Proof.
  induction 1 as [|z t s Hz H34 H92 _ IH|e r t s He _ IH|a b c d r t s Hx _ _ IH
    |a b c d r a' b' c' d' r' p t s Hx Hx' _ _ IH|a b c d r t s Hx _ _ _ IH]; [done|..]; cbn [app].
  - cbn [scan_string]. rewrite (proj2 (Z.eqb_neq z 34)), (proj2 (Z.eqb_neq z 92)) by done.
    assert (Hb : between 0 31 z = false) by (btests; lia). by rewrite Hb, IH.
  - pose proof (escape_cases _ _ He). destruct_or!; subst e; simpl; by rewrite IH.
  - by rewrite (hex4_scan _ _ _ _ _ _ Hx), IH.
  - by rewrite (hex4_scan _ _ _ _ _ _ Hx), (hex4_scan _ _ _ _ _ _ Hx'), IH.
  - by rewrite (hex4_scan _ _ _ _ _ _ Hx), IH.
Qed.

Lemma unquote_unicode fuel t :
  unquote (S fuel) (92 :: 117 :: t) =
    ('(r, s) ← getu4 t;
     if surrogate r then
       match s with
       | 92 :: 117 :: s2 =>
           match getu4 s2 ≫= fun p => r' ← surrogate_pair r p.1; Some (r', p.2) with
           | Some (r', s3) => cons r' <$> unquote fuel s3
           | None => cons 65533 <$> unquote fuel s
           end
       | _ => cons 65533 <$> unquote fuel s
       end
     else cons r <$> unquote fuel s).
Proof. done. Qed.

(** A surrogate that is not followed by its other half. *)
Lemma lone_surrogate {A} r t (f : Z * list Z -> A) (b : A) :
  next_escape t ≫= surrogate_pair r = None ->
  match t with
  | 92 :: 117 :: s2 =>
      match getu4 s2 ≫= fun p => r' ← surrogate_pair r p.1; Some (r', p.2) with
      | Some p => f p
      | None => b
      end
  | _ => b
  end = b.
Proof.
  intros Hn.
  destruct t as [|z t]; [done|]. destruct (decide (z = 92)) as [->|Hz].
  2:{ destruct z as [|p|p]; [done| |done]. do 7 (destruct p as [p|p|]; try done). }
  destruct t as [|y t]; [done|]. destruct (decide (y = 117)) as [->|Hy].
  2:{ destruct y as [|p|p]; [done| |done]. do 7 (destruct p as [p|p|]; try done). }
  unfold next_escape in Hn. destruct (getu4 t) as [[r' t']|]; [|done]. simpl in *. by rewrite Hn.
Qed.

Lemma unquote_text fuel t s :
  string_text t s -> (length t <= fuel)%nat -> unquote fuel t = Some s.
Proof.
  intros Ht. revert fuel.
  induction Ht as [|z t s Hz H34 H92 _ IH|e r t s He _ IH|a b c d r t s Hx Hr _ IH
    |a b c d r a' b' c' d' r' p t s Hx Hx' Hp _ IH|a b c d r t s Hx Hr Hn _ IH];
    intros [|fuel] Hf; simpl in Hf; try lia; try done.
  - rewrite unquote_plain by done.
    rewrite (proj2 (Z.eqb_neq z 34)), (proj2 (Z.eqb_neq z 92)) by done.
    assert (Hb : between 0 31 z = false) by (btests; lia). rewrite Hb. simpl. by rewrite IH by lia.
  - pose proof (escape_cases _ _ He).
    destruct_or!; subst e; injection He as <-; simpl; by rewrite IH by lia.
  - rewrite unquote_unicode, (hex4_getu4 _ _ _ _ _ _ Hx). simpl. by rewrite Hr, IH by lia.
  - rewrite unquote_unicode, (hex4_getu4 _ _ _ _ _ _ Hx). rewrite some_bind. cbv beta iota.
    assert (Hs : surrogate r = true).
    { unfold surrogate_pair in Hp. case_match eqn:Hb; [|done]. btests. lia. }
    rewrite Hs. cbv iota. rewrite (hex4_getu4 _ _ _ _ _ _ Hx'), some_bind. cbn [fst snd].
    rewrite Hp, some_bind. by rewrite IH by lia.
  - rewrite unquote_unicode, (hex4_getu4 _ _ _ _ _ _ Hx). rewrite some_bind. cbv beta iota. rewrite Hr.
    transitivity (cons 65533 <$> unquote fuel t); [|by rewrite IH by lia].
    exact (lone_surrogate r t (fun '(r', s3) => cons r' <$> unquote fuel s3) _ Hn).
Qed.

Lemma unquoted_text t s : string_text t s -> unquoted t = Some s.
Proof. intros Ht. by apply unquote_text. Qed.

(** *** Numbers *)

(** A text that does not begin with a digit. *)
Definition no_digit (s : list Z) : Prop :=
  match s with [] => True | z :: _ => is_digit z = false end.

Lemma skip_all_digits l s : all_digits l -> no_digit s -> skip_digits (l ++ s) = s.
Proof.
  induction 1 as [|z l Hz _ IH]; intros Hs; simpl; [|by rewrite Hz, IH].
  destruct s as [|z s]; [done|]. simpl in *. by rewrite Hs.
Qed.

Lemma scan_all_digits z l s :
  all_digits (z :: l) -> no_digit s -> scan_digits (z :: l ++ s) = Some s.
Proof.
  intros [Hz Hl]%Forall_cons Hs. unfold scan_digits. rewrite Hz. by rewrite skip_all_digits.
Qed.

Lemma ends_no_digit s : ends s -> no_digit s.
Proof. intros [->|(z & t & -> & Hz)]; [done|]. by destruct_or!; subst. Qed.

Lemma digit_cases z : is_digit z = true -> exists d, 0 <= d <= 9 /\ z = 48 + d.
Proof. intros Hz. exists (z - 48). btests. lia. Qed.

Lemma exp_head x s : exp_text x -> ends s ->
  no_digit (x ++ s) /\ scan_exponent (x ++ s) = Some s /\ scan_fraction (x ++ s) = Some (x ++ s).
Proof.
  intros [|e sign z l He Hsign Hl] Hs.
  - split; [by apply ends_no_digit|]. destruct Hs as [->|(z & t & -> & Hz)]; [done|].
    by destruct_or!; subst.
  - assert (Hscan : scan_digits (z :: l ++ s) = Some s)
      by (by apply scan_all_digits; [|apply ends_no_digit]).
    pose proof Hl as [Hz _]%Forall_cons.
    apply digit_cases in Hz as (k & Hk%ten_cases & ->). rewrite <- app_comm_cons, <- app_assoc.
    split; [by destruct He; subst|]. split; [|by destruct He; subst].
    destruct He, Hsign as [->|[->| ->]]; subst e; cbn [app]; try exact Hscan;
      destruct_or!; subst k; exact Hscan.
Qed.

Lemma frac_head f x s : frac_text f -> exp_text x -> ends s ->
  no_digit (f ++ x ++ s) /\ scan_fraction (f ++ x ++ s) = Some (x ++ s).
Proof.
  intros Hf Hx Hs. destruct (exp_head x s Hx Hs) as (Hnd & _ & Hfrac).
  destruct Hf as [|z l Hl]; [done|]. split; [done|]. cbn [app scan_fraction].
  by apply scan_all_digits.
Qed.

(** The head of a number, for the scanners that look at it. *)
Lemma number_head t : number_text t ->
  exists z t', t = z :: t' /\ (z = 45 \/ is_digit z = true).
Proof.
  intros [sign i f x [-> | ->] Hi _ _]; [|by eexists _, _; split; [reflexivity|left]].
  destruct Hi as [|z l Hz]; eexists _, _; (split; [reflexivity|right]); [done|btests; lia].
Qed.

Lemma scan_number_text t rest : number_text t -> ends rest -> scan_number (t ++ rest) = Some rest.
Proof.
  intros [sign i f x Hsign Hi Hf Hx] Hr.
  destruct (exp_head x rest Hx Hr) as (_ & He & _).
  destruct (frac_head f x rest Hf Hx Hr) as [Hnd Hfr].
  assert (Hu : scan_unsigned (i ++ f ++ x ++ rest) = Some rest).
  { unfold scan_unsigned. assert (Hint : scan_integer (i ++ f ++ x ++ rest) = Some (f ++ x ++ rest)).
    { destruct Hi as [|z l Hz Hl]; [done|].
      assert (Hs : scan_digits (z :: l ++ f ++ x ++ rest) = Some (f ++ x ++ rest)).
      { apply scan_all_digits; [|done]. constructor; [btests; lia|done]. }
      assert (Hk : exists k, 1 <= k <= 9 /\ z = 48 + k) by (exists (z - 48); lia).
      destruct Hk as (k & Hk & ->).
      assert (Hc : k = 1 \/ k = 2 \/ k = 3 \/ k = 4 \/ k = 5 \/ k = 6 \/ k = 7 \/ k = 8 \/ k = 9) by lia.
      clear Hk Hz. by destruct_or!; subst k. }
    by rewrite Hint, some_bind, Hfr, some_bind. }
  rewrite <- !app_assoc. unfold scan_number. destruct Hsign as [-> | ->]; [|exact Hu].
  rewrite <- Hu. destruct Hi as [|z l Hz Hl]; [done|]. cbn [app].
  destruct z as [|p|p]; [done| |done]. do 7 (destruct p as [p|p|]; try done).
Qed.

(** *** Values *)

Lemma scan_value_number d z s :
  z = 45 \/ is_digit z = true -> scan_value d (z :: s) = scan_number (z :: s).
Proof.
  intros [->|(k & Hk%ten_cases & ->)%digit_cases]; [by destruct d|].
  by destruct d; destruct_or!; subst.
Qed.

(** A value does not begin with white space or a closing bracket. *)
Lemma text_head d v t : text d v t ->
  exists z t', t = z :: t' /\ is_ws z = false /\ z <> 93 /\ z <> 125.
Proof.
  intros [d' |d' [] |d' t' Hn|d' t' s _|d' w _|d' vs t' _|d' w _|d' es t' _];
    try (by eexists _, _; split; [reflexivity|]).
  destruct (number_head _ Hn) as (z & t'' & -> & Hz). exists z, t''. split; [done|].
  destruct Hz as [->|Hz]; [done|]. apply digit_cases in Hz as (k & Hk%ten_cases & ->).
  by destruct_or!; subst.
Qed.

Lemma skip_text d v t s : text d v t -> skip_ws (t ++ s) = t ++ s.
Proof. intros (z & t' & -> & Hz & _)%text_head. by apply skip_char. Qed.

(** The beginning of the contents of brackets and of braces. *)
Lemma elements_head d vs t s : elements d vs t ->
  exists z t', skip_ws (t ++ s) = z :: t' /\ z <> 93.
Proof.
  intros [d' v w1 t1 w2 Hw1 Ht _|d' v vs' w1 t1 w2 t2 Hw1 Ht _ _];
    destruct (text_head _ _ _ Ht) as (z & t3 & -> & Hz & H93 & _);
    rewrite <- !app_assoc, skip_spaces by done; cbn [app]; rewrite skip_char by done; eauto.
Qed.

Lemma members_head d es t s : members d es t ->
  exists t', skip_ws (t ++ s) = 34 :: t'.
Proof.
  intros [d' name body w1 w2 w3 v t1 w4 Hw1|d' name body w1 w2 w3 v t1 w4 es' t2 Hw1];
    rewrite <- app_assoc, skip_spaces by done; by eexists.
Qed.

Lemma elements_length d vs t : elements d vs t -> (length vs <= length t)%nat.
Proof.
  assert (H1 : forall d v t, text d v t -> (1 <= length t)%nat).
  { intros d0 v t0 (z & t' & -> & _)%text_head. simpl. lia. }
  induction 1 as [d v w1 t w2 _ Ht%H1 _|d v vs w1 t w2 t' _ Ht%H1 _ _ IH];
    rewrite !length_app; simpl; lia.
Qed.

Lemma members_length d es t : members d es t -> (length es <= length t)%nat.
Proof.
  induction 1 as [d name body w1 w2 w3 v t w4|d name body w1 w2 w3 v t w4 es t' ? ? ? ? ? ? ? IH];
    rewrite !length_app; simpl; rewrite ?length_app; simpl; rewrite ?length_app; simpl;
    rewrite ?length_app; simpl; rewrite ?length_app; simpl; lia.
Qed.

(** What the scanner says of an entry. *)
Definition scanned (m : member) (e : entry) : Prop :=
  unquoted m.1 = Some (en_Name e) /\ m.2 = en_Raw e.

(** [scan] finds the end of [t]. *)
Definition finds_end (scan : list Z -> option (list Z)) (t : list Z) : Prop :=
  forall rest, ends rest -> scan (t ++ rest) = Some rest.

Lemma raw_value_text scan t rest :
  finds_end scan t -> ends rest -> raw_value scan (t ++ rest) = Some (t, rest).
Proof.
  intros Hs Hr. unfold raw_value. rewrite (Hs _ Hr), some_bind, length_app.
  replace (length t + length rest - length rest)%nat with (length t) by lia.
  by rewrite take_app_length.
Qed.

Lemma scan_member scan fuel name body w1 w2 w3 d v t w4 rest :
  spaces w1 -> string_text body name -> spaces w2 -> spaces w3 -> text d v t ->
  finds_end scan t -> spaces w4 -> ends rest ->
  scan_members scan (S fuel) (w1 ++ 34 :: body ++ 34 :: w2 ++ 58 :: w3 ++ t ++ w4 ++ rest) =
    match skip_ws rest with
    | 44 :: s5 => '(ms, rest) ← scan_members scan fuel s5; Some ((body, t) :: ms, rest)
    | 125 :: rest => Some ([(body, t)], rest)
    | _ => None
    end.
Proof.
  intros Hw1 Hb Hw2 Hw3 Ht Hscan Hw4 Hr. cbn [scan_members]. rewrite skip_spaces, skip_char by done.
  cbv iota. rewrite (scan_string_text body name), some_bind by done. cbv beta iota.
  rewrite skip_spaces, skip_char by done. cbv iota.
  rewrite skip_spaces, (skip_text d v) by done.
  rewrite raw_value_text by (done || by apply ends_spaces). rewrite some_bind. cbv beta iota.
  by rewrite skip_spaces.
Qed.

Lemma text_scanned :
  (forall d v t, text d v t -> finds_end (scan_value d) t) /\
  (forall d vs t, elements d vs t -> forall fuel rest, (length vs <= fuel)%nat ->
     scan_elements (scan_value d) fuel (t ++ 93 :: rest) = Some rest) /\
  (forall d es t, members d es t -> forall fuel rest, (length es <= fuel)%nat ->
     exists ms, scan_members (scan_value d) fuel (t ++ 125 :: rest) = Some (ms, rest) /\
       Forall2 scanned ms es).
Proof.
  apply text_mutind.
  - intros d rest _. by destruct d.
  - intros d b rest _. by destruct d, b.
  - intros d t Hn rest Hr. destruct (number_head t Hn) as (z & t' & -> & Hz).
    cbn [app]. rewrite scan_value_number by done. by apply (scan_number_text (z :: t')).
  - intros d t s Ht rest _. cbn [app]. rewrite <- app_assoc. cbn [app].
    destruct d; cbn [scan_value]; by rewrite (scan_string_text t s).
  - intros d w Hw rest _. cbn [app scan_value]. unfold scan_array. rewrite <- app_assoc.
    by rewrite skip_spaces.
  - intros d vs t Ht IH rest _. cbn [app scan_value]. unfold scan_array. rewrite <- app_assoc.
    destruct (elements_head d vs t (93 :: rest) Ht) as (z & t' & Hz & H93).
    cbn [app]. rewrite not_bracket by eauto. apply IH.
    pose proof (elements_length _ _ _ Ht). rewrite length_app. lia.
  - intros d w Hw rest _. cbn [app scan_value]. unfold scan_object. rewrite <- app_assoc.
    by rewrite skip_spaces.
  - intros d es t Ht IH rest _. cbn [app scan_value]. unfold scan_object. rewrite <- app_assoc.
    destruct (members_head d es t (125 :: rest) Ht) as (t' & Hz). cbn [app]. rewrite Hz. cbv iota.
    destruct (IH (S (length (t ++ 125 :: rest))) rest) as (ms & -> & _); [|done].
    pose proof (members_length _ _ _ Ht). rewrite length_app. lia.
  - intros d v w1 t w2 Hw1 Ht IH Hw2 [|fuel] rest Hf; simpl in Hf; [lia|].
    rewrite <- !app_assoc. cbn [scan_elements]. rewrite skip_spaces, (skip_text d v) by done.
    rewrite IH by (apply ends_spaces; [done|apply ends_char; lia]).
    rewrite some_bind. by rewrite skip_spaces.
  - intros d v vs w1 t w2 t' Hw1 Ht IH Hw2 _ IH' [|fuel] rest Hf; simpl in Hf; [lia|].
    rewrite <- !app_assoc. cbn [scan_elements app]. rewrite skip_spaces, (skip_text d v) by done.
    rewrite IH by (apply ends_spaces; [done|apply ends_char; lia]).
    rewrite some_bind, skip_spaces, skip_char by done. apply IH'. lia.
  - intros d name body w1 w2 w3 v t w4 Hw1 Hb Hw2 Hw3 Ht IH Hw4 [|fuel] rest Hf; simpl in Hf; [lia|].
    exists [(body, t)]. split; [|by repeat constructor; apply unquoted_text].
    replace (_ ++ 125 :: rest) with (w1 ++ 34 :: body ++ 34 :: w2 ++ 58 :: w3 ++ t ++ w4 ++ 125 :: rest)
      by (by repeat (rewrite <- ?app_assoc; cbn [app])).
    rewrite (scan_member _ _ name _ _ _ _ d v) by (done || by apply ends_char; lia). done.
  - intros d name body w1 w2 w3 v t w4 es t' Hw1 Hb Hw2 Hw3 Ht IH Hw4 _ IH' [|fuel] rest Hf;
      simpl in Hf; [lia|].
    destruct (IH' fuel rest) as (ms & Hms & Hall); [lia|]. exists ((body, t) :: ms).
    split; [|constructor; [split; [by apply unquoted_text|done]|done]].
    replace (_ ++ 125 :: rest) with
      (w1 ++ 34 :: body ++ 34 :: w2 ++ 58 :: w3 ++ t ++ w4 ++ 44 :: t' ++ 125 :: rest)
      by (by repeat (rewrite <- ?app_assoc; cbn [app])).
    rewrite (scan_member _ _ name _ _ _ _ d v) by (done || by apply ends_char; lia).
    rewrite skip_char by done. by rewrite Hms.
Qed.

(** ** What is scanned is a text *)

Lemma skip_ws_split s : exists w, spaces w /\ s = w ++ skip_ws s.
Proof.
  induction s as [|z s (w & Hw & Hs)]; [by exists []; split; [constructor|]|]. simpl.
  destruct (is_ws z) eqn:Hz; [|by exists []; split; [constructor|]].
  exists (z :: w). split; [by constructor|]. simpl. by rewrite <- Hs.
Qed.

Lemma skip_digits_split s : exists l, all_digits l /\ s = l ++ skip_digits s.
Proof.
  induction s as [|z s (l & Hl & Hs)]; [by exists []; split; [constructor|]|]. simpl.
  destruct (is_digit z) eqn:Hz; [|by exists []; split; [constructor|]].
  exists (z :: l). split; [by constructor|]. simpl. by rewrite <- Hs.
Qed.

Lemma scan_digits_sound s rest :
  scan_digits s = Some rest -> exists z l, all_digits (z :: l) /\ s = z :: l ++ rest.
Proof.
  destruct s as [|z s]; [done|]. simpl. destruct (is_digit z) eqn:Hz; [|done]. intros [= <-].
  destruct (skip_digits_split s) as (l & Hl & Hs). exists z, l. split; [by constructor|congruence].
Qed.

Lemma scan_integer_sound s rest :
  scan_integer s = Some rest -> exists i, int_text i /\ s = i ++ rest.
Proof.
  destruct s as [|z s]; [done|]. destruct (decide (z = 48)) as [->|Hz].
  { intros [= <-]. exists [48]. split; [constructor|done]. }
  intros Hs. assert (Hd : scan_digits (z :: s) = Some rest).
  { rewrite <- Hs. clear Hs. destruct z as [|p|p]; [done| |done].
    do 6 (destruct p as [p|p|]; try done). }
  apply scan_digits_sound in Hd as (z' & l & Hl & [= -> ->]). apply Forall_cons in Hl as [Hz' Hl].
  exists (z' :: l). split; [|done]. constructor; [btests; lia|done].
Qed.

Lemma scan_fraction_sound s rest :
  scan_fraction s = Some rest -> exists f, frac_text f /\ s = f ++ rest.
Proof.
  destruct s as [|z s]; [intros [= <-]; exists []; split; [constructor|done]|].
  destruct (decide (z = 46)) as [->|Hz].
  { intros (y & l & Hl & ->)%scan_digits_sound. exists (46 :: y :: l). split; [by constructor|done]. }
  intros Hs. exists []. split; [constructor|].
  assert (Hd : scan_fraction (z :: s) = Some (z :: s)).
  { destruct z as [|p|p]; [done| |done]. do 6 (destruct p as [p|p|]; try done). }
  rewrite Hd in Hs. by injection Hs as <-.
Qed.

Lemma scan_exponent_digits e s :
  e = 101 \/ e = 69 ->
  scan_exponent (e :: s) =
    scan_digits (match s with 43 :: s' | 45 :: s' => s' | _ => s end).
Proof.
  intros He. destruct s as [|z s]; [by destruct He; subst|].
  destruct (decide (z = 43)) as [->|H43]; [by destruct He; subst|].
  destruct (decide (z = 45)) as [->|H45]; [by destruct He; subst|].
  destruct He; subst e; destruct z as [|p|p]; try done; do 6 (destruct p as [p|p|]; try done).
Qed.

Lemma scan_exponent_sound s rest :
  scan_exponent s = Some rest -> exists x, exp_text x /\ s = x ++ rest.
Proof.
  destruct s as [|e s]; [intros [= <-]; exists []; split; [constructor|done]|].
  destruct (decide (e = 101 \/ e = 69)) as [He|He].
  - rewrite scan_exponent_digits by done.
    assert (Hsplit : exists sign, (sign = [] \/ sign = [43] \/ sign = [45]) /\
      s = sign ++ match s with 43 :: s' | 45 :: s' => s' | _ => s end).
    { destruct s as [|z s]; [exists []; auto|].
      destruct (decide (z = 43)) as [->|H43]; [by exists [43]; auto|].
      destruct (decide (z = 45)) as [->|H45]; [by exists [45]; auto|].
      exists []. split; [auto|]. destruct z as [|p|p]; try done. do 6 (destruct p as [p|p|]; try done). }
    destruct Hsplit as (sign & Hsign & Hs). revert Hs.
    generalize (match s with 43 :: s' | 45 :: s' => s' | _ => s end) as s1.
    intros s1 -> (z & l & Hl & ->)%scan_digits_sound. exists (e :: sign ++ z :: l).
    split; [by constructor|]. simpl. by rewrite <- app_assoc.
  - intros Hs. exists []. split; [constructor|].
    assert (Hd : scan_exponent (e :: s) = Some (e :: s)).
    { destruct e as [|p|p]; try done. do 7 (destruct p as [p|p|]; try done); exfalso; lia. }
    rewrite Hd in Hs. by injection Hs as <-.
Qed.

Lemma scan_number_sound s rest :
  scan_number s = Some rest -> exists t, number_text t /\ s = t ++ rest.
Proof.
  intros Hs. assert (Hsplit : exists sign, (sign = [] \/ sign = [45]) /\
    s = sign ++ match s with 45 :: s' => s' | _ => s end).
  { destruct s as [|z s]; [exists []; auto|].
    destruct (decide (z = 45)) as [->|H45]; [by exists [45]; auto|].
    exists []. split; [auto|]. destruct z as [|p|p]; try done. do 6 (destruct p as [p|p|]; try done). }
  destruct Hsplit as (sign & Hsign & Hs1). unfold scan_number in Hs. revert Hs Hs1.
  generalize (match s with 45 :: s' => s' | _ => s end) as s1. intros s1 Hs ->.
  unfold scan_unsigned in Hs. destruct (scan_integer s1) as [s2|] eqn:H2; [|done]. simpl in Hs.
  destruct (scan_fraction s2) as [s3|] eqn:H3; [|done]. simpl in Hs.
  apply scan_integer_sound in H2 as (i & Hi & ->). apply scan_fraction_sound in H3 as (f & Hf & ->).
  apply scan_exponent_sound in Hs as (x & Hx & ->). exists (sign ++ i ++ f ++ x).
  split; [by constructor|]. by rewrite <- !app_assoc.
Qed.

Lemma scan_literal_sound lit s rest : scan_literal lit s = Some rest -> s = lit ++ rest.
Proof.
  revert s. induction lit as [|a lit IH]; intros s; [by intros [= <-]|].
  destruct s as [|z s]; [done|]. simpl. destruct (Z.eqb_spec a z) as [->|]; [|done].
  by intros ->%IH.
Qed.

(** *** Strings *)

(** The rest of a text after half of a surrogate pair that has its other half. *)
Lemma second_half t s r r' p :
  string_text t s -> next_escape t = Some r' -> surrogate_pair r r' = Some p ->
  exists a b c d t' s', t = 92 :: 117 :: a :: b :: c :: d :: t' /\ hex4 a b c d r' /\ string_text t' s'.
Proof.
  intros Ht Hn Hp. assert (Hlow : 56320 <= r' <= 57343).
  { unfold surrogate_pair in Hp. case_match eqn:Hb; [|done]. btests. lia. }
  destruct Ht as [|z t s _ _ H92 _|e q t s He Ht|a b c d q t s Hx Hq Ht
    |a b c d q a' b' c' d' q' p' t s Hx Hx' Hp' Ht|a b c d q t s Hx Hq _ Ht]; try done.
  - destruct z as [|x|x]; try done. do 7 (destruct x as [x|x|]; try done).
  - pose proof (escape_cases _ _ He). by destruct_or!; subst e.
  - unfold next_escape in Hn. rewrite (hex4_getu4 _ _ _ _ _ _ Hx) in Hn. injection Hn as ->.
    btests. lia.
  - unfold next_escape in Hn. rewrite (hex4_getu4 _ _ _ _ _ _ Hx) in Hn. injection Hn as ->.
    unfold surrogate_pair in Hp'. case_match eqn:Hb; [|done]. btests. lia.
  - unfold next_escape in Hn. rewrite (hex4_getu4 _ _ _ _ _ _ Hx) in Hn. injection Hn as ->.
    by eexists _, _, _, _, _, _.
Qed.

(** Every escape of four digits stands for something. *)
Lemma string_text_unicode a b c d r t s :
  hex4 a b c d r -> string_text t s ->
  exists s', string_text (92 :: 117 :: a :: b :: c :: d :: t) s'.
Proof.
  intros Hx Ht. destruct (surrogate r) eqn:Hr; [|by eexists; eapply st_unicode].
  destruct (next_escape t ≫= surrogate_pair r) as [p|] eqn:Hn; [|by eexists; eapply st_lone].
  destruct (next_escape t) as [r'|] eqn:Hn'; [|done]. simpl in Hn.
  destruct (second_half _ _ _ _ _ Ht Hn' Hn) as (a' & b' & c' & d' & t' & s' & -> & Hx' & Ht').
  eexists. by eapply st_pair.
Qed.

Lemma is_Some_hex a b c d :
  forallb (fun x => bool_decide (is_Some (hex_value x))) [a; b; c; d] = true ->
  exists r, hex4 a b c d r.
Proof.
  cbn [forallb]. rewrite !andb_true_iff, !bool_decide_eq_true.
  intros ([va Ha] & [vb Hb] & [vc Hc] & [vd Hd] & _). eexists. by exists va, vb, vc, vd.
Qed.

(** The step of the scanner at a backslash. *)
Lemma scan_escape_sound s p :
  scan_string (92 :: s) = Some p ->
  (exists a b c d r s2 body rest, s = 117 :: a :: b :: c :: d :: s2 /\ hex4 a b c d r /\
     scan_string s2 = Some (body, rest) /\ p = (92 :: 117 :: a :: b :: c :: d :: body, rest)) \/
  (exists e r s2 body rest, s = e :: s2 /\ escape_value e = Some r /\
     scan_string s2 = Some (body, rest) /\ p = (92 :: e :: body, rest)).
Proof.
  destruct s as [|e s2]; [done|]. destruct (decide (e = 117)) as [->|He].
  - destruct s2 as [|a [|b [|c [|d s2]]]]; try done. cbn [scan_string]. simpl (92 =? 34).
    simpl (between 0 31 92). simpl (92 =? 92). cbv iota.
    destruct (forallb _ _) eqn:Hx; [|done]. apply is_Some_hex in Hx as [r Hx].
    destruct (scan_string s2) as [[body rest]|] eqn:H2; [|done]. intros [= <-]. left.
    exists a, b, c, d, r, s2, body, rest. by split_and!.
  - intros Hs. right.
    assert (Heq : scan_string (92 :: e :: s2) = match escape_value e with
      | Some _ => '(body, rest) ← scan_string s2; Some (92 :: e :: body, rest) | None => None end).
    { destruct e as [|q|q]; try done. do 7 (destruct q as [q|q|]; try done). }
    rewrite Heq in Hs. destruct (escape_value e) as [r|] eqn:Hr; [|done].
    destruct (scan_string s2) as [[body rest]|] eqn:H2; [|done]. injection Hs as <-.
    exists e, r, s2, body, rest. by split_and!.
Qed.

Lemma scan_string_sound s body rest :
  scan_string s = Some (body, rest) -> s = body ++ 34 :: rest /\ exists runes, string_text body runes.
Proof.
  remember (length s) as n eqn:Hn. revert s body rest Hn.
  induction n as [n IH] using lt_wf_ind. intros s body rest -> Hs. destruct s as [|z s]; [done|].
  destruct (decide (z = 92)) as [->|H92].
  { destruct (scan_escape_sound _ _ Hs)
      as [(a & b & c & d & r & s2 & body' & rest' & -> & Hx & H2 & [= -> ->])
         |(e & r & s2 & body' & rest' & -> & He & H2 & [= -> ->])];
      apply IH with (m := length s2) in H2 as [-> [runes Ht]]; try done; try (simpl; lia); split; try done.
    - by eapply string_text_unicode.
    - eexists. by eapply st_escape. }
  cbn [scan_string] in Hs. rewrite (proj2 (Z.eqb_neq z 92)) in Hs by done.
  destruct (Z.eqb_spec z 34) as [->|H34].
  { injection Hs as <- <-. split; [done|]. exists []. constructor. }
  destruct (between 0 31 z) eqn:Hb; [done|].
  destruct (scan_string s) as [[body' rest']|] eqn:H2; [|done]. injection Hs as <- <-.
  apply IH with (m := length s) in H2 as [-> [runes Ht]]; [|simpl; lia|done]. split; [done|].
  eexists. eapply st_char; try done. btests. lia.
Qed.

(** *** Arrays and objects *)

(** The characters the scanner looks for. *)
Lemma colon_cases {A} (f : list Z -> option A) s x :
  match s with 58 :: r => f r | _ => None end = Some x -> exists r, s = 58 :: r /\ f r = Some x.
Proof.
  destruct s as [|z s]; [done|]. destruct (decide (z = 58)) as [->|Hz]; [eauto|].
  destruct z as [|p|p]; try done. do 6 (destruct p as [p|p|]; try done).
Qed.

Lemma quote_cases {A} (f : list Z -> option A) s x :
  match s with 34 :: r => f r | _ => None end = Some x -> exists r, s = 34 :: r /\ f r = Some x.
Proof.
  destruct s as [|z s]; [done|]. destruct (decide (z = 34)) as [->|Hz]; [eauto|].
  destruct z as [|p|p]; try done. do 6 (destruct p as [p|p|]; try done).
Qed.

Lemma bracket_cases {A} (f g : list Z -> option A) s x :
  match s with 44 :: r => f r | 93 :: r => g r | _ => None end = Some x ->
  (exists r, s = 44 :: r /\ f r = Some x) \/ (exists r, s = 93 :: r /\ g r = Some x).
Proof.
  destruct s as [|z s]; [done|]. destruct (decide (z = 44)) as [->|Hz]; [eauto|].
  destruct (decide (z = 93)) as [->|Hz']; [eauto|].
  destruct z as [|p|p]; try done. do 7 (destruct p as [p|p|]; try done).
Qed.

Lemma brace_cases {A} (f g : list Z -> option A) s x :
  match s with 44 :: r => f r | 125 :: r => g r | _ => None end = Some x ->
  (exists r, s = 44 :: r /\ f r = Some x) \/ (exists r, s = 125 :: r /\ g r = Some x).
Proof.
  destruct s as [|z s]; [done|]. destruct (decide (z = 44)) as [->|Hz]; [eauto|].
  destruct (decide (z = 125)) as [->|Hz']; [eauto|].
  destruct z as [|p|p]; try done. do 7 (destruct p as [p|p|]; try done).
Qed.

(** Whatever [scan_value] accepts with [d] levels left is the text of a value. *)
Definition sound_at (d : nat) : Prop :=
  forall s rest, scan_value d s = Some rest -> exists v t, text d v t /\ s = t ++ rest.

Lemma scan_elements_sound d fuel s rest :
  sound_at d -> scan_elements (scan_value d) fuel s = Some rest ->
  exists vs t, elements d vs t /\ s = t ++ 93 :: rest.
Proof.
  intros Hd. revert s. induction fuel as [|fuel IH]; intros s Hs; [done|]. cbn [scan_elements] in Hs.
  destruct (skip_ws_split s) as (w1 & Hw1 & Hs1).
  destruct (scan_value d (skip_ws s)) as [s2|] eqn:Hv; [|done]. rewrite some_bind in Hs.
  apply Hd in Hv as (v & t & Ht & Hs2). destruct (skip_ws_split s2) as (w2 & Hw2 & Hs3).
  rewrite Hs1, Hs2, Hs3.
  apply bracket_cases in Hs as [(r & Hr & (vs & t' & Hvs & ->)%IH)|(r & Hr & [= ->])]; rewrite Hr.
  - exists (v :: vs), (w1 ++ t ++ w2 ++ 44 :: t'). split; [by constructor|].
    by repeat (rewrite <- ?app_assoc; cbn [app]).
  - exists [v], (w1 ++ t ++ w2). split; [by constructor|]. by rewrite <- !app_assoc.
Qed.

Lemma raw_value_sound d s raw rest :
  sound_at d -> raw_value (scan_value d) s = Some (raw, rest) ->
  exists v, text d v raw /\ s = raw ++ rest.
Proof.
  unfold raw_value. intros Hd Hs. destruct (scan_value d s) as [r|] eqn:Hv; [|done].
  injection Hs as <- <-. apply Hd in Hv as (v & t & Ht & ->). exists v.
  rewrite length_app. replace (length t + length r - length r)%nat with (length t) by lia.
  by rewrite take_app_length.
Qed.

Lemma scan_members_sound d fuel s ms rest :
  sound_at d -> scan_members (scan_value d) fuel s = Some (ms, rest) ->
  exists es t, members d es t /\ s = t ++ 125 :: rest /\ Forall2 scanned ms es.
Proof.
  intros Hd. revert s ms. induction fuel as [|fuel IH]; intros s ms Hs; [done|].
  cbn [scan_members] in Hs. destruct (skip_ws_split s) as (w1 & Hw1 & Hs1).
  apply quote_cases in Hs as (s1 & Hq & Hs). rewrite Hq in Hs1.
  destruct (scan_string s1) as [[body s2]|] eqn:Hb; [|done]. rewrite some_bind in Hs.
  apply scan_string_sound in Hb as [-> [name Hname]]. destruct (skip_ws_split s2) as (w2 & Hw2 & Hs2).
  apply colon_cases in Hs as (s3 & Hc & Hs). rewrite Hc in Hs2.
  destruct (skip_ws_split s3) as (w3 & Hw3 & Hs3).
  destruct (raw_value (scan_value d) (skip_ws s3)) as [[raw s4]|] eqn:Hv; [|done].
  rewrite some_bind in Hs. apply raw_value_sound in Hv as (v & Hv & Hs4); [|done].
  destruct (skip_ws_split s4) as (w4 & Hw4 & Hs5).
  assert (Hone : scanned (body, raw) (MkEntry name raw v)) by (split; [by apply unquoted_text|done]).
  assert (Hall : s = w1 ++ 34 :: body ++ 34 :: w2 ++ 58 :: w3 ++ raw ++ w4 ++ skip_ws s4).
  { rewrite Hs1. do 2 f_equal. f_equal. rewrite Hs2. do 3 f_equal. rewrite Hs3, Hs4. by rewrite <- Hs5. }
  apply brace_cases in Hs as [(r & Hr & Hs)|(r & Hr & [= <- ->])]; rewrite Hall, Hr.
  - destruct (scan_members (scan_value d) fuel r) as [[ms' rest']|] eqn:Hm; [|done].
    injection Hs as <- ->. apply IH in Hm as (es & t' & Hes & -> & Hf).
    eexists (MkEntry name raw v :: es), _. split; [by apply (members_more d name body w1 w2 w3 v raw w4 es t')|].
    split; [by repeat (rewrite <- ?app_assoc; cbn [app])|by constructor].
  - eexists [MkEntry name raw v], _. split; [by apply (members_one d name body w1 w2 w3 v raw w4)|].
    split; [by repeat (rewrite <- ?app_assoc; cbn [app])|]. constructor; [done|constructor].
Qed.

Lemma first_char (c : Z) s : (exists r, s = c :: r) \/ ~ exists r, s = c :: r.
Proof.
  destruct s as [|z s]; [right; by intros [? ?]|]. destruct (decide (z = c)) as [->|Hz]; [eauto|].
  right. intros [r [= ->]]. done.
Qed.

Lemma brace_default {A} (f : list Z -> A) (b : A) s :
  ~ (exists r, s = 125 :: r) -> match s with 125 :: r => f r | _ => b end = b.
Proof.
  intros Hs. destruct s as [|z s]; [done|]. apply (not_brace f b (z :: s)). exists z, s.
  split; [done|]. intros ->. eauto.
Qed.

Lemma bracket_default {A} (f : list Z -> A) (b : A) s :
  ~ (exists r, s = 93 :: r) -> match s with 93 :: r => f r | _ => b end = b.
Proof.
  intros Hs. destruct s as [|z s]; [done|]. apply (not_bracket f b (z :: s)). exists z, s.
  split; [done|]. intros ->. eauto.
Qed.

Lemma scan_object_sound d s ms rest :
  sound_at d -> scan_object (scan_value d) s = Some (ms, rest) ->
  exists es t, object_text d es (123 :: t ++ [125]) /\ s = t ++ 125 :: rest /\ Forall2 scanned ms es.
Proof.
  intros Hd Hs. unfold scan_object in Hs. destruct (skip_ws_split s) as (w & Hw & Hsw).
  destruct (first_char 125 (skip_ws s)) as [[r Hr]|Hno].
  { rewrite Hr in *. injection Hs as <- <-. exists [], w. split; [by constructor|done]. }
  assert (Heq : scan_members (scan_value d) (S (length s)) s = Some (ms, rest)).
  { rewrite <- Hs. symmetry. by apply (brace_default (fun r => Some ([], r))). }
  apply scan_members_sound in Heq as (es & t & Hes & -> & Hf); [|done].
  exists es, t. split; [by constructor|done].
Qed.

Lemma scan_array_sound d s rest :
  sound_at d -> scan_array (scan_value d) s = Some rest ->
  exists vs t, text (S d) (VArray vs) (91 :: t ++ [93]) /\ s = t ++ 93 :: rest.
Proof.
  intros Hd Hs. unfold scan_array in Hs. destruct (skip_ws_split s) as (w & Hw & Hsw).
  destruct (first_char 93 (skip_ws s)) as [[r Hr]|Hno].
  { rewrite Hr in *. injection Hs as <-. exists [], w. split; [by constructor|done]. }
  assert (Heq : scan_elements (scan_value d) (S (length s)) s = Some rest).
  { rewrite <- Hs. symmetry. by apply (bracket_default Some). }
  apply scan_elements_sound in Heq as (vs & t & Hvs & ->); [|done].
  exists vs, t. split; [by constructor|done].
Qed.

(** The cases of [scan_value]. *)
Lemma scan_value_cases d s rest :
  scan_value d s = Some rest ->
  (exists s1 body, s = 34 :: s1 /\ scan_string s1 = Some (body, rest)) \/
  (exists d' s1 ms, d = S d' /\ s = 123 :: s1 /\ scan_object (scan_value d') s1 = Some (ms, rest)) \/
  (exists d' s1, d = S d' /\ s = 91 :: s1 /\ scan_array (scan_value d') s1 = Some rest) \/
  scan_literal (decode "true") s = Some rest \/ scan_literal (decode "false") s = Some rest \/
  scan_literal (decode "null") s = Some rest \/ scan_number s = Some rest.
Proof.
  destruct s as [|z s]; [by destruct d|].
  destruct (decide (z = 34)) as [->|H34].
  { intros Hs. left. assert (Hs' : snd <$> scan_string s = Some rest) by (by destruct d).
    destruct (scan_string s) as [[body r]|] eqn:Hb; [|done]. injection Hs' as <-. eauto. }
  destruct (decide (z = 123)) as [->|H123].
  { destruct d as [|d]; [done|]. cbn [scan_value]. intros Hs. right; left.
    destruct (scan_object (scan_value d) s) as [[ms r]|] eqn:Ho; [|done]. injection Hs as <-.
    by exists d, s, ms. }
  destruct (decide (z = 91)) as [->|H91].
  { destruct d as [|d]; [done|]. cbn [scan_value]. intros Hs. right; right; left. by exists d, s. }
  intros Hs. do 3 right.
  destruct (decide (z = 116)) as [->|]; [left; by destruct d|].
  destruct (decide (z = 102)) as [->|]; [right; left; by destruct d|].
  destruct (decide (z = 110)) as [->|]; [right; right; left; by destruct d|].
  do 3 right. rewrite <- Hs.
  destruct d; destruct z as [|p|p]; try done; do 7 (destruct p as [p|p|]; try done).
Qed.

Lemma scan_value_sound d : sound_at d.
Proof.
  induction d as [|d IH]; intros s rest Hs; apply scan_value_cases in Hs as
    [(s1 & body & -> & [-> [runes Hb]]%scan_string_sound)|[(d' & s1 & ms & Hd & -> & Ho)
    |[(d' & s1 & Hd & -> & Ha)|[Hl|[Hl|[Hl|Hn]]]]]]; try done.
  all: try (eexists _, (34 :: body ++ [34]); split; [by constructor|]; simpl; by rewrite <- app_assoc).
  all: try (apply scan_literal_sound in Hl as ->).
  all: try (by eexists _, (decode "true"); split; [apply (text_bool _ true)|]).
  all: try (by eexists _, (decode "false"); split; [apply (text_bool _ false)|]).
  all: try (by eexists _, (decode "null"); split; [apply text_null|]).
  all: try (apply scan_number_sound in Hn as (t & Ht & ->); eexists _, t; split; [by constructor|done]).
  - injection Hd as <-. apply scan_object_sound in Ho as (es & t & Ho & -> & _); [|done].
    eexists _, (123 :: t ++ [125]). split; [by eapply object_text_value|]. simpl. by rewrite <- app_assoc.
  - injection Hd as <-. apply scan_array_sound in Ha as (vs & t & Ha & ->); [|done].
    eexists _, (91 :: t ++ [93]). split; [done|]. simpl. by rewrite <- app_assoc.
Qed.

(** ** Decoding *)

(** The entries of an object are texts of their values, made of the characters of its text. *)
Lemma members_entries (P : Z -> Prop) d es t :
  members d es t -> Forall P t ->
  Forall (fun e => text d (en_Value e) (en_Raw e) /\ Forall P (en_Raw e)) es.
Proof.
  induction 1 as [d name body w1 w2 w3 v t w4 ? ? ? ? Ht ?|d name body w1 w2 w3 v t w4 es t'
    ? ? ? ? Ht ? _ IH]; intros Hall; repeat (rewrite ?Forall_app, ?Forall_cons in Hall);
    constructor; first [apply Forall_nil_2|apply IH; tauto|simpl; tauto].
Qed.

Lemma object_entries (P : Z -> Prop) d es t :
  object_text d es t -> Forall P t ->
  Forall (fun e => text d (en_Value e) (en_Raw e) /\ Forall P (en_Raw e)) es.
Proof.
  intros [w _|es' t' Ht] Hall; [constructor|].
  apply Forall_cons in Hall as [_ [Hall _]%Forall_app]. by eapply members_entries.
Qed.

(** [Decode] into a struct takes the members of the object a body begins with; what follows it
    does not matter. *)
Lemma decode_first_text w es t trailing :
  spaces w -> object_text (pred maxNestingDepth) es t ->
  exists ms, decode_first (w ++ t ++ trailing) = Some ms /\ Forall2 scanned ms es.
Proof.
  intros Hw Ht. unfold decode_first. rewrite skip_spaces by done.
  generalize dependent (pred maxNestingDepth). intros d Ht.
  destruct Ht as [w' Hw'|es t Ht]; cbn [app]; rewrite <- ?app_assoc, skip_char by done; cbv iota;
    unfold scan_object; cbn [app].
  - exists []. split; [|constructor]. rewrite skip_spaces by done. done.
  - destruct (members_head d es t (125 :: trailing) Ht) as (t' & ->). cbv iota.
    destruct (proj2 (proj2 text_scanned) d es t Ht (S (length (t ++ 125 :: trailing))) trailing)
      as (ms & -> & Hms).
    + pose proof (members_length _ _ _ Ht). rewrite length_app. lia.
    + by exists ms.
Qed.

Lemma object_or_null {A} (f g : list Z -> option A) s x :
  match s with 123 :: s' => f s' | 110 :: s' => g s' | _ => None end = Some x ->
  (exists s', s = 123 :: s' /\ f s' = Some x) \/ (exists s', s = 110 :: s' /\ g s' = Some x).
Proof.
  destruct s as [|z s]; [done|]. destruct (decide (z = 123)) as [->|H1]; [eauto|].
  destruct (decide (z = 110)) as [->|H2]; [eauto|].
  destruct z as [|p|p]; try done. do 7 (destruct p as [p|p|]; try done).
Qed.

Lemma decode_first_sound s ms :
  decode_first s = Some ms ->
  (exists w rest, spaces w /\ s = w ++ decode "null" ++ rest /\ ms = []) \/
  exists w es t rest, spaces w /\ object_text (pred maxNestingDepth) es t /\
    s = w ++ t ++ rest /\ Forall2 scanned ms es.
Proof.
  unfold decode_first. generalize (pred maxNestingDepth) as d. intros d Hs.
  destruct (skip_ws_split s) as (w & Hw & Hsw).
  apply (object_or_null (fun s => fst <$> scan_object (scan_value d) s)
    (fun _ => _ ← scan_literal (decode "null") (skip_ws s); Some [])) in Hs
    as [(s' & Hs' & Hs)|(s' & Hs' & Hs)].
  - right. destruct (scan_object (scan_value d) s') as [[ms' rest]|] eqn:Ho; [|done].
    injection Hs as ->. apply scan_object_sound in Ho as (es & t & Ho & -> & Hms);
      [|apply scan_value_sound].
    exists w, es, (123 :: t ++ [125]), rest. split_and!; [done|done| |done].
    rewrite Hsw, Hs'. simpl. by rewrite <- app_assoc.
  - left. destruct (scan_literal (decode "null") (skip_ws s)) as [rest|] eqn:Hl; [|done].
    injection Hs as <-. apply scan_literal_sound in Hl. exists w, rest.
    split_and!; [done| |done]. by rewrite Hsw, Hl.
Qed.

Lemma decode_members_entries {A} (step : A -> list Z -> list Z -> option A) init ms es :
  Forall2 scanned ms es ->
  decode_members step init ms =
    foldl (fun acc e => a ← acc; step a (en_Name e) (en_Raw e)) (Some init) es.
Proof.
  unfold decode_members. generalize (Some init) as acc. intros acc Hf. revert acc.
  induction Hf as [|m e ms es [Hn Hr] _ IH]; intros acc; [done|]. cbn [foldl]. rewrite IH.
  f_equal. destruct acc as [a|]; [|done]. rewrite !some_bind. by rewrite Hn, Hr.
Qed.

(** *** Fields *)

Lemma decode_string_text old d v t :
  text d v t ->
  decode_string old t =
    match v with VNull => Some old | VString s => Some (encode s) | _ => None end.
Proof.
  intros [d' |d' [] |d' t' Hn|d' t' s Hs|d' w _|d' vs t' _|d' w _|d' es t' _]; try done.
  - destruct (number_head _ Hn) as (z & t'' & -> & [->|Hz]); [done|].
    apply digit_cases in Hz as (k & Hk%ten_cases & ->). by destruct_or!; subst.
  - unfold decode_string. rewrite (scan_string_text t' s [] Hs), some_bind.
    by rewrite (unquoted_text t' s Hs).
Qed.

Lemma decode_pstring_text d v t :
  text d v t ->
  decode_pstring t =
    match v with VNull => Some None | VString s => Some (Some (encode s)) | _ => None end.
Proof.
  intros Ht. assert (Hnull : v = VNull \/ v <> VNull) by (destruct v; auto).
  destruct Hnull as [->|Hv]; [by inversion Ht|].
  assert (Heq : decode_pstring t = Some <$> decode_string "" t).
  { destruct Ht as [d' |d' [] |d' t' Hn|d' t' s Hs|d' w _|d' vs t' _|d' w _|d' es t' _]; try done.
    destruct (number_head _ Hn) as (z & t'' & -> & [->|Hz]); [done|].
    apply digit_cases in Hz as (k & Hk%ten_cases & ->). by destruct_or!; subst. }
  rewrite Heq, (decode_string_text _ _ _ _ Ht). by destruct v.
Qed.

(** A value that is not a number is not an integer. *)
Lemma decode_pint_other c t :
  c = 34 \/ c = 91 \/ c = 123 \/ c = 116 \/ c = 102 -> decode_pint (c :: t) = None.
Proof.
  intros Hc.
  assert (Heq : decode_pint (c :: t) = match Atoi (encode (c :: t)) with
    | (z, None) => Some (Some z) | _ => None end) by (by destruct_or!; subst c).
  rewrite Heq, encode_cons. unfold encode_rune.
  rewrite (proj2 (Z.ltb_ge c 0)), (proj2 (Z.ltb_lt c 128)), append_cons by lia.
  assert (Hs : (Atoi (String (chr c) ("" +:+ encode t))).2 = Some ErrSyntax)
    by (apply Atoi_syntax; by destruct_or!; subst c).
  revert Hs. by destruct (Atoi (String (chr c) ("" +:+ encode t))) as [v [e|]].
Qed.

Lemma decode_pint_text d v t :
  text d v t ->
  decode_pint t =
    match v with
    | VNull => Some None
    | VNumber lit => match Atoi (encode lit) with (z, None) => Some (Some z) | _ => None end
    | _ => None
    end.
Proof.
  intros [d' |d' b|d' t' Hn|d' t' s Hs|d' w _|d' vs t' _|d' w _|d' es t' _]; try done;
    try (apply decode_pint_other; lia).
  - destruct b; [apply (decode_pint_other 116)|apply (decode_pint_other 102)]; lia.
  - destruct (number_head _ Hn) as (z & t'' & -> & [->|Hz]); [done|].
    apply digit_cases in Hz as (k & Hk%ten_cases & ->). by destruct_or!; subst.
Qed.

(** *** The strings of a text are valid UTF-8 *)

Lemma hex_value_range a v : hex_value a = Some v -> 0 <= v <= 15.
Proof. unfold hex_value. repeat case_match; intros; simplify_eq; btests; lia. Qed.

Lemma hex4_range a b c d r : hex4 a b c d r -> 0 <= r <= 65535.
Proof.
  intros (va & vb & vc & vd & Ha%hex_value_range & Hb%hex_value_range & Hc%hex_value_range &
    Hd%hex_value_range & ->). lia.
Qed.

Lemma string_text_scalar t s :
  string_text t s -> Forall (fun z => rune_ok z = true) t -> Forall (fun z => scalar z = true) s.
Proof.
  induction 1 as [|z t s Hz H34 H92 _ IH|e r t s He _ IH|a b c d r t s Hx Hr _ IH
    |a b c d r a' b' c' d' r' p t s Hx Hx' Hp _ IH|a b c d r t s Hx _ _ _ IH];
    intros Hall; [constructor|..]; repeat rewrite Forall_cons in Hall; constructor; try (apply IH; tauto).
  - destruct Hall as [Hz' _]. unfold sanitize, rune_ok in *. destruct (Z.ltb_spec z 0); [done|].
    by rewrite orb_false_r in Hz'.
  - unfold escape_value in He. repeat case_match; simplify_eq; btests; lia.
  - apply hex4_range in Hx. btests. lia.
  - unfold surrogate_pair in Hp. case_match eqn:Hb; [|done]. injection Hp as <-. btests. lia.
  - done.
Qed.

Lemma utf8_encode l : Forall (fun z => scalar z = true) l -> utf8 (encode l) = true.
Proof.
  intros Hl. unfold utf8. rewrite decode_encode by done. apply forallb_forall. intros z Hz.
  rewrite Forall_forall in Hl. by apply Hl, list_elem_of_In.
Qed.

Lemma text_string_utf8 d s t :
  text d (VString s) t -> Forall (fun z => rune_ok z = true) t -> utf8 (encode s) = true.
Proof.
  intros Ht. inversion Ht as [| | |d' t' s' Hs| | | |]; subst.
  intros [_ [Hall _]%Forall_app]%Forall_cons. by eapply utf8_encode, string_text_scalar.
Qed.
