(* ===== verification/Events.v ===== *)
(** * Job events ([internal/dashboard/event.go])

    Every component that changes a job publishes an event on a Redis channel; the dashboard
    listens to it. *)

From S2P Require Import Prelude Prog Model Services Sim Queue Strconv Rfc3339 Json.

Local Open Scope string_scope.
Local Open Scope go_scope.
Local Open Scope list_scope.

Definition eventChannel : string := "goqueue:events".

(** [Timestamp] is [None] for the zero [time.Time]. *)
Record JobEvent := MkEvent {
  ev_Type : string;
  ev_JobID : string;
  ev_Queue : string;
  ev_Status : string;
  ev_Timestamp : option Time
}.

(** The location [time.Local]: its offset from UTC, in seconds, at a given time.  Zones in use
    today are a whole number of minutes, less than a day, away. *)
Class LocalTime := {
  zone_offset : Time -> Z;
  zone_minutes : forall t, (zone_offset t mod 60 = 0)%Z;
  zone_day : forall t, (Z.abs (zone_offset t) < 86400)%Z
}.

#[global] Instance sim_zone : LocalTime.
Proof. by refine {| zone_offset := fun _ => 32400%Z |}. Defined.

(** ** The JSON encoding *)

(** [Time.MarshalJSON] of a timestamp; the zero time is in UTC. *)
Definition timestamp_text `{LocalTime} (ts : option Time) : result string :=
  match ts with
  | Some t => marshal_time (zone_offset t) t
  | None => Ok "0001-01-01T00:00:00Z"
  end.

(** [json.Marshal(event)]. *)
Definition event_Marshal `{LocalTime} (e : JobEvent) : result string :=
  match timestamp_text (ev_Timestamp e) with
  | Err m => Err ("json: error calling MarshalJSON for type time.Time: Time.MarshalJSON: " +:+ m)
  | Ok ts =>
      Ok (encode (print (JObj
        [("type", JStr (ev_Type e)); ("job_id", JStr (ev_JobID e)); ("queue", JStr (ev_Queue e));
         ("status", JStr (ev_Status e)); ("timestamp", JStr ts)])))
  end.

(** The fields of [JobEvent], one member at a time. *)
Definition event_member (e : JobEvent) (name raw : list Z) : option JobEvent :=
  let '(MkEvent ty id q st ts) := e in
  if names_field "type" name then
    ty ← decode_string ty raw; Some (MkEvent ty id q st ts)
  else if names_field "job_id" name then
    id ← decode_string id raw; Some (MkEvent ty id q st ts)
  else if names_field "queue" name then
    q ← decode_string q raw; Some (MkEvent ty id q st ts)
  else if names_field "status" name then
    st ← decode_string st raw; Some (MkEvent ty id q st ts)
  else if names_field "timestamp" name then
    ts ← decode_time ts raw; Some (MkEvent ty id q st ts)
  else Some e.

(** [json.Unmarshal(data, &event)]. *)
Definition event_Unmarshal (data : string) : option JobEvent :=
  ms ← unmarshal_members (decode data);
  decode_members event_member (MkEvent "" "" "" "" None) ms.

#[global] Arguments event_Marshal : simpl never.
#[global] Arguments event_Unmarshal : simpl never.

Definition PublishJobEvent `{LocalTime} (event : JobEvent) : go (result unit) :=
  let* event :=
    match ev_Timestamp event with
    | Some _ => Ret event
    | None =>
        let* now := Now in
        Ret (MkEvent (ev_Type event) (ev_JobID event) (ev_Queue event) (ev_Status event)
               (Some now))
    end in
  match event_Marshal event with
  | Err e => Ret (Err ("marshal job event: " +:+ e))
  | Ok data => let* r := rd (PUBLISH eventChannel data) in Ret (reply_err r)
  end.

(** The event a component builds from the job it read. *)
Definition event_of `{UuidLib} (eventType : string) (job : Job) : JobEvent :=
  MkEvent eventType (uuid_String (ID job)) (Queue job) (Status job) None.

(** Publishing touches neither the table, nor the queues, nor the metrics. *)
Lemma wp_PublishJobEvent `{LocalTime} `{PG : Postgres} `{RD : Redis} `{HO : Host}
    ev (Q : result unit -> World -> Prop) w :
  (forall r w', same w w' -> Q r w') -> wp_go (PublishJobEvent ev) Q w.
Proof.
  intros HQ. unfold PublishJobEvent. apply wp_bind.
  apply (wp_mono _ _ (fun _ w' => same w w')).
  { destruct (ev_Timestamp ev); [by apply wp_ret|].
    apply wp_bind, wp_Now. intros t w' Hw. by apply wp_ret. }
  intros e w1 (? & ? & ?). destruct (event_Marshal e); [|by apply wp_ret, HQ].
  apply wp_bind, wp_rd. intros r w2 [? _] ? ?. apply wp_ret, HQ. split_and!; congruence.
Qed.

(** ** Events survive the channel *)

(** The texts of an event are valid UTF-8. *)
Definition event_utf8 (e : JobEvent) : bool :=
  utf8 (ev_Type e) && utf8 (ev_JobID e) && utf8 (ev_Queue e) && utf8 (ev_Status e).

(** What was encoded is decoded. *)
Lemma event_roundtrip `{LocalTime} e t data :
  event_utf8 e = true -> ev_Timestamp e = Some t -> event_Marshal e = Ok data ->
  event_Unmarshal data = Some e.
Proof.
  unfold event_utf8. rewrite !andb_true_iff. intros [[[Hty Hid] Hq] Hst] Hts.
  unfold event_Marshal, timestamp_text. rewrite Hts.
  destruct (marshal_time (zone_offset t) t) as [s|] eqn:Hs; [|done]. intros Hd.
  match type of Hd with Ok ?x = _ => assert (data = x) as -> by congruence end. clear Hd.
  unfold event_Unmarshal. rewrite decode_print, unmarshal_print.
  2:{ unfold maxNestingDepth. cbn. lia. }
  rewrite some_bind, decode_members_print. cbn [foldl fst snd].
  unfold event_member. resolve_names.
  do 4 (rewrite some_bind; cbv beta iota; rewrite decode_string_print; cbv iota;
        rewrite some_bind; cbv beta).
  change (print (JStr s)) with (quote (decode s)). rewrite some_bind. cbv beta iota.
  rewrite (decode_time_quote _ _ _ _ Hs (zone_minutes t)), some_bind.
  rewrite !text_of_utf8 by done. destruct e. simpl in Hts. by subst.
Qed.
