(* ===== verification/Worker.v ===== *)
(** * The worker pool ([internal/worker/worker.go])

    The handler registry, the worker loop, the processing of one job and the treatment of its
    failure; at the end, the pool and its wait group. *)

From S2P Require Import Prelude Prog Model Services Sim Storage Queue Events.

Local Open Scope string_scope.
Local Open Scope go_scope.
Local Open Scope list_scope.

(** [func(ctx context.Context, payload json.RawMessage) error]: [None] is a nil error. *)
Definition Handler := string -> go (option string).

Record Registry := MkRegistry { handlers : gmap string Handler }.

Definition NewRegistry : Registry := MkRegistry ∅.

Definition Register (r : Registry) (jobType : string) (h : Handler) : Registry :=
  MkRegistry (<[jobType := h]> (handlers r)).

Definition Get (r : Registry) (jobType : string) : option Handler := handlers r !! jobType.

Section Worker.
Context `{GoPlatform} `{UuidLib} `{PgTypes} `{LocalTime}.

Definition publishEvent (eventType : string) (job : Job) : go unit :=
  let* _ := PublishJobEvent (event_of eventType job) in Ret tt.

Definition handleFailure (job : Job) (jobErr : string) : go unit :=
  let newRetryCount := wrap64 (RetryCount job + 1) in
  if (MaxRetries job <=? newRetryCount)%Z then
    let* _ := UpdateJobError (ID job) StatusDead newRetryCount jobErr in
    publishEvent "job.dead" job
  else
    let* _ := UpdateJobError (ID job) StatusRetrying newRetryCount jobErr in
    publishEvent "job.retrying" job ;;;
    metric (MInc "RetriesTotal" [JobType job]) ;;;
    let* now := Now in
    let retryAt := (now + BackoffDuration newRetryCount)%Z in
    let* _ := Schedule (uuid_String (ID job)) retryAt in
    Ret tt.

(** [time.Since(start)]. *)
Definition Since (start : Time) : go Duration := let* now := Now in Ret (now - start)%Z.

(** What follows the return of the handler with [err]. *)
Definition report (jobID : UUID) (job : Job) (start : Time) (err : option string) : go unit :=
  match err with
  | Some e =>
      let* d := Since start in
      metric (MObserve "JobDuration" [JobType job] d) ;;;
      metric (MInc "JobsProcessed" [JobType job; "failed"]) ;;;
      metric (MInc "ErrorsTotal" [JobType job]) ;;;
      handleFailure job e
  | None =>
      let* d := Since start in
      metric (MObserve "JobDuration" [JobType job] d) ;;;
      metric (MInc "JobsProcessed" [JobType job; "success"]) ;;;
      let* _ := UpdateJobStatus jobID StatusCompleted in
      publishEvent "job.completed" job
  end.

(** The job is marked as running, the handler runs, its result is reported. *)
Definition execute (jobID : UUID) (job : Job) (handler : Handler) : go unit :=
  let* u := UpdateJobStatus jobID StatusRunning in
  match u with
  | Err _ => Ret tt
  | Ok _ =>
      publishEvent "job.running" job ;;;
      let* start := Now in
      let* err := handler (Payload job) in
      report jobID job start err
  end.

(** The body of [processJob] without the deferred call. *)
Definition process (registry : Registry) (jobIDStr : string) : go unit :=
  match uuid_Parse jobIDStr with
  | None => Ret tt
  | Some jobID =>
      let* r := GetJob jobID in
      match r with
      | Err _ => Ret tt
      | Ok job =>
          match Get registry (JobType job) with
          | None =>
              let* _ := UpdateJobError jobID StatusFailed (RetryCount job)
                          ("no handler for type: " +:+ JobType job) in
              Ret tt
          | Some handler => execute jobID job handler
          end
      end
  end.

(** [metrics.ActiveWorkers.Inc(); defer metrics.ActiveWorkers.Dec()] around the body. *)
Definition processJob (registry : Registry) (jobIDStr : string) : go unit :=
  metric (MInc "ActiveWorkers" []) ;;;
  process registry jobIDStr ;;;
  metric (MDec "ActiveWorkers" []).

(** One turn of the loop of [worker]; [ctxErr] is what [ctx.Err() != nil] says after a failed
    [Pop].  The answer is whether the loop goes on. *)
Definition worker_turn (registry : Registry) (queues : list string) (ctxErr : bool) :
    go bool :=
  let* r := Pop queues (1 * Second) in
  match r with
  | Err _ => if ctxErr then Ret false else Sleep (1 * Second) ;;; Ret true
  | Ok jobID =>
      if bool_decide (jobID = "") then Ret true
      else processJob registry jobID ;;; Ret true
  end.

(** The loop, with what [ctx] says at each turn: [ctx.Done()] at its top, [ctx.Err()] after a
    failed [Pop].  [true] means that the worker has returned. *)
Fixpoint worker (registry : Registry) (queues : list string) (ctx : list (bool * bool)) :
    go bool :=
  match ctx with
  | [] => Ret false
  | (true, _) :: _ => Ret true
  | (false, ctxErr) :: ctx =>
      let* continue := worker_turn registry queues ctxErr in
      if continue then worker registry queues ctx else Ret true
  end.

End Worker.

(** ** What processing a job can do *)

(** A handler that leaves the program's own data alone. *)
Definition inert (h : Handler) : Prop := forall payload, effects quiet (h payload).

Section WorkerFacts.
Context `{GoPlatform} `{UuidLib} `{LocalTime} `{PG : Postgres} `{RD : Redis} `{HO : Host}.

Lemma wp_worker_event ty job (Q : unit -> World -> Prop) w :
  (forall w', same w w' -> Q tt w') -> wp_go (publishEvent ty job) Q w.
Proof.
  intros HQ. apply wp_bind, wp_PublishJobEvent. intros r w' Hw. by apply wp_ret, HQ.
Qed.

Lemma wp_handleFailure job e j1 (Q : unit -> World -> Prop) w :
  keyed (tbl w) -> tbl w !! ID job = Some j1 ->
  let rc := wrap64 (RetryCount job + 1) in
  (forall j' w', tbl w' = <[ID job := j']> (tbl w) ->
     j' = j1 \/ ((MaxRetries job <= rc)%Z /\ error_set StatusDead rc e j1 j') \/
       ((rc < MaxRetries job)%Z /\ error_set StatusRetrying rc e j1 j') ->
     rdd w' = rdd w \/ ((rc < MaxRetries job)%Z /\
       exists t, rdd w' = scheduled (uuid_String (ID job)) t (rdd w)) -> Q tt w') ->
  wp_go (handleFailure job e) Q w.
Proof.
  intros Hk Hj rc HQ. unfold handleFailure. fold rc. destruct (Z.leb_spec (MaxRetries job) rc).
  - apply wp_bind, wp_UpdateJobError; [done|]. intros r w1 [Hr1 _] Hw.
    destruct (write_of_row _ _ _ _ _ _ Hw Hj) as (j' & Hj' & Ht).
    apply wp_worker_event. intros w2 (Ht2 & Hr2 & _).
    apply (HQ j'); [congruence|naive_solver|left; congruence].
  - apply wp_bind, wp_UpdateJobError; [done|]. intros r w1 [Hr1 _] Hw.
    destruct (write_of_row _ _ _ _ _ _ Hw Hj) as (j' & Hj' & Ht).
    apply wp_bind, wp_worker_event. intros w2 (Ht2 & Hr2 & _).
    apply wp_bind, wp_metric. intros w3 Ht3 Hr3 _.
    apply wp_bind, wp_Now. intros now w4 (Ht4 & Hr4 & _).
    apply wp_bind, wp_Schedule. intros r5 w5 [Ht5 _] Hw5. apply wp_ret.
    assert (Hrd : rdd w4 = rdd w) by congruence. rewrite Hrd in Hw5.
    apply (HQ j'); [congruence|naive_solver|].
    destruct r5; simpl in Hw5; naive_solver.
Qed.

(** Everything [processJob] can make of the row of a job. *)
Inductive outcome (registry : Registry) (job job' : Job) : Prop :=
| out_untouched : job' = job -> outcome registry job job'
| out_no_handler :
    Get registry (JobType job) = None ->
    error_set StatusFailed (RetryCount job) ("no handler for type: " +:+ JobType job) job job' ->
    outcome registry job job'
| out_running : status_set StatusRunning job job' -> outcome registry job job'
| out_completed j1 :
    status_set StatusRunning job j1 -> status_set StatusCompleted j1 job' ->
    outcome registry job job'
| out_retrying j1 e :
    status_set StatusRunning job j1 -> (RetryCount job + 1 < MaxRetries job)%Z ->
    error_set StatusRetrying (RetryCount job + 1) e j1 job' -> outcome registry job job'
| out_dead j1 e :
    status_set StatusRunning job j1 -> (MaxRetries job <= RetryCount job + 1)%Z ->
    error_set StatusDead (RetryCount job + 1) e j1 job' -> outcome registry job job'.

(** A schedule entry for a retry, or nothing. *)
Definition maybe_scheduled (job : Job) (d d' : RdData) : Prop :=
  d' = d \/ ((RetryCount job + 1 < MaxRetries job)%Z /\
             exists t, d' = scheduled (uuid_String (ID job)) t d).

Lemma wp_report registry job j1 start err (Q : unit -> World -> Prop) w :
  keyed (tbl w) -> tbl w !! ID job = Some j1 -> row_fits job ->
  status_set StatusRunning job j1 ->
  (forall job' w', tbl w' = <[ID job := job']> (tbl w) -> outcome registry job job' ->
     maybe_scheduled job (rdd w) (rdd w') -> Q tt w') ->
  wp_go (report (ID job) job start err) Q w.
Proof.
  intros Hk Hj [_ Hrc] Hj1 HQ. assert (Hsucc := in_int32_succ _ Hrc).
  destruct err as [e|]; apply wp_bind, wp_bind, wp_Now; intros now w6 (Ht6 & Hr6 & _);
    apply wp_ret, wp_bind, wp_metric; intros w7 Ht7 Hr7 _;
    apply wp_bind, wp_metric; intros w8 Ht8 Hr8 _.
  - apply wp_bind, wp_metric. intros w9 Ht9 Hr9 _.
    assert (Htw : tbl w9 = tbl w) by congruence.
    assert (Hrw : rdd w9 = rdd w) by congruence.
    apply (wp_handleFailure _ _ j1); rewrite ?Htw, ?Hsucc; [done..|].
    intros j' w' Ht' Hout Hrd. rewrite Hrw in Hrd. apply (HQ j'); [done| |done].
    destruct Hout as [-> |[[??]|[??]]]; by econstructor.
  - assert (Htw : tbl w8 = tbl w) by congruence.
    apply wp_bind, wp_UpdateJobStatus; [by rewrite Htw|].
    intros r9 w9 [Hr9 _] Hw9. rewrite Htw in Hw9.
    destruct (write_of_row _ _ _ _ _ j1 Hw9 Hj) as (j' & Hj' & Ht9).
    apply wp_worker_event. intros w10 (Ht10 & Hr10 & _). apply (HQ j').
    + congruence.
    + destruct Hj' as [-> |]; by econstructor.
    + left. congruence.
Qed.

Lemma wp_execute registry job h (Q : unit -> World -> Prop) w :
  inert h -> keyed (tbl w) -> tbl w !! ID job = Some job -> row_fits job ->
  (forall job' w', tbl w' = <[ID job := job']> (tbl w) -> outcome registry job job' ->
     maybe_scheduled job (rdd w) (rdd w') -> Q tt w') ->
  wp_go (execute (ID job) job h) Q w.
Proof.
  intros Hinert Hk Hj Hfits HQ. apply wp_bind, wp_UpdateJobStatus; [done|].
  intros u w2 [Hr2 _] Hw. destruct u as [u|e].
  2:{ destruct (write_of_row _ _ _ _ _ _ Hw Hj) as (j' & Hj' & Ht2).
      apply wp_ret, (HQ j'); [done| |by left].
      destruct Hj' as [-> |]; [by constructor|by apply out_running]. }
  destruct (applied_row _ _ _ _ _ Hw Hj) as (j1 & Hj1 & _ & Ht2).
  apply wp_bind, wp_worker_event. intros w3 (Ht3 & Hr3 & _).
  apply wp_bind, wp_Now. intros start w4 (Ht4 & Hr4 & _).
  apply wp_bind, wp_quiet; [apply Hinert|]. intros err w5 (Ht5 & Hr5 & _).
  assert (Htw : tbl w5 = <[ID job := j1]> (tbl w)) by congruence.
  assert (Hrw : rdd w5 = rdd w) by congruence.
  apply (wp_report registry _ j1); rewrite ?Htw, ?lookup_insert_eq; try done.
  - apply keyed_insert; [done|]. by destruct Hj1 as (? & ? & ->).
  - intros job' w' Ht'. rewrite insert_insert_eq in Ht'. rewrite Hrw. by apply HQ.
Qed.

Lemma wp_process registry id job (Q : unit -> World -> Prop) w :
  (forall ty h, Get registry ty = Some h -> inert h) ->
  keyed (tbl w) -> tbl w !! id = Some job -> row_fits job ->
  (forall job' w', tbl w' = <[id := job']> (tbl w) -> outcome registry job job' ->
     maybe_scheduled job (rdd w) (rdd w') -> Q tt w') ->
  wp_go (process registry (uuid_String id)) Q w.
Proof.
  intros Hinert Hk Hj Hfits HQ. unfold process. rewrite uuid_Parse_String.
  assert (Hself : tbl w = <[id := job]> (tbl w)) by (symmetry; by apply insert_id).
  assert (Hid : ID job = id) by (by apply (Hk _ _ Hj)). subst id.
  apply wp_bind, wp_GetJob; [done|]. intros r w1 (Ht1 & Hr1 & _) Hget.
  destruct r as [job0|e].
  2:{ apply wp_ret, (HQ job); [congruence|by constructor|by left]. }
  specialize (Hget job0 eq_refl). rewrite Hj in Hget. injection Hget as <-.
  destruct (Get registry (JobType job)) as [h|] eqn:Hh.
  - apply (wp_execute registry); rewrite ?Ht1, ?Hr1; try done. by eapply Hinert.
  - apply wp_bind, wp_UpdateJobError; [by rewrite Ht1|]. intros r w2 [Hr2 _] Hw.
    rewrite Ht1 in Hw. destruct (write_of_row _ _ _ _ _ _ Hw Hj) as (j' & Hj' & Ht2).
    apply wp_ret, (HQ j'); [done| |left; congruence].
    destruct Hj' as [-> |]; [by constructor|by apply out_no_handler].
Qed.

(** (C5) Whatever fails while a job is processed, [processJob] changes the row of that job
    only, and in one of six ways: not at all, failed for want of a handler, running,
    completed after running, retrying with one more retry than before while that is below
    [max_retries], or dead with one more retry once it is not, that is, also at the limit
    (where the comment of [handleFailure] promises another retry, see
    [last_retry_is_not_given]).  The queues stay as they are,
    and the schedule gains at most the identifier of a job that may still be retried. *)
Theorem processJob_outcomes registry id job w r w' :
  (forall ty h, Get registry ty = Some h -> inert h) ->
  keyed (tbl w) -> tbl w !! id = Some job -> row_fits job ->
  run_go (processJob registry (uuid_String id)) w = (r, w') ->
  exists job', tbl w' = <[id := job']> (tbl w) /\ outcome registry job job' /\
    maybe_scheduled job (rdd w) (rdd w').
Proof.
  intros Hinert Hk Hj Hfits Hrun. wp_start Hrun.
  apply wp_bind, wp_metric. intros w1 Ht1 Hr1 _.
  apply wp_bind, (wp_process registry id job); rewrite ?Ht1, ?Hr1; try done.
  intros job' w2 Ht2 Hout Hs. apply wp_metric. intros w3 Ht3 Hr3 _.
  exists job'. rewrite Ht3, Hr3. auto.
Qed.

(** ** Processing when no call fails *)

(** A handler that answers [err] for the payload. *)
Definition answers (h : Handler) (payload : string) (err : option string) : Prop :=
  forall w : World, wp_go (h payload) (fun a _ => a = err) w.

(** The row and the Redis data after a handler that answered [err]: completed; retrying, with
    an entry of the schedule at the backoff delay after a reading of the clock; or dead. *)
Definition processed (job : Job) (err : option string) (reading : Time -> Prop) (t : Table)
    (d : RdData) (t' : Table) (d' : RdData) : Prop :=
  let rc := (RetryCount job + 1)%Z in
  exists j1 job', status_set StatusRunning job j1 /\ t' = <[ID job := job']> t /\
    match err with
    | None => status_set StatusCompleted j1 job' /\ d' = d
    | Some e =>
        if decide (rc < MaxRetries job)%Z
        then error_set StatusRetrying rc e j1 job' /\
             exists now, reading now /\
               d' = scheduled (uuid_String (ID job)) (now + BackoffDuration rc)%Z d
        else error_set StatusDead rc e j1 job' /\ d' = d
    end.

Lemma processed_mono job err (P P' : Time -> Prop) t d t' d' :
  (forall now, P now -> P' now) ->
  processed job err P t d t' d' -> processed job err P' t d t' d'.
Proof.
  intros HP (j1 & job' & Hj1 & Ht & Hout). exists j1, job'. split_and!; [done..|].
  destruct err; [|done]. case_decide; naive_solver.
Qed.

Lemma wpok_handleFailure job e j1 (Q : unit -> World -> Prop) w :
  keyed (tbl w) -> tbl w !! ID job = Some j1 -> row_fits job ->
  let rc := (RetryCount job + 1)%Z in
  (forall j' w', tbl w' = <[ID job := j']> (tbl w) ->
     (if decide (rc < MaxRetries job)%Z
      then error_set StatusRetrying rc e j1 j' /\
           exists now, read_between w w' now /\ rdd w' =
             scheduled (uuid_String (ID job)) (now + BackoffDuration rc)%Z (rdd w)
      else error_set StatusDead rc e j1 j' /\ rdd w' = rdd w) -> Q tt w') ->
  wpok_go (handleFailure job e) Q w.
Proof.
  intros Hk Hj [_ Hrc] rc HQ. unfold handleFailure. rewrite in_int32_succ by done. fold rc.
  destruct (Z.leb_spec (MaxRetries job) rc) as [Hle|Hlt].
  - apply wpok_bind, wpok_UpdateJobError; [done|]. intros w1 [Hr1 _] Hw.
    destruct (applied_row _ _ _ _ _ Hw Hj) as (j' & Hj' & _ & Ht).
    apply wp_wpok, wp_worker_event. intros w2 (Ht2 & Hr2 & _).
    apply (HQ j'); [congruence|]. rewrite decide_False by lia. split; [done|congruence].
  - apply wpok_bind, wpok_later, wpok_UpdateJobError; [done|]. intros w1 [Hr1 _] Hw L1.
    destruct (applied_row _ _ _ _ _ Hw Hj) as (j' & Hj' & _ & Ht).
    apply wpok_bind, wpok_later, wp_wpok, wp_worker_event. intros w2 (Ht2 & Hr2 & _) L2.
    apply wpok_bind, wpok_later, wp_wpok, wp_metric. intros w3 Ht3 Hr3 _ L3.
    apply wpok_bind, wp_wpok, wp_reading. intros now w4 (Ht4 & Hr4 & _) Hread.
    apply wpok_bind, wpok_later, wpok_Schedule. intros w5 [Ht5 _] Hr5 L5. apply wpok_ret.
    apply (HQ j'); [congruence|]. rewrite decide_True by lia. split; [done|].
    exists now. split; [|congruence]. eapply read_between_later; [|done..]. by do 2 (etrans; [done|]).
Qed.

Lemma wpok_report job j1 start err (Q : unit -> World -> Prop) t w :
  keyed (tbl w) -> tbl w = <[ID job := j1]> t -> row_fits job ->
  status_set StatusRunning job j1 ->
  (forall w', processed job err (read_between w w') t (rdd w) (tbl w') (rdd w') -> Q tt w') ->
  wpok_go (report (ID job) job start err) Q w.
Proof.
  intros Hk Htw Hfits Hj1 HQ.
  assert (Hj : tbl w !! ID job = Some j1) by (rewrite Htw; apply lookup_insert_eq).
  destruct err as [e|]; apply wpok_bind, wpok_later, wp_wpok, wp_bind, wp_Now;
    intros now w6 (Ht6 & Hr6 & _); apply wp_ret; intros L6;
    apply wpok_bind, wpok_later, wp_wpok, wp_metric; intros w7 Ht7 Hr7 _ L7;
    apply wpok_bind, wpok_later, wp_wpok, wp_metric; intros w8 Ht8 Hr8 _ L8.
  - apply wpok_bind, wpok_later, wp_wpok, wp_metric. intros w9 Ht9 Hr9 _ L9.
    assert (Ht : tbl w9 = tbl w) by congruence. assert (Hr : rdd w9 = rdd w) by congruence.
    apply (wpok_handleFailure _ _ j1); rewrite ?Ht, ?Hr; try done.
    intros j' w' Ht' Hout. apply HQ.
    apply (processed_mono _ _ (read_between w9 w')).
    { intros now'. apply read_between_later; [by do 3 (etrans; [done|])|done]. }
    exists j1, j'. rewrite Ht', Htw, insert_insert_eq. done.
  - assert (Ht : tbl w8 = tbl w) by congruence.
    apply wpok_bind, wpok_UpdateJobStatus; [by rewrite Ht|]. intros w9 [Hr9 _] Hw9.
    rewrite Ht in Hw9. destruct (applied_row _ _ _ _ _ Hw9 Hj) as (j' & Hj' & _ & Ht9).
    apply wp_wpok, wp_worker_event. intros w10 (Ht10 & Hr10 & _). apply HQ. exists j1, j'.
    rewrite Ht10, Ht9, Htw, insert_insert_eq. split_and!; try done. congruence.
Qed.

Lemma wpok_processJob registry id job h err (Q : unit -> World -> Prop) w :
  Get registry (JobType job) = Some h -> inert h -> answers h (Payload job) err ->
  keyed (tbl w) -> tbl w !! id = Some job -> row_fits job ->
  (forall w', processed job err (read_between w w') (tbl w) (rdd w) (tbl w') (rdd w') ->
     Q tt w') ->
  wpok_go (processJob registry (uuid_String id)) Q w.
Proof.
  intros Hh Hinert Hans Hk Hj Hfits HQ.
  assert (Hid : ID job = id) by (by apply (Hk _ _ Hj)). subst id.
  apply wpok_bind, wpok_later, wp_wpok, wp_metric. intros w1 Ht1 Hr1 _ L1. apply wpok_bind.
  eapply wpok_mono with (Q := fun _ w' =>
    processed job err (read_between w w') (tbl w) (rdd w) (tbl w') (rdd w')).
  2:{ intros [] w' Hw. apply wpok_later, wp_wpok, wp_metric. intros w2 Ht2 Hr2 _ L2.
      apply HQ. rewrite Ht2, Hr2. eapply processed_mono, Hw. intros now.
      by apply read_between_later. }
  unfold process. rewrite uuid_Parse_String.
  apply wpok_bind, wpok_later, wpok_GetJob; [by rewrite Ht1|]. intros r w2 (Ht2 & Hr2 & _).
  rewrite Ht1, Hj. intros -> L2. rewrite Hh.
  apply wpok_bind, wpok_later, wpok_UpdateJobStatus; [by rewrite Ht2, Ht1|].
  intros w3 [Hr3 _] Hw3 L3.
  rewrite Ht2, Ht1 in Hw3. destruct (applied_row _ _ _ _ _ Hw3 Hj) as (j1 & Hj1 & _ & Ht3).
  apply wpok_bind, wpok_later, wp_wpok, wp_worker_event. intros w4 (Ht4 & Hr4 & _) L4.
  apply wpok_bind, wpok_later, wp_wpok, wp_Now. intros start w5 (Ht5 & Hr5 & _) L5.
  apply wpok_bind, wpok_later, wp_wpok.
  assert (Hboth : wp_go (h (Payload job)) (fun a w' => a = err /\ same w5 w') w5).
  { split; [apply Hans|]. by apply (wp_quiet _ (fun _ w' => same w5 w')); [apply Hinert|]. }
  eapply wp_mono; [exact Hboth|]. intros a w6 (-> & Ht6 & Hr6 & _) L6.
  assert (Htw : tbl w6 = <[ID job := j1]> (tbl w)) by congruence.
  eapply (wpok_report _ j1 _ _ _ (tbl w)); try done.
  - rewrite Htw. apply keyed_insert; [done|]. by destruct Hj1 as (? & ? & ->).
  - intros w' Hw'. assert (rdd w6 = rdd w) as Hr by congruence. rewrite Hr in Hw'.
    eapply processed_mono, Hw'. intros now.
    apply read_between_later; [by do 5 (etrans; [done|])|done].
Qed.

(** (C2) When no service call fails, the handler of a job decides what becomes of it, whatever
    its status was: a nil error completes it; an error below the retry limit leaves it
    retrying with the message and one more retry, and puts its identifier on the schedule
    at the backoff delay after a moment of this processing; an error that brings the retries
    up to [max_retries] makes it dead.  (The comment of [handleFailure] and the README say
    that a job dies when it exceeds the maximum; see [last_retry_is_not_given].) *)
Theorem processJob_follows_handler registry id job h err w :
  Get registry (JobType job) = Some h -> inert h -> answers h (Payload job) err ->
  keyed (tbl w) -> tbl w !! id = Some job -> row_fits job ->
  all_ok_go (processJob registry (uuid_String id)) w ->
  let w' := (run_go (processJob registry (uuid_String id)) w).2 in
  processed job err (read_between w w') (tbl w) (rdd w) (tbl w') (rdd w').
Proof.
  intros Hh Hinert Hans Hk Hj Hfits Hok.
  apply (wpok_run exec answered (processJob registry (uuid_String id))
    (fun _ w' => processed job err (read_between w w') (tbl w) (rdd w) (tbl w') (rdd w'))
    w Hok).
  by eapply wpok_processJob.
Qed.

(** ** Retries come to an end *)

Lemma processed_failure job e P t d t' d' :
  processed job (Some e) P t d t' d' ->
  exists job', t' = <[ID job := job']> t /\
    (ID job', JobType job', Payload job', MaxRetries job') =
      (ID job, JobType job, Payload job, MaxRetries job) /\
    RetryCount job' = (RetryCount job + 1)%Z /\ JobError job' = e /\
    Status job' = if decide (RetryCount job + 1 < MaxRetries job)%Z
                  then StatusRetrying else StatusDead.
Proof.
  intros (j1 & job' & (now & dbnow & ->) & Ht & Hout). exists job'. split; [done|].
  case_decide; destruct Hout as [[now' ->] _]; done.
Qed.

(** [n] processings of the same job. *)
Fixpoint attempts (registry : Registry) (jobIDStr : string) (n : nat) : go unit :=
  match n with
  | O => Ret tt
  | S n => attempts registry jobIDStr n ;;; processJob registry jobIDStr
  end.

(** The number of executions a failing job gets. *)
Definition tries (job : Job) : Z := Z.max 1 (MaxRetries job - RetryCount job).

(** [job] after [n] failed executions. *)
Definition failed_times (n : nat) (e : string) (job job' : Job) : Prop :=
  (ID job', JobType job', Payload job', MaxRetries job') =
    (ID job, JobType job, Payload job, MaxRetries job) /\
  RetryCount job' = (RetryCount job + Z.of_nat n)%Z /\
  (0 < n -> JobError job' = e /\
     Status job' = if decide (Z.of_nat n = tries job) then StatusDead else StatusRetrying).

Lemma failed_once_more n e job job1 P t d t' d' :
  failed_times n e job job1 -> (Z.of_nat (S n) <= tries job)%Z ->
  processed job1 (Some e) P t d t' d' ->
  exists job', t' = <[ID job := job']> t /\ failed_times (S n) e job job' /\
    if decide (Z.of_nat (S n) = tries job) then d' = d
    else exists now, P now /\
      d' = scheduled (uuid_String (ID job)) (now + BackoffDuration (RetryCount job'))%Z d.
Proof.
  intros (Hsame & Hrc & _) Hn Hp. injection Hsame as HID HTy HPl HMax.
  destruct (processed_failure _ _ _ _ _ _ _ Hp) as (job' & Ht & Hsame' & Hrc' & He & Hst).
  injection Hsame' as HID' HTy' HPl' HMax'. exists job'. rewrite HID in Ht. split; [done|].
  unfold tries in *. split.
  - unfold failed_times. split; [congruence|]. split; [lia|]. intros _. split; [done|].
    rewrite Hst. unfold tries. repeat case_decide; try done; lia.
  - destruct Hp as (j1 & job2 & _ & _ & Hout). rewrite Hrc', HID, Hrc, HMax in *.
    destruct (decide (Z.of_nat (S n) = _)) as [Hd|Hd].
    + rewrite decide_False in Hout by lia. by destruct Hout.
    + rewrite decide_True in Hout by lia. by destruct Hout.
Qed.

(** The next execution of a job that has failed [n] times. *)
Lemma wpok_next_attempt registry id h e n job job1 w :
  Get registry (JobType job) = Some h -> inert h -> answers h (Payload job) (Some e) ->
  keyed (tbl w) -> tbl w !! id = Some job1 -> row_fits job -> failed_times n e job job1 ->
  (Z.of_nat (S n) <= tries job)%Z ->
  wpok_go (processJob registry (uuid_String id))
    (fun _ w' => keyed (tbl w') /\ exists job', tbl w' !! id = Some job' /\
       failed_times (S n) e job job' /\
       if decide (Z.of_nat (S n) = tries job) then rdd w' = rdd w
       else exists now, read_between w w' now /\ rdd w' =
         scheduled (uuid_String id) (now + BackoffDuration (RetryCount job'))%Z (rdd w)) w.
Proof.
  intros Hh Hinert Hans Hk Hj [Hmax Hret] Hf Hn. pose proof Hf as (Hsame & Hrc & _).
  injection Hsame as HID HTy HPl HMax.
  assert (Hid : ID job = id) by (rewrite <- HID; by apply (Hk _ _ Hj)).
  eapply (wpok_processJob registry id job1 h (Some e)); [by rewrite HTy|done|by rewrite HPl|done|done| |].
  { unfold row_fits, in_int32, tries in *. lia. }
  intros w' Hp. destruct (failed_once_more _ _ _ _ _ _ _ _ _ Hf Hn Hp) as (job' & Ht & Hf' & Hrd).
  rewrite Hid in *. split.
  - rewrite Ht. apply keyed_insert; [done|]. destruct Hf' as (Hs' & _). by injection Hs' as ->.
  - exists job'. by rewrite Ht, lookup_insert_eq.
Qed.

Lemma wpok_attempts registry id h e n job w :
  Get registry (JobType job) = Some h -> inert h -> answers h (Payload job) (Some e) ->
  keyed (tbl w) -> tbl w !! id = Some job -> row_fits job ->
  (Z.of_nat n <= tries job)%Z ->
  wpok_go (attempts registry (uuid_String id) n)
    (fun _ w' => keyed (tbl w') /\ exists job', tbl w' !! id = Some job' /\
       failed_times n e job job') w.
Proof.
  intros Hh Hinert Hans Hk Hj Hfits. induction n as [|n IH]; intros Hn.
  { apply wpok_ret. split; [done|]. exists job. unfold failed_times. rewrite Z.add_0_r. naive_solver lia. }
  apply wpok_bind. eapply wpok_mono; [apply IH; lia|]. intros _ w1 (Hk1 & job1 & Hj1 & Hf).
  eapply wpok_mono; [by eapply wpok_next_attempt|]. naive_solver.
Qed.


(** ** The gauge of active workers *)

Definition metric_name (m : MetricOp) : string :=
  match m with MInc n _ | MDec n _ | MSet n _ _ | MObserve n _ _ => n end.

(** Effects that leave the gauge alone. *)
Definition not_gauge (e : Eff) : Prop :=
  match e with EMetric m => metric_name m <> "ActiveWorkers" | _ => True end.

Lemma process_not_gauge registry s :
  (forall ty h, Get registry ty = Some h -> inert h) ->
  effects not_gauge (process registry s).
Proof.
  intros Hinert.
  assert (Hpub : forall ty j, effects not_gauge (publishEvent ty j)).
  { intros. unfold publishEvent, PublishJobEvent. simpl. repeat (split; [done|]; intros).
    case_match; simpl; auto. }
  assert (Hfail : forall j e, effects not_gauge (handleFailure j e)).
  { intros. unfold handleFailure. case_match; apply effects_bind; try (by simpl);
      intros; auto; apply effects_bind; intros; auto; simpl; auto. }
  unfold process. case_match; [|done]. apply effects_bind; [by simpl|]. intros [job|]; [|done].
  case_match eqn:Hh; [|by simpl]. apply effects_bind; [by simpl|]. intros []; [|done].
  apply effects_bind; [apply Hpub|]. intros _. apply effects_bind; [by simpl|]. intros start.
  apply effects_bind.
  { eapply effects_mono; [|apply (Hinert _ _ Hh)]. by intros []. }
  intros [e|]; unfold report; repeat (apply effects_bind; [by simpl|]; intros ?); auto.
Qed.

(** On every path, early returns and failures included, [processJob] increments the gauge
    of active workers once, first, and decrements it once, last. *)
Theorem processJob_gauge_balanced registry s w :
  (forall ty h, Get registry ty = Some h -> inert h) ->
  exists mid, w_metrics (run_go (processJob registry s) w).2 =
      w_metrics w ++ MInc "ActiveWorkers" [] :: mid ++ [MDec "ActiveWorkers" []] /\
    Forall (fun m => metric_name m <> "ActiveWorkers") mid.
Proof.
  intros Hinert. change (wp_go (processJob registry s) (fun _ w' => exists mid,
    w_metrics w' = w_metrics w ++ MInc "ActiveWorkers" [] :: mid ++ [MDec "ActiveWorkers" []] /\
    Forall (fun m => metric_name m <> "ActiveWorkers") mid) w).
  apply wp_bind, wp_metric. intros w1 _ _ Hm1. apply wp_bind.
  apply (wp_mono _ _ (fun _ w' => exists mid, w_metrics w' = w_metrics w1 ++ mid /\
    Forall (fun m => metric_name m <> "ActiveWorkers") mid)).
  - apply (effects_run exec not_gauge (fun w w' => exists mid, w_metrics w' = w_metrics w ++ mid /\
      Forall (fun m => metric_name m <> "ActiveWorkers") mid)).
    + intros w'. exists []. by rewrite app_nil_r.
    + intros w2 w3 w4 (m1 & -> & ?) (m2 & -> & ?). exists (m1 ++ m2).
      rewrite app_assoc. split; [done|]. by apply Forall_app.
    + intros e w' He. destruct e; simpl in *;
        repeat case_match; simpl; try (exists []; by rewrite app_nil_r). eauto.
    + by apply process_not_gauge.
  - intros _ w2 (mid & Hm2 & Hmid). apply wp_metric. intros w3 _ _ Hm3. exists mid.
    rewrite Hm3, Hm2, Hm1, <- !app_assoc. done.
Qed.

End WorkerFacts.

(** ** The loop *)

Section Loop.
Context `{GoPlatform} `{UuidLib} `{LocalTime} `{PG : Postgres} `{RD : Redis} `{HO : Host}.


End Loop.

(** ** Examples on the reference services *)

Definition ex_good : Handler := fun _ => Ret None.
Definition ex_bad : Handler := fun _ => Ret (Some "boom").
Definition ex_registry : Registry := Register (Register NewRegistry "good" ex_good) "bad" ex_bad.

Definition ex_jobs : Table :=
  sim_table [sim_job 1 "email" "good" StatusPending 3 0 None None 5;
             sim_job 2 "email" "bad" StatusPending 3 0 None None 7].

Definition ex_job (n : N) : Job :=
  if decide (n = 1%N) then sim_job 1 "email" "good" StatusPending 3 0 None None 5
  else sim_job 2 "email" "bad" StatusPending 3 0 None None 7.

Definition ex_wworld : World := sim_world ex_jobs [] rd_empty [] 1000 [].

Lemma ex_registry_inert ty h : Get ex_registry ty = Some h -> inert h.
Proof.
  unfold Get, ex_registry, Register. simpl. rewrite !lookup_insert_Some, lookup_empty.
  intros [[_ <-]|[_ [[_ <-]|[_ ?]]]]; done.
Qed.

Lemma ex_jobs_keyed : keyed ex_jobs.
Proof. apply (bool_decide_unpack _). by vm_compute. Qed.

Lemma ex_job_fits n : row_fits (ex_job n).
Proof. unfold ex_job. case_decide; apply (bool_decide_unpack _); by vm_compute. Qed.

Lemma processJob_outcomes_witness :
  exists job', tbl (run_go (processJob ex_registry (uuid_String (uuid_of_N 2))) ex_wworld).2 =
      <[uuid_of_N 2 := job']> ex_jobs /\ outcome ex_registry (ex_job 2) job' /\
    maybe_scheduled (ex_job 2) (rdd ex_wworld)
      (rdd (run_go (processJob ex_registry (uuid_String (uuid_of_N 2))) ex_wworld).2).
Proof.
  apply (processJob_outcomes ex_registry (uuid_of_N 2) (ex_job 2) ex_wworld tt).
  - exact ex_registry_inert.
  - exact ex_jobs_keyed.
  - vm_compute. reflexivity.
  - exact (ex_job_fits 2).
  - apply run_split. by destruct (run_go _ _).1.
Defined.

Lemma processJob_follows_handler_witness :
  let w' := (run_go (processJob ex_registry (uuid_String (uuid_of_N 1))) ex_wworld).2 in
  processed (ex_job 1) None (read_between ex_wworld w') ex_jobs rd_empty (tbl w') (rdd w').
Proof.
  apply (processJob_follows_handler ex_registry (uuid_of_N 1) (ex_job 1) ex_good None ex_wworld).
  - reflexivity.
  - done.
  - intros w. reflexivity.
  - exact ex_jobs_keyed.
  - vm_compute. reflexivity.
  - exact (ex_job_fits 1).
  - all_ok_run.
Defined.


(** The comment of [handleFailure], and the README, have a job die when it exceeds the
    maximum of retries and get a retry otherwise.  The code compares with [>=]: a job that
    may be retried once dies of its first failure, with nothing on the schedule. *)
Theorem last_retry_is_not_given :
  exists (w : World) job, tbl w !! ID job = Some job /\ Status job = StatusPending /\
    RetryCount job = 0%Z /\ MaxRetries job = 1%Z /\
    let w' := (run_go (processJob ex_registry (uuid_String (ID job))) w).2 in
    rdd w' = rd_empty /\
    exists job', tbl w' !! ID job = Some job' /\ RetryCount job' = MaxRetries job' /\
      Status job' = StatusDead.
Proof.
  exists (sim_world (sim_table [sim_job 2 "email" "bad" StatusPending 1 0 None None 7])
    [] rd_empty [] 1000 []), (sim_job 2 "email" "bad" StatusPending 1 0 None None 7).
  split_and!; [vm_compute; reflexivity|done|done|done|]. cbv zeta.
  split; [vm_compute; reflexivity|].
  eexists. split; [vm_compute; reflexivity|]. done.
Qed.

Lemma processJob_gauge_balanced_witness :
  exists mid, w_metrics (run_go (processJob ex_registry "nonsense") ex_wworld).2 =
      MInc "ActiveWorkers" [] :: mid ++ [MDec "ActiveWorkers" []] /\
    Forall (fun m => metric_name m <> "ActiveWorkers") mid.
Proof.
  apply (processJob_gauge_balanced ex_registry "nonsense" ex_wworld). exact ex_registry_inert.
Defined.


(** ** The pool

    [Start] spawns [count] workers under one cancellable context, [Stop] cancels it and waits
    for them. *)
Module Pool.

Record Pool := MkPool {
  count : Z;
  wg : nat;
  live : nat;
  hasCancel : bool;
  cancelled : bool
}.

Definition NewPool (count : Z) : Pool := MkPool count 0 0 false false.

(** [for i := 0; i < p.count; i++ { p.wg.Add(1); go p.worker(ctx, i) }]. *)
Fixpoint spawn (n : nat) (p : Pool) : Pool :=
  match n with
  | O => p
  | S n => spawn n (MkPool (count p) (wg p + 1) (live p + 1) (hasCancel p) (cancelled p))
  end.

Definition Start (p : Pool) : Pool :=
  spawn (Z.to_nat (count p)) (MkPool (count p) (wg p) (live p) true false).

(** [Stop] up to [p.wg.Wait()]. *)
Definition Stop (p : Pool) : Pool :=
  MkPool (count p) (wg p) (live p) (hasCancel p) (if hasCancel p then true else cancelled p).

(** The context given to [Start] is cancelled, and with it the one of the workers. *)
Definition cancel_parent (p : Pool) : Pool :=
  MkPool (count p) (wg p) (live p) (hasCancel p) true.

(** Whether [p.wg.Wait()] returns. *)
Definition Stop_returns (p : Pool) : bool := (wg p =? 0)%nat.

(** A worker sees that its context is done and returns: [defer p.wg.Done()]. *)
Definition worker_exit (p : Pool) : option Pool :=
  if cancelled p && (0 <? live p)%nat
  then Some (MkPool (count p) (wg p - 1) (live p - 1) (hasCancel p) (cancelled p))
  else None.

(** [n] workers return. *)
Fixpoint exits (n : nat) (p : Pool) : option Pool :=
  match n with O => Some p | S n => worker_exit p ≫= exits n end.

Lemma spawn_spec n p :
  spawn n p = MkPool (count p) (wg p + n) (live p + n) (hasCancel p) (cancelled p).
Proof.
  revert p. induction n as [|n IH]; intros p; simpl.
  - rewrite !Nat.add_0_r. by destruct p.
  - rewrite IH. simpl. f_equal; lia.
Qed.

Lemma exits_spec n p :
  cancelled p = true -> wg p = live p -> n <= live p ->
  exits n p = Some (MkPool (count p) (wg p - n) (live p - n) (hasCancel p) true).
Proof.
  revert p. induction n as [|n IH]; intros p Hc Hwg Hn; simpl.
  - rewrite !Nat.sub_0_r. destruct p; simpl in *; by subst.
  - unfold worker_exit. rewrite Hc, (proj2 (Nat.ltb_lt 0 (live p))) by lia. simpl.
    rewrite IH; simpl; [f_equal; f_equal; lia|done|lia|lia].
Qed.

(** [Start] runs exactly [count] workers (none for a count that is not positive); after
    [Stop] has cancelled their context, [Stop] waits for all of them: after [n] of them have
    returned it returns if and only if none is left. *)
Theorem Stop_waits_for_all_workers c n :
  (Z.of_nat n <= Z.max 0 c)%Z ->
  live (Start (NewPool c)) = Z.to_nat c /\
  exists p, exits n (Stop (Start (NewPool c))) = Some p /\
    (Stop_returns p = true <-> live p = 0) /\ live p = Z.to_nat c - n.
Proof.
  intros Hn. unfold Start. rewrite spawn_spec. split; [done|]. simpl.
  eexists. split; [apply exits_spec; simpl; [done|done|lia]|]. simpl. split; [|done].
  unfold Stop_returns. simpl. apply Nat.eqb_eq.
Qed.

Lemma Stop_waits_for_all_workers_witness :
  exists p, exits 10 (Stop (Start (NewPool 10))) = Some p /\ (Stop_returns p = true <-> live p = 0).
Proof.
  destruct (Stop_waits_for_all_workers 10 10) as (_ & p & Hp & Hr & _); [lia|].
  exists p. split; [exact Hp|exact Hr].
Defined.

End Pool.
