(* ===== verification/Scheduler.v ===== *)
(** * The scheduler ([internal/scheduler/scheduler.go])

    Three loops of the leader: due jobs move from the schedule to their queues, pending jobs
    that may have missed their queue are pushed, jobs that run for too long are failed.
    [Start] and [Stop] switch the loops on and off. *)

From S2P Require Import Prelude Prog Model Services Sim Storage Queue Events.

Local Open Scope string_scope.
Local Open Scope go_scope.
Local Open Scope list_scope.

Section Scheduler.
Context `{UuidLib} `{PgTypes} `{LocalTime}.

Definition publishEvent (eventType : string) (job : Job) : go unit :=
  let* _ := PublishJobEvent (event_of eventType job) in Ret tt.

(** The body of the loop of [processScheduledJobs]. *)
Definition enqueue_due (jobIDStr : string) : go unit :=
  match uuid_Parse jobIDStr with
  | None => Ret tt
  | Some id =>
      let* r := GetJob id in
      match r with
      | Err _ => Ret tt
      | Ok job =>
          let* p := Push (Queue job) jobIDStr in
          match p with
          | Err _ => Ret tt
          | Ok _ =>
              (if bool_decide (Status job = StatusRetrying)
               then let* _ := UpdateJobStatus (ID job) StatusPending in Ret tt
               else Ret tt) ;;;
              publishEvent "job.enqueued" job
          end
      end
  end.

Definition processScheduledJobs : go unit :=
  let* now := Now in
  let* r := GetDueJobs now in
  match r with
  | Err _ => Ret tt
  | Ok dueJobIDs => for_each dueJobIDs enqueue_due
  end.

(** The body of the loop of [recoverUnqueuedJobs]: a failed push is only logged. *)
Definition repush (job : Job) : go unit :=
  let* _ := Push (Queue job) (uuid_String (ID job)) in Ret tt.

Definition recoverUnqueuedJobs : go unit :=
  let* r := GetPendingUnqueued (5 * Second) in
  match r with
  | Err _ => Ret tt
  | Ok jobs => for_each jobs repush
  end.

Definition stale_error : string := "job timed out (stale)".

(** The body of the loop of [recoverStaleJobs]. *)
Definition fail_stale (job : Job) : go unit :=
  let* _ := UpdateJobError (ID job) StatusFailed (RetryCount job) stale_error in
  publishEvent "job.stale_recovered" job.

Definition recoverStaleJobs (jobTimeout : Duration) : go unit :=
  let* r := GetStaleRunningJobs jobTimeout in
  match r with
  | Err _ => Ret tt
  | Ok jobs => for_each jobs fail_stale
  end.

(** [for { select { case <-ctx.Done(): return; case <-ticker.C: body } }], with the case each
    [select] takes: [true] for [ctx.Done()].  The answer is whether the loop returned. *)
Fixpoint tick_loop (body : go unit) (selects : list bool) : go bool :=
  match selects with
  | [] => Ret false
  | true :: _ => Ret true
  | false :: selects => body ;;; tick_loop body selects
  end.

Definition runScheduledLoop : list bool -> go bool := tick_loop processScheduledJobs.
Definition runRecoveryLoop : list bool -> go bool := tick_loop recoverUnqueuedJobs.
Definition runStaleCheckLoop (jobTimeout : Duration) : list bool -> go bool :=
  tick_loop (recoverStaleJobs jobTimeout).

End Scheduler.

(** ** Due jobs *)

Section Due.
Context `{UuidLib} `{LocalTime} `{PG : Postgres} `{RD : Redis} `{HO : Host}.

Lemma wp_scheduler_event ty job (Q : unit -> World -> Prop) w :
  (forall w', same w w' -> Q tt w') -> wp_go (publishEvent ty job) Q w.
Proof.
  intros HQ. apply wp_bind, wp_PublishJobEvent. intros r w' Hw. by apply wp_ret, HQ.
Qed.

(** The stored job an identifier of the schedule refers to. *)
Definition referred (t : Table) (s : string) : option Job := uuid_Parse s ≫= (t !!.).

(** [t'] is [t] with some of the retrying jobs among [ids] put back to pending; [all] of
    them when nothing fails. *)
Definition resumed (all : bool) (ids : list string) (t t' : Table) : Prop :=
  forall id, match t !! id with
  | None => t' !! id = None
  | Some j =>
      let due := Status j = StatusRetrying /\ exists s, s ∈ ids /\ uuid_Parse s = Some id in
      (t' !! id = Some j /\ (all = true -> ~ due)) \/
      (exists j', t' !! id = Some j' /\ status_set StatusPending j j' /\ due)
  end.

(** The identifiers among [ids] whose job belongs to the queue [q]. *)
Definition bound_for (t : Table) (q : string) (ids : list string) : list string :=
  filter (fun s => Queue <$> referred t s = Some q) ids.

Lemma resumed_nil all t : resumed all [] t t.
Proof.
  intros id. destruct (t !! id) as [j|]; [left|done]. split; [done|].
  intros _ [_ (s & Hs & _)]. by apply elem_of_nil in Hs.
Qed.

Lemma resumed_keyed all ids t t' : keyed t -> resumed all ids t t' -> keyed t'.
Proof.
  intros Hk Hr id j' Hj'. specialize (Hr id). destruct (t !! id) as [j|] eqn:Hj; [|congruence].
  pose proof (Hk _ _ Hj) as Hid. simpl in Hid.
  destruct Hr as [[Hr _]|(j0 & Hj0 & (? & ? & ->) & _)]; by simplify_eq.
Qed.

(** Another identifier whose job is already taken care of, or absent. *)
Lemma resumed_skip all ids s t t' :
  resumed all ids t t' ->
  (all = true -> forall id j, uuid_Parse s = Some id -> t' !! id = Some j ->
     Status j <> StatusRetrying) ->
  resumed all (ids ++ [s]) t t'.
Proof.
  intros Hr Hs id. specialize (Hr id). destruct (t !! id) as [j|]; [|done].
  destruct Hr as [[Hj' Hdue]|(j' & Hj' & Hst & Hdue & s' & Hin & Hp)].
  - left. split; [done|]. intros Hall [Hst (s' & Hin & Hp)].
    rewrite elem_of_app, list_elem_of_singleton in Hin. destruct Hin as [Hin| ->].
    + apply Hdue; eauto.
    + by eapply Hs.
  - right. exists j'. split_and!; try done. exists s'. rewrite elem_of_app. auto.
Qed.

Lemma resumed_step all ids s id j j' t t' :
  resumed all ids t t' -> uuid_Parse s = Some id -> t' !! id = Some j ->
  Status j = StatusRetrying -> status_set StatusPending j j' ->
  resumed all (ids ++ [s]) t (<[id := j']> t').
Proof.
  intros Hr Hs Hj Hst Hj' i. pose proof (Hr i) as Hi. destruct (t !! i) as [ji|] eqn:Hti.
  2:{ rewrite lookup_insert_ne; [done|]. intros ->. congruence. }
  destruct (decide (id = i)) as [<-|Hne].
  - rewrite lookup_insert_eq. right. exists j'. split; [done|].
    destruct Hi as [[Hi _]|(j0 & Hi & (? & ? & ->) & _)]; simplify_eq.
    split_and!; try done. exists s. rewrite elem_of_app, list_elem_of_singleton. auto.
  - rewrite lookup_insert_ne by done.
    destruct Hi as [[Hi Hdue]|(j0 & Hi & Hst0 & Hdue & s' & Hin & Hp)].
    + left. split; [done|]. intros Hall [Hst' (s' & Hin & Hp)]. apply Hdue; [done|].
      rewrite elem_of_app, list_elem_of_singleton in Hin. destruct Hin as [Hin| ->]; [by eauto|].
      congruence.
    + right. exists j0. split_and!; try done. exists s'. rewrite elem_of_app. auto.
Qed.

(** Resuming keeps the queue of every job. *)
Lemma resumed_referred all ids t t' s :
  resumed all ids t t' -> Queue <$> referred t' s = Queue <$> referred t s.
Proof.
  intros Hr. unfold referred. destruct (uuid_Parse s) as [id|]; [|done]. simpl.
  specialize (Hr id). destruct (t !! id) as [j|]; [|by rewrite Hr].
  by destruct Hr as [[-> _]|(j' & -> & (? & ? & ->) & _)].
Qed.

(** What one identifier does: nothing, or a push to the queue of its job (which may fail),
    and then a retrying job becomes pending (which may fail). *)
Lemma wp_enqueue_due s (Q : unit -> World -> Prop) w :
  keyed (tbl w) ->
  (forall w', tbl w' = tbl w -> rdd w' = rdd w -> Q tt w') ->
  (forall id job w', uuid_Parse s = Some id -> tbl w !! id = Some job ->
     rdd w' = pushed (Queue job) s (rdd w) ->
     tbl w' = tbl w \/ (Status job = StatusRetrying /\
       exists j', status_set StatusPending job j' /\ tbl w' = <[id := j']> (tbl w)) -> Q tt w') ->
  wp_go (enqueue_due s) Q w.
Proof.
  intros Hk Hnone Hsome. unfold enqueue_due.
  destruct (uuid_Parse s) as [id|]; [|by apply wp_ret, Hnone].
  apply wp_bind, wp_GetJob; [done|]. intros [job|e] w1 (Ht1 & Hr1 & _) Hj;
    [|by apply wp_ret, Hnone]. specialize (Hj job eq_refl).
  assert (ID job = id) as Hid by (by apply (Hk _ _ Hj)).
  apply wp_bind, wp_Push. intros [u|e] w2 [Ht2 _] Hw2; simpl in Hw2; rewrite Hr1 in Hw2.
  2:{ apply wp_ret. destruct Hw2 as [Hw2|Hw2]; [apply Hnone; congruence|].
      eapply (Hsome id job); eauto. left. congruence. }
  apply wp_bind. case_bool_decide as Hst.
  - apply wp_bind, wp_UpdateJobStatus; [by rewrite Ht2, Ht1|]. intros r w3 [Hr3 _] Hw3.
    apply wp_ret, wp_scheduler_event. intros w4 (Ht4 & Hr4 & _).
    rewrite Ht2, Ht1, Hid in Hw3.
    destruct (write_of_row _ _ _ _ _ _ Hw3 Hj) as (j' & Hj' & Ht3).
    apply (Hsome id job); [done..|congruence|]. destruct Hj' as [-> |Hj'].
    + left. rewrite Ht4, Ht3. by apply insert_id.
    + right. split; [done|]. exists j'. split; [done|congruence].
  - apply wp_ret, wp_scheduler_event. intros w4 (Ht4 & Hr4 & _).
    apply (Hsome id job); [done..|congruence|]. left. congruence.
Qed.

Lemma wpok_enqueue_due s (Q : unit -> World -> Prop) w :
  keyed (tbl w) ->
  (referred (tbl w) s = None -> forall w', tbl w' = tbl w -> rdd w' = rdd w -> Q tt w') ->
  (forall id job w', uuid_Parse s = Some id -> tbl w !! id = Some job ->
     rdd w' = pushed (Queue job) s (rdd w) ->
     (if bool_decide (Status job = StatusRetrying)
      then exists j', status_set StatusPending job j' /\ tbl w' = <[id := j']> (tbl w)
      else tbl w' = tbl w) -> Q tt w') ->
  wpok_go (enqueue_due s) Q w.
Proof.
  intros Hk Hnone Hsome. unfold enqueue_due. unfold referred in Hnone.
  destruct (uuid_Parse s) as [id|]; [|by apply wpok_ret, Hnone].
  apply wpok_bind, wpok_GetJob; [done|]. intros r w1 (Ht1 & Hr1 & _) Hr. simpl in Hnone.
  destruct (tbl w !! id) as [job|] eqn:Hj; subst r; [|by apply wpok_ret, Hnone].
  assert (ID job = id) as Hid by (by apply (Hk _ _ Hj)). subst id.
  apply wpok_bind, wpok_Push. intros w2 [Ht2 _] Hr2. rewrite Hr1 in Hr2.
  specialize (Hsome (ID job) job). apply wpok_bind. revert Hsome.
  case_bool_decide as Hst; intros Hsome.
  - apply wpok_bind, wpok_UpdateJobStatus; [by rewrite Ht2, Ht1|].
    intros w3 [Hr3 _] Hw3. apply wpok_ret, wp_wpok, wp_scheduler_event.
    intros w4 (Ht4 & Hr4 & _). rewrite Ht2, Ht1 in Hw3.
    destruct (applied_row _ _ _ _ _ Hw3 Hj) as (j' & Hj' & _ & Ht3).
    apply Hsome; [done..|congruence|]. exists j'. split; [done|congruence].
  - apply wpok_ret, wp_wpok, wp_scheduler_event. intros w4 (Ht4 & Hr4 & _).
    apply Hsome; [done..|congruence|congruence].
Qed.

(** The state in the loop of [processScheduledJobs], after the identifiers [ids]. *)
Definition enqueued (all : bool) (t : Table) (d : RdData) (ids : list string) (w' : World) :
    Prop :=
  resumed all ids t (tbl w') /\ rd_zsets (rdd w') = rd_zsets d /\
  forall q, exists l, fifo (rdd w') q = fifo d q ++ l /\ l `sublist_of` bound_for t q ids /\
    (all = true -> l = bound_for t q ids).

Lemma enqueued_nil all t d w' : tbl w' = t -> rdd w' = d -> enqueued all t d [] w'.
Proof.
  intros <- <-. split_and!; [apply resumed_nil|done|]. intros q. exists [].
  by rewrite app_nil_r.
Qed.

Lemma bound_for_snoc t q ids s :
  bound_for t q (ids ++ [s]) =
  bound_for t q ids ++ (if decide (Queue <$> referred t s = Some q) then [s] else []).
Proof. unfold bound_for. by rewrite filter_app, filter_cons, filter_nil. Qed.

(** An identifier that is not pushed; when nothing fails, because it refers to no job. *)
Lemma enqueued_skip all t d ids s w1 w2 :
  enqueued all t d ids w1 -> tbl w2 = tbl w1 -> rdd w2 = rdd w1 ->
  (all = true -> referred (tbl w1) s = None) -> enqueued all t d (ids ++ [s]) w2.
Proof.
  intros (Hr & Hz & Hq) Ht Hrd Hnone. unfold enqueued. rewrite Ht, Hrd. split_and!; [|done|].
  - apply resumed_skip; [done|]. intros Hall id j Hp Hj. specialize (Hnone Hall).
    unfold referred in Hnone. rewrite Hp in Hnone. simpl in Hnone. congruence.
  - intros q. destruct (Hq q) as (l & Hl & Hsub & Hex). exists l. rewrite bound_for_snoc.
    split_and!; [done|by apply sublist_inserts_r|]. intros Hall.
    rewrite (Hex Hall), <- (resumed_referred _ _ _ _ _ Hr), (Hnone Hall), decide_False by done.
    by rewrite app_nil_r.
Qed.

Lemma enqueued_push all t d ids s id job w1 w2 :
  enqueued all t d ids w1 -> uuid_Parse s = Some id -> tbl w1 !! id = Some job ->
  rdd w2 = pushed (Queue job) s (rdd w1) -> resumed all (ids ++ [s]) t (tbl w2) ->
  enqueued all t d (ids ++ [s]) w2.
Proof.
  intros (Hr & Hz & Hq) Hp Hj Hrd Hr2. split_and!; [done|by rewrite Hrd|].
  intros q. destruct (Hq q) as (l & Hl & Hsub & Hex). rewrite bound_for_snoc, Hrd, fifo_pushed.
  assert (Hdest : Queue <$> referred t s = Some (Queue job)).
  { rewrite <- (resumed_referred _ _ _ _ _ Hr). unfold referred. rewrite Hp. simpl.
    by rewrite Hj. }
  rewrite Hdest. destruct (decide (Queue job = q)) as [<-|Hne].
  - rewrite decide_True by done. exists (l ++ [s]). rewrite Hl, <- app_assoc. split_and!; [done| |].
    + by apply sublist_app.
    + intros Hall. by rewrite (Hex Hall).
  - rewrite decide_False by congruence. exists l. by rewrite app_nil_r.
Qed.

Lemma wp_enqueue_loop t d ids w :
  keyed t -> tbl w = t -> rdd w = d ->
  wp_go (for_each ids enqueue_due) (fun _ w' => enqueued false t d ids w') w.
Proof.
  intros Hk Ht Hd. apply (wp_for_range exec (enqueued false t d)); [by apply enqueued_nil|].
  intros pre s post w1 -> Hw1. assert (Hr := proj1 Hw1).
  apply wp_enqueue_due; [by eapply resumed_keyed|..].
  - intros w2 Ht2 Hr2. by eapply enqueued_skip.
  - intros id job w2 Hp Hj Hr2 Ht2. eapply enqueued_push; try done.
    destruct Ht2 as [-> |(Hst & j' & Hj' & ->)]; [by apply resumed_skip|].
    by eapply resumed_step.
Qed.

Lemma wpok_enqueue_loop t d ids w :
  keyed t -> tbl w = t -> rdd w = d ->
  wpok_go (for_each ids enqueue_due) (fun _ w' => enqueued true t d ids w') w.
Proof.
  intros Hk Ht Hd. apply (wpok_for_range exec answered (enqueued true t d));
    [by apply enqueued_nil|].
  intros pre s post w1 -> Hw1. assert (Hr := proj1 Hw1).
  apply wpok_enqueue_due; [by eapply resumed_keyed|..].
  - intros Hnone w2 Ht2 Hr2. by eapply enqueued_skip.
  - intros id job w2 Hp Hj Hr2 Ht2. eapply enqueued_push; try done.
    case_bool_decide; [destruct Ht2 as (j' & Hj' & ->); by eapply resumed_step|].
    rewrite Ht2. apply resumed_skip; [done|]. intros _ id' j' Hp' Hj'. congruence.
Qed.

(** (C3) When no service call fails, one pass of [processScheduledJobs] moves exactly the due
    jobs: the identifiers scheduled for the current second or before leave the schedule and
    no other does; each that refers to a stored job is appended once to the queue of that
    job, and nothing else is queued; of the stored jobs exactly those that were retrying and are now queued
    become pending. *)
Theorem processScheduledJobs_moves_due_jobs w :
  keyed (tbl w) -> all_ok_go processScheduledJobs w ->
  let w' := (run_go processScheduledJobs w).2 in
  exists ids, NoDup ids /\
    (forall s, s ∈ ids <->
       exists x, schedule_of (rdd w) !! s = Some x /\ (x <= Unix (clock w))%Z) /\
    (forall s x, schedule_of (rdd w') !! s = Some x <->
       schedule_of (rdd w) !! s = Some x /\ s ∉ ids) /\
    (forall q, fifo (rdd w') q = fifo (rdd w) q ++ bound_for (tbl w) q ids) /\
    resumed true ids (tbl w) (tbl w').
Proof.
  intros Hk Hok. cbv zeta. revert Hok.
  enough (Hwp : wpok_go processScheduledJobs (fun _ w' => exists ids d1,
    taken (Unix (clock w)) (rdd w) ids d1 /\ enqueued true (tbl w) d1 ids w') w).
  { intros Hok. destruct (Hwp Hok) as (ids & d1 & Ht & Hr & Hz & Hq).
    exists ids. split_and!; [by eapply taken_NoDup|intros; by eapply elem_of_taken| | |done].
    - intros s x. unfold rd_zset at 1. rewrite Hz. change (default ∅ _) with (schedule_of d1).
      by eapply taken_rest.
    - intros q. destruct (Hq q) as (l & Hl & _ & Hex).
      by rewrite Hl, (Hex eq_refl), (taken_fifo _ _ _ _ _ Ht). }
  apply wpok_bind, wp_wpok, wp_clock. intros w1 (Ht1 & Hr1 & _).
  apply wpok_bind, wpok_GetDueJobs. intros ids w2 [Ht2 _] Hids. rewrite Hr1 in Hids.
  eapply wpok_mono; [apply (wpok_enqueue_loop (tbl w) (rdd w2)); [done|congruence|done]|].
  intros ? w3 Hw3. by exists ids, (rdd w2).
Qed.

(** (C13) Whatever fails during a pass of [processScheduledJobs], no job is queued twice by it,
    no job that was not due is queued, the queues only grow and no job enters the schedule;
    the only change to a row is a due retrying job becoming pending. *)
Theorem processScheduledJobs_never_duplicates w :
  keyed (tbl w) ->
  let w' := (run_go processScheduledJobs w).2 in
  exists ids, NoDup ids /\
    (forall s, s ∈ ids ->
       exists x, schedule_of (rdd w) !! s = Some x /\ (x <= Unix (clock w))%Z) /\
    (forall q, exists l, fifo (rdd w') q = fifo (rdd w) q ++ l /\
       l `sublist_of` bound_for (tbl w) q ids) /\
    schedule_of (rdd w') ⊆ schedule_of (rdd w) /\ resumed false ids (tbl w) (tbl w').
Proof.
  intros Hk. cbv zeta.
  enough (Hwp : wp_go processScheduledJobs (fun _ w' => exists ids d1, let now := clock w in
    (taken (Unix now) (rdd w) ids d1 /\ enqueued false (tbl w) d1 ids w') \/
    (ids = [] /\ tbl w' = tbl w /\ (rdd w' = rdd w \/ exists ids', taken (Unix now) (rdd w) ids' (rdd w')))) w).
  { destruct Hwp as (ids & d1 & [(Ht & Hr & Hz & Hq)|(-> & Ht & Hd)]).
    - exists ids. split_and!; [by eapply taken_NoDup|intros; by eapply elem_of_taken| | |done].
      + intros q. destruct (Hq q) as (l & Hl & Hsub & _). exists l. split; [|done].
        by rewrite Hl, (taken_fifo _ _ _ _ _ Ht).
      + unfold rd_zset at 1. rewrite Hz. change (default ∅ _) with (schedule_of d1).
        by eapply taken_subset.
    - exists []. split_and!; [apply NoDup_nil_2|intros s Hs; by apply elem_of_nil in Hs| | |].
      + intros q. exists []. rewrite app_nil_r. split; [|done].
        destruct Hd as [-> |[ids' Hd]]; [done|]. by eapply taken_fifo.
      + destruct Hd as [-> |[ids' Hd]]; [done|]. by eapply taken_subset.
      + rewrite Ht. apply resumed_nil. }
  apply wp_bind, wp_clock. intros w1 (Ht1 & Hr1 & _).
  apply wp_bind, wp_GetDueJobs. intros [ids|e] w2 [Ht2 _] Hids; rewrite Hr1 in Hids.
  - eapply wp_mono; [apply (wp_enqueue_loop (tbl w) (rdd w2)); [done|congruence|done]|].
    intros ? w3 Hw3. exists ids, (rdd w2). by left.
  - apply wp_ret. exists [], (rdd w). right. split_and!; [done|congruence|done].
Qed.

End Due.

(** ** Recovery *)

Section Recovery.
Context `{UuidLib} `{LocalTime} `{PG : Postgres} `{RD : Redis} `{HO : Host}.

(** The identifiers of the jobs of the queue [q]. *)
Definition ids_of (q : string) (jobs : list Job) : list string :=
  (fun j => uuid_String (ID j)) <$> filter (fun j => Queue j = q) jobs.

Lemma ids_of_snoc q jobs j :
  ids_of q (jobs ++ [j]) =
  ids_of q jobs ++ (if decide (Queue j = q) then [uuid_String (ID j)] else []).
Proof.
  unfold ids_of. rewrite filter_app, filter_cons, filter_nil, fmap_app. by case_decide.
Qed.

(** The jobs [recoverUnqueuedJobs] looks for. *)
Definition to_recover (w : World) : Job -> bool :=
  pending_before (pg_ts (clock w - 5 * Second)).

(** [jobs] were pushed, in this order, each to its queue. *)
Definition requeued (jobs : list Job) (w w' : World) : Prop :=
  (forall q, fifo (rdd w') q = fifo (rdd w) q ++ ids_of q jobs) /\
  tbl w' = tbl w /\ rd_zsets (rdd w') = rd_zsets (rdd w).

Lemma wpok_recoverUnqueuedJobs w :
  wpok_go recoverUnqueuedJobs (fun _ w' => exists jobs,
    lists_all (to_recover w) CREATED_AT_ASC 100 (tbl w) jobs /\ requeued jobs w w') w.
Proof.
  apply wpok_bind. unfold GetPendingUnqueued. apply wpok_bind, wp_wpok, wp_clock.
  intros w1 (Ht1 & Hr1 & _).
  apply wpok_query_jobs. intros jobs w2 (Ht2 & Hr2 & _) Hl. rewrite Ht1 in Hl.
  eapply wpok_mono; [apply (wpok_for_range exec answered (fun done w' => requeued done w w'))|].
  - unfold requeued. rewrite Ht2, Hr2, Ht1, Hr1. split_and!; try done.
    intros q. by rewrite app_nil_r.
  - intros pre job post w3 _ (Hq3 & Ht3 & Hz3). apply wpok_bind, wpok_Push.
    intros w4 [Ht4 _] Hr4. apply wpok_ret. split_and!; [|congruence|by rewrite Hr4].
    intros q. rewrite Hr4, fifo_pushed, ids_of_snoc.
    case_decide; subst; rewrite Hq3, <- ?app_assoc, ?app_nil_r; done.
  - intros ? w' Hw'. by exists jobs.
Qed.

(** (C14) When no service call fails, [recoverUnqueuedJobs] takes the oldest (at most 100)
    jobs that are pending, have no [run_at] and are older than five seconds, and appends
    each of them once, oldest first, to its own queue; the table, the schedule and every
    other queue stay as they are. *)
Theorem recoverUnqueuedJobs_requeues w :
  all_ok_go recoverUnqueuedJobs w ->
  let w' := (run_go recoverUnqueuedJobs w).2 in
  exists jobs, lists_all (to_recover w) CREATED_AT_ASC 100 (tbl w) jobs /\ requeued jobs w w'.
Proof. intros Hok. by apply wpok_recoverUnqueuedJobs. Qed.

(** No pending job is forgotten for want of a queue entry: a pending job without [run_at]
    that is older than five seconds is in its queue after the next undisturbed pass of
    [recoverUnqueuedJobs], provided at most 100 jobs are in this situation. *)
Theorem unqueued_job_is_recovered w id j :
  keyed (tbl w) -> tbl w !! id = Some j -> to_recover w j = true ->
  (matching (to_recover w) (tbl w) <= 100)%Z -> all_ok_go recoverUnqueuedJobs w ->
  uuid_String id ∈ fifo (rdd (run_go recoverUnqueuedJobs w).2) (Queue j).
Proof.
  intros Hk Hj Hrec Hmany Hok.
  destruct (wpok_recoverUnqueuedJobs w Hok) as (jobs & (l & Hl & _ & ->) & Hq & _).
  rewrite Hq, elem_of_app. right. unfold ids_of. apply list_elem_of_fmap. exists j.
  pose proof (Hk _ _ Hj) as Hid. simpl in Hid. split; [by rewrite Hid|].
  apply list_elem_of_filter. split; [done|]. rewrite slice_all.
  - rewrite Hl. apply list_elem_of_filter. split; [done|]. apply elem_of_rows_of. eauto.
  - rewrite Hl. unfold matching in Hmany. lia.
Qed.

(** The rows of [jobs] that may have been failed so far; [all] of them if nothing fails. *)
Definition failed (all : bool) (jobs : list Job) (t t' : Table) : Prop :=
  forall id, match t !! id with
  | None => t' !! id = None
  | Some j =>
      (t' !! id = Some j /\ (all = true -> j ∉ jobs)) \/
      (exists j', t' !! id = Some j' /\ j ∈ jobs /\
         error_set StatusFailed (RetryCount j) stale_error j j')
  end.

Lemma failed_keyed all jobs t t' : keyed t -> failed all jobs t t' -> keyed t'.
Proof.
  intros Hk Hf id j' Hj'. specialize (Hf id). destruct (t !! id) as [j|] eqn:Hj; [|congruence].
  pose proof (Hk _ _ Hj) as Hid. simpl in Hid.
  destruct Hf as [[Hf _]|(j0 & Hj0 & _ & (? & ->))]; by simplify_eq.
Qed.

(** One more row of the table is failed, or, with failures, not. *)
Lemma failed_step all jobs job t t1 t2 :
  keyed t -> t !! ID job = Some job -> job ∉ jobs -> failed all jobs t t1 ->
  (all = false /\ t2 = t1) \/
    applied (error_set StatusFailed (RetryCount job) stale_error) (ID job) t1 t2 ->
  failed all (jobs ++ [job]) t t2.
Proof.
  intros Hk Hjob Hnew Hf Hstep id. pose proof (Hf id) as Hid.
  destruct (t !! id) as [j|] eqn:Hj.
  2:{ destruct Hstep as [[_ ->]|Ha]; [done|]. unfold applied in Ha.
      destruct (t1 !! ID job) as [j1|]; [|congruence]. destruct Ha as (j' & _ & _ & ->).
      rewrite lookup_insert_ne; [done|]. intros <-. congruence. }
  pose proof (Hk _ _ Hj) as Hij. simpl in Hij. setoid_rewrite elem_of_app.
  setoid_rewrite list_elem_of_singleton. destruct Hstep as [[-> ->]|Ha].
  { destruct Hid as [[Hid _]|(j' & Hj' & Hin & Hs)]; [by left|right; eauto 6]. }
  assert (Hold : t1 !! ID job = Some job).
  { specialize (Hf (ID job)). rewrite Hjob in Hf. destruct Hf as [[? _]|(? & _ & ? & _)]; done. }
  unfold applied in Ha. rewrite Hold in Ha. destruct Ha as (j1 & Hj1 & _ & ->).
  destruct (decide (id = ID job)) as [-> |Hne].
  - rewrite Hjob in Hj. injection Hj as <-. right. exists j1. rewrite lookup_insert_eq. auto.
  - rewrite lookup_insert_ne by done. destruct Hid as [[Hid Hno]|(j' & Hj' & Hin & Hs)].
    + left. split; [done|]. intros Hall [Hin| ->]; [by apply Hno|done].
    + right; eauto 6.
Qed.

(** The stale jobs: running, and started before the cutoff. *)
Abbreviation stale cutoff := (running_before cutoff).

Lemma failed_nil all t : failed all [] t t.
Proof.
  intros id. destruct (t !! id); [left|done]. split; [done|].
  intros _. apply not_elem_of_nil.
Qed.

Lemma wp_recoverStaleJobs jobTimeout w :
  keyed (tbl w) ->
  wp_go (recoverStaleJobs jobTimeout) (fun _ w' => exists jobs,
    (forall j, j ∈ jobs -> stale (pg_ts (clock w + wrap64 (-2 * jobTimeout))) j = true) /\
    failed false jobs (tbl w) (tbl w') /\ rdd w' = rdd w) w.
Proof.
  intros Hk. apply wp_bind. unfold GetStaleRunningJobs. apply wp_bind, wp_clock.
  intros w1 (Ht1 & Hr1 & _). apply wp_query_jobs. intros [jobs|e] w2 (Ht2 & Hr2 & _) Hl.
  2:{ apply wp_ret. exists []. rewrite Ht2, Ht1, Hr2, Hr1.
      split_and!; [|apply failed_nil|done]. intros j Hj. by apply elem_of_nil in Hj. }
  specialize (Hl jobs eq_refl). rewrite Ht1 in Hl.
  eapply wp_mono; [apply (wp_for_range exec (fun done w' =>
    failed false done (tbl w) (tbl w') /\ rdd w' = rdd w))|].
  - rewrite Ht2, Ht1, Hr2, Hr1. split; [apply failed_nil|done].
  - intros pre job post w3 -> [Hf3 Hr3]. apply wp_bind.
    apply wp_UpdateJobError; [by eapply failed_keyed|]. intros r w4 [Hr4 _] Hw4.
    apply wp_scheduler_event. intros w5 (Ht5 & Hr5 & _). split; [|congruence]. rewrite Ht5.
    destruct (lists_next _ _ _ _ _ _ _ _ Hk Hl) as [Hjob Hnew].
    eapply failed_step; try done. destruct r; simpl in Hw4; naive_solver.
  - intros ? w' [Hf Hr]. exists jobs. split_and!; try done.
    intros j Hj. by destruct (lists_elem _ _ _ _ _ _ _ Hl Hj).
Qed.

Lemma wpok_recoverStaleJobs jobTimeout w :
  keyed (tbl w) ->
  wpok_go (recoverStaleJobs jobTimeout) (fun _ w' => exists jobs,
    lists_all (stale (pg_ts (clock w + wrap64 (-2 * jobTimeout)))) STARTED_AT_ASC 100 (tbl w) jobs /\
    failed true jobs (tbl w) (tbl w')) w.
Proof.
  intros Hk. apply wpok_bind. unfold GetStaleRunningJobs. apply wpok_bind, wp_wpok, wp_clock.
  intros w1 (Ht1 & Hr1 & _). apply wpok_query_jobs. intros jobs w2 (Ht2 & Hr2 & _) Hl.
  rewrite Ht1 in Hl. pose proof (lists_all_lists _ _ _ _ _ Hl) as Hl'.
  eapply wpok_mono; [apply (wpok_for_range exec answered (fun done w' =>
    failed true done (tbl w) (tbl w')))|].
  - rewrite Ht2, Ht1. apply failed_nil.
  - intros pre job post w3 -> Hf3. apply wpok_bind.
    apply wpok_UpdateJobError; [by eapply failed_keyed|]. intros w4 _ Hw4.
    apply wp_wpok, wp_scheduler_event. intros w5 (Ht5 & _). rewrite Ht5.
    destruct (lists_next _ _ _ _ _ _ _ _ Hk Hl') as [Hjob Hnew].
    eapply failed_step; try done. by right.
  - intros ? w' Hf. by exists jobs.
Qed.

(** (C15) [recoverStaleJobs] fails stale jobs and nothing else: whatever goes wrong, the only
    rows it may change are those of jobs that are running since before twice the job timeout
    ago, which become [failed] with the error "job timed out (stale)" and the same number of
    retries; Redis is untouched.  If nothing goes wrong, the oldest of them (up to 100) all
    do. *)
Theorem recoverStaleJobs_fails_stale jobTimeout w :
  keyed (tbl w) ->
  let w' := (run_go (recoverStaleJobs jobTimeout) w).2 in
  let cutoff := pg_ts (clock w + wrap64 (-2 * jobTimeout)) in
  (exists jobs, (forall j, j ∈ jobs -> stale cutoff j = true) /\
     failed false jobs (tbl w) (tbl w') /\ rdd w' = rdd w) /\
  (all_ok_go (recoverStaleJobs jobTimeout) w ->
   exists jobs, lists_all (stale cutoff) STARTED_AT_ASC 100 (tbl w) jobs /\
     failed true jobs (tbl w) (tbl w')).
Proof.
  intros Hk. split; [by apply wp_recoverStaleJobs|]. by apply wpok_recoverStaleJobs.
Qed.

End Recovery.

(** ** Examples on the reference services *)

Definition ex_retrying : Job := sim_job 1 "email" "send" StatusRetrying 3 1 None None 5.
Definition ex_waiting : Job := sim_job 2 "report" "gen" StatusPending 3 0 None None 7.
Definition ex_stuck : Job := sim_job 3 "report" "gen" StatusRunning 3 0 None (Some 9%Z) 8.

Definition ex_stable : Table := sim_table [ex_retrying; ex_waiting; ex_stuck].

Lemma ex_stable_keyed : keyed ex_stable.
Proof. apply (bool_decide_unpack _). by vm_compute. Qed.

(** The retrying job is due, the pending one waits in its queue. *)
Definition ex_redis : RdData :=
  MkRd {[ queueKey "report" := [uuid_String (uuid_of_N 2)] ]}
       {[ scheduledSetKey := {[ uuid_String (uuid_of_N 1) := 60%Z ]} ]}.

Definition ex_sworld (rf : list Fault) : World :=
  sim_world ex_stable [] ex_redis rf (100 * Second) [].

Lemma processScheduledJobs_moves_due_jobs_witness :
  exists ids, NoDup ids /\
    fifo (rdd (run_go processScheduledJobs (ex_sworld [])).2) "email" =
      bound_for ex_stable "email" ids.
Proof.
  destruct (processScheduledJobs_moves_due_jobs (ex_sworld []) ex_stable_keyed)
    as (ids & Hnd & _ & _ & Hq & _); [all_ok_run|].
  exists ids. split; [exact Hnd|]. exact (Hq "email").
Defined.

Lemma processScheduledJobs_never_duplicates_witness :
  schedule_of (rdd (run_go processScheduledJobs (ex_sworld [Fine; Lost])).2) ⊆
    schedule_of ex_redis.
Proof.
  destruct (processScheduledJobs_never_duplicates (ex_sworld [Fine; Lost]) ex_stable_keyed)
    as (ids & _ & _ & _ & Hsub & _).
  exact Hsub.
Defined.

Lemma recoverUnqueuedJobs_requeues_witness :
  exists jobs, requeued jobs (ex_sworld []) (run_go recoverUnqueuedJobs (ex_sworld [])).2.
Proof.
  destruct (recoverUnqueuedJobs_requeues (ex_sworld [])) as (jobs & _ & Hq); [all_ok_run|].
  exists jobs. exact Hq.
Defined.

Lemma unqueued_job_is_recovered_witness :
  uuid_String (uuid_of_N 2) ∈ fifo (rdd (run_go recoverUnqueuedJobs (ex_sworld [])).2) "report".
Proof.
  apply (unqueued_job_is_recovered (ex_sworld []) (uuid_of_N 2) ex_waiting).
  - exact ex_stable_keyed.
  - vm_compute. reflexivity.
  - vm_compute. reflexivity.
  - vm_compute. discriminate.
  - all_ok_run.
Defined.

Lemma recoverStaleJobs_fails_stale_witness :
  rdd (run_go (recoverStaleJobs Second) (ex_sworld [])).2 = ex_redis /\
  exists jobs, failed true jobs ex_stable
    (tbl (run_go (recoverStaleJobs Second) (ex_sworld [])).2).
Proof.
  destruct (recoverStaleJobs_fails_stale Second (ex_sworld []) ex_stable_keyed)
    as [(_ & _ & _ & Hr) Hok].
  split; [exact Hr|]. destruct Hok as (jobs & _ & Hf); [all_ok_run|]. by exists jobs.
Defined.

(** A due job can be lost: [GetDueJobs] removes it from the schedule before it is pushed,
    and when that push fails it is neither put back nor found by the recovery, which only
    looks for pending jobs.  Here one failed [LPUSH] leaves a retrying job in no queue and
    not on the schedule. *)
Theorem due_job_lost_on_failed_push :
  exists w : World, keyed (tbl w) /\ tbl w !! uuid_of_N 1 = Some ex_retrying /\
    is_Some (schedule_of (rdd w) !! uuid_String (uuid_of_N 1)) /\
    let w' := (run_go processScheduledJobs w).2 in
    tbl w' !! uuid_of_N 1 = Some ex_retrying /\ schedule_of (rdd w') = ∅ /\
    (forall q, uuid_String (uuid_of_N 1) ∉ fifo (rdd w') q) /\
    (forall cutoff, pending_before cutoff ex_retrying = false).
Proof.
  exists (ex_sworld [Fine; Refuse]).
  assert (Hrd : rdd (run_go processScheduledJobs (ex_sworld [Fine; Refuse])).2 =
    MkRd {[ queueKey "report" := [uuid_String (uuid_of_N 2)] ]} {[ scheduledSetKey := ∅ ]})
    by (vm_compute; reflexivity).
  split_and!; [exact ex_stable_keyed|vm_compute; reflexivity|by eexists|].
  cbv zeta. rewrite Hrd. split_and!; [vm_compute; reflexivity|done| |done].
  intros q. unfold fifo, rd_list. simpl. destruct (decide (queueKey "report" = queueKey q)) as [<-|Hne].
  - apply (bool_decide_unpack _). vm_compute. exact I.
  - rewrite lookup_singleton_ne by done. apply not_elem_of_nil.
Qed.

(** [recoverUnqueuedJobs] does not know what is queued: its comment promises pending jobs
    that are not in a queue, but a pending job that has been waiting in its queue for more
    than five seconds is pushed again on every pass.  Here, with no failure at all, a queue
    that holds a job once holds it twice afterwards. *)
Theorem recovery_duplicates_waiting_job :
  exists w : World, keyed (tbl w) /\ all_ok_go recoverUnqueuedJobs w /\
    fifo (rdd w) "report" = [uuid_String (uuid_of_N 2)] /\
    fifo (rdd (run_go recoverUnqueuedJobs w).2) "report" =
      [uuid_String (uuid_of_N 2); uuid_String (uuid_of_N 2)].
Proof.
  exists (ex_sworld []). split_and!; [exact ex_stable_keyed|all_ok_run|reflexivity|].
  vm_compute. reflexivity.
Qed.

(** ** [Start] and [Stop]

    The mutable part of a [Scheduler] and its goroutines.  [mu] is held by [Start] from its
    beginning to its end and by [Stop] until the loops are gone: while [Stop] waits,
    [stopping] is set and no other [Start] or [Stop] can enter. *)
Module Lifecycle.

Inductive Loop := ScheduledLoop | RecoveryLoop | StaleCheckLoop.

#[global] Instance Loop_eq_dec : EqDecision Loop.
Proof. solve_decision. Defined.

(** A goroutine before it reads [s.ctx], at its [select], and in the body of a tick.  Contexts
    are numbered. *)
Inductive LoopState := Starting | Waiting (c : nat) | Working (c : nat).

#[global] Instance LoopState_eq_dec : EqDecision LoopState.
Proof. solve_decision. Defined.

Record Scheduler := MkScheduler {
  running : bool;
  ctx : option nat;
  cancelled : list nat;
  parentDone : bool;
  wg : nat;
  loops : list (Loop * LoopState);
  nextCtx : nat;
  stopping : bool;
  SchedulerActive : Z
}.

Definition New : Scheduler := MkScheduler false None [] false 0 [] 0 false 0.

(** [ctx.Done()] is closed: by [cancel] or with the parent context. *)
Definition isDone (s : Scheduler) (c : nat) : bool :=
  parentDone s || bool_decide (c ∈ cancelled s).

(** [Start]; [None] when it blocks on [mu]. *)
Definition Start (s : Scheduler) : option Scheduler :=
  if stopping s then None
  else if running s then Some s
  else Some (MkScheduler true (Some (nextCtx s)) (cancelled s) (parentDone s) (wg s + 3)
    (loops s ++ [(ScheduledLoop, Starting); (RecoveryLoop, Starting);
                 (StaleCheckLoop, Starting)])
    (S (nextCtx s)) false 1).

(** [Stop] up to [s.wg.Wait()]. *)
Definition Stop (s : Scheduler) : option Scheduler :=
  if stopping s then None
  else if negb (running s) then Some s
  else Some (MkScheduler (running s) (ctx s) (option_list (ctx s) ++ cancelled s)
    (parentDone s) (wg s) (loops s) (nextCtx s) true (SchedulerActive s)).

(** The rest of [Stop], once [wg] is zero. *)
Definition Stop_return (s : Scheduler) : option Scheduler :=
  if stopping s && (wg s =? 0)%nat
  then Some (MkScheduler false (ctx s) (cancelled s) (parentDone s) (wg s) (loops s)
               (nextCtx s) false 0)
  else None.

Definition set_loops (n : nat) (l : list (Loop * LoopState)) (s : Scheduler) : Scheduler :=
  MkScheduler (running s) (ctx s) (cancelled s) (parentDone s) n l (nextCtx s) (stopping s)
    (SchedulerActive s).

(** A step of the [i]-th goroutine: it reads [s.ctx], takes a tick, ends the body, or returns
    from its [select] and calls [wg.Done()]. *)
Definition loop_step (i : nat) (exit : bool) (s : Scheduler) : option Scheduler :=
  match loops s !! i with
  | None => None
  | Some (k, st) =>
      let goto st' := Some (set_loops (wg s) (<[i := (k, st')]> (loops s)) s) in
      match st, exit with
      | Starting, false => match ctx s with Some c => goto (Waiting c) | None => None end
      | Waiting c, false => goto (Working c)
      | Working c, false => goto (Waiting c)
      | Waiting c, true =>
          if isDone s c then Some (set_loops (wg s - 1) (delete i (loops s)) s) else None
      | _, true => None
      end
  end.

Definition cancel_parent (s : Scheduler) : Scheduler :=
  MkScheduler (running s) (ctx s) (cancelled s) true (wg s) (loops s) (nextCtx s) (stopping s)
    (SchedulerActive s).

Inductive step : Scheduler -> Scheduler -> Prop :=
| step_Start s s' : Start s = Some s' -> step s s'
| step_Stop s s' : Stop s = Some s' -> step s s'
| step_Stop_return s s' : Stop_return s = Some s' -> step s s'
| step_loop i exit s s' : loop_step i exit s = Some s' -> step s s'
| step_parent s : step s (cancel_parent s).

(** Every goroutine that has read its context has the one of the last [Start]. *)
Definition uses_ctx (s : Scheduler) (p : Loop * LoopState) : Prop :=
  match p.2 with Starting => True | Waiting c | Working c => ctx s = Some c end.

Record Inv (s : Scheduler) : Prop := {
  inv_wg : wg s = length (loops s);
  inv_kinds : NoDup (loops s).*1;
  inv_ctx : Forall (uses_ctx s) (loops s);
  inv_running : running s = true -> is_Some (ctx s) /\ SchedulerActive s = 1%Z;
  inv_idle : running s = false -> loops s = [] /\ SchedulerActive s = 0%Z /\ stopping s = false;
  inv_stopping : stopping s = true ->
    running s = true /\ forall c, ctx s = Some c -> isDone s c = true
}.

Lemma inv_New : Inv New.
Proof. by split; simpl; try constructor. Qed.

Lemma inv_set_state s i k st st' :
  Inv s -> loops s !! i = Some (k, st) -> uses_ctx s (k, st') ->
  Inv (set_loops (wg s) (<[i := (k, st')]> (loops s)) s).
Proof.
  intros [Hwg Hk Hc Hr Hi Hst] Hl Hu. split; simpl; try done.
  - by rewrite length_insert.
  - rewrite list_fmap_insert, list_insert_id; [done|]. by rewrite list_lookup_fmap, Hl.
  - by apply Forall_insert.
  - intros Hrun. destruct (Hi Hrun) as [Hnil _]. by rewrite Hnil in Hl.
Qed.

Lemma inv_step s s' : Inv s -> step s s' -> Inv s'.
Proof.
  intros HI Hstep. pose proof HI as [Hwg Hk Hc Hr Hi Hst].
  destruct Hstep as [s s' H|s s' H|s s' H|i exit s s' H|s].
  - unfold Start in H. destruct (stopping s) eqn:Hs; [done|].
    destruct (running s) eqn:Hrun; injection H as <-; [done|].
    destruct (Hi eq_refl) as (Hl & Ha & _). rewrite Hl in *. split; simpl; try done.
    + by rewrite Hwg.
    + apply (bool_decide_unpack _). done.
    + repeat constructor.
  - unfold Stop in H. destruct (stopping s) eqn:Hs; [done|].
    destruct (running s) eqn:Hrun; injection H as <-; [|done].
    split; simpl; try done. intros _. split; [done|]. intros c Hcx. rewrite Hcx. unfold isDone. simpl.
    apply orb_true_r || (rewrite bool_decide_eq_true_2; [apply orb_true_r|left]).
  - unfold Stop_return in H. destruct (stopping s) eqn:Hs; [|done]. simpl in H.
    destruct (Nat.eqb_spec (wg s) 0) as [H0|]; [|done]. injection H as <-. split; simpl; try done.
    intros _. split; [|done]. apply nil_length_inv. congruence.
  - unfold loop_step in H. destruct (loops s !! i) as [[k st]|] eqn:Hl; [|done].
    pose proof (Forall_lookup_1 _ _ _ _ Hc Hl) as Hu.
    destruct st as [|c|c], exit; try done.
    + destruct (ctx s) as [c|] eqn:Hcx; [|done]. injection H as <-. by eapply inv_set_state.
    + destruct (isDone s c) eqn:Hd; [|done]. injection H as <-. pose proof (delete_Permutation _ _ _ Hl) as Hp.
      split; simpl; try done.
      * rewrite length_delete by done. lia.
      * rewrite Hp in Hk. by apply NoDup_cons in Hk as [_ ?].
      * rewrite Hp in Hc. by apply Forall_cons_1 in Hc as [_ ?].
      * intros Hrun. destruct (Hi Hrun) as [Hnil _]. by rewrite Hnil in Hl.
    + injection H as <-. by eapply inv_set_state.
    + injection H as <-. by eapply inv_set_state.
  - split; simpl; try done. intros Hs. split; [by apply Hst|]. done.
Qed.

Lemma inv_reachable s : rtc step New s -> Inv s.
Proof.
  intros H. assert (Hgen : Inv New -> Inv s); [|by apply Hgen, inv_New].
  induction H as [|a b c Hs _ IH]; [done|]. intros Ha. by apply IH, (inv_step a).
Qed.

(** (C12) However [Start], [Stop], the goroutines and the cancellation of the parent context
    interleave: there is never more than one loop of each kind; every loop selects on the
    context of the last [Start], so that the next [Stop] reaches it; the wait group counts
    the loops exactly; and when the scheduler is not running, no loop is left and the gauge
    is zero. *)
Theorem lifecycle_invariant s :
  rtc step New s ->
  NoDup (loops s).*1 /\ wg s = length (loops s) /\
  Forall (uses_ctx s) (loops s) /\
  (if running s then SchedulerActive s = 1%Z else loops s = [] /\ SchedulerActive s = 0%Z).
Proof.
  intros [Hwg Hk Hc Hr Hi Hst]%inv_reachable. split_and!; try done.
  destruct (running s); [by apply Hr|]. by destruct (Hi eq_refl) as (? & ? & _).
Qed.

(** A step of one of the loops: nobody calls [Start] or [Stop], and the parent context is
    left alone. *)
Definition loop_moves (s s' : Scheduler) : Prop := exists i exit, loop_step i exit s = Some s'.

(** The goroutines of a scheduler that is stopping can all return. *)
Lemma loops_drain s :
  Inv s -> stopping s = true ->
  exists s', rtc loop_moves s s' /\ Inv s' /\ stopping s' = true /\ loops s' = [].
Proof.
  remember (length (loops s)) as n eqn:Hn. revert s Hn.
  induction n as [|n IH]; intros s Hn HI Hs.
  { exists s. split_and!; try done. by apply nil_length_inv. }
  assert (Hready : exists s1 k c, rtc loop_moves s s1 /\ Inv s1 /\ stopping s1 = true /\
    length (loops s1) = S n /\ loops s1 !! 0 = Some (k, Waiting c)).
  { destruct (loops s) as [|[k st] l] eqn:Hl; [done|].
    destruct (inv_running _ HI (proj1 (inv_stopping _ HI Hs))) as [[c Hc] _].
    assert (Hgo : forall st', loop_step 0 false s =
        Some (set_loops (wg s) (<[0 := (k, st')]> (loops s)) s) ->
      loop_moves s (set_loops (wg s) ((k, st') :: l) s) /\
      Inv (set_loops (wg s) ((k, st') :: l) s)).
    { intros st' Hst. rewrite Hl in Hst. simpl in Hst. split; [by exists 0, false|].
      eapply inv_step; [exact HI|by eapply step_loop]. }
    destruct st as [|c'|c'].
    - destruct (Hgo (Waiting c)) as [Hstep HI1]; [unfold loop_step; by rewrite Hl, Hc|].
      eexists _, k, c. split_and!; [by apply rtc_once|done|done|done|done].
    - exists s, k, c'. rewrite Hl. done.
    - destruct (Hgo (Waiting c')) as [Hstep HI1]; [unfold loop_step; by rewrite Hl|].
      eexists _, k, c'. split_and!; [by apply rtc_once|done|done|done|done]. }
  destruct Hready as (s1 & k & c & Hsteps & HI1 & Hs1 & Hn1 & Hl1).
  assert (Hd : isDone s1 c = true).
  { apply (inv_stopping _ HI1 Hs1). apply (Forall_lookup_1 _ _ _ _ (inv_ctx _ HI1) Hl1). }
  set (s2 := set_loops (wg s1 - 1) (delete 0 (loops s1)) s1).
  assert (Hstep : loop_step 0 true s1 = Some s2) by (unfold loop_step; by rewrite Hl1, Hd).
  destruct (IH s2) as (s3 & Hs3 & ?); [|by eapply inv_step, step_loop|done|].
  - simpl. rewrite length_delete by done. lia.
  - exists s3. split; [|done]. etrans; [exact Hsteps|]. eapply rtc_l; [by exists 0, true|done].
Qed.

Lemma loop_moves_parent s s' : rtc loop_moves s s' -> parentDone s' = parentDone s.
Proof.
  induction 1 as [|a b c (i & exit & Hab) _ ->]; [done|].
  unfold loop_step in Hab. repeat case_match; by simplify_eq.
Qed.

(** (C30) [Stop] can always return: from every reachable state in which it waits, steps of the
    loops alone, with the parent context left as it is, lead to a state in which it returns
    with the scheduler switched off and all loops gone, after which [Start] works again; and
    while it waits, [Start] does not get in between. *)
Theorem Stop_can_return s :
  rtc step New s -> stopping s = true ->
  Start s = None /\
  exists s1 s2, rtc loop_moves s s1 /\ parentDone s1 = parentDone s /\
    Stop_return s1 = Some s2 /\ running s2 = false /\ loops s2 = [] /\ SchedulerActive s2 = 0%Z /\
    exists s3, Start s2 = Some s3 /\ running s3 = true /\ length (loops s3) = 3.
Proof.
  intros HI%inv_reachable Hs. split; [unfold Start; by rewrite Hs|].
  destruct (loops_drain s HI Hs) as (s1 & Hsteps & HI1 & Hs1 & Hl1).
  pose proof (inv_wg _ HI1) as Hwg. rewrite Hl1 in Hwg. simpl in Hwg.
  eexists s1, _. split; [done|]. split; [by apply loop_moves_parent|].
  unfold Stop_return. rewrite Hs1, Hwg. simpl.
  split; [done|]. simpl. split_and!; try done. rewrite Hl1. by eexists.
Qed.

(** A run that stops once. *)
Definition ex_started : option Scheduler := (Start New ≫= loop_step 1 false) ≫= Stop.

Lemma ex_started_reachable s : ex_started = Some s -> rtc step New s.
Proof.
  unfold ex_started. intros H. destruct (Start New) as [s1|] eqn:H1; [|done]. simpl in H.
  destruct (loop_step 1 false s1) as [s2|] eqn:H2; [|done]. simpl in H.
  eapply rtc_l; [by apply step_Start|]. eapply rtc_l; [by eapply step_loop|].
  by apply rtc_once, step_Stop.
Qed.

Lemma lifecycle_invariant_witness :
  exists s, ex_started = Some s /\ NoDup (loops s).*1 /\ wg s = 3.
Proof.
  eexists. split; [vm_compute; reflexivity|].
  destruct (lifecycle_invariant (default New ex_started)
    (ex_started_reachable _ eq_refl)) as (Hk & Hwg & _).
  split; [exact Hk|exact Hwg].
Defined.

Lemma Stop_can_return_witness :
  exists s, ex_started = Some s /\ Start s = None /\
    exists s1, rtc loop_moves s s1 /\ is_Some (Stop_return s1).
Proof.
  eexists. split; [vm_compute; reflexivity|].
  destruct (Stop_can_return (default New ex_started)
    (ex_started_reachable _ eq_refl) eq_refl) as [Hb (s1 & s2 & Hs & _ & Hr & _)].
  split; [exact Hb|]. exists s1. split; [exact Hs|]. exists s2. exact Hr.
Defined.

End Lifecycle.
