(* ===== verification/Api.v ===== *)
(** * The REST API ([internal/api/])

    Responses, the authentication middleware, the handlers and the router.  A handler is a
    program that answers a response. *)

From S2P Require Import Prelude Prog Model Services Sim Storage Queue Strconv Rfc3339 Json JsonText.
From S2P Require Import Events Scheduler.

Local Open Scope string_scope.
Local Open Scope go_scope.
Local Open Scope list_scope.

(** ** Requests and responses ([response.go]) *)

Definition StatusOK : Z := 200.
Definition StatusCreated : Z := 201.
Definition StatusBadRequest : Z := 400.
Definition StatusUnauthorized : Z := 401.
Definition StatusNotFound : Z := 404.
Definition StatusConflict : Z := 409.
Definition StatusInternalServerError : Z := 500.
Definition StatusServiceUnavailable : Z := 503.

Record Pagination := MkPagination {
  p_Page : Z;
  p_Limit : Z;
  p_Total : Z;
  p_TotalPages : Z
}.

(** The Go values the handlers encode. *)
Inductive Data :=
| DJob (job : Job)
| DPaginatedResponse (data : list Job) (pagination : Pagination)
| DErrorResponse (error : string)
| DStrings (m : gmap string string)
| DCounts (m : gmap string Z)
| DQueues (m : gmap string (gmap string Z))
| DReady (status : string) (ready db : bool).

Record Response := MkResponse {
  resp_ContentType : string;
  resp_Status : Z;
  resp_Body : Data
}.

Definition writeJSON (status : Z) (data : Data) : Response :=
  MkResponse "application/json" status data.

Definition writeError (status : Z) (msg : string) : Response :=
  writeJSON status (DErrorResponse msg).

(** What the handlers read of an [*http.Request]: the header and query getters, the path
    parameters, and the body, which [CreateJob] decodes into a [CreateJobRequest]. *)
Record CreateJobRequest := MkCreateJobRequest {
  req_Queue : string;
  req_Type : string;
  req_Payload : option string;
  req_MaxRetries : option Z;
  req_RunAt : option string
}.

Record Request := MkRequest {
  r_Header : string -> string;
  r_Query : string -> string;
  r_URLParam : string -> string;
  r_Body : string
}.

(** The fields of [CreateJobRequest], one member of the body at a time. *)
Definition request_member (req : CreateJobRequest) (name raw : list Z) :
    option CreateJobRequest :=
  let '(MkCreateJobRequest q ty pl mr ra) := req in
  if names_field "queue" name then
    q ← decode_string q raw; Some (MkCreateJobRequest q ty pl mr ra)
  else if names_field "type" name then
    ty ← decode_string ty raw; Some (MkCreateJobRequest q ty pl mr ra)
  else if names_field "payload" name then
    Some (MkCreateJobRequest q ty (Some (encode raw)) mr ra)
  else if names_field "max_retries" name then
    mr ← decode_pint raw; Some (MkCreateJobRequest q ty pl mr ra)
  else if names_field "run_at" name then
    ra ← decode_pstring raw; Some (MkCreateJobRequest q ty pl mr ra)
  else Some req.

(** [json.NewDecoder(r.Body).Decode(&req)]. *)
Definition r_Decode (r : Request) : option CreateJobRequest :=
  ms ← decode_first (decode (r_Body r));
  decode_members request_member (MkCreateJobRequest "" "" None None None) ms.

#[global] Arguments r_Decode : simpl never.

Definition HandlerFunc := Request -> go Response.

(** [store.Pool().Ping(ctx) == nil] and [elector.IsLeader()] at the time of the request. *)
Record Probe := MkProbe { ping_ok : bool; is_leader : bool }.

(** ** Statistics as maps *)

(** [grouped[s.Queue][s.Status] = s.Count], making the inner map when it is missing. *)
Definition group_add (grouped : gmap string (gmap string Z)) (s : QueueStat) :
    gmap string (gmap string Z) :=
  let inner := default ∅ (grouped !! qs_Queue s) in
  <[qs_Queue s := <[qs_Status s := qs_Count s]> inner]> grouped.

(** [result[s.Status] = s.Count]. *)
Definition result_add (result : gmap string Z) (s : QueueStat) : gmap string Z :=
  <[qs_Status s := qs_Count s]> result.

(** [totals[s.Status] += s.Count]. *)
Definition total_add (totals : gmap string Z) (s : QueueStat) : gmap string Z :=
  <[qs_Status s := wrap64 (default 0%Z (totals !! qs_Status s) + qs_Count s)]> totals.

(** ** The handlers ([handler.go], [health.go]) *)

Module Handler.
Section Handler.
Context `{UuidLib} `{PgTypes} `{LocalTime}.

Definition publishEvent (eventType : string) (job : Job) : go unit :=
  let* _ := PublishJobEvent (event_of eventType job) in Ret tt.

(** The job built from the request; [None] for a [run_at] that does not parse.  The fields
    the source leaves out have their zero values. *)
Definition new_job (req : CreateJobRequest) : option Job :=
  let mk st ra :=
    {| ID := uuid_of_N 0; Queue := req_Queue req; JobType := req_Type req;
       Payload := default "{}" (req_Payload req); Status := st;
       MaxRetries := default 3%Z (req_MaxRetries req); RetryCount := 0; RunAt := ra;
       StartedAt := None; CompletedAt := None; JobError := ""; CreatedAt := 0; UpdatedAt := 0 |} in
  match req_RunAt req with
  | None => Some (mk StatusPending None)
  | Some s =>
      match Parse_RFC3339 s with
      | None => None
      | Some t => Some (mk StatusScheduled (Some t))
      end
  end.

(** After the insert: schedule or push; a failure is only logged. *)
Definition enqueue (job created : Job) : go unit :=
  match RunAt job with
  | Some t => let* _ := Schedule (uuid_String (ID created)) t in Ret tt
  | None => let* _ := Push (Queue job) (uuid_String (ID created)) in Ret tt
  end.

Definition CreateJob : HandlerFunc := fun r =>
  match r_Decode r with
  | None => Ret (writeError StatusBadRequest "invalid request body")
  | Some req =>
      if bool_decide (req_Queue req = "") || bool_decide (req_Type req = "")
      then Ret (writeError StatusBadRequest "queue and type are required")
      else
        match new_job req with
        | None => Ret (writeError StatusBadRequest "invalid run_at format, use RFC3339")
        | Some job =>
            let* c := Storage.CreateJob job in
            match c with
            | Err _ => Ret (writeError StatusInternalServerError "failed to create job")
            | Ok created =>
                enqueue job created ;;;
                Ret (writeJSON StatusCreated (DJob created))
            end
        end
  end.

Definition GetJob : HandlerFunc := fun r =>
  match uuid_Parse (r_URLParam r "id") with
  | None => Ret (writeError StatusBadRequest "invalid job ID")
  | Some id =>
      let* j := Storage.GetJob id in
      match j with
      | Err _ => Ret (writeError StatusNotFound "job not found")
      | Ok job => Ret (writeJSON StatusOK (DJob job))
      end
  end.

(** The page and the limit of a listing, from the query. *)
Definition query_page (r : Request) : Z :=
  let page := (Atoi (r_Query r "page")).1 in
  if (page <? 1)%Z then 1%Z else page.

Definition query_limit (r : Request) : Z :=
  let limit := (Atoi (r_Query r "limit")).1 in
  if (limit <? 1)%Z || (100 <? limit)%Z then 20%Z else limit.

Definition list_filter (r : Request) : ListFilter :=
  MkFilter (r_Query r "status") (r_Query r "queue") (r_Query r "type")
    (query_page r) (query_limit r).

Definition TotalPages (total limit : Z) : Z :=
  int_Ceil (float64_div (float64_of_int total) (float64_of_int limit)).

Definition ListJobs : HandlerFunc := fun r =>
  let* l := Storage.ListJobs (list_filter r) in
  match l with
  | Err _ => Ret (writeError StatusInternalServerError "failed to list jobs")
  | Ok (jobs, total) =>
      Ret (writeJSON StatusOK (DPaginatedResponse jobs
        (MkPagination (query_page r) (query_limit r) total (TotalPages total (query_limit r)))))
  end.

Definition CancelJob : HandlerFunc := fun r =>
  match uuid_Parse (r_URLParam r "id") with
  | None => Ret (writeError StatusBadRequest "invalid job ID")
  | Some id =>
      let* j := Storage.GetJob id in
      match j with
      | Err _ => Ret (writeError StatusNotFound "job not found")
      | Ok job =>
          if negb (CanTransitionTo (Status job) StatusCancelled)
          then Ret (writeError StatusConflict "job cannot be cancelled in current state")
          else
            let* u := UpdateJobStatus id StatusCancelled in
            match u with
            | Err _ => Ret (writeError StatusInternalServerError "failed to cancel job")
            | Ok _ =>
                publishEvent "job.cancelled" job ;;;
                Ret (writeJSON StatusOK (DStrings {["status" := "cancelled"]}))
            end
      end
  end.

Definition RetryJob : HandlerFunc := fun r =>
  match uuid_Parse (r_URLParam r "id") with
  | None => Ret (writeError StatusBadRequest "invalid job ID")
  | Some id =>
      let* j := Storage.GetJob id in
      match j with
      | Err _ => Ret (writeError StatusNotFound "job not found")
      | Ok job =>
          if negb (bool_decide (Status job = StatusDead))
          then Ret (writeError StatusConflict "only dead jobs can be retried")
          else
            let* u := UpdateJobError id StatusPending 0 "" in
            match u with
            | Err _ => Ret (writeError StatusInternalServerError "failed to retry job")
            | Ok _ =>
                let* _ := Push (Queue job) (uuid_String id) in
                publishEvent "job.retried" job ;;;
                Ret (writeJSON StatusOK (DStrings {["status" := "retrying"]}))
            end
      end
  end.

Definition DeleteJob : HandlerFunc := fun r =>
  match uuid_Parse (r_URLParam r "id") with
  | None => Ret (writeError StatusBadRequest "invalid job ID")
  | Some id =>
      let* d := Storage.DeleteJob id in
      match d with
      | Err e => Ret (writeError StatusConflict e)
      | Ok _ => Ret (writeJSON StatusOK (DStrings {["status" := "deleted"]}))
      end
  end.

Definition GetQueues : HandlerFunc := fun _ =>
  let* s := GetQueueStats in
  match s with
  | Err _ => Ret (writeError StatusInternalServerError "failed to get queue stats")
  | Ok stats => Ret (writeJSON StatusOK (DQueues (foldl group_add ∅ stats)))
  end.

Definition GetQueueByName : HandlerFunc := fun r =>
  let* s := GetQueueStatsByName (r_URLParam r "name") in
  match s with
  | Err _ => Ret (writeError StatusInternalServerError "failed to get queue stats")
  | Ok stats => Ret (writeJSON StatusOK (DCounts (foldl result_add ∅ stats)))
  end.

Definition GetStats : HandlerFunc := fun _ =>
  let* s := GetQueueStats in
  match s with
  | Err _ => Ret (writeError StatusInternalServerError "failed to get stats")
  | Ok stats => Ret (writeJSON StatusOK (DCounts (foldl total_add ∅ stats)))
  end.

Definition HealthHandler : HandlerFunc := fun _ =>
  Ret (writeJSON StatusOK (DStrings {["status" := "ok"]})).

Definition ReadyHandler (probe : Probe) : HandlerFunc := fun _ =>
  let dbOK := ping_ok probe in
  let role := if is_leader probe then "leader" else "standby" in
  let status := if negb dbOK then StatusServiceUnavailable else StatusOK in
  Ret (writeJSON status (DReady role dbOK dbOK)).

End Handler.
End Handler.

(** ** Middleware ([middleware.go]) *)

Definition APIKeyAuth (apiKey : string) (next : HandlerFunc) : HandlerFunc := fun r =>
  if negb (bool_decide (r_Header r "X-API-Key" = apiKey))
  then Ret (writeError StatusUnauthorized "invalid or missing API key")
  else next r.

(** The duration is only logged. *)
Definition RequestLogger (next : HandlerFunc) : HandlerFunc := fun r =>
  let* start := Now in
  let* resp := next r in
  let* _ := Now in
  Ret resp.

(** ** Routes ([router.go]) *)

(** The handlers of the table: those of this package, and those of other packages by name. *)
Inductive Endpoint :=
| EHandler (h : HandlerFunc)
| EExternal (name : string).

Record Route := MkRoute {
  rt_Method : string;
  rt_Pattern : string;
  rt_Auth : bool;
  rt_Endpoint : Endpoint
}.

Section Router.
Context `{UuidLib} `{PgTypes} `{LocalTime}.

(** The sub-router [/api/v1], all of whose routes use [APIKeyAuth]. *)
Definition api_v1 (apiKey : string) : list Route :=
  (fun '(m, p, h) => MkRoute m ("/api/v1" +:+ p) true (EHandler (APIKeyAuth apiKey h))) <$>
    [("POST", "/jobs", Handler.CreateJob); ("GET", "/jobs", Handler.ListJobs);
     ("GET", "/jobs/{id}", Handler.GetJob); ("POST", "/jobs/{id}/cancel", Handler.CancelJob);
     ("POST", "/jobs/{id}/retry", Handler.RetryJob); ("DELETE", "/jobs/{id}", Handler.DeleteJob);
     ("GET", "/queues", Handler.GetQueues); ("GET", "/queues/{name}", Handler.GetQueueByName);
     ("GET", "/stats", Handler.GetStats)].

Definition NewRouter (apiKey : string) (probe : Probe) : list Route :=
  [MkRoute "GET" "/health" false (EHandler Handler.HealthHandler);
   MkRoute "GET" "/ready" false (EHandler (Handler.ReadyHandler probe));
   MkRoute "*" "/metrics" false (EExternal "promhttp")] ++
  api_v1 apiKey ++
  [MkRoute "GET" "/swagger/*" false (EExternal "httpSwagger");
   MkRoute "GET" "/dashboard" false (EExternal "DashboardPageHandler");
   MkRoute "GET" "/dashboard/jobs" false (EExternal "JobListHandler");
   MkRoute "GET" "/dashboard/jobs/{id}" false (EExternal "JobDetailHandler");
   MkRoute "GET" "/dashboard/dlq" false (EExternal "DLQHandler");
   MkRoute "GET" "/ws" false (EExternal "ServeWS")].

(** A request that chi has matched with a route of the table; [external] serves the handlers
    of other packages. *)
Definition serve (external : string -> HandlerFunc) (rt : Route) : HandlerFunc :=
  RequestLogger (match rt_Endpoint rt with EHandler h => h | EExternal n => external n end).

End Router.

(** ** Authentication *)

Section Auth.
Context `{UuidLib} `{LocalTime} `{PG : Postgres} `{RD : Redis} `{HO : Host}.

Lemma wp_RequestLogger next r (Q : Response -> World -> Prop) w :
  (forall w1, same w w1 ->
     wp_go (next r) (fun resp w2 => forall w3, same w2 w3 -> Q resp w3) w1) ->
  wp_go (RequestLogger next r) Q w.
Proof.
  intros HQ. apply wp_bind, wp_Now. intros t w1 Hw1. apply wp_bind.
  eapply wp_mono; [by apply HQ|]. intros resp w2 Hw2. cbv beta in Hw2.
  apply wp_bind, wp_Now. intros t' w3 Hw3. by apply wp_ret, Hw2.
Qed.

Lemma same_trans w1 w2 w3 : same w1 w2 -> same w2 w3 -> same w1 w3.
Proof. intros (? & ? & ?) (? & ? & ?). split_and!; congruence. Qed.

(** What a route of this package answers without the key. *)
Lemma route_without_key apiKey probe rt h r :
  rt ∈ NewRouter apiKey probe -> rt_Endpoint rt = EHandler h ->
  r_Header r "X-API-Key" <> apiKey ->
  exists resp, h r = Ret resp /\
    (String.prefix "/api/v1" (rt_Pattern rt) = true <->
     resp = writeError StatusUnauthorized "invalid or missing API key").
Proof.
  intros Hrt Hh Hkey. unfold NewRouter, api_v1 in Hrt. simpl in Hrt.
  repeat (rewrite elem_of_cons in Hrt; destruct Hrt as [-> |Hrt];
    [simpl in Hh; first [discriminate Hh|injection Hh as <-]|]);
    [..|by apply elem_of_nil in Hrt].
  1: by eexists.
  1: { eexists. split; [done|]. simpl. destruct (ping_ok probe); done. }
  all: eexists; unfold APIKeyAuth; rewrite bool_decide_eq_false_2 by done; done.
Qed.

(** (C24) Without the API key nothing happens: a request whose [X-API-Key] header is not the
    configured key is answered 401 by every route under [/api/v1] and by no other route of
    this package, and in all cases leaves the table, the queues, the schedule and the
    metrics as they were. *)
Theorem api_requires_key apiKey probe external rt h r w resp w' :
  rt ∈ NewRouter apiKey probe -> rt_Endpoint rt = EHandler h ->
  r_Header r "X-API-Key" <> apiKey ->
  run_go (serve external rt r) w = (resp, w') ->
  same w w' /\
  (String.prefix "/api/v1" (rt_Pattern rt) = true <->
   resp = writeError StatusUnauthorized "invalid or missing API key").
Proof.
  intros Hrt Hh Hkey Hrun. wp_start Hrun. unfold serve. rewrite Hh.
  destruct (route_without_key _ _ _ _ _ Hrt Hh Hkey) as (resp & Hresp & Hiff).
  apply wp_RequestLogger. intros w1 Hw1. rewrite Hresp. apply wp_ret. intros w3 Hw3.
  split; [by eapply same_trans|done].
Qed.

End Auth.

(** ** One job *)

(** The jobs the API agrees to cancel. *)
Definition cancellable (j : Job) : bool :=
  bool_decide (Status j ∈ [StatusPending; StatusScheduled; StatusRunning]).

Lemma cancellable_correct j : CanTransitionTo (Status j) StatusCancelled = cancellable j.
Proof.
  unfold cancellable. apply eq_true_iff_eq. rewrite CanTransitionTo_elem, bool_decide_eq_true.
  split.
  - destruct (allowedTransitions !! Status j) as [l|] eqn:Hl; simpl; [|by rewrite elem_of_nil].
    apply elem_of_list_to_map_2 in Hl. rewrite !elem_of_cons, elem_of_nil in Hl.
    destruct_or!; simplify_eq/=; rewrite !elem_of_cons, elem_of_nil; intros;
      destruct_or!; simplify_eq; auto.
  - rewrite !elem_of_cons, elem_of_nil. intros Hj. destruct_or!; try done;
      rewrite Hj; apply (bool_decide_unpack _); done.
Qed.

Section Jobs.
Context `{UuidLib} `{LocalTime} `{PG : Postgres} `{RD : Redis} `{HO : Host}.

Lemma wp_api_event ty job (Q : unit -> World -> Prop) w :
  (forall w', same w w' -> Q tt w') -> wp_go (Handler.publishEvent ty job) Q w.
Proof.
  intros HQ. apply wp_bind, wp_PublishJobEvent. intros r w' Hw. by apply wp_ret, HQ.
Qed.

(** The identifier of the path, and the stored job it names. *)
Abbreviation path_id r := (uuid_Parse (r_URLParam r "id")).

(** [GET /jobs/{id}] answers 200 with exactly the stored row, changes nothing, and when
    no call fails answers 400, 404 or 200 according to whether the identifier parses and the
    job exists. *)
Theorem GetJob_handler_correct r w resp w' :
  keyed (tbl w) -> run_go (Handler.GetJob r) w = (resp, w') ->
  same w w' /\
  (forall j, resp_Body resp = DJob j ->
     resp_Status resp = StatusOK /\ exists id, path_id r = Some id /\ tbl w !! id = Some j) /\
  (all_ok_go (Handler.GetJob r) w ->
   resp = match path_id r with
          | None => writeError StatusBadRequest "invalid job ID"
          | Some id => match tbl w !! id with
                       | None => writeError StatusNotFound "job not found"
                       | Some j => writeJSON StatusOK (DJob j)
                       end
          end).
Proof.
  intros Hk Hrun. apply and_assoc. split.
  - wp_start Hrun. unfold Handler.GetJob. destruct (path_id r) as [id|]; [|by apply wp_ret].
    apply wp_bind, wp_GetJob; [done|]. intros [job|e] w1 Hw1 Hj; apply wp_ret; [|done].
    split; [done|]. intros j [= <-]. eauto.
  - intros Hok. assert (Hwp : wpok_go (Handler.GetJob r) (fun resp _ =>
      resp = match path_id r with
          | None => writeError StatusBadRequest "invalid job ID"
          | Some id => match tbl w !! id with
                       | None => writeError StatusNotFound "job not found"
                       | Some j => writeJSON StatusOK (DJob j)
                       end
          end) w).
    { unfold Handler.GetJob. destruct (path_id r) as [id|]; [|by apply wpok_ret].
      apply wpok_bind, wpok_GetJob; [done|]. intros x w1 _ ->.
      destruct (tbl w !! id); by apply wpok_ret. }
    specialize (Hwp Hok). unfold wp in Hwp. by rewrite Hrun in Hwp.
Qed.

(** The status code of [POST /jobs/{id}/cancel] when no call fails. *)
Definition cancel_code (r : Request) (t : Table) : Z :=
  match path_id r with
  | None => StatusBadRequest
  | Some id => match t !! id with
               | None => StatusNotFound
               | Some j => if cancellable j then StatusOK else StatusConflict
               end
  end.

(** The row of the job is cancelled, and nothing else changes. *)
Definition cancels (r : Request) (t t' : Table) : Prop :=
  exists id j j', path_id r = Some id /\ t !! id = Some j /\ cancellable j = true /\
    status_set StatusCancelled j j' /\ t' = <[id := j']> t.

Lemma wp_CancelJob r (Q : Response -> World -> Prop) w :
  keyed (tbl w) ->
  (forall resp w', rdd w' = rdd w ->
     (resp_Status resp = StatusOK /\ cancels r (tbl w) (tbl w')) \/
     (resp_Status resp = StatusInternalServerError /\
        (tbl w' = tbl w \/ cancels r (tbl w) (tbl w'))) \/
     (resp_Status resp ∈ [StatusBadRequest; StatusNotFound; StatusConflict] /\
        tbl w' = tbl w) -> Q resp w') ->
  wp_go (Handler.CancelJob r) Q w.
Proof.
  intros Hk HQ.
  assert (Hkeep : forall code msg w', same w w' ->
    code ∈ [StatusBadRequest; StatusNotFound; StatusConflict] -> Q (writeError code msg) w').
  { intros code msg w' (? & ? & _) Hc. apply HQ; auto. }
  unfold Handler.CancelJob. destruct (path_id r) as [id|] eqn:Hid;
    [|apply wp_ret, Hkeep; [done|by apply (bool_decide_unpack _)]].
  apply wp_bind, wp_GetJob; [done|]. intros [job|e] w1 Hw1 Hj;
    [|apply wp_ret, Hkeep; [done|by apply (bool_decide_unpack _)]].
  specialize (Hj job eq_refl). rewrite cancellable_correct.
  destruct (cancellable job) eqn:Hc; cbn [negb];
    [|apply wp_ret, Hkeep; [done|by apply (bool_decide_unpack _)]].
  destruct Hw1 as (Ht1 & Hr1 & _).
  apply wp_bind, wp_UpdateJobStatus; [by rewrite Ht1|]. intros u w2 [Hr2 _] Hw2.
  rewrite Ht1 in Hw2. assert (Hdone : forall j', status_set StatusCancelled job j' ->
    cancels r (tbl w) (<[id := j']> (tbl w))) by (intros j' Hj'; by exists id, job, j').
  destruct u as [u|e]; simpl in Hw2.
  - destruct (applied_row _ _ _ _ _ Hw2 Hj) as (j' & Hj' & _ & Ht2).
    apply wp_bind, wp_api_event. intros w3 (Ht3 & Hr3 & _). apply wp_ret.
    apply HQ; [congruence|]. left. split; [done|]. rewrite Ht3, Ht2. by apply Hdone.
  - apply wp_ret, HQ; [congruence|]. right; left. split; [done|].
    destruct Hw2 as [Hw2|Hw2]; [by left|].
    destruct (applied_row _ _ _ _ _ Hw2 Hj) as (j' & Hj' & _ & ->). right. by apply Hdone.
Qed.

Lemma wpok_CancelJob r (Q : Response -> World -> Prop) w :
  keyed (tbl w) -> (forall resp w', resp_Status resp = cancel_code r (tbl w) -> Q resp w') ->
  wpok_go (Handler.CancelJob r) Q w.
Proof.
  intros Hk HQ. unfold Handler.CancelJob. unfold cancel_code in HQ.
  destruct (path_id r) as [id|]; [|by apply wpok_ret, HQ].
  apply wpok_bind, wpok_GetJob; [done|]. intros x w1 (Ht1 & _) ->.
  destruct (tbl w !! id) as [job|]; [|by apply wpok_ret, HQ].
  rewrite cancellable_correct. destruct (cancellable job); cbn [negb]; [|by apply wpok_ret, HQ].
  apply wpok_bind, wpok_UpdateJobStatus; [by rewrite Ht1|]. intros w2 _ _.
  apply wpok_bind, wp_wpok, wp_api_event. intros w3 _. by apply wpok_ret, HQ.
Qed.

(** (C22) [POST /jobs/{id}/cancel] cancels a job that is pending, scheduled or running, and
    changes nothing else: a 200 means the row became [cancelled]; a 400, 404 or 409 that
    nothing changed; a 500 one of the two.  When no call fails the code is 404 for an unknown
    job, 409 for a job in another state, 200 otherwise.  Redis is never touched. *)
Theorem CancelJob_handler_correct r w resp w' :
  keyed (tbl w) -> run_go (Handler.CancelJob r) w = (resp, w') ->
  rdd w' = rdd w /\
  ((resp_Status resp = StatusOK /\ cancels r (tbl w) (tbl w')) \/
   (resp_Status resp = StatusInternalServerError /\
      (tbl w' = tbl w \/ cancels r (tbl w) (tbl w'))) \/
   (resp_Status resp ∈ [StatusBadRequest; StatusNotFound; StatusConflict] /\
      tbl w' = tbl w)) /\
  (all_ok_go (Handler.CancelJob r) w -> resp_Status resp = cancel_code r (tbl w)).
Proof.
  intros Hk Hrun. apply and_assoc. split.
  - wp_start Hrun. by apply wp_CancelJob.
  - intros Hok. pose proof (wpok_CancelJob r (fun resp _ => resp_Status resp =
      cancel_code r (tbl w)) w Hk ltac:(auto) Hok) as Hwp.
    unfold wp in Hwp. by rewrite Hrun in Hwp.
Qed.

(** The status code of [POST /jobs/{id}/retry] when no call fails. *)
Definition retry_code (r : Request) (t : Table) : Z :=
  match path_id r with
  | None => StatusBadRequest
  | Some id => match t !! id with
               | None => StatusNotFound
               | Some j => if bool_decide (Status j = StatusDead) then StatusOK else StatusConflict
               end
  end.

(** A dead job is pending again, with its retries and its error reset. *)
Definition revives (r : Request) (id : UUID) (j : Job) (t t' : Table) : Prop :=
  path_id r = Some id /\ t !! id = Some j /\ Status j = StatusDead /\
  exists j', error_set StatusPending 0 "" j j' /\ t' = <[id := j']> t.

Lemma wp_RetryJob r (Q : Response -> World -> Prop) w :
  keyed (tbl w) ->
  (forall resp w',
     (resp_Status resp = StatusOK /\ exists id j, revives r id j (tbl w) (tbl w') /\
        (rdd w' = rdd w \/ rdd w' = pushed (Queue j) (uuid_String id) (rdd w))) \/
     (resp_Status resp = StatusInternalServerError /\ rdd w' = rdd w /\
        (tbl w' = tbl w \/ exists id j, revives r id j (tbl w) (tbl w'))) \/
     (resp_Status resp ∈ [StatusBadRequest; StatusNotFound; StatusConflict] /\
        tbl w' = tbl w /\ rdd w' = rdd w) -> Q resp w') ->
  wp_go (Handler.RetryJob r) Q w.
Proof.
  intros Hk HQ.
  assert (Hkeep : forall code msg w', same w w' ->
    code ∈ [StatusBadRequest; StatusNotFound; StatusConflict] -> Q (writeError code msg) w').
  { intros code msg w' (? & ? & _) Hc. apply HQ; auto. }
  unfold Handler.RetryJob. destruct (path_id r) as [id|] eqn:Hid;
    [|apply wp_ret, Hkeep; [done|by apply (bool_decide_unpack _)]].
  apply wp_bind, wp_GetJob; [done|]. intros [job|e] w1 Hw1 Hj;
    [|apply wp_ret, Hkeep; [done|by apply (bool_decide_unpack _)]].
  specialize (Hj job eq_refl). case_bool_decide as Hdead; cbn [negb];
    [|apply wp_ret, Hkeep; [done|by apply (bool_decide_unpack _)]].
  destruct Hw1 as (Ht1 & Hr1 & _).
  apply wp_bind, wp_UpdateJobError; [by rewrite Ht1|]. intros u w2 [Hr2 _] Hw2.
  rewrite Ht1 in Hw2. assert (Hdone : forall j', error_set StatusPending 0 "" job j' ->
    revives r id job (tbl w) (<[id := j']> (tbl w))) by (intros j' Hj'; split_and!; eauto).
  destruct u as [u|e]; simpl in Hw2.
  - destruct (applied_row _ _ _ _ _ Hw2 Hj) as (j' & Hj' & _ & Ht2).
    apply wp_bind, wp_Push. intros p w3 [Ht3 _] Hw3. rewrite Hr2, Hr1 in Hw3.
    apply wp_bind, wp_api_event. intros w4 (Ht4 & Hr4 & _). apply wp_ret, HQ.
    left. split; [done|]. exists id, job. split; [rewrite Ht4, Ht3, Ht2; by apply Hdone|].
    rewrite Hr4. destruct p; simpl in Hw3; auto.
  - apply wp_ret, HQ. right; left. split_and!; [done|congruence|].
    destruct Hw2 as [Hw2|Hw2]; [by left|].
    destruct (applied_row _ _ _ _ _ Hw2 Hj) as (j' & Hj' & _ & ->). right. eauto.
Qed.

Lemma wpok_RetryJob r (Q : Response -> World -> Prop) w :
  keyed (tbl w) ->
  (forall resp w', resp_Status resp = retry_code r (tbl w) ->
     (resp_Status resp = StatusOK -> exists id j, revives r id j (tbl w) (tbl w') /\
        rdd w' = pushed (Queue j) (uuid_String id) (rdd w)) -> Q resp w') ->
  wpok_go (Handler.RetryJob r) Q w.
Proof.
  intros Hk HQ. unfold Handler.RetryJob. unfold retry_code, revives in HQ.
  destruct (path_id r) as [id|] eqn:Hid; [|by apply wpok_ret, HQ].
  apply wpok_bind, wpok_GetJob; [done|]. intros x w1 (Ht1 & Hr1 & _) ->.
  destruct (tbl w !! id) as [job|] eqn:Hj; [|by apply wpok_ret, HQ].
  revert HQ. case_bool_decide as Hdead; cbn [negb]; intros HQ; [|by apply wpok_ret, HQ].
  apply wpok_bind, wpok_UpdateJobError; [by rewrite Ht1|]. intros w2 [Hr2 _] Hw2.
  rewrite Ht1 in Hw2. destruct (applied_row _ _ _ _ _ Hw2 Hj) as (j' & Hj' & _ & Ht2).
  apply wpok_bind, wpok_Push. intros w3 [Ht3 _] Hr3.
  apply wpok_bind, wp_wpok, wp_api_event. intros w4 (Ht4 & Hr4 & _).
  apply wpok_ret, HQ; [done|]. intros _. exists id, job. split_and!; try done.
  - exists j'. split; [done|congruence].
  - congruence.
Qed.

(** (C23) [POST /jobs/{id}/retry] revives dead jobs and no others: a 200 means the row is
    pending with no retries and no error, and its identifier was pushed to its queue unless
    that push failed; a 400, 404 or 409 that nothing changed; a 500 that the row may have
    been reset, and was not queued.  When no call fails the code is 404 for an unknown job,
    409 for a job that is not dead, and otherwise 200 with the job queued. *)
Theorem RetryJob_handler_correct r w resp w' :
  keyed (tbl w) -> run_go (Handler.RetryJob r) w = (resp, w') ->
  ((resp_Status resp = StatusOK /\ exists id j, revives r id j (tbl w) (tbl w') /\
      (rdd w' = rdd w \/ rdd w' = pushed (Queue j) (uuid_String id) (rdd w))) \/
   (resp_Status resp = StatusInternalServerError /\ rdd w' = rdd w /\
      (tbl w' = tbl w \/ exists id j, revives r id j (tbl w) (tbl w'))) \/
   (resp_Status resp ∈ [StatusBadRequest; StatusNotFound; StatusConflict] /\
      tbl w' = tbl w /\ rdd w' = rdd w)) /\
  (all_ok_go (Handler.RetryJob r) w -> resp_Status resp = retry_code r (tbl w) /\
   (resp_Status resp = StatusOK -> exists id j, revives r id j (tbl w) (tbl w') /\
      rdd w' = pushed (Queue j) (uuid_String id) (rdd w))).
Proof.
  intros Hk Hrun. split.
  - wp_start Hrun. by apply wp_RetryJob.
  - intros Hok. pose proof (wpok_RetryJob r (fun resp w' =>
      resp_Status resp = retry_code r (tbl w) /\
      (resp_Status resp = StatusOK -> exists id j, revives r id j (tbl w) (tbl w') /\
        rdd w' = pushed (Queue j) (uuid_String id) (rdd w))) w Hk (fun _ _ => @conj _ _) Hok) as Hwp.
    unfold wp in Hwp. by rewrite Hrun in Hwp.
Qed.

(** The job [CreateJob] builds for a request; [None] if the request is refused. *)
Definition requested (r : Request) : option Job :=
  req ← r_Decode r;
  if bool_decide (req_Queue req = "") || bool_decide (req_Type req = "") then None
  else Handler.new_job req.

(** The row stored for it. *)
Definition stored (job created : Job) (t t' : Table) : Prop :=
  inserts (Queue job) (JobType job) (Payload job) (Status job) (MaxRetries job)
    (RetryCount job) (RunAt job) t created t'.

(** Its identifier is scheduled or queued. *)
Definition enlisted (job created : Job) (d : RdData) : RdData :=
  match RunAt job with
  | Some t => scheduled (uuid_String (ID created)) t d
  | None => pushed (Queue job) (uuid_String (ID created)) d
  end.

Lemma wp_enqueue job created (Q : unit -> World -> Prop) w :
  (forall w', tbl w' = tbl w ->
     rdd w' = rdd w \/ rdd w' = enlisted job created (rdd w) -> Q tt w') ->
  wp_go (Handler.enqueue job created) Q w.
Proof.
  intros HQ. unfold Handler.enqueue. unfold enlisted in HQ. destruct (RunAt job).
  - apply wp_bind, wp_Schedule. intros r w' [Ht _] Hw. apply wp_ret, HQ; [done|].
    destruct r; simpl in Hw; auto.
  - apply wp_bind, wp_Push. intros r w' [Ht _] Hw. apply wp_ret, HQ; [done|].
    destruct r; simpl in Hw; auto.
Qed.

Lemma wpok_enqueue job created (Q : unit -> World -> Prop) w :
  (forall w', tbl w' = tbl w -> rdd w' = enlisted job created (rdd w) -> Q tt w') ->
  wpok_go (Handler.enqueue job created) Q w.
Proof.
  intros HQ. unfold Handler.enqueue. unfold enlisted in HQ. destruct (RunAt job).
  - apply wpok_bind, wpok_Schedule. intros w' [Ht _] Hw. by apply wpok_ret, HQ.
  - apply wpok_bind, wpok_Push. intros w' [Ht _] Hw. by apply wpok_ret, HQ.
Qed.

(** [CreateJob] on a request that is not refused. *)
Lemma CreateJob_requested r job :
  requested r = Some job ->
  Handler.CreateJob r =
    (let* c := Storage.CreateJob job in
     match c with
     | Err _ => Ret (writeError StatusInternalServerError "failed to create job")
     | Ok created => Handler.enqueue job created ;;; Ret (writeJSON StatusCreated (DJob created))
     end).
Proof.
  unfold requested, Handler.CreateJob. destruct (r_Decode r) as [req|]; simpl; [|done].
  destruct (_ || _); [done|]. by intros ->.
Qed.

(** The branches of [CreateJob], in terms of the job it builds. *)
Lemma CreateJob_branches r w resp w' :
  run_go (Handler.CreateJob r) w = (resp, w') ->
  match requested r with
  | None => resp_Status resp = StatusBadRequest /\ w' = w
  | Some job =>
      (exists created, resp = writeJSON StatusCreated (DJob created) /\
         stored job created (tbl w) (tbl w') /\
         (rdd w' = rdd w \/ rdd w' = enlisted job created (rdd w)) /\
         (all_ok_go (Handler.CreateJob r) w -> rdd w' = enlisted job created (rdd w))) \/
      (resp_Status resp = StatusInternalServerError /\ rdd w' = rdd w /\
         (tbl w' = tbl w \/ exists created, stored job created (tbl w) (tbl w')) /\
         ~ all_ok_go (Handler.CreateJob r) w)
  end.
Proof.
  intros Hrun. destruct (requested r) as [job|] eqn:Hreq.
  2:{ unfold requested in Hreq. unfold Handler.CreateJob in Hrun.
      destruct (r_Decode r) as [req|]; simpl in *; [|by injection Hrun as <- <-].
      destruct (_ || _); [by injection Hrun as <- <-|]. rewrite Hreq in Hrun.
      by injection Hrun as <- <-. }
  rewrite (CreateJob_requested r job Hreq) in *. rewrite run_bind in Hrun.
  assert (Hc : wp_go (Storage.CreateJob job) (fun c w1 => rdd w1 = rdd w /\
    (all_ok_go (Storage.CreateJob job) w -> is_ok c = true) /\
    match c with
    | Ok created => stored job created (tbl w) (tbl w1)
    | Err _ => tbl w1 = tbl w \/ exists created, stored job created (tbl w) (tbl w1)
    end) w).
  { split_and!; [|apply CreateJob_all_ok|];
      apply (wp_CreateJob _ (fun c w1 => rdd w1 = rdd w /\
        commits (inserts (Queue job) (JobType job) (Payload job) (Status job) (MaxRetries job)
          (RetryCount job) (RunAt job)) (tbl w) c (tbl w1)));
      by intros ? ? [? _]. }
  unfold wp in Hc. destruct (run_go (Storage.CreateJob job) w) as [[created|e] w1] eqn:Hc0;
    destruct Hc as (Hr1 & Hok & Hst); cbn [fst snd] in *.
  - left. exists created. rewrite run_bind in Hrun.
    pose proof (wp_enqueue job created (fun _ w2 => tbl w2 = tbl w1 /\
      (rdd w2 = rdd w1 \/ rdd w2 = enlisted job created (rdd w1))) w1 (fun _ => @conj _ _)) as He.
    pose proof (wpok_enqueue job created (fun _ w2 =>
      rdd w2 = enlisted job created (rdd w1)) w1 (fun _ _ Hr => Hr)) as Heok.
    unfold wpok, wp in *. destruct (run_go (Handler.enqueue job created) w1) as [u w2].
    cbn [fst snd] in *. injection Hrun as <- <-. destruct He as [Ht2 Hr2]. rewrite Ht2, <- Hr1.
    split_and!; try done. intros [_ Hall]%all_ok_bind. rewrite Hc0 in Hall.
    apply all_ok_bind in Hall as [Hall _]. by apply Heok.
  - right. injection Hrun as <- <-. split_and!; try done.
    intros [Hbad _]%all_ok_bind. by apply Hok in Hbad.
Qed.

(** What [POST /jobs] is asked for: a body that decodes, with a queue and a type, and a
    [run_at] that is a time if there is one. *)
Definition accepted (r : Request) : option (CreateJobRequest * option Time) :=
  req ← r_Decode r;
  if bool_decide (req_Queue req = "" \/ req_Type req = "") then None
  else match req_RunAt req with
       | None => Some (req, None)
       | Some s => t ← Parse_RFC3339 s; Some (req, Some t)
       end.

(** One row more, with the fields of the request and the defaults of the API: an empty object
    as payload, three retries; scheduled if there is a [run_at], pending otherwise. *)
Definition row_added (req : CreateJobRequest) (run_at : option Time) (created : Job)
    (t t' : Table) : Prop :=
  t !! ID created = None /\ t' = <[ID created := created]> t /\
  Queue created = req_Queue req /\ JobType created = req_Type req /\
  Payload created = pg_jsonb (default "{}" (req_Payload req)) /\
  MaxRetries created = default 3%Z (req_MaxRetries req) /\ RetryCount created = 0%Z /\
  Status created = match run_at with Some _ => StatusScheduled | None => StatusPending end /\
  RunAt created = pg_ts <$> run_at /\
  StartedAt created = None /\ CompletedAt created = None /\ JobError created = "" /\
  UpdatedAt created = CreatedAt created.

(** Its identifier on the schedule, or at the end of its queue. *)
Definition listed (req : CreateJobRequest) (run_at : option Time) (created : Job)
    (d : RdData) : RdData :=
  match run_at with
  | Some t => scheduled (uuid_String (ID created)) t d
  | None => pushed (req_Queue req) (uuid_String (ID created)) d
  end.

Lemma accepted_requested r :
  match accepted r with
  | None => requested r = None
  | Some (req, run_at) => exists job, requested r = Some job /\
      (forall created t t', stored job created t t' -> row_added req run_at created t t') /\
      (forall created d, enlisted job created d = listed req run_at created d)
  end.
Proof.
  unfold accepted, requested. destruct (r_Decode r) as [req|]; simpl; [|done].
  rewrite bool_decide_or. destruct (_ || _); [done|]. unfold Handler.new_job.
  destruct (req_RunAt req) as [s|]; [destruct (Parse_RFC3339 s) as [t|]; simpl; [|done]|];
    (eexists; split; [done|]; split; [|done]);
    intros created tb tb' (id & now & Hid & -> & _ & ->); unfold row_added, new_row; simpl;
    by split_and!.
Qed.

(** (C21) [POST /jobs] refuses a body that does not decode, an empty queue or type and a bad
    [run_at] with 400 and changes nothing.  Otherwise a 201 means that exactly one row was
    added, under a fresh identifier and with the fields of the request ([{}] for a missing
    payload, 3 for missing [max_retries], status scheduled if [run_at] was given and else
    pending), and that Redis got at most its identifier, on the schedule if [run_at] was given
    and else in its queue; a 500 that at most such a row was added and Redis got nothing.
    When no call fails the answer is 201 and the identifier is in Redis. *)
Theorem CreateJob_handler_correct r w resp w' :
  run_go (Handler.CreateJob r) w = (resp, w') ->
  match accepted r with
  | None => resp_Status resp = StatusBadRequest /\ w' = w
  | Some (req, run_at) =>
      (exists created, resp = writeJSON StatusCreated (DJob created) /\
         row_added req run_at created (tbl w) (tbl w') /\
         (rdd w' = rdd w \/ rdd w' = listed req run_at created (rdd w)) /\
         (all_ok_go (Handler.CreateJob r) w -> rdd w' = listed req run_at created (rdd w))) \/
      (resp_Status resp = StatusInternalServerError /\ rdd w' = rdd w /\
         (tbl w' = tbl w \/ exists created, row_added req run_at created (tbl w) (tbl w')) /\
         ~ all_ok_go (Handler.CreateJob r) w)
  end.
Proof.
  intros Hb%CreateJob_branches. pose proof (accepted_requested r) as Ha.
  destruct (accepted r) as [[req run_at]|]; [|by rewrite Ha in Hb].
  destruct Ha as (job & Hreq & Hrow & Hlist). rewrite Hreq in Hb.
  destruct Hb as [(created & Hresp & Hst & Hrd & Hok)|(Hresp & Hrd & Ht & Hno)].
  - left. exists created. rewrite <- Hlist. split_and!; auto.
  - right. split_and!; [done|done| |done]. destruct Ht as [|[created Hst]]; [by left|right; eauto].
Qed.

End Jobs.

(** ** Statistics *)

(** A count as a map built from non-empty groups shows it. *)
Definition nonzero (n : Z) : option Z := if (n =? 0)%Z then None else Some n.

(** A map filled by a loop over elements with distinct keys. *)
Lemma fold_lookup {M S K A} `{EqDecision K} (look : M -> K -> option A) (add : M -> S -> M)
    (key : S -> K) (val : S -> A) l m k :
  (forall m s k, look (add m s) k = if decide (key s = k) then Some (val s) else look m k) ->
  NoDup (key <$> l) ->
  (exists s, s ∈ l /\ key s = k /\ look (foldl add m l) k = Some (val s)) \/
  ((forall s, s ∈ l -> key s <> k) /\ look (foldl add m l) k = look m k).
Proof.
  intros Hadd. revert m. induction l as [|s l IH]; intros m Hnd; simpl.
  { right. split; [|done]. intros s Hs. by apply elem_of_nil in Hs. }
  apply NoDup_cons in Hnd as [Hs Hnd].
  destruct (IH (add m s) Hnd) as [(s' & Hin & Hk & Hl)|[Hno Hl]].
  - left. exists s'. split; [by right|done].
  - rewrite Hadd in Hl. case_decide as Hk.
    + left. exists s. split; [by left|done].
    + right. split; [|done]. intros s' [-> |Hin]%elem_of_cons; [done|by apply Hno].
Qed.

Definition stat_key (s : QueueStat) : string * string := (qs_Queue s, qs_Status s).

Lemma groups_stat_keys jobs gs :
  groups (fun j => (Queue j, Status j)) jobs gs -> NoDup (stat_key <$> (to_QueueStat <$> gs)).
Proof.
  intros [Hnd _]. rewrite <- list_fmap_compose.
  rewrite (list_fmap_ext _ fst gs); [done|]. by intros ? [[q st] c] _.
Qed.

(** The entry of a group: its size if it is not empty. *)
Lemma groups_entry jobs gs q st (o : option Z) :
  groups (fun j => (Queue j, Status j)) jobs gs ->
  (exists s, s ∈ to_QueueStat <$> gs /\ stat_key s = (q, st) /\ o = Some (qs_Count s)) \/
  ((forall s, s ∈ to_QueueStat <$> gs -> stat_key s <> (q, st)) /\ o = None) ->
  o = nonzero (Z.of_nat (length (filter (fun j => (Queue j, Status j) = (q, st)) jobs))).
Proof.
  intros [_ Hgs] Ho. unfold nonzero. destruct Ho as [(s & Hin & Hk & ->)|[Hno ->]].
  - apply list_elem_of_fmap in Hin as ([[q' st'] c] & -> & Hin).
    unfold stat_key in Hk. simpl in *. injection Hk as -> ->.
    apply Hgs in Hin as [-> Hpos]. by rewrite (proj2 (Z.eqb_neq _ 0)) by lia.
  - destruct (Z.eqb_spec (Z.of_nat (length (filter (fun j => (Queue j, Status j) = (q, st))
      jobs))) 0) as [|Hne]; [done|]. exfalso.
    eapply (Hno (MkQueueStat q st _)); [|done]. apply list_elem_of_fmap.
    eexists ((q, st), _). split; [done|]. apply Hgs. split; [reflexivity|lia].
Qed.

Definition sum_status (st : string) (l : list QueueStat) : Z :=
  foldr (fun s n => if decide (qs_Status s = st) then qs_Count s + n else n)%Z 0%Z l.

Lemma sum_status_nonneg st l :
  Forall (fun s => 0 < qs_Count s)%Z l -> (0 <= sum_status st l)%Z.
Proof. induction 1; simpl; [done|]. case_decide; lia. Qed.

Lemma total_add_fold st l m :
  Forall (fun s => 0 < qs_Count s)%Z l -> (0 <= default 0 (m !! st))%Z ->
  (default 0 (m !! st) + sum_status st l < 2^63)%Z ->
  foldl total_add m l !! st =
    if (sum_status st l =? 0)%Z then m !! st
    else Some (default 0 (m !! st) + sum_status st l)%Z.
Proof.
  intros Hpos. revert m. induction Hpos as [|s l Hs Hl IH]; intros m Hm Hsum; simpl; [done|].
  simpl in Hsum. pose proof (sum_status_nonneg st l Hl). unfold total_add at 2.
  destruct (decide (qs_Status s = st)) as [<-|Hne].
  - rewrite wrap64_id by (unfold in_int64; lia).
    rewrite IH; rewrite lookup_insert_eq; simpl; [|lia..].
    rewrite (proj2 (Z.eqb_neq (qs_Count s + _) 0)) by lia.
    destruct (Z.eqb_spec (sum_status (qs_Status s) l) 0) as [->|]; f_equal; lia.
  - rewrite IH; rewrite lookup_insert_ne by done; done.
Qed.

(** The counts of the groups of a status add up to the jobs of that status. *)
Lemma groups_sum st jobs gs :
  groups (fun j => (Queue j, Status j)) jobs gs ->
  sum_status st (to_QueueStat <$> gs) =
  Z.of_nat (length (filter (fun j => Status j = st) jobs)).
Proof.
  intros Hgs. etrans; [|exact (sum_groups_exact _ (fun k => k.2 = st) jobs gs Hgs)]. clear Hgs.
  induction gs as [|g gs IH]; csimpl; [done|]. by rewrite IH.
Qed.

(** The number of stored jobs with a property. *)
Definition count (P : Job -> Prop) `{!forall j, Decision (P j)} (t : Table) : Z :=
  Z.of_nat (length (filter P (rows_of t))).

Lemma rows_of_length t : length (rows_of t) = size t.
Proof. unfold rows_of. rewrite length_fmap. apply length_map_to_list. Qed.

Section Stats.
Context `{UuidLib} `{LocalTime} `{PG : Postgres} `{RD : Redis} `{HO : Host}.

Lemma filter_all (l : list Job) : filter (fun _ => true = true) l = l.
Proof. induction l as [|j l IH]; [done|]. by rewrite filter_cons, decide_True, IH. Qed.

Lemma GetQueues_exact r w :
  wpok_go (Handler.GetQueues r) (fun resp _ => exists m, resp = writeJSON StatusOK (DQueues m) /\
    forall q st, m !! q ≫= (.!! st) =
      nonzero (count (fun j => (Queue j, Status j) = (q, st)) (tbl w))) w.
Proof.
  apply wpok_bind, wpok_queue_stats. intros gs w' _ Hgs. apply wpok_ret. rewrite filter_all in Hgs.
  eexists. split; [done|]. intros q st. apply (groups_entry _ gs _ _ _ Hgs).
  destruct (fold_lookup (fun (m : gmap string (gmap string Z)) (k : string * string) =>
    m !! k.1 ≫= (.!! k.2)) group_add stat_key qs_Count (to_QueueStat <$> gs) ∅ (q, st))
    as [Hl|[Hno Hl]]; [|by eapply groups_stat_keys|by left|].
  - intros m s [q' st']. unfold group_add, stat_key. simpl.
    destruct (decide (qs_Queue s = q')) as [<-|Hq].
    + rewrite lookup_insert_eq. simpl. rewrite lookup_insert.
      do 2 case_decide; simplify_eq; try done. by destruct (m !! qs_Queue s).
    + rewrite lookup_insert_ne by done. rewrite decide_False by congruence. done.
  - right. split; [done|]. etrans; [exact Hl|]. by rewrite lookup_empty.
Qed.

Lemma GetQueueByName_exact r w :
  wpok_go (Handler.GetQueueByName r) (fun resp _ => exists m,
    resp = writeJSON StatusOK (DCounts m) /\ forall st, m !! st =
      nonzero (count (fun j => (Queue j, Status j) = (r_URLParam r "name", st)) (tbl w))) w.
Proof.
  set (name := r_URLParam r "name").
  apply wpok_bind, wpok_queue_stats. intros gs w' _ Hgs. apply wpok_ret. fold name in Hgs.
  assert (Hname : forall s, s ∈ to_QueueStat <$> gs -> qs_Queue s = name).
  { intros s ([[q st] c] & -> & Hin)%list_elem_of_fmap. apply Hgs in Hin as [-> Hpos]. simpl.
    destruct (filter (fun j => (Queue j, Status j) = (q, st)) _) as [|j l] eqn:Hf;
      [simpl in Hpos; lia|].
    assert (Hj : j ∈ j :: l) by left. rewrite <- Hf in Hj.
    apply list_elem_of_filter in Hj as [Hk Hj]. apply list_elem_of_filter in Hj as [Hj _].
    apply bool_decide_eq_true in Hj. congruence. }
  eexists. split; [done|]. intros st. unfold count.
  rewrite (list_filter_iff _ (fun j => (Queue j, Status j) = (name, st) /\
    bool_decide (Queue j = name) = true)) by (intros j; rewrite bool_decide_eq_true; split; [intros Hk; split; congruence|tauto]).
  rewrite <- list_filter_filter. apply (groups_entry _ gs _ _ _ Hgs).
  destruct (fold_lookup (fun (m : gmap string Z) k => m !! k) result_add qs_Status qs_Count
    (to_QueueStat <$> gs) ∅ st) as [(s & Hin & Hk & Hl)|[Hno Hl]].
  - intros m s k. unfold result_add. rewrite lookup_insert. by repeat case_decide.
  - apply groups_stat_keys in Hgs. apply (NoDup_fmap_1 (pair name)).
    rewrite <- list_fmap_compose. erewrite list_fmap_ext; [exact Hgs|].
    intros i s Hs%list_elem_of_lookup_2. unfold stat_key. simpl. by rewrite (Hname s Hs).
  - left. exists s. split_and!; [done| |done]. unfold stat_key. by rewrite (Hname s Hin), Hk.
  - right. rewrite lookup_empty in Hl. split; [|done].
    intros s Hin Hk. apply (Hno s Hin). unfold stat_key in Hk. congruence.
Qed.

Lemma GetStats_exact r w :
  (Z.of_nat (size (tbl w)) < 2^63)%Z ->
  wpok_go (Handler.GetStats r) (fun resp _ => exists m,
    resp = writeJSON StatusOK (DCounts m) /\
    forall st, m !! st = nonzero (count (fun j => Status j = st) (tbl w))) w.
Proof.
  intros Hsize. apply wpok_bind, wpok_queue_stats. intros gs w' _ Hgs. apply wpok_ret.
  rewrite filter_all in Hgs. eexists. split; [done|]. intros st. unfold count.
  rewrite <- (groups_sum st _ gs) by done. rewrite (total_add_fold st); [done|..].
  - apply Forall_forall. intros s ([[q st'] c] & -> & Hin)%list_elem_of_fmap.
    by apply Hgs in Hin as [_ ?].
  - done.
  - rewrite (groups_sum st _ gs) by done. rewrite lookup_empty. simpl.
    pose proof (length_filter (fun j => Status j = st) (rows_of (tbl w))) as Hle.
    rewrite rows_of_length in Hle. lia.
Qed.

(** (C27) When no call fails, the three statistics endpoints report exactly the rows of the
    table: [/queues] the number of jobs of each queue and status, [/queues/{name}] those of
    one queue by status, [/stats] the number of jobs of each status over all queues; in all
    three, what does not occur is left out.  (The sums of [/stats] are 64-bit.) *)
Theorem stats_endpoints_exact r w :
  (Z.of_nat (size (tbl w)) < 2^63)%Z ->
  all_ok_go (Handler.GetQueues r) w -> all_ok_go (Handler.GetQueueByName r) w ->
  all_ok_go (Handler.GetStats r) w ->
  (exists m, (run_go (Handler.GetQueues r) w).1 = writeJSON StatusOK (DQueues m) /\
     forall q st, m !! q ≫= (.!! st) =
       nonzero (count (fun j => (Queue j, Status j) = (q, st)) (tbl w))) /\
  (exists m, (run_go (Handler.GetQueueByName r) w).1 = writeJSON StatusOK (DCounts m) /\
     forall st, m !! st =
       nonzero (count (fun j => (Queue j, Status j) = (r_URLParam r "name", st)) (tbl w))) /\
  (exists m, (run_go (Handler.GetStats r) w).1 = writeJSON StatusOK (DCounts m) /\
     forall st, m !! st = nonzero (count (fun j => Status j = st) (tbl w))).
Proof.
  intros Hsize Hq Hn Hs. split_and!; [by apply GetQueues_exact|by apply GetQueueByName_exact|].
  by apply GetStats_exact.
Qed.

End Stats.

(** ** Pages *)

(** The pages [1 .. n] of a list. *)
Definition pages {A} (limit : Z) (n : nat) (l : list A) : list A :=
  concat ((fun p => slice (Z.of_nat p * limit) limit l) <$> seq 0 n).

Lemma pages_take {A} limit n (l : list A) :
  (0 < limit)%Z -> pages limit n l = take (n * Z.to_nat limit) l.
Proof.
  intros Hlim. unfold pages. induction n as [|n IH]; [done|].
  rewrite seq_S, fmap_app, concat_app, IH. simpl. rewrite app_nil_r.
  unfold slice. replace (Z.to_nat (Z.of_nat n * limit)) with (n * Z.to_nat limit) by nia.
  rewrite take_take_drop. f_equal. lia.
Qed.

Lemma pages_all {A} limit (l : list A) :
  (0 < limit)%Z -> pages limit (Z.to_nat (ceil_div (Z.of_nat (length l)) limit)) l = l.
Proof.
  intros Hlim. rewrite pages_take by done. apply take_ge. unfold ceil_div.
  pose proof (Z.div_mod (Z.of_nat (length l) + limit - 1) limit ltac:(lia)) as Hdm.
  pose proof (Z.mod_pos_bound (Z.of_nat (length l) + limit - 1) limit Hlim).
  set (q := ((Z.of_nat (length l) + limit - 1) / limit)%Z) in *.
  assert (0 <= q)%Z by nia. nia.
Qed.

Section Pages.
Context `{UuidLib} `{LocalTime} `{PG : Postgres} `{RD : Redis} `{HO : Host}.

Lemma query_limit_range r : (1 <= Handler.query_limit r <= 100)%Z.
Proof.
  unfold Handler.query_limit.
  destruct (Z.ltb_spec (Atoi (r_Query r "limit")).1 1),
    (Z.ltb_spec 100 (Atoi (r_Query r "limit")).1); simpl; lia.
Qed.

Lemma query_page_range r : (1 <= Handler.query_page r < 2^63)%Z.
Proof.
  unfold Handler.query_page. pose proof (Atoi_int64 (r_Query r "page")) as Hr.
  unfold in_int64 in Hr. destruct (Z.ltb_spec (Atoi (r_Query r "page")).1 1); lia.
Qed.

(** The page asked for, of the jobs [l]. *)
Definition page_of (r : Request) (l : list Job) : list Job :=
  slice ((Handler.query_page r - 1) * Handler.query_limit r) (Handler.query_limit r) l.

(** [Storage.ListJobs] keeps the page and the limit of the handler. *)
Lemma eff_list_filter r :
  eff_page (Handler.list_filter r) = Handler.query_page r /\
  eff_limit (Handler.list_filter r) = Handler.query_limit r.
Proof.
  pose proof (query_limit_range r) as Hlim. pose proof (query_page_range r) as Hpage.
  unfold eff_page, eff_limit. simpl. by rewrite !(proj2 (Z.ltb_ge _ 1)) by lia.
Qed.

Lemma wpok_ListJobs r (Q : Response -> World -> Prop) w :
  ((Handler.query_page r - 1) * Handler.query_limit r < 2^63)%Z ->
  (forall l w', same w w' ->
     l ≡ₚ filter (fun j => matches (Handler.list_filter r) j = true) (rows_of (tbl w)) ->
     StronglySorted (order_le CREATED_AT_DESC) l ->
     Q (writeJSON StatusOK (DPaginatedResponse (page_of r l)
       (MkPagination (Handler.query_page r) (Handler.query_limit r) (Z.of_nat (length l))
          (Handler.TotalPages (Z.of_nat (length l)) (Handler.query_limit r))))) w') ->
  wpok_go (Handler.ListJobs r) Q w.
Proof.
  intros Hoff HQ. destruct (eff_list_filter r) as [Hp Hl].
  pose proof (query_limit_range r) as Hlim. pose proof (query_page_range r) as Hpage.
  apply wpok_bind, wpok_Storage_ListJobs; rewrite Hp, Hl.
  - unfold in_int64. nia.
  - intros l w' Hsame Hm Hs. apply wpok_ret. by apply HQ.
Qed.

(** Requests for pages of the same listing. *)
Definition same_listing (r r' : Request) : Prop :=
  r_Query r' "status" = r_Query r "status" /\ r_Query r' "queue" = r_Query r "queue" /\
  r_Query r' "type" = r_Query r "type" /\ Handler.query_limit r' = Handler.query_limit r.

(** (C26) Paging through a listing shows every matching job exactly once.  Let no two matching
    jobs have the same creation time and fewer than [2^53] jobs match.  Then there is one
    list [l] of exactly the matching jobs, newest first, such that every request for the
    listing that asks for a page up to the last, and is answered without failures, gets 200
    with that page of [l], the number of jobs and the number of pages; and the pages from
    the first to the [total_pages]-th, put together, are [l]. *)
Theorem ListJobs_pages_cover r w :
  let found := filter (fun j => matches (Handler.list_filter r) j = true) (rows_of (tbl w)) in
  let limit := Handler.query_limit r in
  let last := ceil_div (Z.of_nat (length found)) limit in
  (forall a b, a ∈ found -> b ∈ found -> CreatedAt a = CreatedAt b -> a = b) ->
  (Z.of_nat (length found) < 2^53)%Z ->
  exists l, l ≡ₚ found /\ StronglySorted (order_le CREATED_AT_DESC) l /\
    (forall r', same_listing r r' -> (Handler.query_page r' <= last)%Z ->
       all_ok_go (Handler.ListJobs r') w ->
       (run_go (Handler.ListJobs r') w).1 =
         writeJSON StatusOK (DPaginatedResponse (page_of r' l)
           (MkPagination (Handler.query_page r') limit (Z.of_nat (length found)) last))) /\
    pages limit (Z.to_nat last) l = l.
Proof.
  intros found limit last Hdist Hmany. pose proof (query_limit_range r) as Hlim. fold limit in Hlim.
  exists (merge_sort (order_le CREATED_AT_DESC) found).
  set (l := merge_sort (order_le CREATED_AT_DESC) found).
  assert (Hl : l ≡ₚ found) by apply merge_sort_Permutation.
  assert (Hs : StronglySorted (order_le CREATED_AT_DESC) l) by apply (StronglySorted_merge_sort _).
  split_and!; [done|done| |].
  2:{ unfold last. rewrite <- Hl. apply pages_all. lia. }
  intros r' (Hst & Hq & Hty & Hlim') Hpage Hok. fold limit in Hlim'.
  assert (Hm : forall j, matches (Handler.list_filter r') j = matches (Handler.list_filter r) j).
  { intros j. unfold matches. simpl. by rewrite Hst, Hq, Hty. }
  assert (Hlast : ((last - 1) * limit < Z.of_nat (length found) + limit)%Z).
  { unfold last, ceil_div. pose proof (Z.mul_div_le (Z.of_nat (length found) + limit - 1) limit). lia. }
  refine (wpok_run exec answered (Handler.ListJobs r') (fun resp _ => resp = _) w Hok _).
  apply wpok_ListJobs; rewrite Hlim'; [pose proof (query_page_range r'); nia|].
  intros l' w' _ Hl' Hs'. rewrite (list_filter_iff _ (fun j => matches (Handler.list_filter r) j = true)) in Hl'
    by (intros j; by rewrite Hm).
  assert (l' = l) as ->.
  { apply (StronglySorted_unique_strong (order_le CREATED_AT_DESC)); [|done|done|by rewrite Hl].
    intros a b Ha Hb Hab Hba. simpl in Hab, Hba. rewrite Hl' in Ha. rewrite Hl in Hb.
    apply Hdist; [done|done|lia]. }
  assert (length l = length found) as Hlen by (by rewrite Hl).
  unfold Handler.TotalPages. rewrite Hlen, ceil_float_exact by lia. done.
Qed.

End Pages.

(** ** Bodies *)

Section Bodies.
Context `{UuidLib}.

(** What a member of the body does to the request: names match up to case, [null] resets
    pointers and leaves strings, the payload is kept as it is written, [max_retries] is an
    integer literal that fits, a value of another type is an error, members with other names
    are ignored. *)
Definition request_value (req : CreateJobRequest) (e : entry) : option CreateJobRequest :=
  let '(MkCreateJobRequest q ty pl mr ra) := req in
  if names_field "queue" (en_Name e) then
    match en_Value e with
    | VNull => Some req
    | VString s => Some (MkCreateJobRequest (encode s) ty pl mr ra)
    | _ => None
    end
  else if names_field "type" (en_Name e) then
    match en_Value e with
    | VNull => Some req
    | VString s => Some (MkCreateJobRequest q (encode s) pl mr ra)
    | _ => None
    end
  else if names_field "payload" (en_Name e) then
    Some (MkCreateJobRequest q ty (Some (encode (en_Raw e))) mr ra)
  else if names_field "max_retries" (en_Name e) then
    match en_Value e with
    | VNull => Some (MkCreateJobRequest q ty pl None ra)
    | VNumber lit =>
        match Atoi (encode lit) with
        | (z, None) => Some (MkCreateJobRequest q ty pl (Some z) ra)
        | _ => None
        end
    | _ => None
    end
  else if names_field "run_at" (en_Name e) then
    match en_Value e with
    | VNull => Some (MkCreateJobRequest q ty pl mr None)
    | VString s => Some (MkCreateJobRequest q ty pl mr (Some (encode s)))
    | _ => None
    end
  else Some req.

(** The request the entries of an object describe, one after the other. *)
Definition described (es : list entry) : option CreateJobRequest :=
  foldl (fun acc e => req ← acc; request_value req e)
    (Some (MkCreateJobRequest "" "" None None None)) es.

Lemma request_member_value req d e :
  text d (en_Value e) (en_Raw e) ->
  request_member req (en_Name e) (en_Raw e) = request_value req e.
Proof.
  intros Ht. destruct req as [q ty pl mr ra]. unfold request_member, request_value.
  repeat (destruct (names_field _ _);
    [rewrite ?(decode_string_text _ _ _ _ Ht), ?(decode_pint_text _ _ _ Ht),
       ?(decode_pstring_text _ _ _ Ht); destruct (en_Value e); try done; by repeat case_match|]).
  done.
Qed.

Lemma described_members d ms es :
  Forall2 scanned ms es -> Forall (fun e => text d (en_Value e) (en_Raw e)) es ->
  decode_members request_member (MkCreateJobRequest "" "" None None None) ms = described es.
Proof.
  intros Hms Hes. rewrite (decode_members_entries _ _ _ _ Hms). unfold described.
  generalize (Some (MkCreateJobRequest "" "" None None None)) as acc. clear Hms.
  induction Hes as [|e es He _ IH]; intros acc; [done|]. cbn [foldl]. rewrite IH. f_equal.
  destruct acc as [a|]; [|done]. rewrite !some_bind. by eapply request_member_value.
Qed.

(** The body begins, after white space, with the text of an object with these entries. *)
Definition body_entries (r : Request) (es : list entry) : Prop :=
  exists w t trailing, decode (r_Body r) = w ++ t ++ trailing /\ spaces w /\
    object_text (pred maxNestingDepth) es t.

Lemma body_texts r es :
  body_entries r es ->
  Forall (fun e => text (pred maxNestingDepth) (en_Value e) (en_Raw e) /\
    Forall (fun z => rune_ok z = true) (en_Raw e)) es.
Proof.
  intros (w & t & trailing & Hb & _ & Ht). eapply object_entries; [done|].
  pose proof (decode_ok (r_Body r)) as Hok. rewrite Hb in Hok.
  by apply Forall_app in Hok as [_ [? _]%Forall_app].
Qed.

Lemma r_Decode_entries r es : body_entries r es -> r_Decode r = described es.
Proof.
  intros Hes. pose proof (body_texts _ _ Hes) as Htexts.
  destruct Hes as (w & t & trailing & Hb & Hw & Ht). unfold r_Decode. rewrite Hb.
  destruct (decode_first_text w es t trailing Hw Ht) as (ms & -> & Hms). rewrite some_bind.
  eapply described_members; [done|]. eapply Forall_impl; [exact Htexts|]. by intros e [? _].
Qed.

Lemma r_Decode_sound r req :
  r_Decode r = Some req ->
  (exists w rest, spaces w /\ decode (r_Body r) = w ++ decode "null" ++ rest /\
     req = MkCreateJobRequest "" "" None None None) \/
  exists es, body_entries r es /\ described es = Some req.
Proof.
  intros Hd. unfold r_Decode in Hd.
  destruct (decode_first (decode (r_Body r))) as [ms|] eqn:Hms; [|done]. rewrite some_bind in Hd.
  apply decode_first_sound in Hms as [(w & rest & Hw & Hb & ->)|(w & es & t & rest & Hw & Ht & Hb & Hms)].
  - left. exists w, rest. split_and!; [done|done|]. by injection Hd as <-.
  - right. exists es. assert (Hes : body_entries r es) by (by exists w, t, rest).
    split; [done|]. rewrite <- Hd. symmetry. eapply described_members; [done|].
    eapply Forall_impl; [by apply (body_texts r)|]. by intros e [? _].
Qed.

(** The type of a decoded request is valid UTF-8, whatever the bytes of the body. *)
Lemma r_Decode_utf8 r req : r_Decode r = Some req -> utf8 (req_Type req) = true.
Proof.
  intros [(w & rest & _ & _ & ->)|(es & Hes & Hd)]%r_Decode_sound; [done|].
  pose proof (body_texts _ _ Hes) as Htexts. clear Hes. unfold described in Hd.
  assert (Hgen : forall acc : option CreateJobRequest,
    (forall a, acc = Some a -> utf8 (req_Type a) = true) ->
    foldl (fun acc e => req ← acc; request_value req e) acc es = Some req ->
    utf8 (req_Type req) = true); [|by eapply Hgen, Hd; intros a [= <-]].
  clear Hd. induction Htexts as [|e es [Ht Hok] _ IH]; intros acc Hacc; [by apply Hacc|].
  cbn [foldl]. apply IH. intros a Ha. destruct acc as [b|]; [|done]. rewrite some_bind in Ha.
  specialize (Hacc b eq_refl). destruct b as [q ty pl mr ra]. unfold request_value in Ha.
  repeat case_match; simplify_eq; try exact Hacc.
  by eapply text_string_utf8.
Qed.

(** (C16) The body of [POST /jobs] means the JSON object it begins with: for every text of an
    object by the grammar of JSON (any white space, any escapes, members in any order and
    number, nested up to the limit of the decoder), with any text after it, [CreateJob]
    decodes the request its members describe, one after the other, and refuses the body
    exactly if one of them has the wrong type.  Conversely, a body that is not refused begins
    with such a text, or with [null], which describes an empty request.  In particular, a body
    that asks for a job at a time, written as the API writes times, is accepted with exactly
    these fields. *)
Theorem body_decoding_correct r :
  (forall es, body_entries r es -> r_Decode r = described es) /\
  (forall req, r_Decode r = Some req ->
     (exists w rest, spaces w /\ decode (r_Body r) = w ++ decode "null" ++ rest /\
        req = MkCreateJobRequest "" "" None None None) \/
     exists es, body_entries r es /\ described es = Some req) /\
  (forall q ty payload mr s raw1 raw2 raw3 raw4 raw5 offset t,
     body_entries r [MkEntry (decode "queue") raw1 (VString (decode q));
       MkEntry (decode "type") raw2 (VString (decode ty));
       MkEntry (decode "payload") raw3 payload;
       MkEntry (decode "max_retries") raw4 (VNumber (print_int mr));
       MkEntry (decode "run_at") raw5 (VString (decode s))] ->
     q <> "" -> ty <> "" -> in_int64 mr ->
     marshal_time offset t = Ok s -> (offset mod 60 = 0)%Z ->
     accepted r =
       Some (MkCreateJobRequest q ty (Some (encode raw3)) (Some mr) (Some s), Some t)).
Proof.
  split; [apply r_Decode_entries|]. split; [apply r_Decode_sound|].
  intros q ty payload mr s raw1 raw2 raw3 raw4 raw5 offset t Hb Hq Hty Hmr Hs Ho.
  unfold accepted. rewrite (r_Decode_entries _ _ Hb). unfold described. cbn [foldl].
  unfold request_value. cbn [en_Name en_Value en_Raw]. resolve_names. rewrite !some_bind.
  cbv beta iota. rewrite Atoi_print_int by done. rewrite !some_bind. cbv beta iota.
  cbn [req_Queue req_Type req_RunAt]. rewrite !encode_decode, bool_decide_eq_false_2 by tauto.
  by rewrite (Parse_marshal_time _ _ _ Hs Ho).
Qed.

End Bodies.

(** ** Examples on the reference services *)

Definition ex_request (key id page : string) (body : string) : Request :=
  MkRequest (fun h => if bool_decide (h = "X-API-Key") then key else "")
    (fun q => if bool_decide (q = "page") then page
              else if bool_decide (q = "limit") then "2" else "")
    (fun p => if bool_decide (p = "id") then id else "email") body.

Definition ex_dead : Job := sim_job 4 "email" "send" StatusDead 3 3 None None 11.

Definition ex_atable : Table := sim_table [ex_retrying; ex_waiting; ex_stuck; ex_dead].

Lemma ex_atable_keyed : keyed ex_atable.
Proof. apply (bool_decide_unpack _). by vm_compute. Qed.

Definition ex_aworld (pf rf : list Fault) : World :=
  sim_world ex_atable pf rd_empty rf (100 * Second) [].

Abbreviation ex_get id := (ex_request "k" (uuid_String (uuid_of_N id)) "1" "").

Lemma api_requires_key_witness :
  let rt := MkRoute "GET" "/api/v1/stats" true (EHandler (APIKeyAuth "k" Handler.GetStats)) in
  (run_go (serve (fun _ => Handler.HealthHandler) rt (ex_request "wrong" "" "" ""))
     (ex_aworld [] [])).1 = writeError StatusUnauthorized "invalid or missing API key".
Proof.
  intros rt.
  refine (proj1 (proj2 (api_requires_key "k" (MkProbe true true)
    (fun _ => Handler.HealthHandler) rt (APIKeyAuth "k" Handler.GetStats)
    (ex_request "wrong" "" "" "") (ex_aworld [] []) _ _ _ _ _ (surjective_pairing _))) _).
  - unfold NewRouter, api_v1. simpl. do 11 right. left.
  - reflexivity.
  - discriminate.
  - reflexivity.
Defined.

Lemma GetJob_handler_correct_witness :
  (run_go (Handler.GetJob (ex_get 4)) (ex_aworld [] [])).1 = writeJSON StatusOK (DJob ex_dead).
Proof.
  destruct (GetJob_handler_correct (ex_get 4) (ex_aworld [] []) _ _ ex_atable_keyed
    (surjective_pairing _)) as (_ & _ & Hok).
  rewrite Hok; [vm_compute; reflexivity|all_ok_run].
Defined.

Lemma CancelJob_handler_correct_witness :
  resp_Status (run_go (Handler.CancelJob (ex_get 2)) (ex_aworld [] [])).1 = StatusOK.
Proof.
  destruct (CancelJob_handler_correct (ex_get 2) (ex_aworld [] []) _ _ ex_atable_keyed
    (surjective_pairing _)) as (_ & _ & Hok).
  rewrite Hok; [vm_compute; reflexivity|all_ok_run].
Defined.

Lemma RetryJob_handler_correct_witness :
  resp_Status (run_go (Handler.RetryJob (ex_get 4)) (ex_aworld [] [])).1 = StatusOK /\
  exists id j, rdd (run_go (Handler.RetryJob (ex_get 4)) (ex_aworld [] [])).2 =
    pushed (Queue j) (uuid_String id) rd_empty.
Proof.
  destruct (RetryJob_handler_correct (ex_get 4) (ex_aworld [] []) _ _ ex_atable_keyed
    (surjective_pairing _)) as [_ Hok].
  destruct Hok as [Hcode Hq]; [all_ok_run|]. split; [exact Hcode|].
  destruct (Hq Hcode) as (id & j & _ & Hr). exists id, j. exact Hr.
Defined.

(** A request for an immediate job, and one for a scheduled job. *)
Definition ex_body (run_at : option string) : string :=
  encode (print (JObj ([("queue", JStr "email"); ("type", JStr "send")] ++
    match run_at with Some s => [("run_at", JStr s)] | None => [] end))).

Lemma CreateJob_handler_correct_witness :
  exists created, (run_go (Handler.CreateJob (ex_request "k" "" "" (ex_body None)))
    (ex_aworld [] [])).1 = writeJSON StatusCreated (DJob created).
Proof.
  destruct (CreateJob_handler_correct (ex_request "k" "" "" (ex_body None))
    (ex_aworld [] []) _ _ (surjective_pairing _)) as [(created & Hr & _)|(_ & _ & _ & Hno)].
  - exists created. exact Hr.
  - destruct Hno. all_ok_run.
Defined.

Lemma stats_endpoints_exact_witness :
  exists m, (run_go (Handler.GetStats (ex_get 1)) (ex_aworld [] [])).1 =
      writeJSON StatusOK (DCounts m) /\ m !! StatusDead = Some 1%Z.
Proof.
  destruct (stats_endpoints_exact (ex_get 1) (ex_aworld [] [])) as (_ & _ & m & Hm & Hst).
  - vm_compute. reflexivity.
  - all_ok_run.
  - all_ok_run.
  - all_ok_run.
  - exists m. split; [exact Hm|]. rewrite Hst. vm_compute. reflexivity.
Defined.

Lemma ListJobs_pages_cover_witness :
  exists l, pages 2 2 l = l /\
    resp_Body (run_go (Handler.ListJobs (ex_request "k" "" "2" "")) (ex_aworld [] [])).1 =
      DPaginatedResponse (slice 2 2 l) (MkPagination 2 2 4 2).
Proof.
  destruct (ListJobs_pages_cover (ex_request "k" "" "1" "") (ex_aworld [] []))
    as (l & _ & _ & Hpage & Hall).
  - intros a b Ha Hb. rewrite list_elem_of_filter, elem_of_rows_of in Ha, Hb.
    destruct Ha as [_ [i Ha]], Hb as [_ [k Hb]].
    apply elem_of_list_to_map_2 in Ha, Hb. simpl in Ha, Hb.
    rewrite !elem_of_cons, elem_of_nil in Ha, Hb.
    destruct_or!; simplify_eq; intros Hab; first [reflexivity|discriminate Hab].
  - vm_compute. reflexivity.
  - exists l. split; [exact Hall|].
    rewrite (Hpage (ex_request "k" "" "2" "")); [reflexivity|done|vm_compute; discriminate|].
    all_ok_run.
Defined.

(** [POST /jobs] can lose a scheduled job: when [ZADD] fails the request is still
    answered 201, the job is stored as [scheduled], and nothing will ever run it, because it
    is on no queue and not on the schedule, and the recovery passes over jobs with a
    [run_at]. *)
Theorem scheduled_job_lost_on_failed_zadd :
  exists (w w' : World) created,
    run_go (Handler.CreateJob (ex_request "k" "" ""
      (ex_body (Some "1970-01-01T00:10:00Z")))) w =
        (writeJSON StatusCreated (DJob created), w') /\
    tbl w' !! ID created = Some created /\ Status created = StatusScheduled /\
    rdd w' = rd_empty /\ forall cutoff, pending_before cutoff created = false.
Proof.
  eexists (ex_aworld [] [Refuse]), _, _. split; [apply run_split; vm_compute; reflexivity|].
  split; [vm_compute; reflexivity|]. split; [reflexivity|]. split; [vm_compute; reflexivity|done].
Qed.

(** An outage of the database looks like a missing job: [GET /jobs/{id}] answers 404
    "job not found" for a job that is stored, when the query fails. *)
Theorem GetJob_hides_outage :
  exists (w : World) id j, tbl w !! id = Some j /\
    (run_go (Handler.GetJob (ex_get 4)) w).1 = writeError StatusNotFound "job not found" /\
    id = uuid_of_N 4.
Proof.
  exists (ex_aworld [Refuse] []), (uuid_of_N 4), ex_dead.
  split; [vm_compute; reflexivity|]. split; [vm_compute; reflexivity|done].
Qed.

(** A body with white space, an escape, a name in another case and a member of another name,
    and text after it. *)
Definition ex_text : string :=
  String.concat (String (Ascii.ascii_of_nat 34) "")
    ["{ "; "Queue"; " : "; "em\u0061il"; ", "; "note"; ":[1 ,2], "; "type"; ": "; "send";
     " , "; "max_retries"; ": 7 } garbage"].

Definition ex_entries : list entry :=
  [MkEntry (decode "Queue") (34 :: decode "em\u0061il" ++ [34])%Z (VString (decode "email"));
   MkEntry (decode "note") (decode "[1 ,2]") (VArray [VNumber [49%Z]; VNumber [50%Z]]);
   MkEntry (decode "type") (34 :: decode "send" ++ [34])%Z (VString (decode "send"));
   MkEntry (decode "max_retries") (decode "7") (VNumber (decode "7"))].

(** Letters stand for themselves. *)
Definition letters (l : list Z) : bool := forallb (fun z => between 35 91 z || between 93 126 z) l.

Lemma letters_text l : letters l = true -> string_text l l.
Proof.
  induction l as [|z l IH]; [constructor|]. unfold letters. cbn [forallb].
  rewrite andb_true_iff. intros [Hz Hl]. assert (Hr : (35 <= z <= 91 \/ 93 <= z <= 126)%Z)
    by (unfold between in Hz; lia).
  replace (z :: l) with (sanitize z :: l) at 2
    by (unfold sanitize; by rewrite (proj2 (Z.ltb_ge z 0)) by lia).
  constructor; [lia|lia|lia|by apply IH].
Qed.

Lemma digit_text z : (49 <= z <= 57)%Z -> number_text [z].
Proof.
  intros Hz. apply (number_of [] [z] [] []); [by left|by constructor; [|constructor]|constructor..].
Qed.

Lemma ex_text_entries : body_entries (ex_request "k" "" "" ex_text) ex_entries.
Proof.
  assert (Hq : string_text (decode "em\u0061il") (decode "email")).
  { apply (st_char 101); [lia..|]. apply (st_char 109); [lia..|].
    apply (st_unicode 48 48 54 49 97); [by exists 0%Z, 0%Z, 6%Z, 1%Z|done|]. by apply letters_text. }
  assert (Harr : forall d, text (S d) (VArray [VNumber [49%Z]; VNumber [50%Z]]) (decode "[1 ,2]")).
  { intros d. apply (text_array d _ [49; 32; 44; 50]%Z).
    apply (elements_more d _ _ [] [49%Z] [32%Z] [50%Z]);
      [constructor|constructor; apply digit_text; lia|by repeat constructor|].
    apply (elements_one d _ [] [50%Z] []); [constructor|constructor; apply digit_text; lia|constructor]. }
  cut (forall d, exists t, object_text (S d) ex_entries t /\ decode ex_text = t ++ decode " garbage").
  { intros Hcut. destruct (Hcut (pred (pred maxNestingDepth))) as (t & Ht & Hb).
    exists [], t, (decode " garbage"). split; [exact Hb|]. split; [constructor|].
    by replace (pred maxNestingDepth) with (S (pred (pred maxNestingDepth))) by (vm_compute; reflexivity). }
  intros d. eexists. split.
  - apply object_members.
    apply (members_more _ _ (decode "Queue") [32] [32] [32] _ _ [])%Z;
      [by repeat constructor|by apply letters_text|by repeat constructor..| |constructor|].
    { by constructor. }
    apply (members_more _ _ (decode "note") [32] [] [] _ _ [])%Z;
      [by repeat constructor|by apply letters_text|by repeat constructor..|apply Harr|constructor|].
    apply (members_more _ _ (decode "type") [32] [] [32] _ _ [32])%Z;
      [by repeat constructor|by apply letters_text|by repeat constructor..| |by repeat constructor|].
    { constructor. by apply letters_text. }
    apply (members_one _ _ (decode "max_retries") [32] [] [32] _ _ [32])%Z;
      [by repeat constructor|by apply letters_text|by repeat constructor..| |by repeat constructor].
    constructor. by apply digit_text.
  - vm_compute. reflexivity.
Qed.

Lemma body_decoding_correct_witness :
  r_Decode (ex_request "k" "" "" ex_text) =
  Some (MkCreateJobRequest "email" "send" None (Some 7%Z) None).
Proof.
  destruct (body_decoding_correct (ex_request "k" "" "" ex_text)) as [Heq _].
  rewrite (Heq ex_entries ex_text_entries). vm_compute. reflexivity.
Defined.
