(* ===== verification/Config.v ===== *)
(** * Configuration ([internal/config/config.go])

    The environment is a function: [os.Getenv] answers [""] for an unset variable. *)

From S2P Require Import Prelude Strconv.

Local Open Scope string_scope.

Record Config := MkConfig {
  HTTPAddr : string;
  PostgresURL : string;
  RedisURL : string;
  APIKey : string;
  WorkerCount : Z;
  JobTimeout : Duration;
  ShutdownTimeout : Duration;
  LogLevel : string;
  LeaderPollInterval : Duration
}.

Section Config.
Variable Getenv : string -> string.

Definition getEnvOrDefault (key defaultVal : string) : string :=
  let v := Getenv key in
  if negb (bool_decide (v = "")) then v else defaultVal.

Definition getEnvIntOrDefault (key : string) (defaultVal : Z) : Z :=
  let v := Getenv key in
  if bool_decide (v = "") then defaultVal
  else match Atoi v with
       | (_, Some _) => defaultVal
       | (i, None) => i
       end.

Definition getEnvDurationOrDefault (key : string) (defaultVal : Duration) : Duration :=
  let v := Getenv key in
  if bool_decide (v = "") then defaultVal
  else match ParseDuration v with
       | None => defaultVal
       | Some d => d
       end.

Definition Load : result Config :=
  let pgURL := Getenv "GOQUEUE_POSTGRES_URL" in
  if bool_decide (pgURL = "") then Err "GOQUEUE_POSTGRES_URL is required"
  else
    let apiKey := Getenv "GOQUEUE_API_KEY" in
    if bool_decide (apiKey = "") then Err "GOQUEUE_API_KEY is required"
    else Ok {|
      HTTPAddr := getEnvOrDefault "GOQUEUE_HTTP_ADDR" ":8080";
      PostgresURL := pgURL;
      RedisURL := getEnvOrDefault "GOQUEUE_REDIS_URL" "localhost:6379";
      APIKey := apiKey;
      WorkerCount := getEnvIntOrDefault "GOQUEUE_WORKER_COUNT" 10;
      JobTimeout := getEnvDurationOrDefault "GOQUEUE_JOB_TIMEOUT" (30 * Second);
      ShutdownTimeout := getEnvDurationOrDefault "GOQUEUE_SHUTDOWN_TIMEOUT" (30 * Second);
      LogLevel := getEnvOrDefault "GOQUEUE_LOG_LEVEL" "info";
      LeaderPollInterval :=
        getEnvDurationOrDefault "GOQUEUE_LEADER_POLL_INTERVAL" (2 * Second)
    |}.

Lemma getEnvDuration_default key d :
  getEnvDurationOrDefault key d = default d (ParseDuration (Getenv key)).
Proof.
  unfold getEnvDurationOrDefault. case_bool_decide as Hv; [by rewrite Hv|].
  by destruct (ParseDuration (Getenv key)).
Qed.

(** (C38) [Load] succeeds exactly when the two required variables are set; then the API key is
    never empty (so that a request without the header is never authorised), both are taken
    verbatim, an unset or malformed number or duration falls back to its default, and the
    worker count is a 64-bit integer. *)
Theorem Load_correct :
  (is_ok Load = true <->
     Getenv "GOQUEUE_POSTGRES_URL" <> "" /\ Getenv "GOQUEUE_API_KEY" <> "") /\
  forall c, Load = Ok c ->
    APIKey c = Getenv "GOQUEUE_API_KEY" /\ APIKey c <> "" /\
    PostgresURL c = Getenv "GOQUEUE_POSTGRES_URL" /\
    in_int64 (WorkerCount c) /\
    (forall e, (Atoi (Getenv "GOQUEUE_WORKER_COUNT")).2 = Some e -> WorkerCount c = 10%Z) /\
    JobTimeout c = default (30 * Second)%Z (ParseDuration (Getenv "GOQUEUE_JOB_TIMEOUT")) /\
    ShutdownTimeout c =
      default (30 * Second)%Z (ParseDuration (Getenv "GOQUEUE_SHUTDOWN_TIMEOUT")) /\
    LeaderPollInterval c =
      default (2 * Second)%Z (ParseDuration (Getenv "GOQUEUE_LEADER_POLL_INTERVAL")).
Proof.
  split; [unfold Load; repeat case_bool_decide; naive_solver|].
  intros c. unfold Load. do 2 (case_bool_decide; [done|]). intros [= <-].
  cbn [APIKey PostgresURL WorkerCount JobTimeout ShutdownTimeout LeaderPollInterval].
  split_and!; try done; try apply getEnvDuration_default.
  - unfold getEnvIntOrDefault. case_bool_decide; [unfold in_int64; lia|].
    pose proof (Atoi_int64 (Getenv "GOQUEUE_WORKER_COUNT")).
    destruct (Atoi (Getenv "GOQUEUE_WORKER_COUNT")) as [i [e|]]; simpl in *;
      [unfold in_int64; lia|done].
  - intros e He. unfold getEnvIntOrDefault. case_bool_decide; [done|].
    destruct (Atoi (Getenv "GOQUEUE_WORKER_COUNT")) as [i [e'|]]; done.
Qed.

End Config.

(** [Load] does not validate the interval of the leader election: ["0s"] is accepted, and
    [holdLock] hands it to [time.NewTicker], which panics for a period that is not
    positive. *)
Theorem Load_accepts_zero_poll_interval :
  let env key := if bool_decide (key = "GOQUEUE_LEADER_POLL_INTERVAL") then "0s" else "x" in
  exists c, Load env = Ok c /\ ~ (0 < LeaderPollInterval c)%Z.
Proof. eexists. split; [vm_compute; reflexivity|]. vm_compute. discriminate. Qed.

Lemma Load_correct_witness :
  let env key := if bool_decide (key = "GOQUEUE_WORKER_COUNT") then "many" else "x" in
  exists c, Load env = Ok c /\ APIKey c = "x" /\ WorkerCount c = 10%Z.
Proof.
  intros env. eexists. split; [reflexivity|].
  destruct (proj2 (Load_correct env) _ eq_refl) as (Hkey & _ & _ & _ & Hcount & _).
  split; [exact Hkey|]. apply (Hcount ErrSyntax). reflexivity.
Defined.
