(* ===== verification/Main.v ===== *)
(** * The program ([cmd/goqueue/main.go])

    The demo handlers and their registry, the queues, the choice of the log level, the start-up
    up to the point where the goroutines are launched (the rest is in [Instance.v]), and the
    two goroutines that collect metrics, with their loops. *)

From S2P Require Import Prelude Prog Model Services Sim Storage Queue Events Worker Scheduler Config.

Local Open Scope string_scope.
Local Open Scope go_scope.
Local Open Scope list_scope.

Inductive Level := LevelDebug | LevelInfo | LevelWarn | LevelError.

Definition logLevel (level : string) : Level :=
  if bool_decide (level = "debug") then LevelDebug
  else if bool_decide (level = "warn") then LevelWarn
  else if bool_decide (level = "error") then LevelError
  else LevelInfo.

(** ** Start-up

    What [main] does before it starts any goroutine of its own: [os.Exit(1)] with a message, or
    a configuration, a storage and a queue to work with. *)

Inductive Boot (Pool Client : Type) :=
| BExit (code : Z) (msg : string)
| BReady (cfg : Config) (level : Level) (store : PostgresStorage Pool) (rq : RedisQueue Client).
Arguments BExit {Pool Client} code msg.
Arguments BReady {Pool Client} cfg level store rq.

(** The libraries of the start-up. *)
Record BootLibs (Pool Client Source Migrate : Type) := MkLibs {
  pgxpool_New : string -> result Pool;
  pool_Ping : Pool -> result unit;
  iofs_New : result Source;
  NewWithSourceInstance : Source -> string -> result Migrate;
  m_Up : Migrate -> option MigrateError;
  redis_NewClient : string -> Client;
  client_Ping : Client -> result unit
}.
Arguments pgxpool_New {Pool Client Source Migrate} b.
Arguments pool_Ping {Pool Client Source Migrate} b.
Arguments iofs_New {Pool Client Source Migrate} b.
Arguments NewWithSourceInstance {Pool Client Source Migrate} b.
Arguments m_Up {Pool Client Source Migrate} b.
Arguments redis_NewClient {Pool Client Source Migrate} b.
Arguments client_Ping {Pool Client Source Migrate} b.

Definition boot {Pool Client Source Migrate} (Getenv : string -> string)
    (L : BootLibs Pool Client Source Migrate) : Boot Pool Client :=
  match Load Getenv with
  | Err _ => BExit 1 "failed to load config"
  | Ok cfg =>
      match NewPostgresStorage (pgxpool_New L) (pool_Ping L) (PostgresURL cfg) with
      | Err _ => BExit 1 "failed to connect to postgres"
      | Ok store =>
          match RunMigrations (iofs_New L) (NewWithSourceInstance L) (m_Up L) store with
          | Err _ => BExit 1 "failed to run migrations"
          | Ok _ =>
              match NewRedisQueue (redis_NewClient L) (client_Ping L) (RedisURL cfg) with
              | Err _ => BExit 1 "failed to connect to redis"
              | Ok rq => BReady cfg (logLevel (LogLevel cfg)) store rq
              end
          end
      end
  end.

Definition Millisecond : Duration := 1000000.

Definition demoHandler : Handler := fun _ =>
  let* n := Intn 400 in
  Sleep ((100 + n) * Millisecond)%Z ;;;
  Ret None.

Definition flakyHandler : Handler := fun _ =>
  let* n := Intn 400 in
  Sleep ((100 + n) * Millisecond)%Z ;;;
  let* m := Intn 10 in
  if (m =? 0)%Z then Ret (Some "random failure for testing") else Ret None.

Definition registry : Registry :=
  Register (Register (Register (Register NewRegistry
    "process" demoHandler) "send_email" flakyHandler) "push_notify" demoHandler)
    "generate_report" flakyHandler.

Definition queues : list string := ["default"; "email"; "notification"; "report"].

(** What [store.Pool().Stat()] says. *)
Record PoolStat := MkStat {
  AcquiredConns : Z;
  IdleConns : Z;
  MaxConns : Z;
  TotalConns : Z
}.

(** A tick of the goroutine that reports the connection pool. *)
Definition collect_pool (stat : PoolStat) : go unit :=
  metric (MSet "DBPoolAcquired" [] (AcquiredConns stat)) ;;;
  metric (MSet "DBPoolIdle" [] (IdleConns stat)) ;;;
  metric (MSet "DBPoolMax" [] (MaxConns stat)) ;;;
  metric (MSet "DBPoolTotal" [] (TotalConns stat)).

(** A tick of the goroutine that reports the queue depths; a queue whose length cannot be
    read is left alone. *)
Definition collect_depths : go unit :=
  for_each queues (fun q =>
    let* r := QueueLength q in
    match r with
    | Ok length => metric (MSet "QueueDepth" [q] length)
    | Err _ => Ret tt
    end).

(** Their loops, with the case each [select] takes: a tick (with what the pool says then), or
    [ctx.Done()], which ends them.  The answer is whether the loop returned. *)
Fixpoint pool_collector (selects : list (option PoolStat)) : go bool :=
  match selects with
  | [] => Ret false
  | None :: _ => Ret true
  | Some stat :: selects => collect_pool stat ;;; pool_collector selects
  end.

Definition depth_collector : list bool -> go bool := tick_loop collect_depths.

Lemma demoHandler_inert : inert demoHandler.
Proof. by intros p. Qed.

Lemma flakyHandler_inert : inert flakyHandler.
Proof.
  intros p. simpl. split; [done|]. intros n. split; [done|]. intros _. split; [done|].
  intros m. by destruct (m =? 0)%Z.
Qed.

Lemma registry_inert ty h : Get registry ty = Some h -> inert h.
Proof.
  unfold Get, registry, Register. simpl. rewrite !lookup_insert_Some, lookup_empty.
  pose proof demoHandler_inert. pose proof flakyHandler_inert. naive_solver.
Qed.

Section Main.
Context `{PG : Postgres} `{RD : Redis} `{HO : Host}.

(** When no call fails, a pass over the queues sets the depth gauge of each of the four
    queues, in order and once, to the number of identifiers waiting in it, and changes no
    data. *)
Theorem collect_depths_exact w :
  all_ok_go collect_depths w ->
  let w' := (run_go collect_depths w).2 in
  tbl w' = tbl w /\ rdd w' = rdd w /\
  w_metrics w' = w_metrics w ++
    ((fun q => MSet "QueueDepth" [q] (Z.of_nat (length (fifo (rdd w) q)))) <$> queues).
Proof.
  intros Hok.
  apply (wpok_run exec answered collect_depths (fun _ w' => tbl w' = tbl w /\
    rdd w' = rdd w /\ w_metrics w' = w_metrics w ++
      ((fun q => MSet "QueueDepth" [q] (Z.of_nat (length (fifo (rdd w) q)))) <$> queues)) w Hok).
  apply (wpok_for_range exec answered (fun done w' => tbl w' = tbl w /\ rdd w' = rdd w /\
    w_metrics w' = w_metrics w ++
      ((fun q => MSet "QueueDepth" [q] (Z.of_nat (length (fifo (rdd w) q)))) <$> done))).
  - split_and!; [done|done|]. by rewrite app_nil_r.
  - intros pre q post w1 _ (Ht1 & Hr1 & Hm1). apply wpok_bind, wpok_bind, wpok_rd.
    intros r w2 (Hr2 & Hnil & Hn) Ht2 Hm2 Hans. apply wpok_ret. simpl in r.
    destruct r as [n| |e]; [|done|by destruct (Hans e)]. specialize (Hn n eq_refl).
    apply wp_wpok, wp_metric. intros w3 Ht3 Hr3 Hm3. split_and!; [congruence|congruence|].
    rewrite Hm3, Hm2, Hm1, fmap_app, <- app_assoc. simpl. unfold fifo.
    by rewrite length_reverse, Hn, Hr1.
Qed.

End Main.

Lemma collect_depths_exact_witness :
  w_metrics (run_go collect_depths (sim_world ∅ [] (pushed "email" "u0" rd_empty) [] 0 [])).2 =
    [MSet "QueueDepth" ["default"] 0; MSet "QueueDepth" ["email"] 1;
     MSet "QueueDepth" ["notification"] 0; MSet "QueueDepth" ["report"] 0].
Proof.
  destruct (collect_depths_exact (sim_world ∅ [] (pushed "email" "u0" rd_empty) [] 0 []))
    as (_ & _ & Hm); [all_ok_run|].
  exact Hm.
Defined.
