(* ===== verification/Dashboard.v ===== *)
(** * The dashboard ([internal/dashboard/templates.go], [handler.go], [publisher.go],
    [internal/api/dashboard.go])

    What the pages and fragments show: the queries, the data handed to the templates, the
    chart.  The template engine and the time zone are parameters. *)

From S2P Require Import Prelude Prog Model Services Sim Storage Queue Strconv Rfc3339 Json Events.
From S2P Require Import Api.

Local Open Scope string_scope.
Local Open Scope go_scope.
Local Open Scope list_scope.

(** ** Data for the templates *)

Record JobListData := MkJobListData {
  jl_Jobs : list Job;
  jl_Page : Z;
  jl_TotalPages : Z;
  jl_Total : Z;
  jl_Filter : ListFilter;
  jl_APIKey : string
}.

Record JobDetailData := MkJobDetailData { jd_Job : Job; jd_APIKey : string }.

Record DLQData := MkDLQData { dl_Jobs : list Job; dl_APIKey : string }.

Record ChartData := MkChartData {
  cd_Labels : list string;
  cd_Completed : list Z;
  cd_Failed : list Z;
  cd_Dead : list Z
}.

Record ChartFragmentData := MkChartFragmentData { cf_ChartJSON : string }.

Record DashboardData := MkDashboardData {
  dd_Stats : gmap string Z;
  dd_APIKey : string;
  dd_JobListData : JobListData;
  dd_DLQData : DLQData;
  dd_ChartData : ChartFragmentData
}.

Inductive TemplateData :=
| TStats (stats : gmap string Z)
| TConnected (connected : bool)
| TJobList (d : JobListData)
| TJobDetail (d : JobDetailData)
| TDLQ (d : DLQData)
| TLayout (d : DashboardData)
| TDashboard (jobs : list Job) (stats : gmap string Z) (apiKey : string).

(** [json.Marshal] of a chart, which cannot fail. *)
Definition chart_Marshal (c : ChartData) : result string :=
  Ok (encode (print (JObj
    [("labels", JArr (JStr <$> cd_Labels c)); ("completed", JArr (JInt <$> cd_Completed c));
     ("failed", JArr (JInt <$> cd_Failed c)); ("dead", JArr (JInt <$> cd_Dead c))]))).

#[global] Arguments chart_Marshal : simpl never.

(** [html/template].  What a template writes before it fails is not modelled. *)
Class Views := {
  ExecuteTemplate : string -> TemplateData -> result string
}.

(** The reply of a page handler. *)
Inductive Page :=
| PHtml (html : string)
| PError (status : Z) (msg : string).

(** A double-quoted text. *)
Definition dquote : string := String (Ascii.ascii_of_nat 34) "".
Definition quoted (s : string) : string := dquote +:+ s +:+ dquote.

(** ** Time labels *)

Definition two_digits (n : Z) : string :=
  String (Ascii.ascii_of_N (Z.to_N (48 + n / 10))) (String (Ascii.ascii_of_N (Z.to_N (48 + n mod 10))) "").

(** [t.Format("15:04")]. *)
Definition Format_15_04 `{LocalTime} (t : Time) : string :=
  let minutes := ((t + zone_offset t * Second) / (60 * Second))%Z in
  two_digits ((minutes / 60) mod 24) +:+ ":" +:+ two_digits (minutes mod 60).

(** ** The chart *)

Record bucketData := MkBucket { b_completed : Z; b_failed : Z; b_dead : Z }.

Definition bucket_add (s : TimeSeriesStat) (b : bucketData) : bucketData :=
  if bool_decide (ts_Status s = "completed")
  then MkBucket (wrap64 (b_completed b + ts_Count s)) (b_failed b) (b_dead b)
  else if bool_decide (ts_Status s = "failed")
  then MkBucket (b_completed b) (wrap64 (b_failed b + ts_Count s)) (b_dead b)
  else if bool_decide (ts_Status s = "dead")
  then MkBucket (b_completed b) (b_failed b) (wrap64 (b_dead b + ts_Count s))
  else b.

(** One turn of the loop: [bucketMap] and [orderedLabels]. *)
Definition chart_turn `{LocalTime} (st : gmap string bucketData * list string)
    (s : TimeSeriesStat) : gmap string bucketData * list string :=
  let label := Format_15_04 (ts_Bucket s) in
  match st.1 !! label with
  | None => (<[label := bucket_add s (MkBucket 0 0 0)]> st.1, st.2 ++ [label])
  | Some b => (<[label := bucket_add s b]> st.1, st.2)
  end.

Definition chart_of `{LocalTime} (stats : list TimeSeriesStat) : ChartData :=
  let st := foldl chart_turn (∅, []) stats in
  let bd label := default (MkBucket 0 0 0) (st.1 !! label) in
  MkChartData st.2 ((fun l => b_completed (bd l)) <$> st.2)
    ((fun l => b_failed (bd l)) <$> st.2) ((fun l => b_dead (bd l)) <$> st.2).

Section Dashboard.
Context `{Views} `{LocalTime} `{UuidLib} `{PgTypes}.

Definition buildChartData : go (result ChartData) :=
  let* stats := GetTimeSeries (3600 * Second) "minute" in
  Ret (match stats with
       | Err e => Err ("get time series: " +:+ e)
       | Ok l => Ok (chart_of l)
       end).

(** ** The fragments *)

(** [ExecuteTemplate] into a buffer, with its error wrapped. *)
Definition render (name ctx : string) (data : TemplateData) : result string :=
  wrap_err ctx (ExecuteTemplate name data).

Definition RenderStatsFragment : go (result string) :=
  let* r := GetQueueStats in
  Ret (match r with
       | Err e => Err ("get queue stats: " +:+ e)
       | Ok stats => render "stats" "render stats" (TStats (foldl total_add ∅ stats))
       end).

Definition RenderWSStatus (connected : bool) : result string :=
  render "ws_status" "render ws status" (TConnected connected).

Definition set_limit (limit : Z) (f : ListFilter) : ListFilter :=
  MkFilter (f_Status f) (f_Queue f) (f_Type f) (f_Page f) limit.

Definition fragment_pages (total limit : Z) : Z :=
  let totalPages := int_Ceil (float64_div (float64_of_int total) (float64_of_int limit)) in
  if (totalPages <? 1)%Z then 1%Z else totalPages.

Definition RenderJobListFragment (filter : ListFilter) (apiKey : string) : go (result string) :=
  let* r := ListJobs filter in
  Ret (match r with
       | Err e => Err ("list jobs: " +:+ e)
       | Ok (jobs, total) =>
           let filter := if (f_Limit filter <? 1)%Z then set_limit 20 filter else filter in
           let totalPages := fragment_pages total (f_Limit filter) in
           render "job_list" "render job list"
             (TJobList (MkJobListData jobs (f_Page filter) totalPages total filter apiKey))
       end).

Definition RenderJobDetailFragment (apiKey : string) (id : UUID) : go (result string) :=
  let* r := GetJob id in
  Ret (match r with
       | Err e => Err ("get job: " +:+ e)
       | Ok job => render "job_detail" "render job detail"
                     (TJobDetail (MkJobDetailData job apiKey))
       end).

Definition RenderDLQFragment (apiKey : string) : go (result string) :=
  let* r := ListJobs (MkFilter "dead" "" "" 1 100) in
  Ret (match r with
       | Err e => Err ("list dead jobs: " +:+ e)
       | Ok (jobs, _) => render "dlq" "render dlq" (TDLQ (MkDLQData jobs apiKey))
       end).

Definition RenderChartDataFragment : go (result string) :=
  let* r := buildChartData in
  Ret (match r with
       | Err e => Err e
       | Ok chartData =>
           match chart_Marshal chartData with
           | Err e => Err ("marshal chart data: " +:+ e)
           | Ok chartJSON =>
               Ok ("<div id=" +:+ quoted "chart-data" +:+ " hx-swap-oob=" +:+ quoted "true" +:+
                   " style=" +:+ quoted "display:none" +:+ " data-chart='" +:+
                   chartJSON +:+ "'></div>")
           end
       end).

(** A fragment that fails is logged and left out. *)
Definition or_nothing (r : result string) : string :=
  match r with Ok html => html | Err _ => "" end.

(** What is sent to [hub.broadcast], if anything. *)
Definition broadcastAllFragments (apiKey : string) : go (option string) :=
  let* stats := RenderStatsFragment in
  let* jobList := RenderJobListFragment (MkFilter "" "" "" 1 50) apiKey in
  let* dlq := RenderDLQFragment apiKey in
  let* chart := RenderChartDataFragment in
  let allHTML := or_nothing stats +:+ or_nothing jobList +:+ or_nothing dlq +:+ or_nothing chart in
  Ret (if (0 <? String.length allHTML)%nat then Some allHTML else None).

(** What a [select] of [StartSubscriber] takes: [ctx.Done()], a message, a tick. *)
Inductive Select := SDone | SMessage (payload : string) | STick.

(** [StartSubscriber] for the cases its [select] takes: whether it has returned, and what it
    has sent to [hub.broadcast]. *)
Fixpoint StartSubscriber (apiKey : string) (selects : list Select) : go (bool * list string) :=
  let refresh rest :=
    let* html := broadcastAllFragments apiKey in
    let* r := rest in
    Ret (r.1, option_list html ++ r.2) in
  match selects with
  | [] => Ret (false, [])
  | SDone :: _ => Ret (true, [])
  | SMessage payload :: selects =>
      match event_Unmarshal payload with
      | None => StartSubscriber apiKey selects
      | Some _ => refresh (StartSubscriber apiKey selects)
      end
  | STick :: selects => refresh (StartSubscriber apiKey selects)
  end.

(** ** The pages *)

Definition page_of_fragment (status : Z) (msg : string) (r : result string) : Page :=
  match r with Err _ => PError status msg | Ok html => PHtml html end.

(** [jobs, total, _ := store.ListJobs(...)]: zero values on an error. *)
Definition list_or_zero (r : result (list Job * Z)) : list Job * Z :=
  match r with Ok p => p | Err _ => ([], 0%Z) end.

Definition stats_or_zero (r : result (list QueueStat)) : list QueueStat :=
  match r with Ok l => l | Err _ => [] end.

Definition page_pages (total : Z) : Z :=
  if (50 <? total)%Z then Z.quot (wrap64 (total + 49)) 50 else 1%Z.

Definition empty_chart : string :=
  "{" +:+ quoted "labels" +:+ ":[]," +:+ quoted "completed" +:+ ":[]," +:+
  quoted "failed" +:+ ":[]," +:+ quoted "dead" +:+ ":[]}".

(** The text written for want of a chart is the chart without entries. *)
Lemma empty_chart_correct : chart_Marshal (MkChartData [] [] [] []) = Ok empty_chart.
Proof. vm_compute. reflexivity. Qed.

Definition DashboardPageHandler (apiKey : string) (r : Request) : go Page :=
  let* l := ListJobs (MkFilter "" "" "" 1 50) in
  let (jobs, total) := list_or_zero l in
  let* d := ListJobs (MkFilter "dead" "" "" 1 100) in
  let deadJobs := (list_or_zero d).1 in
  let* s := GetQueueStats in
  let stats := foldl total_add ∅ (stats_or_zero s) in
  let totalPages := page_pages total in
  let* c := buildChartData in
  let chartJSON :=
    match c with
    | Err _ => empty_chart
    | Ok chartData => or_nothing (chart_Marshal chartData)
    end in
  let data := MkDashboardData stats apiKey
    (MkJobListData jobs 1 totalPages total (MkFilter "" "" "" 1 50) apiKey)
    (MkDLQData deadJobs apiKey) (MkChartFragmentData chartJSON) in
  Ret (page_of_fragment StatusInternalServerError "Internal Server Error"
         (ExecuteTemplate "layout.html" (TLayout data))).

(** The filter of [JobListHandler]. *)
Definition list_page (r : Request) : Z :=
  let p := r_Query r "page" in
  if negb (bool_decide (p = ""))
  then match Atoi p with
       | (page, None) => if (0 <? page)%Z then page else 1%Z
       | (_, Some _) => 1%Z
       end
  else 1%Z.

Definition JobListHandler (apiKey : string) (r : Request) : go Page :=
  let* html := RenderJobListFragment
    (MkFilter (r_Query r "filter-status") (r_Query r "filter-queue") (r_Query r "filter-type")
       (list_page r) 50) apiKey in
  Ret (page_of_fragment StatusInternalServerError "Internal Server Error" html).

Definition JobDetailHandler (apiKey : string) (r : Request) : go Page :=
  match uuid_Parse (r_URLParam r "id") with
  | None => Ret (PError StatusBadRequest "Invalid job ID")
  | Some id =>
      let* html := RenderJobDetailFragment apiKey id in
      Ret (page_of_fragment StatusNotFound "Job not found" html)
  end.

Definition DLQHandler (apiKey : string) (r : Request) : go Page :=
  let* html := RenderDLQFragment apiKey in
  Ret (page_of_fragment StatusInternalServerError "Internal Server Error" html).

(** [internal/api/dashboard.go]; an error of the template is ignored. *)
Definition DashboardHandler (apiKey : string) (r : Request) : go Page :=
  let* l := ListJobs (MkFilter "" "" "" 1 50) in
  let* s := GetQueueStats in
  let stats := foldl total_add ∅ (stats_or_zero s) in
  Ret (PHtml (or_nothing (ExecuteTemplate "dashboard.html"
         (TDashboard (list_or_zero l).1 stats apiKey)))).

End Dashboard.

(** ** The chart *)

Section Chart.
Context `{LocalTime}.

(** The sum of the counts of a label and a status. *)
Definition series (label st : string) (stats : list TimeSeriesStat) : Z :=
  foldr (fun s n => if decide (Format_15_04 (ts_Bucket s) = label /\ ts_Status s = st)
                    then ts_Count s + n else n)%Z 0%Z stats.

Lemma series_snoc label st stats s :
  series label st (stats ++ [s]) =
  (series label st stats +
   if decide (Format_15_04 (ts_Bucket s) = label /\ ts_Status s = st)%Z then ts_Count s else 0)%Z.
Proof. induction stats as [|x stats IH]; simpl; rewrite ?IH; repeat case_decide; lia. Qed.

Lemma series_absent label st stats :
  (forall s, s ∈ stats -> Format_15_04 (ts_Bucket s) <> label) -> series label st stats = 0%Z.
Proof.
  induction stats as [|s stats IH]; intros Hno; simpl; [done|].
  rewrite decide_False by (intros [Hl _]; apply (Hno s); [left|done]).
  apply IH. intros s' Hs'. apply Hno. by right.
Qed.

(** The bucket of a label after [stats]. *)
Definition bucket_of (label : string) (stats : list TimeSeriesStat) : bucketData :=
  MkBucket (wrap64 (series label "completed" stats)) (wrap64 (series label "failed" stats))
    (wrap64 (series label "dead" stats)).

Lemma bucket_of_snoc_other label stats s :
  Format_15_04 (ts_Bucket s) <> label -> bucket_of label (stats ++ [s]) = bucket_of label stats.
Proof.
  intros Hne. unfold bucket_of. rewrite !series_snoc, !decide_False by tauto. by rewrite !Z.add_0_r.
Qed.

Lemma bucket_of_snoc stats s :
  let label := Format_15_04 (ts_Bucket s) in
  bucket_of label (stats ++ [s]) = bucket_add s (bucket_of label stats).
Proof.
  intros label. unfold bucket_of, bucket_add. rewrite !series_snoc. fold label. simpl.
  rewrite !wrap64_add. repeat case_bool_decide; repeat case_decide; simplify_eq;
    rewrite ?Z.add_0_r; try done; destruct_and?; try congruence; tauto.
Qed.

(** The state of the loop: a bucket for every label met so far. *)
Lemma chart_fold stats :
  let st := foldl chart_turn (∅, []) stats in
  NoDup st.2 /\
  (forall label, label ∈ st.2 <-> exists s, s ∈ stats /\ Format_15_04 (ts_Bucket s) = label) /\
  (forall label, st.1 !! label =
     if decide (label ∈ st.2) then Some (bucket_of label stats) else None).
Proof.
  induction stats as [|s stats IH] using rev_ind; cbv zeta.
  { split_and!; [apply NoDup_nil_2| |done]. intros label. rewrite elem_of_nil. split; [done|].
    intros (s & Hs & _). by apply elem_of_nil in Hs. }
  rewrite foldl_app. simpl. destruct (foldl chart_turn (∅, []) stats) as [m ls].
  destruct IH as (Hnd & Hin & Hm). simpl in *. set (label := Format_15_04 (ts_Bucket s)).
  unfold chart_turn. simpl. fold label. rewrite (Hm label). case_decide as Hl; simpl.
  - split_and!; [done| |].
    + intros l. rewrite Hin. setoid_rewrite elem_of_app. setoid_rewrite list_elem_of_singleton.
      split; [naive_solver|]. intros (s' & [Hs'| ->] & <-); [eauto|]. by apply Hin.
    + intros l. rewrite lookup_insert. case_decide as Hll.
      * subst l. rewrite decide_True by done. by rewrite <- bucket_of_snoc.
      * rewrite Hm. case_decide; [|done]. by rewrite bucket_of_snoc_other.
  - split_and!.
    + apply NoDup_app. split_and!; [done| |apply NoDup_singleton].
      by intros l Hl' ->%list_elem_of_singleton.
    + intros l. rewrite elem_of_app, Hin, list_elem_of_singleton. setoid_rewrite elem_of_app.
      setoid_rewrite list_elem_of_singleton. naive_solver.
    + intros l. rewrite lookup_insert. case_decide as Hll.
      * subst l. rewrite decide_True by (rewrite elem_of_app, list_elem_of_singleton; by right).
        pose proof (bucket_of_snoc stats s) as Hs. fold label in Hs. simpl in Hs.
        rewrite Hs. unfold bucket_of. rewrite !(series_absent label); [done|..]; intros s' Hs' Heq; apply Hl, Hin; eauto.
      * rewrite Hm, bucket_of_snoc_other by done. do 2 case_decide; try done;
          rewrite elem_of_app, list_elem_of_singleton in *; naive_solver.
Qed.

(** The chart has one entry per time label, in the order in which the labels first occur
    in the statistics; the three series have an entry for each, and every entry is the sum of
    the counts of its label and status (0 where a status is missing), in 64 bits. *)
Theorem chart_of_correct stats :
  let c := chart_of stats in
  NoDup (cd_Labels c) /\
  (forall label, label ∈ cd_Labels c <->
     exists s, s ∈ stats /\ Format_15_04 (ts_Bucket s) = label) /\
  cd_Completed c = (fun l => wrap64 (series l "completed" stats)) <$> cd_Labels c /\
  cd_Failed c = (fun l => wrap64 (series l "failed" stats)) <$> cd_Labels c /\
  cd_Dead c = (fun l => wrap64 (series l "dead" stats)) <$> cd_Labels c.
Proof.
  destruct (chart_fold stats) as (Hnd & Hin & Hm). unfold chart_of. simpl.
  split_and!; [done|done|..]; apply list_fmap_ext; intros i l Hl%list_elem_of_lookup_2;
    by rewrite Hm, decide_True.
Qed.

End Chart.

(** ** Page counts *)

(** The page and the fragments that replace its parts agree on the number of pages: the
    integer formula of [DashboardPageHandler] and the floating-point formula of
    [RenderJobListFragment] give, for fewer than [2^53] jobs, the least number of pages of 50,
    and at least one. *)
Theorem page_counts_agree total :
  (0 <= total < 2^53)%Z ->
  page_pages total = fragment_pages total 50 /\
  page_pages total = Z.max 1 (ceil_div total 50).
Proof.
  intros Ht. unfold page_pages, fragment_pages. rewrite ceil_float_exact by lia.
  assert (Hmax : (if (ceil_div total 50 <? 1)%Z then 1%Z else ceil_div total 50) =
    Z.max 1 (ceil_div total 50)) by (destruct (Z.ltb_spec (ceil_div total 50) 1); lia).
  rewrite Hmax. assert (Hp : (if (50 <? total)%Z then Z.quot (wrap64 (total + 49)) 50 else 1%Z) =
    Z.max 1 (ceil_div total 50)); [|by rewrite Hp].
  unfold ceil_div. destruct (Z.ltb_spec 50 total).
  - rewrite wrap64_id by (unfold in_int64; lia). rewrite Z.quot_div_nonneg by lia.
    replace (total + 50 - 1)%Z with (total + 49)%Z by lia.
    pose proof (Z.div_le_lower_bound (total + 49) 50 2). lia.
  - pose proof (Z.div_le_upper_bound (total + 50 - 1) 50 1). pose proof (Z.div_lt_upper_bound (total + 50 - 1) 50 2). lia.
Qed.

Lemma page_counts_agree_witness : page_pages 101 = fragment_pages 101 50 /\ page_pages 101 = 3%Z.
Proof.
  destruct (page_counts_agree 101) as [Hagree Hval]; [lia|].
  split; [exact Hagree|exact Hval].
Defined.

(** ** The handlers *)

(** Calls that only read. *)
Definition reading (e : Eff) : Prop :=
  match e with
  | EPg (SELECT_jobs _ _ _ | COUNT_jobs _ | GROUP_queue_status _ _ | GROUP_bucket_status _ _) => True
  | ENow | ESleep _ | EIntn _ => True
  | _ => False
  end.

Section Handlers.
Context `{Views} `{LocalTime} `{UuidLib} `{PG : Postgres} `{RD : Redis} `{HO : Host}.

Lemma reading_same {A} (p : go A) w : effects reading p -> same w (run_go p w).2.
Proof.
  apply (effects_run exec reading same).
  - done.
  - intros w1 w2 w3 (? & ? & ?) (? & ? & ?). split_and!; congruence.
  - intros e w' He. destruct e as [s|c| |d|n|m]; try done; simpl.
    + destruct (pg_run s (w_pg w')) as [r st] eqn:Hr. apply pg_law in Hr.
      split_and!; [|done|done]. unfold tbl. simpl. destruct s; try done; by destruct Hr.
    + by destruct (host_now (w_host w')).
    + by destruct (host_Intn n (w_host w')).
Qed.

Lemma reading_ListJobs f : effects reading (ListJobs f).
Proof.
  unfold ListJobs. simpl. split; [done|]. intros [t|e]; [|done]. simpl. split; [done|].
  intros [rs|e]; [|done]. simpl. by destruct (scan_rows _ _).
Qed.

Lemma reading_queue_stats ctx cond b : effects reading (queue_stats ctx cond b).
Proof. simpl. split; [done|]. intros [rs|e]; [|done]. by destruct (scan_rows _ _). Qed.

Lemma reading_buildChartData : effects reading buildChartData.
Proof.
  simpl. split; [done|]. intros [rs|e]; [|done]. destruct (scan_rows _ _); [|done].
  by destruct (rows_err rs).
Qed.

Lemma series_groups label st gs :
  series label st (to_TimeSeriesStat <$> gs) =
  sum_groups (fun k => Format_15_04 k.1 = label /\ k.2 = st) gs.
Proof. induction gs as [|[[t s] c] gs IH]; csimpl; [done|]. by rewrite IH. Qed.

(** A job of the last hour, in its final status [st], that the chart shows at [label]. *)
Definition charted (now : Time) (label st : string) (j : Job) : Prop :=
  (Format_15_04 (pg_date_trunc "minute" (UpdatedAt j)) = label /\ Status j = st) /\
  in_series (3600 * Second) now j = true.

#[global] Instance charted_dec now label st j : Decision (charted now label st j).
Proof. unfold charted. apply _. Defined.

Lemma wpok_buildChartData w :
  let now := db_now w in
  wpok_go buildChartData (fun r _ => exists c, r = Ok c /\
    (forall j id, tbl w !! id = Some j -> in_series (3600 * Second) now j = true ->
       Format_15_04 (pg_date_trunc "minute" (UpdatedAt j)) ∈ cd_Labels c) /\
    cd_Completed c = (fun l => wrap64 (count (charted now l "completed") (tbl w))) <$> cd_Labels c /\
    cd_Failed c = (fun l => wrap64 (count (charted now l "failed") (tbl w))) <$> cd_Labels c /\
    cd_Dead c = (fun l => wrap64 (count (charted now l "dead") (tbl w))) <$> cd_Labels c) w.
Proof.
  intros now. apply wpok_bind, wpok_GetTimeSeries. intros gs w' _ Hgs _. apply wpok_ret.
  destruct (chart_fold (to_TimeSeriesStat <$> gs)) as (_ & Hin & Hm).
  eexists. split; [done|].
  assert (Hcount : forall l st, series l st (to_TimeSeriesStat <$> gs) =
    count (charted now l st) (tbl w)).
  { intros l st. rewrite series_groups. etrans; [apply (sum_groups_exact _ _ _ _ Hgs)|].
    unfold count. by rewrite list_filter_filter. }
  split_and!.
  - intros j id Hj Hr. apply Hin. set (k := (pg_date_trunc "minute" (UpdatedAt j), Status j)).
    assert (Hj' : j ∈ filter (fun j' => (pg_date_trunc "minute" (UpdatedAt j'), Status j') = k)
      (filter (fun j => in_series (3600 * Second) now j = true) (rows_of (tbl w)))).
    { rewrite !list_elem_of_filter, elem_of_rows_of. split_and!; [done|done|eauto]. }
    eexists (to_TimeSeriesStat (k, _)). split; [|done]. apply list_elem_of_fmap.
    eexists (k, _). split; [done|]. apply Hgs. split; [reflexivity|].
    destruct (filter _ (filter _ _)); [by apply elem_of_nil in Hj'|simpl; lia].
  - simpl. apply list_fmap_ext. intros i l Hl%list_elem_of_lookup_2.
    rewrite Hm, decide_True by done. simpl. by rewrite Hcount.
  - simpl. apply list_fmap_ext. intros i l Hl%list_elem_of_lookup_2.
    rewrite Hm, decide_True by done. simpl. by rewrite Hcount.
  - simpl. apply list_fmap_ext. intros i l Hl%list_elem_of_lookup_2.
    rewrite Hm, decide_True by done. simpl. by rewrite Hcount.
Qed.

(** (C39) When no call fails, the chart shows the jobs of the last hour by the clock of the
    server: every job that was completed, failed or died in that hour has its minute among the labels, and the entries
    of the three series are the numbers of such jobs at each label. *)
Theorem chart_shows_recent_jobs w :
  all_ok_go buildChartData w ->
  let now := db_now w in
  exists c, (run_go buildChartData w).1 = Ok c /\
    (forall j id, tbl w !! id = Some j -> in_series (3600 * Second) now j = true ->
       Format_15_04 (pg_date_trunc "minute" (UpdatedAt j)) ∈ cd_Labels c) /\
    cd_Completed c = (fun l => wrap64 (count (charted now l "completed") (tbl w))) <$> cd_Labels c /\
    cd_Failed c = (fun l => wrap64 (count (charted now l "failed") (tbl w))) <$> cd_Labels c /\
    cd_Dead c = (fun l => wrap64 (count (charted now l "dead") (tbl w))) <$> cd_Labels c.
Proof. intros Hok. by apply (wpok_buildChartData w). Qed.

(** The programs of the dashboard. *)
Definition dashboard_programs (apiKey : string) (r : Request) (selects : list Select) :
    list (go unit) :=
  [DashboardPageHandler apiKey r ;;; Ret tt; JobListHandler apiKey r ;;; Ret tt;
   JobDetailHandler apiKey r ;;; Ret tt; DLQHandler apiKey r ;;; Ret tt;
   DashboardHandler apiKey r ;;; Ret tt; StartSubscriber apiKey selects ;;; Ret tt].

Lemma reading_JobList f apiKey : effects reading (RenderJobListFragment f apiKey).
Proof. by apply effects_bind; [apply reading_ListJobs|]. Qed.

Lemma reading_DLQ apiKey : effects reading (RenderDLQFragment apiKey).
Proof. by apply effects_bind; [apply reading_ListJobs|]. Qed.

Lemma reading_broadcast apiKey : effects reading (broadcastAllFragments apiKey).
Proof.
  apply effects_bind; [by apply effects_bind; [apply reading_queue_stats|]|]. intros stats.
  apply effects_bind; [apply reading_JobList|]. intros jl.
  apply effects_bind; [apply reading_DLQ|]. intros dlq.
  apply effects_bind; [|done]. by apply effects_bind; [apply reading_buildChartData|].
Qed.

Lemma reading_subscriber apiKey selects : effects reading (StartSubscriber apiKey selects).
Proof.
  induction selects as [|[|payload|] selects IH]; [done..| |];
    cbn [StartSubscriber]; [destruct (event_Unmarshal payload); [|done]|];
    (apply effects_bind; [apply reading_broadcast|]); intros html; by apply effects_bind.
Qed.

Lemma reading_dashboard apiKey r selects p :
  p ∈ dashboard_programs apiKey r selects -> effects reading p.
Proof.
  pose proof reading_ListJobs as HL. pose proof reading_queue_stats as HS.
  pose proof reading_buildChartData as HC. pose proof reading_JobList as HF.
  pose proof reading_DLQ as HD.
  unfold dashboard_programs. rewrite !elem_of_cons, elem_of_nil.
  intros Hp. destruct_or!; subst; try done; apply effects_bind; try done.
  - apply effects_bind; [done|]. intros l. destruct (list_or_zero l) as [jobs total].
    apply effects_bind; [done|]. intros d. apply effects_bind; [apply HS|]. intros s.
    by apply effects_bind.
  - by apply effects_bind.
  - unfold JobDetailHandler. destruct (uuid_Parse _); [|done]. by apply effects_bind.
  - by apply effects_bind.
  - apply effects_bind; [done|]. intros l. apply effects_bind; [apply HS|done].
  - apply reading_subscriber.
Qed.

(** (C40) The dashboard is read-only: whatever the request, the pages and the fragments, and
    whatever it is told or ticks, the subscriber that refreshes them, leave the table, Redis and the metrics as they are, failures included. *)
Theorem dashboard_read_only apiKey r selects p w :
  p ∈ dashboard_programs apiKey r selects -> same w (run_go p w).2.
Proof. intros Hp. by eapply reading_same, reading_dashboard. Qed.

(** The event [e] at time [t]. *)
Definition stamped (e : JobEvent) (t : Time) : JobEvent :=
  MkEvent (ev_Type e) (ev_JobID e) (ev_Queue e) (ev_Status e) (Some t).

(** (C17) No event is lost on its way through JSON: whatever texts an event has (valid UTF-8, as
    PostgreSQL keeps them), each message [PublishJobEvent] puts on the channel is decoded by
    the subscriber to that event, with the time it was published at if it had none, and makes
    the subscriber refresh all fragments as a tick does; and until the year 9999 every event
    can be encoded. *)
Theorem published_events_refresh ev :
  event_utf8 ev = true ->
  effects (fun e =>
    match e with
    | ERd (PUBLISH ch data) => ch = eventChannel /\
        (exists t, event_Unmarshal data = Some (stamped ev t) /\
           (ev_Timestamp ev = Some t \/ ev_Timestamp ev = None)) /\
        forall apiKey selects, StartSubscriber apiKey (SMessage data :: selects) =
          StartSubscriber apiKey (STick :: selects)
    | ENow => True
    | _ => False
    end) (PublishJobEvent ev) /\
  forall t, in_years t -> exists data, event_Marshal (stamped ev t) = Ok data.
Proof.
  intros Hev. split.
  - assert (Hpub : forall t data, event_Marshal (stamped ev t) = Ok data ->
      event_Unmarshal data = Some (stamped ev t)).
    { intros t data. by apply (event_roundtrip (stamped ev t) t). }
    unfold PublishJobEvent. destruct (ev_Timestamp ev) as [t|] eqn:Ht; simpl.
    + assert (Hst : stamped ev t = ev) by (destruct ev; simpl in *; by subst).
      destruct (event_Marshal ev) as [data|] eqn:Hm; [|done]. rewrite <- Hst in Hm.
      apply Hpub in Hm. split; [|done]. split; [done|]. split; [by eauto|].
      intros apiKey selects. cbn [StartSubscriber]. by rewrite Hm.
    + split; [done|]. intros t. change (MkEvent _ _ _ _ _) with (stamped ev t).
      destruct (event_Marshal (stamped ev t)) as [data|] eqn:Hm; [|done]. apply Hpub in Hm.
      split; [|done]. split; [done|]. split; [by eauto|].
      intros apiKey selects. cbn [StartSubscriber]. by rewrite Hm.
  - intros t Ht. destruct (marshal_time_total (zone_offset t) t Ht (zone_day t)) as [s Hs].
    unfold event_Marshal, timestamp_text. simpl. rewrite Hs. by eexists.
Qed.

(** The dashboard page hands the API key to everybody: [/dashboard] is a route without
    authentication, and for every request, with or without the key, the data its template
    [layout.html] is executed with carries the configured key in its field [APIKey] (which
    the template writes into a script of the page). *)
Theorem dashboard_page_carries_api_key apiKey probe r w :
  MkRoute "GET" "/dashboard" false (EExternal "DashboardPageHandler") ∈ NewRouter apiKey probe /\
  exists d, dd_APIKey d = apiKey /\
    (run_go (DashboardPageHandler apiKey r) w).1 =
      page_of_fragment StatusInternalServerError "Internal Server Error"
        (ExecuteTemplate "layout.html" (TLayout d)).
Proof.
  split; [unfold NewRouter; rewrite !elem_of_app; right; right; right; left|].
  change (wp_go (DashboardPageHandler apiKey r) (fun a _ => exists d, dd_APIKey d = apiKey /\
    a = page_of_fragment StatusInternalServerError "Internal Server Error"
          (ExecuteTemplate "layout.html" (TLayout d))) w).
  apply wp_bind, wp_any. intros l w1. destruct (list_or_zero l) as [jobs total].
  apply wp_bind, wp_any. intros dl w2. apply wp_bind, wp_any. intros s w3.
  apply wp_bind, wp_any. intros c w4. apply wp_ret. eexists. split; [|reflexivity]. done.
Qed.

End Handlers.

(** A view that shows the key. *)
#[global] Instance sim_views : Views :=
  {| ExecuteTemplate := fun name d =>
       Ok (name +:+ match d with TLayout d => " key=" +:+ dd_APIKey d | _ => "" end) |}.

Example Format_15_04_example :
  Format_15_04 ((13 * 60 + 7) * 60 * Second + 5) = "22:07".
Proof. vm_compute. reflexivity. Qed.

Lemma published_events_refresh_witness :
  exists data, event_Marshal (stamped (MkEvent "job.dead" "u" "q" "running" None) 5) = Ok data.
Proof.
  apply (proj2 (published_events_refresh (MkEvent "job.dead" "u" "q" "running" None) eq_refl)).
  by split.
Defined.

Example event_text :
  event_Marshal (MkEvent "job.dead" "u" "a<b" "running" (Some 1500000000%Z)) =
    Ok ("{" +:+ quoted "type" +:+ ":" +:+ quoted "job.dead" +:+ "," +:+ quoted "job_id" +:+ ":" +:+
        quoted "u" +:+ "," +:+ quoted "queue" +:+ ":" +:+ quoted "a\u003cb" +:+ "," +:+
        quoted "status" +:+ ":" +:+ quoted "running" +:+ "," +:+ quoted "timestamp" +:+ ":" +:+
        quoted "1970-01-01T09:00:01.5+09:00" +:+ "}").
Proof. vm_compute. reflexivity. Qed.

Lemma dashboard_read_only_witness :
  same (ex_aworld [] [])
    (run_go (DLQHandler "k" (ex_request "" "" "" "") ;;; Ret tt) (ex_aworld [] [])).2.
Proof.
  apply (dashboard_read_only "k" (ex_request "" "" "" "") []).
  unfold dashboard_programs. do 3 right. left.
Defined.

Lemma chart_shows_recent_jobs_witness :
  exists c, (run_go buildChartData (ex_aworld [] [])).1 = Ok c /\
    cd_Dead c = (fun l => wrap64 (count (charted (db_now (ex_aworld [] [])) l "dead") ex_atable))
                  <$> cd_Labels c.
Proof.
  destruct (chart_shows_recent_jobs (ex_aworld [] [])) as (c & Hc & _ & _ & _ & Hd);
    [all_ok_run|].
  exists c. split; [exact Hc|exact Hd].
Defined.
