(* ===== verification/System.v ===== *)
(** * The whole system under every interleaving

    Workers, scheduler passes, metric collectors and HTTP requests of any number of instances
    share one PostgreSQL and one Redis.  A configuration is a pool of such goroutines, each
    somewhere in its program; a step is one service call of one of them, or a new goroutine.
    The class [SysInv] says what a property of the table has to survive; every program of the
    system is shown, once, to preserve whatever satisfies it. *)

From S2P Require Import Prelude Prog Model Services Sim Storage Queue Strconv Rfc3339 Json Events.
From S2P Require Import Worker Scheduler Api Main Dashboard.

Local Open Scope string_scope.
Local Open Scope go_scope.
Local Open Scope list_scope.

(** ** The interface between the programs and an invariant *)

(** [T] is an invariant of the table, [seen] what it says of a row that was read, [touch] the
    identifiers of the jobs the programs may work on.  A status written by
    [UpdateJobStatus] or [UpdateJobError] is one of those the program uses. *)
Class SysInv `{PgTypes} (T : Table -> Prop) (seen : Job -> Prop) (touch : UUID -> Prop) := {
  si_keyed : forall t, T t -> keyed t;
  si_seen : forall t id j, T t -> t !! id = Some j -> seen j;
  si_retries : forall j, seen j -> row_fits j /\ (0 <= RetryCount j)%Z;
  si_free : forall j, seen j -> Status j <> StatusRetrying -> touch (ID j);
  si_status : forall t id j st j', T t -> touch id -> t !! id = Some j ->
    st ∈ [StatusPending; StatusRunning; StatusCompleted; StatusCancelled] ->
    status_set st j j' -> row_fits j' -> T (<[id := j']> t);
  si_error : forall t id j st rc e j', T t -> touch id -> t !! id = Some j ->
    st ∈ [StatusPending; StatusFailed; StatusRetrying; StatusDead] -> (0 <= rc)%Z ->
    error_set st rc e j j' -> row_fits j' -> T (<[id := j']> t);
  si_insert : forall t id now q ty pl st mr ra, T t -> t !! id = None ->
    q <> "" -> ty <> "" -> st ∈ [StatusPending; StatusScheduled] ->
    row_fits (new_row id now q ty pl st mr 0 ra) ->
    T (<[id := new_row id now q ty pl st mr 0 ra]> t) /\ touch id;
  si_delete : forall t id j, T t -> t !! id = Some j -> Status j = StatusDead ->
    T (delete id t)
}.

Section Safe.
Context `{GoPlatform} `{UuidLib} `{LocalTime}.
Context `{PG : Postgres} `{RD : Redis} `{HO : Host}.
Context (T : Table -> Prop) (seen : Job -> Prop) (touch : UUID -> Prop) `{!SysInv T seen touch}.

(** The strings found in Redis are identifiers of jobs that may be worked on. *)
Definition named (s : string) : Prop := exists id, uuid_Parse s = Some id /\ touch id.

Definition all_named (d : RdData) : Prop :=
  (forall k s, s ∈ rd_list d k -> named s) /\
  (forall s x, schedule_of d !! s = Some x -> named s).

Definition Inv : World -> Prop := on_data (fun t d => T t /\ all_named d).

Abbreviation safely := (safe exec Inv).

Lemma named_String id : touch id -> named (uuid_String id).
Proof. intros Hid. exists id. by rewrite uuid_Parse_String. Qed.

(** *** Redis *)

Lemma all_named_pushed q s d : named s -> all_named d -> all_named (pushed q s d).
Proof.
  intros Hs [Hl Hz]. split; [|done]. intros k s'. unfold pushed. rewrite rd_list_set.
  case_decide; [|apply Hl]. subst. intros [-> |Hin]%elem_of_cons; [done|by eapply Hl].
Qed.

Lemma all_named_scheduled s tm d : named s -> all_named d -> all_named (scheduled s tm d).
Proof.
  intros Hs [Hl Hz]. split; [done|]. intros s' x. unfold scheduled.
  rewrite rd_zset_set, decide_True by done.
  rewrite lookup_insert_Some. intros [[<- _]|[_ Hin]]; [done|by eapply Hz].
Qed.

Lemma all_named_pops d ks kv d' : pops d ks kv d' -> all_named d -> all_named d' /\ named kv.2.
Proof.
  intros Hp [Hl Hz]. induction Hp as [k ks l v Hk|k ks kv d' Hk Hp IH]; [|by apply IH].
  split; [split; [|done]|].
  - intros k' s. rewrite rd_list_set. case_decide; [|apply Hl]. subst k'. intros Hin.
    apply (Hl k). rewrite Hk, elem_of_app. by left.
  - apply (Hl k). rewrite Hk, elem_of_app, list_elem_of_singleton. by right.
Qed.

Lemma all_named_taken max d ids d' :
  taken max d ids d' -> all_named d -> all_named d' /\ Forall named ids.
Proof.
  intros Ht [Hl Hz]. split; [split|].
  - intros k s. unfold rd_list. destruct Ht as (_ & _ & _ & ->). apply Hl.
  - intros s x Hs. apply (taken_rest _ _ _ _ _ _ Ht) in Hs as [Hs _]. by eapply Hz.
  - apply Forall_forall. intros s Hs. apply (elem_of_taken _ _ _ _ _ Ht) in Hs as (x & Hx & _).
    by eapply Hz.
Qed.

Lemma safe_Push q s : named s -> safely (fun _ => True) (Push q s).
Proof.
  intros Hs. apply safe_bind, safe_rd. intros t d r d' [Ht Hd] [_ Hr]. split; [|done].
  split; [done|]. destruct r as [n| |e]; simpl in Hr.
  - destruct Hr as [-> _]. by apply all_named_pushed.
  - by subst.
  - destruct Hr as [->|[n [-> _]]]; [done|by apply all_named_pushed].
Qed.

Lemma safe_Schedule s tm : named s -> safely (fun _ => True) (Schedule s tm).
Proof.
  intros Hs. apply safe_bind, safe_rd. intros t d r d' [Ht Hd] [_ Hr]. split; [|done].
  split; [done|]. destruct r as [n| |e]; simpl in Hr.
  - destruct Hr as [-> _]. by apply all_named_scheduled.
  - by subst.
  - destruct Hr as [->|[n [-> _]]]; [done|by apply all_named_scheduled].
Qed.

Lemma safe_Pop qs tm :
  safely (fun r => forall v, r = Ok v -> v = "" \/ named v) (Pop qs tm).
Proof.
  apply safe_bind, safe_rd. intros t d r d' [Ht Hd] [Hr _].
  destruct r as [[k v]| |e]; simpl in *.
  - destruct (all_named_pops _ _ _ _ Hr Hd). split; [done|]. intros ? [= <-]. by right.
  - subst. split; [done|]. intros ? [= <-]. by left.
  - split; [|done]. destruct Hr as [-> |[kv Hr]]; [done|].
    by destruct (all_named_pops _ _ _ _ Hr Hd).
Qed.

Lemma safe_GetDueJobs now :
  safely (fun r => forall ids, r = Ok ids -> Forall named ids) (GetDueJobs now).
Proof.
  apply safe_bind, safe_rd. intros t d r d' [Ht Hd] [Hnil Hr].
  destruct r as [ids| |e]; simpl in *; [|done|].
  - apply getDueJobsScript_spec in Hr. destruct (all_named_taken _ _ _ _ Hr Hd).
    split; [done|]. by intros ? [= <-].
  - split; [|done]. destruct Hr as [-> |[ids Hr]]; [done|].
    apply getDueJobsScript_spec in Hr. by destruct (all_named_taken _ _ _ _ Hr Hd).
Qed.

(** A command that changes nothing. *)
Lemma safe_rd_read c (Q : rd_resp c -> Prop) :
  (forall d r d', rd_spec c d r d' -> d' = d) -> (forall r, Q r) -> safely Q (rd c).
Proof. intros Hread HQ. apply safe_rd. intros t d r d' Hd Hr. by rewrite (Hread _ _ _ Hr). Qed.

Lemma safe_PublishJobEvent ev : safely (fun _ => True) (PublishJobEvent ev).
Proof.
  apply safe_bind. eapply (safe_mono _ _ (fun _ => True)).
  { apply safe_calm. by destruct (ev_Timestamp ev). }
  intros e _. destruct (event_Marshal e); [|by apply safe_ret].
  apply safe_bind, safe_rd_read; [|done]. by intros d r d' [-> _].
Qed.

(** *** PostgreSQL *)

Lemma safe_GetJob id :
  safely (fun r => forall j, r = Ok j -> ID j = id /\ seen j) (GetJob id).
Proof.
  apply safe_bind, safe_pg. intros db t d r t' [Ht Hd] [-> Hr]. split; [done|].
  intros j Hj. destruct r as [rs|]; [|done]. destruct (Hr rs eq_refl) as (_ & page & Hsel & Hdel).
  apply selects_by_id in Hsel; [|by apply si_keyed]. subst page.
  apply (scanJob_delivered _ _ _ Hdel) in Hj. destruct (t !! id) as [j'|] eqn:Hid; [|done].
  injection Hj as <-. split; [by apply (si_keyed _ Ht _ _ Hid)|by eapply si_seen].
Qed.

Lemma applied_inv (f : Job -> Job -> Prop) id t t' :
  T t -> applied f id t t' ->
  (forall j j', t !! id = Some j -> f j j' -> row_fits j' -> T (<[id := j']> t)) -> T t'.
Proof.
  intros Ht Ha Hf. unfold applied in Ha. destruct (t !! id) as [j|]; [|by subst].
  destruct Ha as (j' & Hj' & Hfit & ->). by eapply Hf.
Qed.

Lemma safe_update {A} (f : Job -> Job -> Prop) set id (k : result Z -> A) :
  (forall now j, f j (set now j)) ->
  (forall t j j', T t -> t !! id = Some j -> f j j' -> row_fits j' -> T (<[id := j']> t)) ->
  safely (fun _ => True) (bind (pg (UPDATE_jobs set (by_id id))) (fun r => Ret (k r))).
Proof.
  intros Hset Hf. apply safe_bind, safe_pg. intros db t d r t' [Ht Hd] Hs. split; [|done].
  split; [|done].
  assert (Hup : forall n, updates set (by_id id) t n t' -> T t').
  { intros n Hn. eapply applied_inv; [exact Ht| |by eauto].
    eapply updates_applied; [by apply si_keyed|exact Hset|exact Hn]. }
  destruct r as [n|e]; simpl in Hs; [by eapply Hup|]. destruct Hs as [-> |[n Hn]]; [done|].
  by eapply Hup.
Qed.

Lemma safe_UpdateJobStatus id st :
  touch id -> st ∈ [StatusPending; StatusRunning; StatusCompleted; StatusCancelled] ->
  safely (fun _ => True) (UpdateJobStatus id st).
Proof.
  intros Hid Hst. apply safe_bind. eapply (safe_mono _ _ (fun _ => True));
    [by apply safe_calm|]. intros now _. apply (safe_update (status_set st)).
  - intros dbnow j. by exists now, dbnow.
  - intros t j j' Ht Hj Hj' Hfit. by eapply si_status.
Qed.

Lemma safe_UpdateJobError id st rc e :
  touch id -> st ∈ [StatusPending; StatusFailed; StatusRetrying; StatusDead] -> (0 <= rc)%Z ->
  safely (fun _ => True) (UpdateJobError id st rc e).
Proof.
  intros Hid Hst Hrc. apply (safe_update (error_set st rc e)).
  - intros dbnow j. by exists dbnow.
  - intros t j j' Ht Hj Hj' Hfit. by eapply si_error.
Qed.

Lemma safe_CreateJob job :
  Queue job <> "" -> JobType job <> "" -> Status job ∈ [StatusPending; StatusScheduled] ->
  RetryCount job = 0%Z ->
  safely (fun r => forall j, r = Ok j -> touch (ID j)) (CreateJob job).
Proof.
  intros Hq Hty Hst Hrc. apply safe_bind, safe_pg. intros db t d r t' [Ht Hd] Hs.
  rewrite Hrc in Hs.
  assert (Hins : forall j, inserts (Queue job) (JobType job) (Payload job) (Status job)
    (MaxRetries job) 0 (RunAt job) t j t' -> T t' /\ touch (ID j)).
  { intros j (id & now & Hid & -> & Hfit & ->). simpl. by apply si_insert. }
  simpl in r. destruct r as [j|e]; simpl in Hs.
  - destruct (Hins j Hs). split; [done|]. by intros ? [= <-].
  - split; [|done]. split; [|done]. destruct Hs as [-> |[j Hj]]; [done|]. by apply (Hins j).
Qed.

Lemma safe_DeleteJob id : safely (fun _ => True) (DeleteJob id).
Proof.
  apply safe_bind, safe_pg. intros db t d r t' [Ht Hd] Hs. split; [|done]. split; [|done].
  assert (Hdel : forall n, deletes (fun j => by_id id j && bool_decide (Status j = StatusDead))
    t n t' -> T t').
  { intros n [_ ->]. rewrite sql_delete_by_id by (by apply si_keyed).
    destruct (t !! id) as [j|] eqn:Hj; [|done]. case_bool_decide; [|done]. by eapply si_delete. }
  destruct r as [n|e]; simpl in Hs; [by eapply Hdel|].
  destruct Hs as [-> |[n Hn]]; [done|by eapply Hdel].
Qed.

(** A query. *)
Lemma safe_pg_read s (Q : pg_resp s -> Prop) :
  (forall now t r t', pg_spec s now t r t' -> t' = t) -> (forall r, Q r) -> safely Q (pg s).
Proof. intros Hread HQ. apply safe_pg. intros db t d r t' Hd Hr. by rewrite (Hread _ _ _ _ Hr). Qed.

Lemma safe_query_jobs ctx cond o :
  safely (fun r => forall jobs, r = Ok jobs -> forall j, j ∈ jobs -> cond j = true /\ seen j)
    (query_jobs ctx cond o).
Proof.
  apply safe_bind, safe_pg. intros db t d r t' [Ht Hd] [-> Hr]. split; [done|]. simpl in r.
  destruct r as [rs|e]; [|done]. destruct (Hr rs eq_refl) as [_ Hpage]. simpl.
  intros jobs Hscan j Hj.
  pose proof (selects_lists _ _ _ _ _ _ _ _ Hpage ltac:(lia) Hscan) as Hl.
  destruct (lists_elem _ _ _ _ _ _ _ Hl Hj) as [Hc [id Hid]]. split; [done|by eapply si_seen].
Qed.

Lemma safe_Storage_ListJobs f : safely (fun _ => True) (ListJobs f).
Proof.
  apply safe_bind, safe_pg_read; [by intros db t r t' [-> _]|]. intros [n|e]; [|by apply safe_ret].
  apply safe_bind, safe_pg_read; [by intros db t r t' [-> _]|]. intros [rs|e]; [|by apply safe_ret].
  by destruct (scan_rows _ _); apply safe_ret.
Qed.

Lemma safe_queue_stats ctx cond b : safely (fun _ => True) (queue_stats ctx cond b).
Proof.
  apply safe_bind, safe_pg_read; [by intros db t r t' [-> _]|]. intros [rs|e]; [|by apply safe_ret].
  by destruct (scan_rows _ _); apply safe_ret.
Qed.

(** *** The programs *)

(** Sequencing when nothing is needed of the first answer. *)
Lemma safe_seq {A B} (p : go A) (f : A -> go B) (Q : B -> Prop) :
  safely (fun _ => True) p -> (forall a, safely Q (f a)) -> safely Q (bind p f).
Proof. intros Hp Hf. apply safe_bind. eapply safe_mono; [exact Hp|]. auto. Qed.

Lemma safe_publish ev : safely (fun _ => True) (let* _ := PublishJobEvent ev in Ret tt).
Proof. apply safe_seq; [apply safe_PublishJobEvent|done]. Qed.

Lemma safe_handleFailure job e :
  touch (ID job) -> seen job -> safely (fun _ => True) (Worker.handleFailure job e).
Proof.
  intros Hid Hseen. destruct (si_retries _ Hseen) as [[_ Hrc] Hnn]. unfold handleFailure.
  rewrite in_int32_succ by done. destruct (_ <=? _)%Z.
  - apply safe_seq; [|intros _; apply safe_publish].
    apply safe_UpdateJobError; [done|by apply (bool_decide_unpack _)|lia].
  - apply safe_seq; [|intros _].
    { apply safe_UpdateJobError; [done|by apply (bool_decide_unpack _)|lia]. }
    apply safe_seq; [apply safe_publish|intros _]. apply safe_seq; [by apply safe_calm|intros _].
    apply safe_seq; [by apply safe_calm|intros now].
    apply safe_seq; [by apply safe_Schedule, named_String|done].
Qed.

Lemma safe_report job start err :
  touch (ID job) -> seen job -> safely (fun _ => True) (report (ID job) job start err).
Proof.
  intros Hid Hseen. destruct err as [e|]; unfold report;
    apply safe_seq; try (by apply safe_calm); intros d;
    apply safe_seq; try (by apply safe_calm); intros _;
    apply safe_seq; try (by apply safe_calm); intros _;
    apply safe_seq; try (by apply safe_calm).
  - intros _. by apply safe_handleFailure.
  - apply safe_UpdateJobStatus; [done|by apply (bool_decide_unpack _)].
  - intros _. apply safe_publish.
Qed.

Lemma safe_process registry s :
  (forall ty h, Get registry ty = Some h -> inert h) -> named s ->
  safely (fun _ => True) (process registry s).
Proof.
  intros Hinert (id & Hs & Hid). unfold process. rewrite Hs. apply safe_bind.
  eapply safe_mono; [apply safe_GetJob|]. intros [job|e] Hj; [|by apply safe_ret].
  destruct (Hj job eq_refl) as [<- Hseen]. destruct (Get registry (JobType job)) as [h|] eqn:Hh.
  - apply safe_bind. eapply safe_mono.
    { apply safe_UpdateJobStatus; [done|by apply (bool_decide_unpack _)]. }
    intros [u|e] _; [|by apply safe_ret].
    apply safe_seq; [apply safe_publish|intros _]. apply safe_seq; [by apply safe_calm|intros start].
    apply safe_seq; [|intros err; by apply safe_report].
    apply safe_calm. eapply effects_mono; [|apply (Hinert _ _ Hh)]. by intros [].
  - apply safe_seq; [|done]. destruct (si_retries _ Hseen).
    by apply safe_UpdateJobError; [|apply (bool_decide_unpack _)|].
Qed.

Lemma safe_worker_turn registry qs ctxErr :
  (forall ty h, Get registry ty = Some h -> inert h) ->
  safely (fun _ => True) (worker_turn registry qs ctxErr).
Proof.
  intros Hinert. apply safe_bind. eapply safe_mono; [apply safe_Pop|]. intros [v|e] Hv.
  - case_bool_decide as Hne; [by apply safe_ret|].
    destruct (Hv v eq_refl) as [|Hn]; [done|]. apply safe_seq; [|done].
    apply safe_seq; [by apply safe_calm|intros _].
    apply safe_seq; [by apply safe_process|intros _]. by apply safe_calm.
  - destruct ctxErr; [by apply safe_ret|]. apply safe_seq; [by apply safe_calm|done].
Qed.

Lemma safe_enqueue_due s : named s -> safely (fun _ => True) (enqueue_due s).
Proof.
  intros Hn. pose proof Hn as (id & Hs & Hid). unfold enqueue_due. rewrite Hs. apply safe_bind.
  eapply safe_mono; [apply safe_GetJob|]. intros [job|e] Hj; [|by apply safe_ret].
  destruct (Hj job eq_refl) as [<- Hseen]. apply safe_bind.
  eapply safe_mono; [by apply safe_Push|]. intros [u|e] _; [|by apply safe_ret].
  apply safe_seq; [|intros _; apply safe_publish]. case_bool_decide; [|by apply safe_ret].
  apply safe_seq; [|done]. apply safe_UpdateJobStatus; [done|by apply (bool_decide_unpack _)].
Qed.

Lemma safe_processScheduledJobs : safely (fun _ => True) processScheduledJobs.
Proof.
  apply safe_seq; [by apply safe_calm|intros now]. apply safe_bind.
  eapply safe_mono; [apply safe_GetDueJobs|]. intros [ids|e] Hids; [|by apply safe_ret].
  specialize (Hids ids eq_refl). rewrite Forall_forall in Hids.
  apply safe_for_each. intros s Hs. by apply safe_enqueue_due, Hids.
Qed.

(** A row read with a status that is not [retrying] may be worked on. *)
Lemma pending_free cutoff j : pending_before cutoff j = true -> seen j -> touch (ID j).
Proof.
  unfold pending_before. rewrite !andb_true_iff, bool_decide_eq_true. intros [[Hst _] _] Hj.
  apply si_free; [done|]. by rewrite Hst.
Qed.

Lemma running_free cutoff j : running_before cutoff j = true -> seen j -> touch (ID j).
Proof.
  unfold running_before. rewrite andb_true_iff, bool_decide_eq_true. intros [Hst _] Hj.
  apply si_free; [done|]. by rewrite Hst.
Qed.

Lemma safe_recoverUnqueuedJobs : safely (fun _ => True) recoverUnqueuedJobs.
Proof.
  apply safe_bind. unfold GetPendingUnqueued. apply safe_seq; [by apply safe_calm|intros now].
  eapply safe_mono; [apply safe_query_jobs|]. intros [jobs|e] Hjobs; [|by apply safe_ret].
  apply safe_for_each. intros j Hj. destruct (Hjobs jobs eq_refl j Hj) as [Hc Hseen].
  apply safe_seq; [|done]. by eapply safe_Push, named_String, pending_free.
Qed.

Lemma safe_recoverStaleJobs jobTimeout : safely (fun _ => True) (recoverStaleJobs jobTimeout).
Proof.
  apply safe_bind. unfold GetStaleRunningJobs. apply safe_seq; [by apply safe_calm|intros now].
  eapply safe_mono; [apply safe_query_jobs|]. intros [jobs|e] Hjobs; [|by apply safe_ret].
  apply safe_for_each. intros j Hj. destruct (Hjobs jobs eq_refl j Hj) as [Hc Hseen].
  apply safe_seq; [|intros _; apply safe_publish]. destruct (si_retries _ Hseen).
  apply safe_UpdateJobError; [by eapply running_free|by apply (bool_decide_unpack _)|done].
Qed.

Lemma safe_collect_depths : safely (fun _ => True) collect_depths.
Proof.
  apply safe_for_each. intros q _. apply safe_bind. unfold QueueLength. apply safe_bind.
  apply safe_rd_read; [by intros d r d' [-> _]|]. intros [n| |e]; by apply safe_ret.
Qed.

Lemma safe_reading {A} (p : go A) : effects reading p -> safely (fun _ => True) p.
Proof.
  induction p as [a|e k IH]; simpl; [done|]. intros [He Hk] w Hw.
  destruct (exec e w) as [x w'] eqn:Hx. split; [|by apply IH].
  destruct e as [s|c| |d|n|m]; try done; simpl in Hx.
  - destruct (pg_run s (w_pg w)) as [r st] eqn:Hr. injection Hx as <- <-. apply pg_law in Hr.
    unfold Inv, on_data, tbl in *. simpl.
    assert (pg_table st = pg_table (w_pg w)) as -> by (by destruct s; try done; destruct Hr).
    done.
  - destruct (host_now _). by injection Hx as <- <-.
  - by injection Hx as <- <-.
  - destruct (host_Intn _ _). by injection Hx as <- <-.
Qed.

(** *** The handlers *)

Lemma requested_fields r job :
  requested r = Some job ->
  Queue job <> "" /\ JobType job <> "" /\ Status job ∈ [StatusPending; StatusScheduled] /\
  RetryCount job = 0%Z.
Proof.
  unfold requested. destruct (r_Decode r) as [req|]; simpl; [|done].
  case_bool_decide; simpl; [done|]. case_bool_decide; simpl; [done|].
  unfold Handler.new_job. destruct (req_RunAt req) as [x|].
  - destruct (Parse_RFC3339 x); [|done]. intros [= <-]. simpl.
    split_and!; try done. by apply (bool_decide_unpack _).
  - intros [= <-]. simpl. split_and!; try done. by apply (bool_decide_unpack _).
Qed.

Lemma safe_h_CreateJob r : safely (fun _ => True) (Handler.CreateJob r).
Proof.
  destruct (requested r) as [job|] eqn:Hreq.
  - rewrite (CreateJob_requested r job Hreq).
    destruct (requested_fields r job Hreq) as (Hq & Hty & Hst & Hrc).
    apply safe_bind. eapply safe_mono; [by apply safe_CreateJob|].
    intros [j|e] Hj; [|by apply safe_ret]. apply safe_seq; [|done].
    assert (Hn : named (uuid_String (ID j))) by (by apply named_String, Hj).
    unfold Handler.enqueue. destruct (RunAt job); (apply safe_seq; [|done]);
      [by apply safe_Schedule|by apply safe_Push].
  - unfold requested in Hreq. unfold Handler.CreateJob. destruct (r_Decode r) as [req|]; [|done].
    simpl in Hreq. destruct (_ || _); [done|]. by rewrite Hreq.
Qed.

Lemma safe_h_GetJob r : safely (fun _ => True) (Handler.GetJob r).
Proof.
  unfold Handler.GetJob. destruct (uuid_Parse _); [|done]. apply safe_bind.
  eapply safe_mono; [apply safe_GetJob|]. by intros [] _.
Qed.

Lemma safe_h_CancelJob r : safely (fun _ => True) (Handler.CancelJob r).
Proof.
  unfold Handler.CancelJob. destruct (uuid_Parse _) as [id|]; [|done]. apply safe_bind.
  eapply safe_mono; [apply safe_GetJob|]. intros [job|e] Hj; [|done].
  destruct (Hj job eq_refl) as [<- Hseen]. rewrite cancellable_correct.
  destruct (cancellable job) eqn:Hc; cbn [negb]; [|done]. apply safe_bind. eapply safe_mono.
  { apply safe_UpdateJobStatus; [|by apply (bool_decide_unpack _)]. apply si_free; [done|].
    intros Hst. unfold cancellable in Hc. by rewrite Hst in Hc. }
  intros [u|e] _; [|done]. apply safe_seq; [apply safe_publish|done].
Qed.

Lemma safe_h_RetryJob r : safely (fun _ => True) (Handler.RetryJob r).
Proof.
  unfold Handler.RetryJob. destruct (uuid_Parse _) as [id|]; [|done]. apply safe_bind.
  eapply safe_mono; [apply safe_GetJob|]. intros [job|e] Hj; [|done].
  destruct (Hj job eq_refl) as [<- Hseen]. case_bool_decide as Hst; cbn [negb]; [|done].
  assert (Hid : touch (ID job)) by (apply si_free; [done|by rewrite Hst]).
  apply safe_bind. eapply safe_mono.
  { by apply safe_UpdateJobError; [|apply (bool_decide_unpack _)|]. }
  intros [u|e] _; [|done]. apply safe_seq; [by apply safe_Push, named_String|intros _].
  apply safe_seq; [apply safe_publish|done].
Qed.

Lemma safe_route apiKey probe rt h r :
  rt ∈ NewRouter apiKey probe -> rt_Endpoint rt = EHandler h -> safely (fun _ => True) (h r).
Proof.
  intros Hrt Hh.
  assert (Hkey : forall g, safely (fun _ => True) (g r) ->
    safely (fun _ => True) (APIKeyAuth apiKey g r)).
  { intros g Hg. unfold APIKeyAuth. by destruct (negb _). }
  unfold NewRouter, api_v1 in Hrt. simpl in Hrt.
  repeat (rewrite elem_of_cons in Hrt; destruct Hrt as [-> |Hrt];
    [simpl in Hh; first [discriminate Hh|injection Hh as <-]|]);
    [..|by apply elem_of_nil in Hrt]; try done; apply Hkey.
  - apply safe_h_CreateJob.
  - apply safe_seq; [apply safe_Storage_ListJobs|by intros [[]|]].
  - apply safe_h_GetJob.
  - apply safe_h_CancelJob.
  - apply safe_h_RetryJob.
  - unfold Handler.DeleteJob. destruct (uuid_Parse _); [|done].
    apply safe_seq; [apply safe_DeleteJob|by intros []].
  - apply safe_seq; [apply safe_queue_stats|by intros []].
  - apply safe_seq; [apply safe_queue_stats|by intros []].
  - apply safe_seq; [apply safe_queue_stats|by intros []].
Qed.

End Safe.

(** ** The goroutines of the system *)

Section System.
Context `{GoPlatform} `{UuidLib} `{LocalTime} `{Views}.
Context `{PG : Postgres} `{RD : Redis} `{HO : Host}.

(** A turn of a worker, a pass of a scheduler loop, a tick of a collector, a page or a refresh
    of the dashboard, a request to a route of the API with any content; of any instance, at
    any time. *)
Inductive goroutine (reg : Registry) (qs : list string) (jobTimeout : Duration)
    (apiKey : string) : go unit -> Prop :=
| g_worker ctxErr :
    goroutine reg qs jobTimeout apiKey (worker_turn reg qs ctxErr ;;; Ret tt)
| g_scheduled : goroutine reg qs jobTimeout apiKey processScheduledJobs
| g_recovery : goroutine reg qs jobTimeout apiKey recoverUnqueuedJobs
| g_stale : goroutine reg qs jobTimeout apiKey (recoverStaleJobs jobTimeout)
| g_depths : goroutine reg qs jobTimeout apiKey collect_depths
| g_pool stat : goroutine reg qs jobTimeout apiKey (collect_pool stat)
| g_dashboard r selects p :
    p ∈ dashboard_programs apiKey r selects -> goroutine reg qs jobTimeout apiKey p
| g_request probe external rt h r :
    rt ∈ NewRouter apiKey probe -> rt_Endpoint rt = EHandler h ->
    goroutine reg qs jobTimeout apiKey (serve external rt r ;;; Ret tt).

Lemma goroutine_safe reg qs jobTimeout apiKey T seen touch `{!SysInv T seen touch} p :
  (forall ty h, Get reg ty = Some h -> inert h) ->
  goroutine reg qs jobTimeout apiKey p -> safe exec (Inv T touch) (fun _ => True) p.
Proof.
  intros Hinert [ctxErr| | | | |stat|r selects p' Hp|probe external rt h r Hrt Hh].
  - eapply safe_seq; [by eapply safe_worker_turn|done].
  - by eapply safe_processScheduledJobs.
  - by eapply safe_recoverUnqueuedJobs.
  - by eapply safe_recoverStaleJobs.
  - by apply safe_collect_depths.
  - by apply safe_calm.
  - by eapply safe_reading, reading_dashboard.
  - apply safe_seq; [|done]. unfold serve. rewrite Hh. unfold RequestLogger.
    apply safe_seq; [by apply safe_calm|intros start].
    apply safe_seq; [by eapply safe_route|intros resp].
    apply safe_seq; [by apply safe_calm|done].
Qed.

(** The rule for the system: what satisfies [SysInv] holds after any number of steps. *)
Lemma system_reachable reg qs jobTimeout apiKey T seen touch `{!SysInv T seen touch} w ts w' :
  (forall ty h, Get reg ty = Some h -> inert h) ->
  T (tbl w) -> all_named touch (rdd w) ->
  rtc (pstep exec (goroutine reg qs jobTimeout apiKey)) ([], w) (ts, w') ->
  T (tbl w') /\ all_named touch (rdd w').
Proof.
  intros Hinert Ht Hn Hsteps.
  eapply (safe_reachable exec (Inv T touch)); [|done|done|exact Hsteps].
  intros p Hp. by eapply goroutine_safe.
Qed.

(** ** Well-formed rows *)

(** A valid status, a queue and a type, a retry count that is not negative and fits its
    column, a start time while running, a completion time once completed. *)
Definition well_formed (j : Job) : Prop :=
  IsValid (Status j) = true /\ Queue j <> "" /\ JobType j <> "" /\ (0 <= RetryCount j)%Z /\
  row_fits j /\ (Status j = StatusRunning -> StartedAt j <> None) /\
  (Status j = StatusCompleted -> CompletedAt j <> None).

Definition well_formed_table (t : Table) : Prop :=
  map_Forall (fun id j => ID j = id /\ well_formed j) t.

Lemma well_formed_keyed t : well_formed_table t -> keyed t.
Proof. intros Ht id j Hj. by apply (Ht _ _ Hj). Qed.

Lemma well_formed_insert t id j :
  well_formed_table t -> ID j = id -> well_formed j -> well_formed_table (<[id := j]> t).
Proof. intros. by apply map_Forall_insert_2. Qed.

Lemma well_formed_status st j j' :
  well_formed j -> st ∈ [StatusPending; StatusRunning; StatusCompleted; StatusCancelled] ->
  status_set st j j' -> well_formed j'.
Proof.
  intros (Hv & Hq & Hty & Hrc & Hfit & Hrun & Hdone) Hst (now & dbnow & ->).
  rewrite !elem_of_cons, elem_of_nil in Hst. unfold well_formed. simpl.
  destruct_or!; subst; try done.
Qed.

Lemma well_formed_error st rc e j j' :
  well_formed j -> st ∈ [StatusPending; StatusFailed; StatusRetrying; StatusDead] ->
  (0 <= rc)%Z -> error_set st rc e j j' -> row_fits j' -> well_formed j'.
Proof.
  intros (Hv & Hq & Hty & Hrc & Hfit & Hrun & Hdone) Hst Hpos (dbnow & ->) Hfit'.
  rewrite !elem_of_cons, elem_of_nil in Hst. unfold well_formed. simpl in *.
  destruct_or!; subst; done.
Qed.

Lemma well_formed_new id now q ty pl st mr ra :
  q <> "" -> ty <> "" -> st ∈ [StatusPending; StatusScheduled] ->
  row_fits (new_row id now q ty pl st mr 0 ra) -> well_formed (new_row id now q ty pl st mr 0 ra).
Proof.
  intros Hq Hty Hst Hfit. rewrite !elem_of_cons, elem_of_nil in Hst.
  unfold well_formed. simpl. destruct_or!; subst; done.
Qed.

#[local] Instance well_formed_inv :
  SysInv well_formed_table well_formed (fun _ => True).
Proof.
  split; try done.
  - apply well_formed_keyed.
  - intros t id j Ht Hj. by apply (Ht _ _ Hj).
  - by intros j (_ & _ & _ & ? & ? & _).
  - intros t id j st j' Ht _ Hj Hst Hj' _. destruct (Ht _ _ Hj) as [Hid Hwf].
    apply well_formed_insert; [done| |by eapply well_formed_status]. by destruct Hj' as (? & ? & ->).
  - intros t id j st rc e j' Ht _ Hj Hst Hrc Hj' Hfit. destruct (Ht _ _ Hj) as [Hid Hwf].
    apply well_formed_insert; [done| |by eapply well_formed_error]. by destruct Hj' as (? & ->).
  - intros t id now q ty pl st mr ra Ht Hid Hq Hty Hst Hfit. split; [|done].
    apply well_formed_insert; [done|done|by apply well_formed_new].
  - intros t id j Ht Hj _. by apply map_Forall_delete.
Qed.

(** (C1) However workers, scheduler passes, collectors and HTTP requests of all instances
    interleave, and whatever calls fail: every row keeps its identifier as key, has one of
    the eight statuses, a non-empty queue and type, a non-negative retry count within its
    column, a start time if it is running (so that the check for stale jobs sees it) and a
    completion time if it is completed; and every entry of a queue or of the schedule is a
    well-formed identifier. *)
Theorem system_well_formed reg qs jobTimeout apiKey w ts w' :
  (forall ty h, Get reg ty = Some h -> inert h) ->
  well_formed_table (tbl w) -> all_named (fun _ => True) (rdd w) ->
  rtc (pstep exec (goroutine reg qs jobTimeout apiKey)) ([], w) (ts, w') ->
  well_formed_table (tbl w') /\
  (forall q s, s ∈ fifo (rdd w') q -> is_Some (uuid_Parse s)) /\
  (forall s x, schedule_of (rdd w') !! s = Some x -> is_Some (uuid_Parse s)).
Proof.
  intros Hinert Ht Hn Hsteps.
  destruct (system_reachable _ _ _ _ _ _ _ _ _ _ Hinert Ht Hn Hsteps) as [Ht' [Hl Hz]].
  split; [done|split].
  - intros q s Hs. unfold fifo in Hs. rewrite elem_of_reverse in Hs.
    destruct (Hl _ _ Hs) as (id & Hid & _). eauto.
  - intros s x Hs. destruct (Hz _ _ Hs) as (id & Hid & _). eauto.
Qed.

(** ** Jobs that are lost *)

(** The row [lost] is retrying; nothing in Redis leads to it. *)
Definition lost_table (lost : Job) (t : Table) : Prop :=
  well_formed_table t /\ t !! ID lost = Some lost.

Definition not_lost (lost : Job) (j : Job) : Prop :=
  well_formed j /\ (ID j = ID lost -> j = lost).

Lemma lost_inv lost :
  Status lost = StatusRetrying ->
  SysInv (lost_table lost) (not_lost lost) (fun id => id <> ID lost).
Proof.
  intros Hst0.
  assert (Hkeep : forall t id j, lost_table lost t -> id <> ID lost ->
    well_formed_table (<[id := j]> t) -> lost_table lost (<[id := j]> t)).
  { intros t id j [_ Hl] Hne Hwf. split; [done|]. by rewrite lookup_insert_ne. }
  split.
  - intros t [Ht _]. by apply well_formed_keyed.
  - intros t id j [Ht Hl] Hj. destruct (Ht _ _ Hj) as [Hid Hwf]. split; [done|]. congruence.
  - by intros j [(_ & _ & _ & ? & ? & _) _].
  - intros j [_ Hj] Hst Heq. rewrite (Hj Heq) in Hst. done.
  - intros t id j st j' Ht Hne Hj Hst Hj' Hfit. apply Hkeep; [done..|]. destruct Ht as [Ht _].
    by eapply (si_status (T := well_formed_table) (touch := fun _ => True)).
  - intros t id j st rc e j' Ht Hne Hj Hst Hrc Hj' Hfit. apply Hkeep; [done..|].
    destruct Ht as [Ht _]. by eapply (si_error (T := well_formed_table) (touch := fun _ => True)).
  - intros t id now q ty pl st mr ra Ht Hid Hq Hty Hst Hfit.
    assert (Hne : id <> ID lost) by (destruct Ht as [_ Hl]; congruence).
    split; [|done]. apply Hkeep; [done..|]. destruct Ht as [Ht _].
    by apply (si_insert (T := well_formed_table) (touch := fun _ => True)).
  - intros t id j [Ht Hl] Hj Hdead. split; [by apply map_Forall_delete|].
    rewrite lookup_delete_ne; [done|]. intros ->. rewrite Hl in Hj. simplify_eq.
    by rewrite Hst0 in Hdead.
Qed.

(** (C7) A retrying job that is neither on the schedule nor in a queue is lost for good.
    Whatever workers, scheduler passes and API requests run afterwards, in any order and
    number, its row never changes again and no queue and no schedule ever holds its
    identifier: it is not retried, does not die, and can be neither cancelled, retried nor
    deleted through the API. *)
Theorem lost_retry_is_lost_forever reg qs jobTimeout apiKey lost w ts w' :
  (forall ty h, Get reg ty = Some h -> inert h) ->
  well_formed_table (tbl w) -> tbl w !! ID lost = Some lost -> Status lost = StatusRetrying ->
  all_named (fun id => id <> ID lost) (rdd w) ->
  rtc (pstep exec (goroutine reg qs jobTimeout apiKey)) ([], w) (ts, w') ->
  tbl w' !! ID lost = Some lost /\
  (forall q, uuid_String (ID lost) ∉ fifo (rdd w') q) /\
  schedule_of (rdd w') !! uuid_String (ID lost) = None.
Proof.
  intros Hinert Ht Hl Hst Hn Hsteps. pose proof (lost_inv lost Hst) as Hinv.
  destruct (system_reachable reg qs jobTimeout apiKey _ _ _ w ts w' Hinert (conj Ht Hl) Hn Hsteps)
    as [[_ Hl'] [Hq Hz]].
  assert (Hno : ~ named (fun id => id <> ID lost) (uuid_String (ID lost))).
  { intros (id & Hid & Hne). rewrite uuid_Parse_String in Hid. by injection Hid as <-. }
  split_and!; [done| |].
  - intros q Hin. unfold fifo in Hin. rewrite elem_of_reverse in Hin. by apply Hno, (Hq _ _ Hin).
  - destruct (schedule_of (rdd w') !! _) as [x|] eqn:Hx; [|done]. by destruct (Hno (Hz _ _ Hx)).
Qed.

End System.

(** ** Examples on the reference services *)

#[global] Instance well_formed_dec j : Decision (well_formed j).
Proof. unfold well_formed. apply _. Defined.

#[global] Instance well_formed_table_dec t : Decision (well_formed_table t).
Proof. unfold well_formed_table. apply _. Defined.

Lemma ex_stable_well_formed : well_formed_table ex_stable.
Proof. apply (bool_decide_unpack _). by vm_compute. Qed.

Lemma rd_empty_named P : all_named P rd_empty.
Proof.
  split; [intros k s Hs|intros s x Hs].
  - unfold rd_list in Hs. simpl in Hs. rewrite lookup_empty in Hs. by apply elem_of_nil in Hs.
  - by vm_compute in Hs.
Qed.

Abbreviation ex_system := (pstep exec (goroutine registry queues (30 * Second) "k")).

(** The world after the pass of [due_job_lost_on_failed_push]. *)
Definition ex_lost_world : World := (run_go processScheduledJobs (ex_sworld [Fine; Refuse])).2.

Lemma ex_lost_rdd : rdd ex_lost_world =
  MkRd {[ queueKey "report" := [uuid_String (uuid_of_N 2)] ]} {[ scheduledSetKey := ∅ ]}.
Proof. vm_compute. reflexivity. Qed.

Lemma ex_lost_named : all_named (fun id => id <> ID ex_retrying) (rdd ex_lost_world).
Proof.
  rewrite ex_lost_rdd. split.
  - intros k s. unfold rd_list. simpl. destruct (decide (queueKey "report" = k)) as [<-|Hne].
    + rewrite lookup_singleton_eq. simpl. intros ->%list_elem_of_singleton.
      refine (named_String (fun id => id <> ID ex_retrying) (uuid_of_N 2) _).
      by intros ?%(f_equal uuid_bits).
    + rewrite lookup_singleton_ne by done. intros Hs. by apply elem_of_nil in Hs.
  - intros s x. unfold rd_zset. simpl. rewrite lookup_singleton_eq. simpl. by rewrite lookup_empty.
Qed.

Lemma ex_lost_well_formed : well_formed_table (tbl ex_lost_world).
Proof. apply (bool_decide_unpack _). vm_compute. exact I. Qed.

(** A scheduler pass is started and reads the clock. *)
Lemma ex_two_steps w :
  rtc ex_system ([], w)
    (<[0%nat := let* r := GetDueJobs (clock w) in
               match r with Err _ => Ret tt | Ok ids => for_each ids enqueue_due end]>
       [processScheduledJobs], (exec ENow w).2).
Proof.
  eapply rtc_l; [apply pstep_spawn, g_scheduled|]. apply rtc_once.
  by apply (pstep_effect exec _ [processScheduledJobs] 0 ENow (fun now =>
    let* r := GetDueJobs now in
    match r with Err _ => Ret tt | Ok ids => for_each ids enqueue_due end) w (clock w)).
Qed.

Lemma system_well_formed_witness :
  exists ts w', rtc ex_system ([], sim_world ex_stable [] rd_empty [] 0 []) (ts, w') /\
    length ts = 1 /\ well_formed_table (tbl w').
Proof.
  eexists _, _. split; [exact (ex_two_steps _)|]. split; [reflexivity|].
  exact (proj1 (system_well_formed registry queues (30 * Second) "k"
    (sim_world ex_stable [] rd_empty [] 0 []) _ _ registry_inert
    ex_stable_well_formed (rd_empty_named _) (ex_two_steps _))).
Defined.

Lemma lost_retry_is_lost_forever_witness :
  exists ts w', rtc ex_system ([], ex_lost_world) (ts, w') /\ length ts = 1 /\
    tbl w' !! ID ex_retrying = Some ex_retrying.
Proof.
  eexists _, _. split; [exact (ex_two_steps _)|]. split; [reflexivity|].
  refine (proj1 (lost_retry_is_lost_forever registry queues (30 * Second) "k" ex_retrying
    ex_lost_world _ _ registry_inert ex_lost_well_formed _ _ ex_lost_named (ex_two_steps _))).
  - vm_compute. reflexivity.
  - reflexivity.
Defined.

(** A cancelled job still runs: [POST /jobs/{id}/cancel] only changes the row, the
    identifier stays in its queue, and [processJob] does not look at the status.  Here a
    pending job is cancelled with 200, and the next turn of a worker completes it. *)
Theorem cancelled_job_still_runs :
  exists (w : World) (reg : Registry),
    let c := run_go (Handler.CancelJob (ex_get 2)) w in
    let w' := (run_go (worker_turn reg queues false) c.2).2 in
    resp_Status c.1 = StatusOK /\
    Status <$> tbl c.2 !! uuid_of_N 2 = Some StatusCancelled /\
    Status <$> tbl w' !! uuid_of_N 2 = Some StatusCompleted.
Proof.
  exists (ex_sworld []), (Register NewRegistry "gen" ex_good).
  split; [vm_compute; reflexivity|]. split; vm_compute; reflexivity.
Qed.

(** A job that waits for more than five seconds is executed twice: the recovery pass puts
    its identifier into the queue a second time, and each copy is processed.  Here, with no
    failure, one pending job is completed by two workers. *)
Theorem waiting_job_runs_twice :
  exists (w : World) (reg : Registry),
    fifo (rdd w) "report" = [uuid_String (uuid_of_N 2)] /\
    let pass := recoverUnqueuedJobs ;;; worker_turn reg queues false ;;;
                worker_turn reg queues false in
    all_ok_go pass w /\
    length (filter (eq (MInc "JobsProcessed" ["gen"; "success"])) (w_metrics (run_go pass w).2)) = 2.
Proof.
  exists (ex_sworld []), (Register NewRegistry "gen" ex_good).
  split; [reflexivity|]. split; [all_ok_run|]. vm_compute. reflexivity.
Qed.

(** The shutdown loses the result of the job in progress: [main] cancels the context before it
    waits for the workers, and [processJob] reports the outcome with that context, so that
    the calls after the handler fail.  Here the handler succeeds, the calls after it are
    refused, the row stays [running], and the check for stale jobs later makes it [failed]. *)
Theorem shutdown_loses_result :
  exists (w : World) (reg : Registry) (id : UUID),
    let w1 := (run_go (processJob reg (uuid_String id)) w).2 in
    let w2 := (run_go (recoverStaleJobs Second)
      (sim_world (tbl w1) [] (rdd w1) [] (100 * Second) [])).2 in
    MInc "JobsProcessed" ["good"; "success"] ∈ w_metrics w1 /\
    Status <$> tbl w1 !! id = Some StatusRunning /\
    Status <$> tbl w2 !! id = Some StatusFailed.
Proof.
  exists (sim_world ex_jobs [Fine; Fine; Refuse] rd_empty [Fine; Refuse] 1000 []), ex_registry,
    (uuid_of_N 1).
  split; [apply (bool_decide_unpack _); vm_compute; exact I|].
  split; vm_compute; reflexivity.
Qed.
