(* ===== verification/Hub.v ===== *)
(** * The WebSocket hub ([internal/dashboard/hub.go], [client.go], [handler.go: ServeWS])

    The hub's goroutine owns the set of clients; connections and their pumps talk to it
    through buffered channels.  Closing a closed channel and sending on one are panics; a send
    on a full channel waits. *)

From S2P Require Import Prelude.

Local Open Scope list_scope.

(** The channel [send] of a client: what it buffers and whether it is closed. *)
Record Chan := MkChan { buf : list string; closed : bool }.

(** The capacity of every channel of the hub and its clients. *)
Definition capacity : nat := 256.

(** Clients are numbered.  [chans] holds the channel [send] of each; the queues are the
    contents of the channels [register], [unregister] and [broadcast], which nobody closes. *)
Record Hub := MkHub {
  clients : gset nat;
  chans : gmap nat Chan;
  register : list nat;
  unregister : list nat;
  broadcast : list string;
  nextClient : nat
}.

Definition NewHub : Hub := MkHub ∅ ∅ [] [] [] 0.

(** What an operation does: panic, or go on. *)
Inductive outcome := Panic | Go (h : Hub).

Definition set_chan (c : nat) (ch : Chan) (h : Hub) : Hub :=
  MkHub (clients h) (<[c := ch]> (chans h)) (register h) (unregister h) (broadcast h)
    (nextClient h).

(** [close(client.send)]. *)
Definition close_send (c : nat) (h : Hub) : outcome :=
  match chans h !! c with
  | None => Panic
  | Some ch =>
      if closed ch then Panic
      else Go (set_chan c (MkChan (buf ch) true) h)
  end.

(** [delete(h.clients, client)]. *)
Definition delete_client (c : nat) (h : Hub) : Hub :=
  MkHub (clients h ∖ {[c]}) (chans h) (register h) (unregister h) (broadcast h) (nextClient h).

Definition bind_outcome (o : outcome) (f : Hub -> outcome) : outcome :=
  match o with Panic => Panic | Go h => f h end.

(** ** The cases of [Run] *)

Definition run_register (h : Hub) : outcome :=
  match register h with
  | [] => Go h
  | c :: rest =>
      Go (MkHub ({[c]} ∪ clients h) (chans h) rest (unregister h) (broadcast h) (nextClient h))
  end.

Definition run_unregister (h : Hub) : outcome :=
  match unregister h with
  | [] => Go h
  | c :: rest =>
      let h := MkHub (clients h) (chans h) (register h) rest (broadcast h) (nextClient h) in
      if bool_decide (c ∈ clients h) then close_send c (delete_client c h) else Go h
  end.

(** [select { case client.send <- message: default: close(client.send); delete }]. *)
Definition deliver (message : string) (c : nat) (h : Hub) : outcome :=
  match chans h !! c with
  | None => Panic
  | Some ch =>
      if closed ch then Panic
      else if decide (length (buf ch) < capacity)
      then Go (set_chan c (MkChan (buf ch ++ [message]) false) h)
      else bind_outcome (close_send c h) (fun h => Go (delete_client c h))
  end.

(** The loop over the clients, in the order of the iteration. *)
Fixpoint deliver_all (message : string) (order : list nat) (h : Hub) : outcome :=
  match order with
  | [] => Go h
  | c :: order => bind_outcome (deliver message c h) (deliver_all message order)
  end.

Definition run_broadcast (order : list nat) (h : Hub) : outcome :=
  match broadcast h with
  | [] => Go h
  | m :: rest =>
      deliver_all m order
        (MkHub (clients h) (chans h) (register h) (unregister h) rest (nextClient h))
  end.

(** [Shutdown]: the loop over the clients. *)
Fixpoint Shutdown (order : list nat) (h : Hub) : outcome :=
  match order with
  | [] => Go h
  | c :: order => bind_outcome (close_send c h) (fun h => Shutdown order (delete_client c h))
  end.

(** ** The other goroutines *)

(** A send on a channel that is not closed: it waits ([None]) while the channel is full. *)
Definition chan_send {A} (x : A) (ch : list A) : option (list A) :=
  if decide (length ch < capacity) then Some (ch ++ [x]) else None.

(** [ServeWS]: a new client with an open channel, sent to [register]. *)
Definition ServeWS (h : Hub) : option Hub :=
  r ← chan_send (nextClient h) (register h);
  Some (MkHub (clients h) (<[nextClient h := MkChan [] false]> (chans h)) r (unregister h)
    (broadcast h) (S (nextClient h))).

(** [writePump] receives from [send], also when it is closed. *)
Definition pump_receive (c : nat) (h : Hub) : Hub :=
  match chans h !! c with
  | None => h
  | Some ch => set_chan c (MkChan (tail (buf ch)) (closed ch)) h
  end.

(** A pump of the client ends: [c.hub.unregister <- c]. *)
Definition pump_exit (c : nat) (h : Hub) : option Hub :=
  u ← chan_send c (unregister h);
  Some (MkHub (clients h) (chans h) (register h) u (broadcast h) (nextClient h)).

(** [hub.broadcast <- html]. *)
Definition send_broadcast (m : string) (h : Hub) : option Hub :=
  b ← chan_send m (broadcast h);
  Some (MkHub (clients h) (chans h) (register h) (unregister h) b (nextClient h)).

(** A turn of [Run], by the case its [select] takes. *)
Inductive run_turn : Hub -> outcome -> Prop :=
| turn_register h : run_turn h (run_register h)
| turn_unregister h : run_turn h (run_unregister h)
| turn_broadcast h order :
    order ≡ₚ elements (clients h) -> run_turn h (run_broadcast order h).

(** The hub while [Run] is the only goroutine that handles its clients. *)
Inductive step : Hub -> outcome -> Prop :=
| step_run h o : run_turn h o -> step h o
| step_ServeWS h h' : ServeWS h = Some h' -> step h (Go h')
| step_receive c h : step h (Go (pump_receive c h))
| step_exit c h h' : pump_exit c h = Some h' -> step h (Go h')
| step_send m h h' : send_broadcast m h = Some h' -> step h (Go h').

(** What can be reached; a panic ends the program. *)
Inductive reachable : outcome -> Prop :=
| reach_init : reachable (Go NewHub)
| reach_step h o : reachable (Go h) -> step h o -> reachable o.

(** ** The invariant *)

Definition open (h : Hub) (c : nat) : Prop :=
  exists ch, chans h !! c = Some ch /\ closed ch = false.

Record Inv (h : Hub) : Prop := {
  inv_clients : forall c, c ∈ clients h -> open h c /\ c ∉ register h;
  inv_register : forall c, c ∈ register h -> open h c;
  inv_NoDup : NoDup (register h);
  inv_next : forall c, is_Some (chans h !! c) -> c < nextClient h;
  inv_chans : forall c ch, chans h !! c = Some ch -> length (buf ch) <= capacity;
  inv_queues : length (register h) <= capacity /\ length (unregister h) <= capacity /\
    length (broadcast h) <= capacity
}.

Definition ok (o : outcome) : Prop := exists h, o = Go h /\ Inv h.

Lemma inv_NewHub : Inv NewHub.
Proof.
  split; simpl; [set_solver|set_solver|constructor|intros c|intros c ch|unfold capacity; lia];
    by rewrite lookup_empty, ?is_Some_alt.
Qed.

(** Taking a message from the front of a channel, or adding one that fits. *)
Lemma chan_send_inv {A} (x : A) ch ch' :
  chan_send x ch = Some ch' -> ch' = ch ++ [x] /\ length ch' <= capacity.
Proof.
  unfold chan_send. case_decide; [|done]. intros [= <-]. rewrite length_app. simpl. split; [done|lia].
Qed.

(** Changing the channels [unregister] and [broadcast]. *)
Lemma inv_set_queues u b h :
  Inv h -> length u <= capacity -> length b <= capacity ->
  Inv (MkHub (clients h) (chans h) (register h) u b (nextClient h)).
Proof. intros [Hc Hr Hnd Hn Hl Hq] Hu Hb. by split; simpl; try lia. Qed.

(** Changing the content of a channel. *)
Lemma inv_set_chan c ch ch' h :
  Inv h -> chans h !! c = Some ch -> closed ch' = closed ch -> length (buf ch') <= capacity ->
  Inv (set_chan c ch' h).
Proof.
  intros [Hc Hr Hnd Hn Hl Hq] Hch Hcl Hlen.
  assert (Hopen : forall c', open h c' -> open (set_chan c ch' h) c').
  { intros c' (x & Hx & Ho). unfold open. simpl. rewrite lookup_insert.
    case_decide; [|eauto]. exists ch'. subst. split; [done|congruence]. }
  split; simpl; [|auto|done| | |done].
  - intros c' Hin'. destruct (Hc c' Hin'). auto.
  - intros c' Hs. apply Hn. rewrite lookup_insert in Hs. case_decide; subst; [|done].
    by rewrite Hch.
  - intros c' x [[<- <-]|[_ Hx]]%lookup_insert_Some; [done|by eapply Hl].
Qed.

(** Removing an open client and closing its channel. *)
Lemma close_ok c h :
  Inv h -> c ∈ clients h ->
  exists h', close_send c h = Go h' /\ Inv (delete_client c h') /\ clients h' = clients h /\
    close_send c (delete_client c h) = Go (delete_client c h').
Proof.
  intros [Hc Hr Hnd Hn Hl Hq] Hin. destruct (Hc c Hin) as [(ch & Hch & Hcl) Hreg].
  unfold close_send. simpl. rewrite Hch, Hcl. eexists. split; [done|]. split; [|done].
  assert (Hopen : forall c', c' <> c -> open h c' ->
    open (delete_client c (set_chan c (MkChan (buf ch) true) h)) c').
  { intros c' Hne (ch' & Hch' & Ho). exists ch'. simpl. by rewrite lookup_insert_ne. }
  split; simpl.
  - intros c' [Hin' Hne%not_elem_of_singleton]%elem_of_difference.
    destruct (Hc c' Hin'). split; [by apply Hopen|done].
  - intros c' Hin'. apply Hopen; [by intros ->|by apply Hr].
  - done.
  - intros c' Hs. apply Hn. rewrite lookup_insert in Hs. case_decide; subst; [|done].
    by rewrite Hch.
  - intros c' x [[<- <-]|[_ Hx]]%lookup_insert_Some; [exact (Hl c ch Hch)|by eapply Hl].
  - done.
Qed.

Lemma deliver_ok m c h :
  Inv h -> c ∈ clients h ->
  exists h', deliver m c h = Go h' /\ Inv h' /\ clients h ∖ {[c]} ⊆ clients h'.
Proof.
  intros HI Hin. destruct (inv_clients _ HI c Hin) as [(ch & Hch & Hcl) _].
  unfold deliver. rewrite Hch, Hcl. case_decide as Hlen.
  - eexists. split; [done|]. split; [|set_solver].
    eapply inv_set_chan; [done|done|done|]. simpl. rewrite length_app. simpl. lia.
  - destruct (close_ok c h HI Hin) as (h' & Hclose & HI' & Hcl' & _). rewrite Hclose. simpl.
    eexists. split; [done|]. split; [done|]. simpl. by rewrite Hcl'.
Qed.

Lemma deliver_all_ok m order h :
  Inv h -> NoDup order -> (forall c, c ∈ order -> c ∈ clients h) -> ok (deliver_all m order h).
Proof.
  revert h. induction order as [|c order IH]; intros h HI Hnd Hin; simpl; [by exists h|].
  apply NoDup_cons in Hnd as [Hc Hnd].
  destruct (deliver_ok m c h HI) as (h' & -> & HI' & Hsub); [apply Hin; left|].
  apply IH; [done|done|]. intros c' Hc'. apply Hsub.
  assert (c' ∈ clients h) by (apply Hin; by right). set_solver.
Qed.

Lemma register_ok h : Inv h -> ok (run_register h).
Proof.
  intros HI. pose proof HI as [Hc Hr Hnd Hn Hl Hq]. unfold run_register.
  destruct (register h) as [|c rest]; [by exists h|]. simpl in Hq.
  eexists. split; [done|]. apply NoDup_cons in Hnd as [Hnew Hnd].
  split; simpl; [|by set_solver|done|done|done|lia].
  intros c' [->%elem_of_singleton|Hin]%elem_of_union.
  - split; [apply Hr; left|done].
  - destruct (Hc c' Hin). split; [done|]. set_solver.
Qed.

Lemma unregister_ok h : Inv h -> ok (run_unregister h).
Proof.
  intros HI. unfold run_unregister. destruct (unregister h) as [|c rest] eqn:Hu; [by exists h|].
  set (h1 := MkHub (clients h) (chans h) (register h) rest (broadcast h) (nextClient h)).
  pose proof (inv_queues _ HI) as Hq. rewrite Hu in Hq. simpl in Hq.
  assert (HI1 : Inv h1) by (apply inv_set_queues; [done|lia|lia]).
  case_bool_decide as Hin; [|by exists h1].
  destruct (close_ok c h1 HI1 Hin) as (h' & _ & HI' & _ & ->). by eexists.
Qed.

Lemma broadcast_ok order h :
  Inv h -> order ≡ₚ elements (clients h) -> ok (run_broadcast order h).
Proof.
  intros HI Hord. unfold run_broadcast. destruct (broadcast h) as [|m rest] eqn:Hb; [by exists h|].
  pose proof (inv_queues _ HI) as Hq. rewrite Hb in Hq. simpl in Hq.
  apply deliver_all_ok; [apply inv_set_queues; [done|lia|lia]
    |rewrite Hord; apply NoDup_elements|].
  intros c. rewrite Hord. simpl. by rewrite elem_of_elements.
Qed.

Lemma run_turn_ok h o : Inv h -> run_turn h o -> ok o.
Proof.
  intros HI Ht. destruct Ht as [h|h|h order Hord]; [by apply register_ok|by apply unregister_ok|].
  by apply broadcast_ok.
Qed.

Lemma ServeWS_inv h h' :
  ServeWS h = Some h' ->
  h' = MkHub (clients h) (<[nextClient h := MkChan [] false]> (chans h))
    (register h ++ [nextClient h]) (unregister h) (broadcast h) (S (nextClient h)) /\
  length (register h') <= capacity.
Proof.
  unfold ServeWS. destruct (chan_send _ _) as [r|] eqn:Hs; [|done]. simpl. intros [= <-].
  by destruct (chan_send_inv _ _ _ Hs) as [-> ?].
Qed.

Lemma ServeWS_ok h h' : Inv h -> ServeWS h = Some h' -> Inv h'.
Proof.
  intros [Hc Hr Hnd Hn Hl Hq] [-> Hlen]%ServeWS_inv. simpl in Hlen. set (h1 := MkHub _ _ _ _ _ _).
  assert (Hfresh : chans h !! nextClient h = None).
  { destruct (chans h !! nextClient h) eqn:Hch; [|done].
    assert (nextClient h < nextClient h) by (apply Hn; eauto). lia. }
  assert (Hopen : forall c, open h c -> open h1 c /\ c <> nextClient h).
  { intros c (ch & Hch & Ho). assert (c <> nextClient h) by (intros ->; congruence).
    split; [|done]. exists ch. simpl. by rewrite lookup_insert_ne. }
  split; simpl.
  - intros c Hin. destruct (Hc c Hin) as [Ho Hreg]. destruct (Hopen c Ho). set_solver.
  - intros c [Hin| ->%list_elem_of_singleton]%elem_of_app; [by apply Hopen, Hr|].
    exists (MkChan [] false). simpl. by rewrite lookup_insert_eq.
  - apply NoDup_app. split_and!; [done| |apply NoDup_singleton].
    intros c Hin ->%list_elem_of_singleton. by destruct (Hopen _ (Hr _ Hin)).
  - intros c Hs. destruct (decide (c = nextClient h)) as [->|Hne]; [lia|].
    rewrite lookup_insert_ne in Hs by done. apply Hn in Hs. lia.
  - intros c x [[<- <-]|[_ Hx]]%lookup_insert_Some; [simpl; unfold capacity; lia|by eapply Hl].
  - lia.
Qed.

Lemma pump_receive_ok c h : Inv h -> Inv (pump_receive c h).
Proof.
  intros HI. unfold pump_receive. destruct (chans h !! c) as [ch|] eqn:Hch; [|done].
  eapply inv_set_chan; [done|done|done|]. pose proof (inv_chans _ HI c ch Hch) as Hl.
  simpl. destruct (buf ch); simpl in *; lia.
Qed.

Lemma pump_exit_ok c h h' : Inv h -> pump_exit c h = Some h' -> Inv h'.
Proof.
  intros HI Hs. unfold pump_exit in Hs. destruct (chan_send _ _) as [u|] eqn:Hu; [|done].
  injection Hs as <-. by apply inv_set_queues; [|eapply chan_send_inv|apply (inv_queues _ HI)].
Qed.

Lemma send_broadcast_ok m h h' : Inv h -> send_broadcast m h = Some h' -> Inv h'.
Proof.
  intros HI Hs. unfold send_broadcast in Hs. destruct (chan_send _ _) as [b|] eqn:Hb; [|done].
  injection Hs as <-. by apply inv_set_queues; [|apply (inv_queues _ HI)|eapply chan_send_inv].
Qed.

Lemma step_ok h o : Inv h -> step h o -> ok o.
Proof.
  intros HI Hs. destruct Hs as [h o Ht|h h' E|c h|c h h' E|m h h' E]; [by eapply run_turn_ok|..];
    eexists; (split; [done|]).
  - by eapply ServeWS_ok.
  - by apply pump_receive_ok.
  - by eapply pump_exit_ok.
  - by eapply send_broadcast_ok.
Qed.

Lemma reachable_ok o : reachable o -> ok o.
Proof.
  induction 1 as [|h o _ (h' & Hh & HI) Hstep]; [exists NewHub; split; [done|apply inv_NewHub]|].
  injection Hh as <-. by eapply step_ok.
Qed.

(** The channels after those of [order] have been closed. *)
Definition closed_for (order : list nat) (h h' : Hub) : Prop :=
  forall c, chans h' !! c =
    (fun ch => MkChan (buf ch) (bool_decide (c ∈ order) || closed ch)) <$> chans h !! c.

Lemma close_send_closes c h h' : close_send c h = Go h' -> closed_for [c] h h'.
Proof.
  unfold close_send. destruct (chans h !! c) as [ch|] eqn:Hc; [|done].
  destruct (closed ch); [done|]. intros [= <-] c'. simpl. rewrite lookup_insert.
  case_decide; subst; [rewrite Hc; simpl; by rewrite bool_decide_eq_true_2 by set_solver|].
  rewrite bool_decide_eq_false_2 by set_solver.
  by destruct (chans h !! c') as [[]|].
Qed.

Lemma Shutdown_ok order h :
  Inv h -> NoDup order -> (forall c, c ∈ order -> c ∈ clients h) ->
  exists h', Shutdown order h = Go h' /\ clients h' = clients h ∖ list_to_set order /\
    closed_for order h h'.
Proof.
  revert h. induction order as [|c order IH]; intros h HI Hnd Hin; simpl.
  { exists h. split; [done|]. split; [set_solver|]. intros c.
    rewrite bool_decide_eq_false_2 by apply not_elem_of_nil. by destruct (chans h !! c) as [[]|]. }
  apply NoDup_cons in Hnd as [Hc Hnd].
  destruct (close_ok c h HI) as (h' & Hclose & HI' & Hcl & _); [apply Hin; left|].
  rewrite Hclose. simpl. destruct (IH (delete_client c h') HI' Hnd) as (h2 & -> & Hcl2 & Hch2).
  - intros c' Hc'. simpl. rewrite Hcl. assert (c' ∈ clients h) by (apply Hin; by right). set_solver.
  - exists h2. split; [done|]. split; [rewrite Hcl2; simpl; rewrite Hcl; set_solver|].
    intros c'. rewrite Hch2. simpl. rewrite (close_send_closes _ _ _ Hclose).
    destruct (chans h !! c') as [ch|]; [|done]. simpl. do 2 f_equal.
    rewrite orb_assoc, <- bool_decide_or. f_equal. apply bool_decide_ext.
    rewrite !elem_of_cons, elem_of_nil. tauto.
Qed.

(** (C32) While [Run] is the only goroutine that touches the clients, the hub never panics: in
    every reachable state each registered client has an open channel, so that no channel is
    closed twice and no message is sent on a closed one, in whatever order registrations,
    unregistrations (two per client, one from each pump), broadcasts to full or slow clients
    and receives happen.  No channel ever holds more than its capacity.  A [Shutdown] after
    [Run] has returned removes every client and closes its channel, with what waits in it, and
    leaves the other channels as they are. *)
Theorem hub_never_panics o :
  reachable o ->
  exists h, o = Go h /\ (forall c, c ∈ clients h -> open h c) /\
    (forall c ch, chans h !! c = Some ch -> length (buf ch) <= capacity) /\
    (length (register h) <= capacity /\ length (unregister h) <= capacity /\
      length (broadcast h) <= capacity) /\
    forall order, order ≡ₚ elements (clients h) ->
      exists h', Shutdown order h = Go h' /\ clients h' = ∅ /\
        forall c, chans h' !! c =
          (fun ch => MkChan (buf ch) (bool_decide (c ∈ clients h) || closed ch)) <$> chans h !! c.
Proof.
  intros (h & -> & HI)%reachable_ok. exists h. split; [done|].
  split; [by intros c [? _]%(inv_clients _ HI)|]. split; [apply HI|]. split; [apply HI|].
  intros order Hord.
  assert (Hel : forall c, c ∈ order <-> c ∈ clients h)
    by (intros c; by rewrite Hord, elem_of_elements).
  destruct (Shutdown_ok order h HI) as (h' & Hs & Hcl & Hch).
  - rewrite Hord. apply NoDup_elements.
  - intros c. by rewrite Hel.
  - exists h'. split; [done|]. split.
    + rewrite Hcl. apply set_eq. intros c. rewrite elem_of_difference, elem_of_list_to_set, Hel.
      set_solver.
    + intros c. rewrite Hch. by rewrite (bool_decide_ext _ _ (Hel c)).
Qed.

(** ** [Run] frees those who wait *)

(** What waits in the channels of the hub. *)
Definition waiting (h : Hub) : list nat * list nat * list string :=
  (register h, unregister h, broadcast h).

Definition load (h : Hub) : nat :=
  length (register h) + length (unregister h) + length (broadcast h).

Lemma close_send_waiting c h h' : close_send c h = Go h' -> waiting h' = waiting h.
Proof.
  unfold close_send. destruct (chans h !! c) as [ch|]; [|done]. destruct (closed ch); [done|].
  by intros [= <-].
Qed.

Lemma deliver_waiting m c h h' : deliver m c h = Go h' -> waiting h' = waiting h.
Proof.
  unfold deliver. destruct (chans h !! c) as [ch|]; [|done]. destruct (closed ch); [done|].
  case_decide; [by intros [= <-]|]. destruct (close_send c h) as [|h1] eqn:Hc; [done|].
  intros [= <-]. by apply close_send_waiting in Hc.
Qed.

Lemma deliver_all_waiting m order h h' : deliver_all m order h = Go h' -> waiting h' = waiting h.
Proof.
  revert h. induction order as [|c order IH]; intros h; simpl; [by intros [= <-]|].
  destruct (deliver m c h) as [|h1] eqn:Hd; [done|]. simpl. intros ->%IH. by eapply deliver_waiting.
Qed.

Lemma waiting_load h h' : waiting h' = waiting h -> load h' = load h.
Proof. unfold waiting, load. by intros [= -> -> ->]. Qed.

(** While something waits, a turn of [Run] takes it. *)
Lemma run_turn_progress h :
  Inv h -> 0 < load h -> exists h', run_turn h (Go h') /\ Inv h' /\ load h' < load h.
Proof.
  intros HI Hload. destruct (register h) as [|c rest] eqn:Hr; [destruct (unregister h) as [|c rest] eqn:Hu;
    [destruct (broadcast h) as [|m rest] eqn:Hb|]|].
  - unfold load in Hload. rewrite Hr, Hu, Hb in Hload. simpl in Hload. lia.
  - destruct (broadcast_ok (elements (clients h)) h HI) as (h' & E & HI'); [done|]. exists h'.
    split; [rewrite <- E; by constructor|]. split; [done|]. unfold run_broadcast in E.
    rewrite Hb in E. apply deliver_all_waiting, waiting_load in E. rewrite E. unfold load. simpl.
    rewrite Hb. simpl. lia.
  - destruct (unregister_ok h HI) as (h' & E & HI'). exists h'.
    split; [rewrite <- E; constructor|]. split; [done|].
    assert (Hw : load h' = length (register h) + length rest + length (broadcast h)).
    { unfold run_unregister in E. rewrite Hu in E. case_bool_decide; [|by injection E as <-].
      by apply close_send_waiting, waiting_load in E. }
    rewrite Hw. unfold load. rewrite Hu. simpl. lia.
  - destruct (register_ok h HI) as (h' & E & HI'). exists h'.
    split; [rewrite <- E; constructor|]. split; [done|]. unfold run_register in E. rewrite Hr in E.
    injection E as <-. unfold load. rewrite Hr. simpl. lia.
Qed.

(** (C37) As long as [Run] runs nobody waits for good: from every reachable state it can empty the
    three channels of the hub by itself, however slow the clients are, so that the next
    registration, unregistration and broadcast are taken at once. *)
Theorem Run_frees_senders h :
  reachable (Go h) ->
  exists h', rtc (fun a b => run_turn a (Go b)) h h' /\ waiting h' = ([], [], []) /\
    is_Some (ServeWS h') /\ (forall c, is_Some (pump_exit c h')) /\
    forall m, is_Some (send_broadcast m h').
Proof.
  intros (x & [= <-] & HI)%reachable_ok.
  induction h as [h IH] using (induction_ltof1 _ load). unfold ltof in IH.
  destruct (decide (0 < load h)) as [Hl|Hl].
  - destruct (run_turn_progress h HI Hl) as (h1 & Ht & HI1 & Hlt).
    destruct (IH h1 Hlt HI1) as (h' & Hrun & Hrest). exists h'. split; [by eapply rtc_l|done].
  - exists h. destruct h as [cl chs r u b n]. unfold load in Hl. simpl in Hl.
    destruct r, u, b; simpl in Hl; try lia. split; [done|]. by repeat split.
Qed.

(** ** Messages arrive in order *)

(** The hub with what has happened: the broadcasts [Run] has handled since it registered a
    client, and what the pump of the client has received. *)
Record History := MkHistory {
  hub : Hub;
  since : nat -> list string;
  got : nat -> list string
}.

Definition start : History := MkHistory NewHub (fun _ => []) (fun _ => []).

Definition record (f : nat -> list string) (c : nat) (m : string) : nat -> list string :=
  fun c' => if decide (c' = c) then f c ++ [m] else f c'.

(** The message at the front of a channel. *)
Definition next_message (c : nat) (h : Hub) : option string := ch ← chans h !! c; head (buf ch).

Inductive happens : History -> History -> Prop :=
| hap_register h h' s g : run_register h = Go h' -> happens (MkHistory h s g) (MkHistory h' s g)
| hap_unregister h h' s g :
    run_unregister h = Go h' -> happens (MkHistory h s g) (MkHistory h' s g)
| hap_broadcast h h' s g m rest order :
    broadcast h = m :: rest -> order ≡ₚ elements (clients h) -> run_broadcast order h = Go h' ->
    happens (MkHistory h s g)
      (MkHistory h' (fun c => if decide (c ∈ clients h) then s c ++ [m] else s c) g)
| hap_ServeWS h h' s g : ServeWS h = Some h' -> happens (MkHistory h s g) (MkHistory h' s g)
| hap_receive c h s g m :
    next_message c h = Some m ->
    happens (MkHistory h s g) (MkHistory (pump_receive c h) s (record g c m))
| hap_exit c h h' s g :
    pump_exit c h = Some h' -> happens (MkHistory h s g) (MkHistory h' s g)
| hap_send m h h' s g :
    send_broadcast m h = Some h' -> happens (MkHistory h s g) (MkHistory h' s g).

(** What holds of a client: received and buffered messages are those broadcast since it was
    registered, all of them while it is registered; before that there are none. *)
Definition in_order (H : History) (c : nat) : Prop :=
  match chans (hub H) !! c with
  | None => since H c = [] /\ got H c = []
  | Some ch =>
      (c ∈ clients (hub H) -> got H c ++ buf ch = since H c) /\
      (got H c ++ buf ch) `prefix_of` since H c /\
      (c ∈ register (hub H) -> since H c = [])
  end.

Lemma happens_step H1 H2 : happens H1 H2 -> step (hub H1) (Go (hub H2)).
Proof.
  intros [h h' s g E|h h' s g E|h h' s g m rest order Hb Hord E|h h' s g E|c h s g m E
    |c h h' s g E|m h h' s g E]; simpl.
  - rewrite <- E. apply step_run. constructor.
  - rewrite <- E. apply step_run. constructor.
  - rewrite <- E. apply step_run. by constructor.
  - by apply step_ServeWS.
  - apply step_receive.
  - by eapply step_exit.
  - by eapply step_send.
Qed.

Lemma in_order_ext h s s' g g' c :
  s' c = s c -> g' c = g c -> in_order (MkHistory h s g) c -> in_order (MkHistory h s' g') c.
Proof. unfold in_order. simpl. by intros -> ->. Qed.

(** One client of a broadcast: it gets the message at the end of its buffer or is removed; the
    others are left alone. *)
Lemma deliver_in_order m c h h' s g :
  c ∈ clients h -> c ∉ register h -> (forall c', in_order (MkHistory h s g) c') ->
  deliver m c h = Go h' ->
  register h' = register h /\ clients h ∖ {[c]} ⊆ clients h' /\
  forall c', in_order (MkHistory h' (record s c m) g) c'.
Proof.
  intros Hin Hreg Hord. unfold deliver. pose proof (Hord c) as Hc. unfold in_order in Hc. simpl in Hc.
  destruct (chans h !! c) as [ch|] eqn:Hch; [|done]. destruct (closed ch) eqn:Hcl; [done|].
  destruct Hc as (Hall & Hpre & _).
  assert (Hother : forall h2 c', c' <> c -> chans h2 !! c' = chans h !! c' ->
    (c' ∈ clients h2 <-> c' ∈ clients h) -> register h2 = register h ->
    in_order (MkHistory h2 (record s c m) g) c').
  { intros h2 c' Hne Hch2 Hcl2 Hr2. specialize (Hord c'). unfold in_order, record in *. simpl in *.
    rewrite decide_False, Hch2, Hr2 by done. destruct (chans h !! c'); [|done].
    by rewrite Hcl2. }
  case_decide as Hlen.
  - intros [= <-]. split; [done|]. split; [set_solver|]. intros c'.
    destruct (decide (c' = c)) as [->|Hne]; [|apply Hother; simpl; [done|by rewrite lookup_insert_ne|done|done]].
    unfold in_order, record. simpl. rewrite lookup_insert_eq, decide_True by done. simpl.
    rewrite <- (Hall Hin), !app_assoc. split_and!; [done|done|done].
  - unfold close_send. rewrite Hch, Hcl. simpl. intros [= <-]. split; [done|]. split; [done|].
    intros c'. destruct (decide (c' = c)) as [->|Hne];
      [|apply Hother; simpl; [done|by rewrite lookup_insert_ne|set_solver|done]].
    unfold in_order, record. simpl. rewrite lookup_insert_eq, decide_True by done. simpl.
    split_and!; [set_solver|by apply prefix_app_r|done].
Qed.

Lemma deliver_all_in_order m order h h' s g :
  NoDup order -> (forall c, c ∈ order -> c ∈ clients h /\ c ∉ register h) ->
  (forall c, in_order (MkHistory h s g) c) -> deliver_all m order h = Go h' ->
  forall c, in_order (MkHistory h' (fun c => if decide (c ∈ order) then s c ++ [m] else s c) g) c.
Proof.
  revert h s. induction order as [|c order IH]; intros h s Hnd Hin Hord Hd c'; simpl in Hd.
  { injection Hd as <-. eapply in_order_ext, Hord; [|done].
    cbv beta. case_decide as Hn; [by apply elem_of_nil in Hn|done]. }
  apply NoDup_cons in Hnd as [Hc Hnd]. destruct (Hin c) as [Hcl Hcr]; [left|].
  destruct (deliver m c h) as [|h1] eqn:Hd1; [done|]. simpl in Hd.
  destruct (deliver_in_order m c h h1 s g Hcl Hcr Hord Hd1) as (Hr & Hsub & Hord1).
  eapply in_order_ext, (IH h1 (record s c m) Hnd); [|done| |exact Hord1|exact Hd].
  - unfold record. cbv beta. destruct (decide (c' = c)) as [->|Hne].
    + by rewrite decide_True, decide_False by (done || left).
    + destruct (decide (c' ∈ order)) as [Ho|Ho].
      * by rewrite decide_True by (by right).
      * by rewrite decide_False by (intros [?|?]%elem_of_cons; done).
  - intros c2 Hc2. destruct (Hin c2) as [Hk1 Hk2]; [by right|]. rewrite Hr.
    split; [|done]. apply Hsub. set_solver.
Qed.

Lemma register_in_order h h' s g :
  Inv h -> (forall c, in_order (MkHistory h s g) c) -> run_register h = Go h' ->
  forall c, in_order (MkHistory h' s g) c.
Proof.
  intros HI Hord. unfold run_register. destruct (register h) as [|c0 rest] eqn:Hreg;
    [by intros [= <-]|]. intros [= <-] c. specialize (Hord c). unfold in_order in *. simpl in *.
  rewrite Hreg in Hord. destruct (chans h !! c) as [ch|]; [|done].
  destruct Hord as (Hall & Hpre & Hnew). split_and!; [|done|by intros ?; apply Hnew; right].
  intros [->%elem_of_singleton|Hin]%elem_of_union; [|by apply Hall].
  rewrite Hnew in * by left. by apply prefix_nil_inv in Hpre.
Qed.

Lemma unregister_in_order h h' s g :
  (forall c, in_order (MkHistory h s g) c) -> run_unregister h = Go h' ->
  forall c, in_order (MkHistory h' s g) c.
Proof.
  intros Hord. unfold run_unregister. destruct (unregister h) as [|c0 rest]; [by intros [= <-]|].
  case_bool_decide as Hin; simpl in Hin; [|intros [= <-]; exact Hord].
  unfold close_send. simpl. destruct (chans h !! c0) as [ch0|] eqn:Hch; [|done].
  destruct (closed ch0); [done|]. intros [= <-] c. specialize (Hord c). unfold in_order in *.
  simpl in *. destruct (decide (c = c0)) as [->|Hne].
  - rewrite lookup_insert_eq. rewrite Hch in Hord. simpl. destruct Hord as (_ & Hpre & Hnew).
    split_and!; [set_solver|done|done].
  - rewrite lookup_insert_ne by done. destruct (chans h !! c); [|done].
    destruct Hord as (Hall & Hpre & Hnew). split_and!; [|done|done].
    intros [Hc _]%elem_of_difference. by apply Hall.
Qed.

Lemma receive_in_order c0 m h s g :
  (forall c, in_order (MkHistory h s g) c) -> next_message c0 h = Some m ->
  forall c, in_order (MkHistory (pump_receive c0 h) s (record g c0 m)) c.
Proof.
  intros Hord Hm c. specialize (Hord c). unfold next_message in Hm. unfold pump_receive.
  destruct (chans h !! c0) as [[[|m0 tl] cl]|] eqn:Hch; simpl in Hm; [done| |done].
  injection Hm as ->. unfold in_order, record in *. simpl in *.
  destruct (decide (c = c0)) as [->|Hne].
  - rewrite lookup_insert_eq. rewrite Hch in Hord. simpl in *.
    by rewrite <- app_assoc.
  - by rewrite lookup_insert_ne by done.
Qed.

Lemma ServeWS_in_order h h' s g :
  Inv h -> (forall c, in_order (MkHistory h s g) c) -> ServeWS h = Some h' ->
  forall c, in_order (MkHistory h' s g) c.
Proof.
  intros HI Hord [-> _]%ServeWS_inv c. specialize (Hord c). unfold in_order in *. simpl in *.
  destruct (decide (c = nextClient h)) as [->|Hne].
  - rewrite lookup_insert_eq. destruct (chans h !! nextClient h) eqn:Hch.
    { assert (nextClient h < nextClient h) by (apply (inv_next _ HI); eauto). lia. }
    destruct Hord as [-> ->]. simpl. by split_and!.
  - rewrite lookup_insert_ne by done. destruct (chans h !! c); [|done].
    destruct Hord as (Hall & Hpre & Hnew). split_and!; [done|done|].
    intros [?| ->%list_elem_of_singleton]%elem_of_app; [by apply Hnew|done].
Qed.

Lemma happens_in_order H1 H2 :
  Inv (hub H1) -> (forall c, in_order H1 c) -> happens H1 H2 -> forall c, in_order H2 c.
Proof.
  intros HI Hord Hs.
  destruct Hs as [h h' s g E|h h' s g E|h h' s g m rest order Hb Hp E|h h' s g E|c0 h s g m E
    |c0 h h' s g E|m h h' s g E]; simpl in HI.
  - by eapply register_in_order.
  - by eapply unregister_in_order.
  - unfold run_broadcast in E. rewrite Hb in E. intros c.
    assert (Hel : forall c', c' ∈ order <-> c' ∈ clients h)
      by (intros c'; by rewrite Hp, elem_of_elements).
    eapply in_order_ext, (deliver_all_in_order m order); [|done| | | |exact E].
    + cbv beta. by apply decide_ext.
    + rewrite Hp. apply NoDup_elements.
    + intros c' Hc'%Hel. split; [done|]. by apply (inv_clients _ HI).
    + exact Hord.
  - by eapply ServeWS_in_order.
  - by apply receive_in_order.
  - unfold pump_exit in E. destruct (chan_send _ _); [|done]. injection E as <-. exact Hord.
  - unfold send_broadcast in E. destruct (chan_send _ _); [|done]. injection E as <-. exact Hord.
Qed.

Lemma history_ok H :
  rtc happens start H -> Inv (hub H) /\ forall c, in_order H c.
Proof.
  apply (rtc_invariant (fun H => Inv (hub H) /\ forall c, in_order H c)).
  - intros H1 H2 [HI Hord] Hs. split; [|by eapply happens_in_order].
    destruct (step_ok _ _ HI (happens_step _ _ Hs)) as (h & [= <-] & HI'). done.
  - split; [apply inv_NewHub|]. intros c. unfold in_order. simpl. by rewrite lookup_empty.
Qed.

(** (C31) A registered client misses nothing: however registrations, broadcasts, receives and
    ends of pumps interleave, what the pump of a registered client has received, followed by
    what waits in its channel, is exactly the sequence of messages broadcast since the client
    was registered, in that order; for a client that was removed it is a beginning of that
    sequence. *)
Theorem hub_delivers_in_order H c ch :
  rtc happens start H -> chans (hub H) !! c = Some ch ->
  (c ∈ clients (hub H) -> got H c ++ buf ch = since H c) /\
  (got H c ++ buf ch) `prefix_of` since H c.
Proof.
  intros [_ Hord]%history_ok Hch. specialize (Hord c). unfold in_order in Hord.
  rewrite Hch in Hord. tauto.
Qed.

(** One client, registered. *)
Definition ex_hub : outcome := Go (MkHub {[0]} {[0 := MkChan [] false]} [] [] [] 1).

Lemma ex_hub_reachable : reachable ex_hub.
Proof.
  eapply reach_step; [eapply reach_step; [apply reach_init|apply step_ServeWS; reflexivity]|].
  apply step_run, turn_register.
Qed.

Lemma Run_frees_senders_witness :
  exists h h', ex_hub = Go h /\ rtc (fun a b => run_turn a (Go b)) h h' /\
    is_Some (ServeWS h').
Proof.
  eexists. destruct (Run_frees_senders _ ex_hub_reachable) as (h' & Hrun & _ & Hserve & _).
  exists h'. split; [reflexivity|]. split; [exact Hrun|exact Hserve].
Defined.

Lemma hub_never_panics_witness :
  exists h, ex_hub = Go h /\ exists h', Shutdown [0] h = Go h' /\ clients h' = ∅ /\
    chans h' !! 0 = Some (MkChan [] true).
Proof.
  destruct (hub_never_panics ex_hub ex_hub_reachable) as (h & Hh & _ & _ & _ & Hs).
  exists h. split; [exact Hh|]. destruct (Hs [0]) as (h' & Hsh & Hcl & Hch).
  - injection Hh as <-. vm_compute. reflexivity.
  - exists h'. split; [exact Hsh|]. split; [exact Hcl|]. rewrite Hch. injection Hh as <-.
    vm_compute. reflexivity.
Defined.

(** [main] calls [Shutdown] while [Run] may still be in the middle of a broadcast.  Then
    the program can panic: [Run] has closed the channel of a client whose buffer is full and
    not yet deleted it when [Shutdown] finds it in the map and closes it again. *)
Theorem Shutdown_races_with_Run :
  exists h h1, reachable (Go h) /\ 0 ∈ clients h /\
    deliver "m" 0 h = bind_outcome (close_send 0 h) (fun h => Go (delete_client 0 h)) /\
    close_send 0 h = Go h1 /\ Shutdown (elements (clients h1)) h1 = Panic.
Proof.
  assert (Hreach : forall n, n <= capacity ->
    reachable (Go (MkHub {[0]} {[0 := MkChan (replicate n "m"%string) false]} [] [] [] 1))).
  { induction n as [|n IH]; intros Hn; [exact ex_hub_reachable|].
    set (h := MkHub {[0]} {[0 := MkChan (replicate n "m"%string) false]} [] [] [] 1).
    set (h' := MkHub {[0]} {[0 := MkChan (replicate n "m"%string) false]} [] [] ["m"%string] 1).
    eapply reach_step; [eapply (reach_step h (Go h')); [apply IH; lia|by apply (step_send "m")]|].
    apply step_run.
    replace (replicate (S n) "m"%string) with (replicate n "m"%string ++ ["m"%string])
      by (by rewrite replicate_S_end).
    assert (Hs := turn_broadcast h' [0] ltac:(done)).
    unfold run_broadcast, deliver_all, deliver in Hs. simpl in Hs.
    rewrite lookup_singleton_eq in Hs. simpl in Hs. rewrite length_replicate, decide_True in Hs by lia.
    unfold set_chan in Hs. simpl in Hs. by rewrite insert_singleton_eq in Hs. }
  eexists _, _. split; [apply (Hreach capacity); done|]. split; [set_solver|].
  split; [vm_compute; reflexivity|]. split; [vm_compute; reflexivity|]. vm_compute. reflexivity.
Qed.

(** A client whose first message has arrived and whose second waits. *)
Lemma ex_history :
  exists H, rtc happens start H /\ clients (hub H) = {[0]} /\
    chans (hub H) = {[0 := MkChan ["b"%string] false]} /\ got H 0 = ["a"%string] /\
    since H 0 = ["a"%string; "b"%string].
Proof.
  eexists. split.
  - eapply rtc_l; [by apply hap_ServeWS|]. eapply rtc_l; [by apply hap_register|].
    eapply rtc_l; [by apply (hap_send "a")|]. eapply rtc_l; [by apply (hap_send "b")|].
    eapply rtc_l; [eapply (hap_broadcast _ _ _ _ "a" _ [0]); [reflexivity|done|reflexivity]|].
    eapply rtc_l; [eapply (hap_broadcast _ _ _ _ "b" _ [0]); [reflexivity|done|reflexivity]|].
    apply rtc_once. by apply (hap_receive 0 _ _ _ "a").
  - vm_compute. by split_and!.
Qed.

Lemma hub_delivers_in_order_witness :
  exists H ch, rtc happens start H /\ 0 ∈ clients (hub H) /\ chans (hub H) !! 0 = Some ch /\
    buf ch = ["b"%string] /\ got H 0 ++ buf ch = since H 0 /\ since H 0 = ["a"%string; "b"%string].
Proof.
  destruct ex_history as (H & Hrun & Hcl & Hch & Hgot & Hs). exists H, (MkChan ["b"%string] false).
  assert (Hin : 0 ∈ clients (hub H)) by (rewrite Hcl; by apply elem_of_singleton).
  assert (Hc : chans (hub H) !! 0 = Some (MkChan ["b"%string] false)) by (by rewrite Hch).
  split_and!; [done|done|done|done| |done].
  exact (proj1 (hub_delivers_in_order H 0 _ Hrun Hc) Hin).
Defined.

(** A connection that ends at once can stay registered: [Run] takes its two unregistrations,
    which find no such client, before its registration.  The client is then in the map
    without a pump, and stays until broadcasts have filled its channel. *)
Theorem dead_client_stays_registered :
  exists h h1 h2 h3,
    (h0 ← ServeWS NewHub; h0' ← pump_exit 0 h0; pump_exit 0 h0') = Some h /\
    run_unregister h = Go h1 /\ run_unregister h1 = Go h2 /\ run_register h2 = Go h3 /\
    reachable (Go h3) /\ unregister h3 = [] /\ 0 ∈ clients h3.
Proof.
  set (ha u := MkHub ∅ {[0 := MkChan [] false]} [0] u [] 1).
  set (h3 := MkHub {[0]} {[0 := MkChan [] false]} [] [] [] 1).
  exists (ha [0; 0]), (ha [0]), (ha []), h3.
  split_and!; [reflexivity|reflexivity|reflexivity|reflexivity| |done|set_solver].
  apply (reach_step (ha [])); [|apply step_run, turn_register].
  apply (reach_step (ha [0])); [|apply step_run, turn_unregister].
  apply (reach_step (ha [0; 0])); [|apply step_run, turn_unregister].
  apply (reach_step (ha [0])); [|by apply (step_exit 0)].
  apply (reach_step (ha [])); [|by apply (step_exit 0)].
  eapply reach_step; [apply reach_init|by apply step_ServeWS].
Qed.
