(* ===== verification/Leader.v ===== *)
(** * Leader election ([internal/leader/leader.go])

    Instances compete for a PostgreSQL advisory lock, each on a connection of its own.  The
    holder runs the scheduler; the others ask for the lock again and again.  The holder checks
    at every tick that its session still holds the lock.  [Stop] may come from outside at any
    moment after the context is cancelled, also in the middle of an attempt.

    PostgreSQL is an interface, the class [AdvisoryLocks]: what the program asks of it, and
    what its documentation says of sessions and session-level advisory locks. *)

From S2P Require Import Prelude.

Local Open Scope list_scope.

(** ** The server

    Sessions are numbered.  [opened] are the sessions that ever were, [alive] those the server
    has not ended, [holder] is the session that has the lock.  A call may fail in every way:
    a lost answer may leave the lock taken, a connection that is refused may have been made,
    and [Close] may not reach the server, which then keeps the session and its lock until it
    notices. *)
Section Server.
Context {Server : Type}.
Context (alive opened : Server -> gset nat) (holder : Server -> option nat).

Definition quiet (v v' : Server) : Prop :=
  alive v' = alive v /\ opened v' = opened v /\ holder v' = holder v.

(** A new session, which no client had before. *)
Definition connects (s : nat) (v v' : Server) : Prop :=
  (s ∉ opened v) /\ alive v' = {[s]} ∪ alive v /\ opened v' = {[s]} ∪ opened v /\
  holder v' = holder v.

(** The session has the lock; nobody else had it. *)
Definition locks (s : nat) (v v' : Server) : Prop :=
  s ∈ alive v /\ (holder v = None \/ holder v = Some s) /\
  alive v' = alive v /\ opened v' = opened v /\ holder v' = Some s.

(** The session ends, and gives the lock back if it has it. *)
Definition ends (s : nat) (v v' : Server) : Prop :=
  alive v' = alive v ∖ {[s]} /\ opened v' = opened v /\
  holder v' = if decide (holder v = Some s) then None else holder v.

(** [pgx.Connect]. *)
Definition connect_spec (v : Server) (r : option nat) (v' : Server) : Prop :=
  match r with
  | Some s => connects s v v'
  | None => quiet v v' \/ exists s, connects s v v'
  end.

(** [SELECT pg_try_advisory_lock($1)]; [None] is an error. *)
Definition try_lock_spec (s : nat) (v : Server) (r : option bool) (v' : Server) : Prop :=
  match r with
  | Some true => locks s v v'
  | Some false => quiet v v' /\ exists s', holder v = Some s' /\ s' <> s
  | None => quiet v v' \/ locks s v v' \/ ends s v v'
  end.

(** [SELECT count( * ) FROM pg_locks WHERE pid = pg_backend_pid() ...]. *)
Definition count_spec (s : nat) (v : Server) (r : option Z) (v' : Server) : Prop :=
  match r with
  | Some n => quiet v v' /\ s ∈ alive v /\
      n = if decide (holder v = Some s) then 1%Z else 0%Z
  | None => quiet v v' \/ ends s v v'
  end.

(** [conn.Close]. *)
Definition close_spec (s : nat) (v v' : Server) : Prop := quiet v v' \/ ends s v v'.

End Server.

Class AdvisoryLocks := {
  Server : Type;
  server_start : Server;
  alive : Server -> gset nat;
  opened : Server -> gset nat;
  holder : Server -> option nat;
  srv_connect : Server -> option nat * Server;
  srv_try_lock : nat -> Server -> option bool * Server;
  srv_count_locks : nat -> Server -> option Z * Server;
  srv_close : nat -> Server -> Server;
  srv_connect_law : forall v,
    connect_spec alive opened holder v (srv_connect v).1 (srv_connect v).2;
  srv_try_lock_law : forall s v,
    try_lock_spec alive opened holder s v (srv_try_lock s v).1 (srv_try_lock s v).2;
  srv_count_locks_law : forall s v,
    count_spec alive opened holder s v (srv_count_locks s v).1 (srv_count_locks s v).2;
  srv_close_law : forall s v, close_spec alive opened holder s v (srv_close s v)
}.

(** ** An elector *)

(** Where its goroutine is: at the top of the loop; in [tryAcquire], before [pgx.Connect],
    before the query, or before the [Close] of a failed attempt; with the lock; reported as
    leader, before [onAcquire]; in [holdLock]; after it; reported as lost, before
    [onRelease]; returned from [Start]; dead of a nil dereference, which is the end of the
    process, in an attempt or in [holdLock]. *)
Inductive PC :=
| Electing | Connecting | Asking | Refused
| Acquired | Announced | Holding | Released | Demoted | Returned | Crashed (leader : bool).

#[global] Instance PC_eq_dec : EqDecision PC.
Proof. solve_decision. Defined.

(** [conn] is a session, or [None] for a nil or closed connection; [scheduling] is whether the
    scheduler started by [onAcquire] has not been stopped by [onRelease]; [cancelled] is the
    context of [Start], [stopped] whether [Stop] was called; the rest are the metrics, with
    one counter per result of an election. *)
Record Elector := MkElector {
  conn : option nat;
  isLeader : bool;
  pc : PC;
  scheduling : bool;
  cancelled : bool;
  stopped : bool;
  LeaderStatus : Z;
  elections_failed : nat;
  elections_acquired : nat;
  elections_lost : nat
}.

Definition New : Elector := MkElector None false Electing false false false 0 0 0 0.

Definition IsLeader (e : Elector) : bool := isLeader e.

Definition set_conn (c : option nat) (e : Elector) : Elector :=
  MkElector c (isLeader e) (pc e) (scheduling e) (cancelled e) (stopped e) (LeaderStatus e)
    (elections_failed e) (elections_acquired e) (elections_lost e).

Definition set_pc (p : PC) (e : Elector) : Elector :=
  MkElector (conn e) (isLeader e) p (scheduling e) (cancelled e) (stopped e) (LeaderStatus e)
    (elections_failed e) (elections_acquired e) (elections_lost e).

Definition cancel (e : Elector) : Elector :=
  MkElector (conn e) (isLeader e) (pc e) (scheduling e) true (stopped e) (LeaderStatus e)
    (elections_failed e) (elections_acquired e) (elections_lost e).

(** A failed attempt is counted; after the [sleep] the loop starts again. *)
Definition count_failed (e : Elector) : Elector :=
  MkElector (conn e) (isLeader e) Electing (scheduling e) (cancelled e) (stopped e)
    (LeaderStatus e) (S (elections_failed e)) (elections_acquired e) (elections_lost e).

(** [isLeader.Store(true)] and the metrics. *)
Definition announce (e : Elector) : Elector :=
  MkElector (conn e) true Announced (scheduling e) (cancelled e) (stopped e) 1
    (elections_failed e) (S (elections_acquired e)) (elections_lost e).

(** [onAcquire()]: the scheduler starts. *)
Definition acquire (e : Elector) : Elector :=
  MkElector (conn e) (isLeader e) Holding true (cancelled e) (stopped e) (LeaderStatus e)
    (elections_failed e) (elections_acquired e) (elections_lost e).

(** [isLeader.Store(false)] and the metrics. *)
Definition demote (e : Elector) : Elector :=
  MkElector (conn e) false Demoted (scheduling e) (cancelled e) (stopped e) 0
    (elections_failed e) (elections_acquired e) (S (elections_lost e)).

(** [onRelease()] has returned: the scheduler has stopped. *)
Definition release (e : Elector) : Elector :=
  MkElector (conn e) (isLeader e) Electing false (cancelled e) (stopped e) (LeaderStatus e)
    (elections_failed e) (elections_acquired e) (elections_lost e).

(** Places in the loop: in an attempt; with a connection of its own; with the lock; reported as
    leader; with a scheduler; with an election won and not yet counted as lost. *)
Definition electing_at (p : PC) : bool :=
  match p with Electing | Connecting | Asking | Refused => true | _ => false end.
Definition connected_at (p : PC) : bool :=
  match p with
  | Asking | Refused | Acquired | Announced | Holding => true
  | _ => false
  end.
Definition leading_at (p : PC) : bool :=
  match p with Acquired | Announced | Holding => true | _ => false end.
Definition reported_at (p : PC) : bool :=
  match p with Announced | Holding | Released => true | _ => false end.
Definition scheduling_at (p : PC) : bool :=
  match p with Holding | Released | Demoted => true | Crashed leader => leader | _ => false end.
Definition open_at (p : PC) : nat :=
  match p with
  | Announced | Holding | Released => 1
  | Crashed leader => if leader then 1 else 0
  | _ => 0
  end.
Definition crashed_at (p : PC) : bool := match p with Crashed _ => true | _ => false end.

Section Election.
Context `{AL : AdvisoryLocks}.

(** [if e.conn != nil && !e.conn.IsClosed() { e.conn.Close(); e.conn = nil }].  The test, the
    call and the assignment are one step. *)
Definition close_conn (e : Elector) (v : Server) : Elector * Server :=
  match conn e with
  | None => (e, v)
  | Some s => (set_conn None e, srv_close s v)
  end.

(** ** [tryAcquire], one call on the connection at a time *)

(** The test of [e.conn]. *)
Definition tryAcquire_conn (e : Elector) : Elector :=
  match conn e with Some _ => set_pc Asking e | None => set_pc Connecting e end.

Definition tryAcquire_connect (e : Elector) (v : Server) : Elector * Server :=
  let (r, v') := srv_connect v in
  match r with
  | Some s => (set_pc Asking (set_conn (Some s) e), v')
  | None => (count_failed e, v')
  end.

(** The query; by now [Stop] may have set [e.conn] to nil. *)
Definition tryAcquire_query (e : Elector) (v : Server) : Elector * Server :=
  match conn e with
  | None => (set_pc (Crashed false) e, v)
  | Some s =>
      let (r, v') := srv_try_lock s v in
      match r with
      | Some true => (set_pc Acquired e, v')
      | _ => (set_pc Refused e, v')
      end
  end.

(** [e.conn.Close(ctx); e.conn = nil], after an error or without the lock. *)
Definition tryAcquire_close (e : Elector) (v : Server) : Elector * Server :=
  match conn e with
  | None => (set_pc (Crashed false) e, v)
  | Some s => (count_failed (set_conn None e), srv_close s v)
  end.

(** The next piece of an attempt. *)
Definition elect_turn (e : Elector) (v : Server) : Elector * Server :=
  match pc e with
  | Electing => (if cancelled e then set_pc Returned e else tryAcquire_conn e, v)
  | Connecting => tryAcquire_connect e v
  | Asking => tryAcquire_query e v
  | Refused => tryAcquire_close e v
  | _ => (e, v)
  end.

(** ** [holdLock] *)

(** [verifyLock]; without a connection it dereferences nil. *)
Inductive verdict := VPanic | VError | VHeld (held : bool).

Definition verifyLock (e : Elector) (v : Server) : verdict * Server :=
  match conn e with
  | None => (VPanic, v)
  | Some s =>
      let (r, v') := srv_count_locks s v in
      (match r with None => VError | Some n => VHeld (0 <? n)%Z end, v')
  end.

(** One turn of its [select]; [tick] says that it takes the ticker. *)
Definition holdLock_turn (tick : bool) (e : Elector) (v : Server) : Elector * Server :=
  let leave v := let (e', v') := close_conn e v in (set_pc Released e', v') in
  if negb tick then (if cancelled e then leave v else (e, v))
  else
    let (r, v') := verifyLock e v in
    match r with
    | VPanic => (set_pc (Crashed true) e, v')
    | VError | VHeld false => leave v'
    | VHeld true => (e, v')
    end.

(** [Stop], from another goroutine. *)
Definition Stop (e : Elector) (v : Server) : Elector * Server :=
  let (e, v) := close_conn e v in
  (MkElector (conn e) false (pc e) (scheduling e) (cancelled e) true 0
     (elections_failed e) (elections_acquired e) (elections_lost e), v).

(** ** All instances *)

Record System := MkSystem { server : Server; electors : gmap nat Elector }.

Definition put (i : nat) (p : Elector * Server) (s : System) : System :=
  MkSystem p.2 (<[i := p.1]> (electors s)).

(** What an instance does next; [main] cancels the context before it calls [Stop]. *)
Inductive move (e : Elector) (v : Server) : Elector * Server -> Prop :=
| move_elect : electing_at (pc e) = true -> move e v (elect_turn e v)
| move_announce : pc e = Acquired -> move e v (announce e, v)
| move_acquire : pc e = Announced -> move e v (acquire e, v)
| move_hold tick : pc e = Holding -> move e v (holdLock_turn tick e v)
| move_demote : pc e = Released -> move e v (demote e, v)
| move_release : pc e = Demoted -> move e v (release e, v)
| move_cancel : move e v (cancel e, v)
| move_Stop : cancelled e = true -> move e v (Stop e v).

(** Besides, the server may end any session at any time. *)
Inductive step (s : System) : System -> Prop :=
| step_join i : electors s !! i = None -> step s (put i (New, server s) s)
| step_move i e p : electors s !! i = Some e -> move e (server s) p -> step s (put i p s)
| step_break x v : ends alive opened holder x (server s) v -> step s (MkSystem v (electors s)).

Definition init : System := MkSystem server_start ∅.

(** ** The invariant *)

(** An elector owns its session alone; with the lock taken and the session alive, it is the
    holder; its flags and metrics follow its place in the loop. *)
Record elector_ok (v : Server) (e : Elector) : Prop := {
  ok_at : is_Some (conn e) -> connected_at (pc e) = true;
  ok_conn : stopped e = false -> connected_at (pc e) = true -> is_Some (conn e);
  ok_open : forall s, conn e = Some s -> s ∈ opened v;
  ok_lock : forall s, conn e = Some s -> leading_at (pc e) = true -> s ∈ alive v ->
    holder v = Some s;
  ok_sched : scheduling e = scheduling_at (pc e);
  ok_leader : stopped e = false ->
    crashed_at (pc e) = false /\ isLeader e = reported_at (pc e);
  ok_gauge : LeaderStatus e = if isLeader e then 1%Z else 0%Z;
  ok_stop : stopped e = true -> cancelled e = true;
  ok_count : elections_acquired e = elections_lost e + open_at (pc e)
}.

Record Inv (s : System) : Prop := {
  inv_electors : map_Forall (fun _ e => elector_ok (server s) e) (electors s);
  inv_owned : forall i j e f x, electors s !! i = Some e -> electors s !! j = Some f ->
    conn e = Some x -> conn f = Some x -> i = j
}.

Lemma inv_init : Inv init.
Proof.
  split; simpl; [by apply map_Forall_empty|]. intros i j e f x. by rewrite lookup_empty.
Qed.

(** *** What a call on the server does to the sessions of others *)

(** Sessions other than [x] stay as they are, unless the server ends them. *)
Definition evolves (x : option nat) (v v' : Server) : Prop :=
  opened v ⊆ opened v' /\
  forall s, s ∈ opened v -> x <> Some s -> s ∈ alive v' ->
    s ∈ alive v /\ (holder v = Some s -> holder v' = Some s).

Lemma evolves_quiet x v v' : quiet alive opened holder v v' -> evolves x v v'.
Proof. intros (Ha & Ho & Hh). unfold evolves. by rewrite Ha, Ho, Hh. Qed.

Lemma evolves_connects s v v' : connects alive opened holder s v v' -> evolves None v v'.
Proof. intros (Hs & Ha & Ho & Hh). split; [set_solver|]. rewrite Ha, Hh. set_solver. Qed.

Lemma evolves_locks s v v' : locks alive opened holder s v v' -> evolves (Some s) v v'.
Proof.
  intros (_ & Hfree & Ha & Ho & Hh). split; [by rewrite Ho|]. rewrite Ha, Hh.
  intros y _ Hne Hy. split; [done|]. intros Hx. destruct Hfree; congruence.
Qed.

Lemma evolves_ends s v v' : ends alive opened holder s v v' -> evolves (Some s) v v'.
Proof.
  intros (Ha & Ho & Hh). split; [by rewrite Ho|]. rewrite Ha, Hh.
  intros y _ Hne [Hy _]%elem_of_difference. split; [done|]. intros Hx.
  rewrite decide_False by congruence. done.
Qed.

Create HintDb election.

#[local] Hint Resolve evolves_quiet evolves_locks evolves_ends : election.

Lemma evolves_connect v : evolves None v (srv_connect v).2.
Proof.
  pose proof (srv_connect_law v) as Hl. destruct (srv_connect v) as [[s|] v']; simpl in *.
  - by eapply evolves_connects.
  - destruct Hl as [Hl|[s Hl]]; [by apply evolves_quiet|by eapply evolves_connects].
Qed.

Lemma evolves_try_lock s v : evolves (Some s) v (srv_try_lock s v).2.
Proof.
  pose proof (srv_try_lock_law s v) as Hl.
  destruct (srv_try_lock s v) as [[[]|] v']; simpl in *; [|destruct Hl|destruct_or! Hl];
    eauto with election.
Qed.

Lemma evolves_count s v : evolves (Some s) v (srv_count_locks s v).2.
Proof.
  pose proof (srv_count_locks_law s v) as Hl.
  destruct (srv_count_locks s v) as [[n|] v']; simpl in *; [|destruct_or! Hl];
    [destruct Hl|..]; eauto with election.
Qed.

Lemma evolves_close s v : evolves (Some s) v (srv_close s v).
Proof. destruct (srv_close_law s v); eauto with election. Qed.

Lemma evolves_trans x v1 v2 v3 : evolves x v1 v2 -> evolves x v2 v3 -> evolves x v1 v3.
Proof.
  intros [Ho1 H1] [Ho2 H2]. split; [by etrans|]. intros s Hs Hx Ha.
  destruct (H2 s (Ho1 _ Hs) Hx Ha) as [Ha2 Hh2]. destruct (H1 s Hs Hx Ha2). auto.
Qed.

Lemma elector_ok_evolves x v v' e :
  evolves x v v' -> (conn e <> x \/ conn e = None) -> elector_ok v e -> elector_ok v' e.
Proof.
  intros [Ho Hev] Hx [? ? Hop Hl ? ? ? ? ?]. split; try done.
  - intros s Hs. by apply Ho, Hop.
  - intros s Hs Hle Ha. destruct (Hev s (Hop s Hs)) as [Ha' Hh]; [|done|].
    + destruct Hx; congruence.
    + by apply Hh, Hl.
Qed.

(** The end of a session keeps all electors well. *)
Lemma elector_ok_ends x v v' e : ends alive opened holder x v v' -> elector_ok v e -> elector_ok v' e.
Proof.
  intros Hend [? ? Hop Hl ? ? ? ? ?]. pose proof (evolves_ends _ _ _ Hend) as [Ho Hev].
  split; try done; [intros s Hs; by apply Ho, Hop|]. intros s Hs Hle Ha.
  destruct Hend as (Ha' & _). rewrite Ha', elem_of_difference, not_elem_of_singleton in Ha.
  destruct Ha as [Ha Hne]. destruct (Hev s (Hop s Hs)) as [? Hh]; [congruence| |by apply Hh, Hl].
  rewrite Ha'. set_solver.
Qed.

(** A step of the elector [i], with its session or a new one. *)
Lemma inv_put s i e e' v' x :
  Inv s -> electors s !! i = Some e -> elector_ok v' e' ->
  evolves x (server s) v' -> (x = None \/ x = conn e) ->
  (forall y, conn e' = Some y -> conn e = Some y \/ y ∉ opened (server s)) ->
  Inv (put i (e', v') s).
Proof.
  intros HI Hi He' Hev Hx Hc. pose proof (inv_electors _ HI) as Hall.
  assert (Hother : forall j f y, j <> i -> electors s !! j = Some f -> conn f = Some y ->
    conn e' <> Some y).
  { intros j f y Hne Hj Hf Hy. destruct (Hc y Hy) as [Hce|Hnew].
    - by apply Hne, (inv_owned _ HI j i f e y).
    - by apply Hnew, (ok_open _ _ (Hall _ _ Hj)). }
  split; simpl.
  - intros j f. rewrite lookup_insert_Some. intros [[<- <-]|[Hne Hj]]; [done|].
    eapply elector_ok_evolves; [exact Hev| |by apply (Hall j)].
    destruct (conn f) as [y|] eqn:Hf; [left|by right]. destruct Hx as [-> | ->]; [done|].
    intros Hy. apply Hne. by apply (inv_owned _ HI i j e f y).
  - intros j k f g y. rewrite !lookup_insert_Some.
    intros [[<- <-]|[Hj Hf']] [[<- <-]|[Hk Hg]] Hcf Hcg; [done| | |].
    + by destruct (Hother k g y).
    + by destruct (Hother j f y).
    + by eapply (inv_owned _ HI).
Qed.

(** A step that leaves the server and the connection alone. *)
Lemma inv_local s i e e' :
  Inv s -> electors s !! i = Some e -> conn e' = conn e -> elector_ok (server s) e' ->
  Inv (put i (e', server s) s).
Proof.
  intros HI Hi Hc He'. eapply (inv_put s i e e' _ None); [done..| |by left|].
  - split; [done|]. auto.
  - intros y. rewrite Hc. auto.
Qed.

(** A step that closes the connection. *)
Lemma inv_close s i e v (g : Elector -> Elector) :
  Inv s -> electors s !! i = Some e -> (forall e, conn (g e) = conn e) ->
  evolves (conn e) (server s) v -> (forall v, elector_ok v (g (set_conn None e))) ->
  Inv (put i (g (close_conn e v).1, (close_conn e v).2) s).
Proof.
  intros HI Hi Hg Hev Hok. unfold close_conn. destruct (conn e) as [x|] eqn:Hx; simpl.
  - eapply (inv_put s i e _ _ (Some x)); [done|done|apply Hok| |by rewrite Hx; right|by rewrite Hg].
    eapply evolves_trans; [exact Hev|apply evolves_close].
  - assert (He : set_conn None e = e) by (destruct e; simpl in *; by subst).
    eapply (inv_put s i e _ _ None); [done|done|by rewrite <- He|done|by left|].
    intros y. by rewrite Hg, Hx.
Qed.

(** *** The steps keep the invariant *)

(** An elector that knows where it is. *)
Ltac at_pc Hpc := rewrite Hpc in *; simpl in *.

(** The fields of [elector_ok], the connection known or not. *)
Ltac elector_fin :=
  first [done | by intros [? ?] | by intros _; eexists | lia
        | by intros ? [= <-] | intros Hns;
          match goal with H : _ = false -> _ /\ isLeader _ = _ |- _ =>
            by destruct (H Hns) end | by auto | by eauto].
Ltac elector_done := split; simpl; try elector_fin.

Lemma inv_query s i e :
  Inv s -> electors s !! i = Some e -> pc e = Asking ->
  Inv (put i (tryAcquire_query e (server s)) s).
Proof.
  intros HI Hi Hp. pose proof (inv_electors _ HI _ _ Hi) as [Hat Hc Hop Hlk Hs Hle Hg Hst Hn].
  at_pc Hp.
  unfold tryAcquire_query. destruct (conn e) as [x|] eqn:Hx.
  + pose proof (srv_try_lock_law x (server s)) as Hl.
    pose proof (evolves_try_lock x (server s)) as Hev.
    destruct (srv_try_lock x (server s)) as [r v]; simpl in *.
    assert (Hopv : forall y, conn e = Some y -> y ∈ opened v)
      by (intros y Hy; apply Hev, Hop; by rewrite <- Hx).
    assert (Hinv : forall p, p = Refused \/ (p = Acquired /\ holder v = Some x) ->
      Inv (put i (set_pc p e, v) s)).
    { intros p Hp'. eapply (inv_put s i e _ _ (Some x)); [done|done| |done|by rewrite Hx; right|].
      - destruct Hp' as [-> |[-> Hh]]; elector_done; rewrite ?Hx; elector_fin.
      - simpl. auto. }
    destruct r as [[]|]; [|by apply Hinv; left..].
    destruct Hl as (_ & _ & _ & _ & Hh). apply Hinv. by right.
  + assert (Hns : stopped e = true) by (destruct (stopped e); [done|]; by destruct Hc).
    apply (inv_local _ _ e); [done..|]. elector_done; rewrite ?Hx, ?Hns; elector_fin.
Qed.

Lemma inv_elect s i e :
  Inv s -> electors s !! i = Some e -> electing_at (pc e) = true ->
  Inv (put i (elect_turn e (server s)) s).
Proof.
  intros HI Hi Hpc. pose proof (inv_electors _ HI _ _ Hi) as [Hat Hc Hop Hlk Hs Hle Hg Hst Hn].
  unfold elect_turn. destruct (pc e) eqn:Hp; try discriminate Hpc; clear Hpc; simpl in *.
  - assert (Hnone : conn e = None) by (by apply eq_None_not_Some; intros ?%Hat).
    apply (inv_local _ _ e); [done|done|by destruct (cancelled e); [|unfold tryAcquire_conn; rewrite Hnone]|].
    unfold tryAcquire_conn. rewrite Hnone.
    destruct (cancelled e) eqn:Hcan; elector_done; rewrite ?Hcan, ?Hnone; elector_fin.
  - assert (Hnone : conn e = None) by (by apply eq_None_not_Some; intros ?%Hat).
    unfold tryAcquire_connect. pose proof (srv_connect_law (server s)) as Hl.
    pose proof (evolves_connect (server s)) as Hev.
    destruct (srv_connect (server s)) as [[x|] v]; simpl in *.
    + destruct Hl as (Hx & Ha & Ho & Hh).
      eapply (inv_put s i e _ _ None); [done|done| |done|by left|].
      * elector_done. intros y [= <-]. rewrite Ho. set_solver.
      * simpl. intros y [= <-]. by right.
    + eapply (inv_put s i e _ _ None); [done|done| |done|by left|].
      * elector_done; rewrite ?Hnone; elector_fin.
      * simpl. auto.
  - by apply inv_query.
  - unfold tryAcquire_close. destruct (conn e) as [x|] eqn:Hx.
    + eapply (inv_put s i e _ _ (Some x)); [done|done| |apply evolves_close
        |by rewrite Hx; right|done]. elector_done.
    + assert (Hns : stopped e = true) by (destruct (stopped e); [done|]; by destruct Hc).
      apply (inv_local _ _ e); [done..|]. elector_done; rewrite ?Hx, ?Hns; elector_fin.
Qed.

Lemma inv_hold s i e tick :
  Inv s -> electors s !! i = Some e -> pc e = Holding ->
  Inv (put i (holdLock_turn tick e (server s)) s).
Proof.
  intros HI Hi Hpc. pose proof (inv_electors _ HI _ _ Hi) as Hok.
  assert (Hstay : forall v, quiet alive opened holder (server s) v -> Inv (put i (e, v) s)).
  { intros v Hv. eapply (inv_put s i e _ _ None); [done|done| |by apply evolves_quiet|by left|auto].
    eapply elector_ok_evolves; [by apply (evolves_quiet None)| |done].
    destruct (conn e); [by left|by right]. }
  pose proof Hok as [Hat Hc Hop Hlk Hs Hle Hg Hst Hn]. at_pc Hpc.
  assert (Hleave : forall v, evolves (conn e) (server s) v ->
    Inv (put i (let (e', v') := close_conn e v in (set_pc Released e', v')) s)).
  { intros v Hv. pose proof (inv_close s i e v (set_pc Released) HI Hi) as HC.
    destruct (close_conn e v) as [e' v']. apply HC; [done|done|]. intros v1. elector_done. }
  unfold holdLock_turn, verifyLock. destruct tick; simpl.
  - destruct (conn e) as [x|] eqn:Hx.
    + pose proof (evolves_count x (server s)) as Hev.
      pose proof (srv_count_locks_law x (server s)) as Hl.
      destruct (srv_count_locks x (server s)) as [[n|] v]; simpl in *; [|by apply Hleave].
      destruct (0 <? n)%Z; [by apply Hstay, Hl|by apply Hleave].
    + assert (Hns : stopped e = true) by (destruct (stopped e); [done|]; by destruct Hc).
      apply (inv_local _ _ e); [done..|]. elector_done; rewrite ?Hx, ?Hns; elector_fin.
  - destruct (cancelled e); [by apply Hleave, evolves_quiet|by apply Hstay].
Qed.

Lemma inv_move s i e p :
  Inv s -> electors s !! i = Some e -> move e (server s) p -> Inv (put i p s).
Proof.
  intros HI Hi Hm. pose proof (inv_electors _ HI _ _ Hi) as [Hat Hc Hop Hlk Hs Hle Hg Hst Hn].
  destruct Hm as [Hpc|Hpc|Hpc|t Hpc|Hpc|Hpc| |Hcan];
    [by apply inv_elect| | |by apply inv_hold| | | |].
  - at_pc Hpc. apply (inv_local _ _ e); [done..|]. elector_done.
  - at_pc Hpc. apply (inv_local _ _ e); [done..|]. elector_done.
  - at_pc Hpc. apply (inv_local _ _ e); [done..|]. elector_done.
  - at_pc Hpc. apply (inv_local _ _ e); [done..|]. elector_done.
  - apply (inv_local _ _ e); [done..|]. by split.
  - unfold Stop. set (g := fun e => MkElector (conn e) false (pc e) (scheduling e) (cancelled e)
      true 0 (elections_failed e) (elections_acquired e) (elections_lost e)).
    pose proof (inv_close s i e (server s) g HI Hi) as HC.
    destruct (close_conn e (server s)) as [e' v'].
    apply HC; [done|by apply evolves_quiet|]. intros v. elector_done.
Qed.

Lemma leader_inv_step s s' : Inv s -> step s s' -> Inv s'.
Proof.
  intros HI [i Hi|i e p Hi Hm|x v Hend].
  - split; simpl.
    + apply map_Forall_insert_2; [elector_done|apply HI].
    + intros j k f g y. rewrite !lookup_insert_Some.
      intros [[<- <-]|[_ Hf]] [[<- <-]|[_ Hg]] Hcf Hcg; try done. by eapply (inv_owned _ HI).
  - by eapply inv_move.
  - split; simpl; [|apply (inv_owned _ HI)].
    intros i e Hi. by eapply elector_ok_ends, (inv_electors _ HI i).
Qed.

Lemma leader_inv_reachable s : rtc step init s -> Inv s.
Proof.
  intros Hs. assert (Hgen : Inv init -> Inv s); [|by apply Hgen, inv_init].
  induction Hs as [|a b c Hab _ IH]; [done|]. intros Ha. by apply IH, (leader_inv_step a).
Qed.

(** An instance that acts as leader on a session the server still knows. *)
Definition leads (s : System) (i : nat) : Prop :=
  exists e x, electors s !! i = Some e /\ conn e = Some x /\ x ∈ alive (server s) /\
    leading_at (pc e) = true.

(** (C8) Leader election is mutually exclusive as long as connections last: in every reachable
    state of any number of instances, with connections and queries failing, answers and
    [Close]s lost, contexts cancelled and [Stop] called at any moment, at most one instance has
    acquired the lock on a session that is still alive, and it is the one the server has as
    holder.  The scheduler of an instance runs exactly from [onAcquire] to the end of
    [onRelease]; until [Stop] an instance reports itself as leader exactly from its election to
    the loss of the lock, has a connection exactly during an attempt and while it leads, and
    never crashes; the gauge always agrees with [IsLeader], and the counters of elections won
    and lost differ by the one in force. *)
Theorem leader_mutual_exclusion s :
  rtc step init s ->
  (forall i j, leads s i -> leads s j -> i = j) /\
  (forall i, leads s i -> exists e, electors s !! i = Some e /\ is_Some (conn e) /\
     holder (server s) = conn e) /\
  (forall i e, electors s !! i = Some e ->
     scheduling e = scheduling_at (pc e) /\
     (stopped e = false -> crashed_at (pc e) = false /\ IsLeader e = reported_at (pc e) /\
        (is_Some (conn e) <-> connected_at (pc e) = true)) /\
     LeaderStatus e = (if IsLeader e then 1%Z else 0%Z) /\
     elections_acquired e = elections_lost e + open_at (pc e)).
Proof.
  intros HI%leader_inv_reachable. pose proof (inv_electors _ HI) as Hall. split_and!.
  - intros i j (e & x & Hi & Hx & Hax & Hle) (f & y & Hj & Hy & Hay & Hlf).
    pose proof (ok_lock _ _ (Hall _ _ Hi) x Hx Hle Hax) as H1.
    pose proof (ok_lock _ _ (Hall _ _ Hj) y Hy Hlf Hay) as H2.
    rewrite H1 in H2. injection H2 as <-. by apply (inv_owned _ HI i j e f x).
  - intros i (e & x & Hi & Hx & Hax & Hle). exists e. rewrite Hx. split_and!; [done|done|].
    by apply (ok_lock _ _ (Hall _ _ Hi) x Hx).
  - intros i e Hi. destruct (Hall _ _ Hi) as [Hat Hc _ _ Hs Hle Hg _ Hn]. split_and!; try done.
    intros Hst. destruct (Hle Hst). split_and!; [done|done|]. split; [done|by apply Hc].
Qed.

(** Run the elector [i] through a piece of its loop. *)
Definition act (i : nat) (f : Elector -> Server -> Elector * Server) (s : System) : System :=
  match electors s !! i with Some e => put i (f e (server s)) s | None => s end.

Lemma act_step i f s e :
  electors s !! i = Some e -> move e (server s) (f e (server s)) -> rtc step s (act i f s).
Proof. intros Hi Hm. unfold act. rewrite Hi. apply rtc_once. by eapply step_move. Qed.

(** The pieces of the loop as functions, for runs that can be computed: [None] where the
    elector is elsewhere. *)
Inductive Turn := TElect | TAnnounce | TAcquire | TTick | TCancel | TStop.

Definition turn (t : Turn) (e : Elector) (v : Server) : option (Elector * Server) :=
  match t with
  | TElect => if electing_at (pc e) then Some (elect_turn e v) else None
  | TAnnounce => if decide (pc e = Acquired) then Some (announce e, v) else None
  | TAcquire => if decide (pc e = Announced) then Some (acquire e, v) else None
  | TTick => if decide (pc e = Holding) then Some (holdLock_turn true e v) else None
  | TCancel => Some (cancel e, v)
  | TStop => if cancelled e then Some (Stop e v) else None
  end.

Lemma turn_move t e v p : turn t e v = Some p -> move e v p.
Proof.
  destruct t; simpl; intros Ht; repeat case_match; simplify_eq; try done; by constructor.
Qed.

(** The instances named in [l] take these turns, joining at their first one. *)
Fixpoint runs (l : list (nat * Turn)) (s : System) : option System :=
  match l with
  | [] => Some s
  | (i, t) :: l =>
      turn t (default New (electors s !! i)) (server s) ≫= fun p => runs l (put i p s)
  end.

Lemma put_put i p q s : put i p (put i q s) = put i p s.
Proof. unfold put. simpl. by rewrite insert_insert_eq. Qed.

Lemma runs_steps l s s' : runs l s = Some s' -> rtc step s s'.
Proof.
  revert s. induction l as [|[i t] l IH]; intros s; simpl; [by intros [= <-]|].
  destruct (turn t _ _) as [p|] eqn:Ht; [|done]. simpl. intros Hl. apply turn_move in Ht.
  etrans; [|by apply IH]. destruct (electors s !! i) as [e|] eqn:Hi; simpl in Ht.
  - apply rtc_once. by eapply step_move.
  - rewrite <- (put_put i p (New, server s)). eapply rtc_l; [by apply step_join|].
    apply rtc_once. eapply step_move; [apply lookup_insert_eq|exact Ht].
Qed.

End Election.

(** ** A server, and runs *)

(** The calls that are to fail are scheduled in [faults]: the first element says whether the
    next call fails.  A query that fails has still been executed; a [Close] that fails does
    not reach the server. *)
Record SimServer := MkSim {
  sim_alive : gset nat;
  sim_holder : option nat;
  sim_next : nat;
  faults : list bool
}.

Definition sim_fails (v : SimServer) : bool := default false (head (faults v)).

Definition sim_pop (v : SimServer) : SimServer :=
  MkSim (sim_alive v) (sim_holder v) (sim_next v) (tail (faults v)).

Definition sim_opened (v : SimServer) : gset nat := set_seq 0 (sim_next v).

Definition sim_connect (v : SimServer) : option nat * SimServer :=
  if sim_fails v then (None, sim_pop v)
  else (Some (sim_next v), MkSim ({[sim_next v]} ∪ sim_alive v) (sim_holder v)
    (S (sim_next v)) (tail (faults v))).

Definition sim_try_lock (s : nat) (v : SimServer) : option bool * SimServer :=
  let '(r, v') :=
    if decide (s ∈ sim_alive v) then
      match sim_holder v with
      | None => (Some true, MkSim (sim_alive v) (Some s) (sim_next v) (tail (faults v)))
      | Some s' => (Some (bool_decide (s' = s)), sim_pop v)
      end
    else (None, sim_pop v) in
  (if sim_fails v then None else r, v').

Definition sim_count_locks (s : nat) (v : SimServer) : option Z * SimServer :=
  (if sim_fails v then None
   else if decide (s ∈ sim_alive v)
   then Some (if decide (sim_holder v = Some s) then 1%Z else 0%Z) else None, sim_pop v).

Definition sim_end (s : nat) (v : SimServer) : SimServer :=
  MkSim (sim_alive v ∖ {[s]})
    (if decide (sim_holder v = Some s) then None else sim_holder v) (sim_next v) (faults v).

Definition sim_close (s : nat) (v : SimServer) : SimServer :=
  if sim_fails v then sim_pop v else sim_end s (sim_pop v).

Lemma sim_ends s v : ends sim_alive sim_opened sim_holder s v (sim_end s v).
Proof. done. Qed.

#[global] Instance sim_locks : AdvisoryLocks.
Proof.
  refine {| Server := SimServer; server_start := MkSim ∅ None 0 []; alive := sim_alive;
    opened := sim_opened; holder := sim_holder; srv_connect := sim_connect;
    srv_try_lock := sim_try_lock; srv_count_locks := sim_count_locks; srv_close := sim_close |}.
  - intros v. unfold sim_connect. destruct (sim_fails v); simpl; [by left|].
    unfold connects, sim_opened. cbn [sim_next]. split_and!; [|done| |done].
    + rewrite elem_of_set_seq. lia.
    + apply set_eq. intros x. rewrite elem_of_union, elem_of_singleton, !elem_of_set_seq. lia.
  - intros s v. unfold sim_try_lock. case_decide as Hs; [|by destruct (sim_fails v); left].
    destruct (sim_holder v) as [x|] eqn:Hx; simpl.
    + case_bool_decide as Hxs; destruct (sim_fails v); simpl; try (by left).
      * subst x. unfold locks. simpl. auto.
      * split; [done|]. by exists x.
    + assert (locks sim_alive sim_opened sim_holder s v
        (MkSim (sim_alive v) (Some s) (sim_next v) (tail (faults v)))).
      { unfold locks. auto 10. }
      destruct (sim_fails v); simpl; [by right; left|done].
  - intros s v. unfold sim_count_locks. destruct (sim_fails v); simpl; [by left|].
    by case_decide; [|left].
  - intros s v. unfold sim_close. destruct (sim_fails v); [by left|by right].
Defined.

(** The session [x] breaks. *)
Definition ex_break (x : nat) (s : System) : System :=
  MkSystem (AL := sim_locks) (sim_end x (server s)) (electors s).

Lemma ex_break_step x s : step s (ex_break x s).
Proof. by apply (step_break s x). Qed.

(** An instance that wins the election, from joining to its scheduler. *)
Definition ex_win (i : nat) : list (nat * Turn) :=
  [(i, TElect); (i, TElect); (i, TElect); (i, TAnnounce); (i, TAcquire)].

Definition ex_after (l : list (nat * Turn)) (s : System) : System := default s (runs l s).

Lemma ex_after_steps l s : is_Some (runs l s) -> rtc step s (ex_after l s).
Proof. intros [s' Hl]. unfold ex_after. rewrite Hl. by eapply runs_steps. Qed.

Ltac run_electors :=
  first [try apply ex_after_steps; apply (bool_decide_unpack _); vm_compute; exact I
        |vm_compute; reflexivity].

Lemma leader_mutual_exclusion_witness :
  leads (ex_after (ex_win 0) init) 0 /\
  forall j, leads (ex_after (ex_win 0) init) j -> 0 = j.
Proof.
  assert (Hl : leads (ex_after (ex_win 0) init) 0).
  { eexists _, 0. split; [vm_compute; reflexivity|]. split; [reflexivity|]. split; [|reflexivity].
    apply (bool_decide_unpack _). vm_compute. exact I. }
  split; [exact Hl|]. intros j Hj.
  apply (leader_mutual_exclusion (ex_after (ex_win 0) init)); [|exact Hl|exact Hj].
  run_electors.
Defined.

(** The exclusion ends with the connection: when the session of the leader breaks, the
    server gives the lock to another instance at once, but the old leader notices only at its
    next tick.  Until then two instances run the scheduler and report themselves as
    leaders. *)
Theorem two_schedulers_after_broken_session :
  exists s, rtc step init s /\
    exists e f, electors s !! 0 = Some e /\ electors s !! 1 = Some f /\
      scheduling e = true /\ scheduling f = true /\ isLeader e = true /\ isLeader f = true.
Proof.
  set (s1 := ex_after (ex_win 0) init).
  set (s2 := ex_break 0 s1).
  exists (ex_after (ex_win 1) s2). split.
  - etrans; [apply (ex_after_steps (ex_win 0) init); run_electors|].
    eapply (rtc_l _ s1 s2); [apply (ex_break_step 0)|]. run_electors.
  - eexists _, _. split; [run_electors|]. split; [run_electors|]. done.
Qed.

(** [Stop] can crash the program: it sets [e.conn] to nil without stopping the loop.  In
    [holdLock] the [select], with both the cancelled context and a tick ready, may take the
    tick, whose [verifyLock] then calls a method of the nil [e.conn]; in an attempt to become
    leader, [Stop] may come between the connection and its query or its [Close]. *)
Theorem Stop_can_crash :
  (exists s e, rtc step init s /\ electors s !! 0 = Some e /\ pc e = Crashed true) /\
  (exists s e, rtc step init s /\ electors s !! 0 = Some e /\ pc e = Crashed false).
Proof.
  split.
  - exists (ex_after (ex_win 0 ++ [(0, TCancel); (0, TStop); (0, TTick)]) init). eexists.
    split_and!; run_electors.
  - exists (ex_after [(0, TElect); (0, TElect); (0, TCancel); (0, TStop); (0, TElect)] init).
    eexists. split_and!; run_electors.
Qed.
