(* ===== verification/Instance.v ===== *)
(** * Instances: start-up, leadership, shutdown ([cmd/goqueue/main.go])

    An instance is what [main] wires together: the elector, whose callbacks start and stop the
    scheduler, the worker pool, the HTTP server, the connections, and the sequence of calls
    that shuts all of it down after a signal.  Any number of instances run against one
    PostgreSQL server (the class [AdvisoryLocks] of [Leader.v]).  The state of each component
    is the one of its own file, and a step is a step of one component, with the calls that
    connect them made together. *)

From S2P Require Import Prelude Config Main Storage Queue Worker Scheduler Leader.

Local Open Scope list_scope.

(** How far [main] is after its start: waiting for a signal; after [cancel()]; after
    [hub.Shutdown()]; after [elector.Stop()]; in [srv.Shutdown]; after it; in [pool.Stop()];
    after it; after the deferred [rq.Close()]; after the deferred [store.Close()]. *)
Inductive Phase :=
| Serving | Cancelled | HubDown | ElectorStopped | HttpClosing | HttpDown | PoolStopping
| PoolDown | QueueClosed | Exited.

#[global] Instance Phase_eq_dec : EqDecision Phase.
Proof. solve_decision. Defined.

Record Instance := MkInstance {
  phase : Phase;
  elector : Elector;
  sched : Lifecycle.Scheduler;
  workers : Pool.Pool;
  listening : bool;
  requests : nat;
  queueOpen : bool;
  storeOpen : bool
}.

Definition set_phase (p : Phase) (i : Instance) : Instance :=
  MkInstance p (elector i) (sched i) (workers i) (listening i) (requests i) (queueOpen i)
    (storeOpen i).
Definition set_elector (e : Elector) (i : Instance) : Instance :=
  MkInstance (phase i) e (sched i) (workers i) (listening i) (requests i) (queueOpen i)
    (storeOpen i).
Definition set_sched (s : Lifecycle.Scheduler) (i : Instance) : Instance :=
  MkInstance (phase i) (elector i) s (workers i) (listening i) (requests i) (queueOpen i)
    (storeOpen i).
Definition set_workers (p : Pool.Pool) (i : Instance) : Instance :=
  MkInstance (phase i) (elector i) (sched i) p (listening i) (requests i) (queueOpen i)
    (storeOpen i).
Definition set_http (l : bool) (n : nat) (i : Instance) : Instance :=
  MkInstance (phase i) (elector i) (sched i) (workers i) l n (queueOpen i) (storeOpen i).
Definition set_open (q s : bool) (i : Instance) : Instance :=
  MkInstance (phase i) (elector i) (sched i) (workers i) (listening i) (requests i) q s.

(** [main] from [NewPool] to [<-quit]: the pool runs, the elector starts, the scheduler
    waits for it, the server listens. *)
Definition launch (cfg : Config) : Instance :=
  MkInstance Serving Leader.New Lifecycle.New
    (Pool.Start (Pool.NewPool (WorkerCount cfg))) true 0 true true.

Section Cluster.
Context `{AL : AdvisoryLocks}.

(** The calls of [main] after the signal, one at a time; [None] while a call waits.
    [timeout] says that [shutdownCtx] has expired. *)
Definition main_turn (timeout : bool) (i : Instance) (v : Server) :
    option (Instance * Server) :=
  match phase i with
  | Serving =>
      Some (set_phase Cancelled (set_elector (Leader.cancel (elector i))
        (set_sched (Lifecycle.cancel_parent (sched i))
          (set_workers (Pool.cancel_parent (workers i)) i))), v)
  | Cancelled => Some (set_phase HubDown i, v)
  | HubDown =>
      let (e, v') := Leader.Stop (elector i) v in
      Some (set_phase ElectorStopped (set_elector e i), v')
  | ElectorStopped => Some (set_phase HttpClosing (set_http false (requests i) i), v)
  | HttpClosing =>
      if timeout || (requests i =? 0)%nat then Some (set_phase HttpDown i, v) else None
  | HttpDown => Some (set_phase PoolStopping (set_workers (Pool.Stop (workers i)) i), v)
  | PoolStopping =>
      if Pool.Stop_returns (workers i) then Some (set_phase PoolDown i, v) else None
  | PoolDown => Some (set_phase QueueClosed (set_open false (storeOpen i) i), v)
  | QueueClosed => Some (set_phase Exited (set_open (queueOpen i) false i), v)
  | Exited => None
  end.

(** The other goroutines.  The callbacks of the elector are calls of the scheduler:
    [onAcquire] is [sched.Start], [onRelease] is [sched.Stop], which has to return before
    the elector goes on. *)
Inductive other (i : Instance) (v : Server) : Instance * Server -> Prop :=
| other_elect :
    electing_at (pc (elector i)) = true ->
    let p := elect_turn (elector i) v in
    other i v (set_elector p.1 i, p.2)
| other_announce : pc (elector i) = Acquired ->
    other i v (set_elector (announce (elector i)) i, v)
| other_onAcquire s : pc (elector i) = Announced -> Lifecycle.Start (sched i) = Some s ->
    other i v (set_sched s (set_elector (acquire (elector i)) i), v)
| other_hold tick :
    pc (elector i) = Holding ->
    let p := holdLock_turn tick (elector i) v in
    other i v (set_elector p.1 i, p.2)
| other_demote : pc (elector i) = Released ->
    other i v (set_elector (demote (elector i)) i, v)
| other_onRelease s : pc (elector i) = Demoted -> Lifecycle.running (sched i) = true ->
    Lifecycle.Stop (sched i) = Some s -> other i v (set_sched s i, v)
| other_onRelease_returns s : pc (elector i) = Demoted ->
    (Lifecycle.Stop_return (sched i) = Some s \/
     (Lifecycle.running (sched i) = false /\ Lifecycle.Stop (sched i) = Some s)) ->
    other i v (set_sched s (set_elector (release (elector i)) i), v)
| other_loop k exit s : Lifecycle.loop_step k exit (sched i) = Some s ->
    other i v (set_sched s i, v)
| other_worker p : Pool.worker_exit (workers i) = Some p -> other i v (set_workers p i, v)
| other_request : listening i = true ->
    other i v (set_http true (S (requests i)) i, v)
| other_reply n : requests i = S n -> other i v (set_http (listening i) n i, v).

(** ** All instances *)

Record Cluster := MkCluster { cl_server : Server; cl_instances : gmap nat Instance }.

Definition cl_put (n : nat) (p : Instance * Server) (c : Cluster) : Cluster :=
  MkCluster p.2 (<[n := p.1]> (cl_instances c)).

(** An instance joins, moves until it has crashed or its [main] has returned, and the server
    may end the session of an elector at any time. *)
Inductive cl_step (c : Cluster) : Cluster -> Prop :=
| cl_join n cfg : cl_instances c !! n = None ->
    cl_step c (cl_put n (launch cfg, cl_server c) c)
| cl_main n i timeout p : cl_instances c !! n = Some i -> crashed_at (pc (elector i)) = false ->
    main_turn timeout i (cl_server c) = Some p -> cl_step c (cl_put n p c)
| cl_other n i p : cl_instances c !! n = Some i -> crashed_at (pc (elector i)) = false ->
    phase i <> Exited -> other i (cl_server c) p -> cl_step c (cl_put n p c)
| cl_break x v : ends alive opened holder x (cl_server c) v ->
    cl_step c (MkCluster v (cl_instances c)).

Definition cl_init : Cluster := MkCluster server_start ∅.

(** ** The components keep their behaviour *)

(** The electors of a cluster. *)
Definition electors_of (c : Cluster) : System :=
  MkSystem (cl_server c) (elector <$> cl_instances c).

Lemma electors_of_put n i v c :
  electors_of (cl_put n (i, v) c) = put n (elector i, v) (electors_of c).
Proof. unfold electors_of, cl_put, put. simpl. by rewrite fmap_insert. Qed.

(** A step that leaves the elector and the server alone. *)
Lemma electors_of_same n i i' c :
  cl_instances c !! n = Some i -> elector i' = elector i ->
  electors_of (cl_put n (i', cl_server c) c) = electors_of c.
Proof.
  intros Hn He. unfold electors_of, cl_put. simpl. f_equal. rewrite fmap_insert.
  apply insert_id. by rewrite lookup_fmap, Hn, He.
Qed.

(** ** The invariant of an instance *)

(** [main] is past the wait for the workers; past [srv.Shutdown]'s first act. *)
Definition drained (p : Phase) : bool :=
  match p with PoolDown | QueueClosed | Exited => true | _ => false end.
Definition accepting (p : Phase) : bool :=
  match p with Serving | Cancelled | HubDown | ElectorStopped => true | _ => false end.
Definition queue_up (p : Phase) : bool :=
  match p with QueueClosed | Exited => false | _ => true end.
Definition store_up (p : Phase) : bool :=
  match p with Exited => false | _ => true end.

Record inst_ok (i : Instance) : Prop := {
  io_cancel : phase i <> Serving ->
    Leader.cancelled (elector i) = true /\ Pool.cancelled (workers i) = true /\
    Lifecycle.parentDone (sched i) = true;
  io_pool : Pool.wg (workers i) = Pool.live (workers i) /\
    (drained (phase i) = true -> Pool.live (workers i) = 0);
  io_open : listening i = accepting (phase i) /\
    queueOpen i = queue_up (phase i) /\ storeOpen i = store_up (phase i);
  io_sched : Lifecycle.Inv (sched i);
  io_running : Lifecycle.running (sched i) = scheduling_at (pc (elector i));
  io_stopping : Lifecycle.stopping (sched i) = true -> pc (elector i) = Demoted
}.

Lemma launch_ok cfg : inst_ok (launch cfg).
Proof.
  split; simpl; try done; [|apply Lifecycle.inv_New].
  unfold Pool.Start. rewrite Pool.spawn_spec. done.
Qed.

Lemma electing_idle p : electing_at p = true -> scheduling_at p = false /\ p <> Demoted.
Proof. by destruct p. Qed.

(** The pieces of the loop keep an elector in its part of it. *)
Lemma elect_at e v :
  electing_at (pc e) = true ->
  scheduling_at (pc (elect_turn e v).1) = false /\
  Leader.cancelled (elect_turn e v).1 = Leader.cancelled e /\
  pc (elect_turn e v).1 <> Demoted.
Proof.
  intros Hpc. unfold elect_turn, tryAcquire_conn, tryAcquire_connect, tryAcquire_query,
    tryAcquire_close.
  destruct (pc e) eqn:Hp; try discriminate Hpc;
    repeat (case_match; simplify_eq; simpl; try (by rewrite ?Hp)); done.
Qed.

Lemma hold_at tick e v :
  pc e = Holding ->
  scheduling_at (pc (holdLock_turn tick e v).1) = true /\
  Leader.cancelled (holdLock_turn tick e v).1 = Leader.cancelled e /\
  pc (holdLock_turn tick e v).1 <> Demoted.
Proof.
  intros Hpc. unfold holdLock_turn, verifyLock, close_conn.
  repeat (case_match; simplify_eq; simpl; try (by rewrite ?Hpc)); done.
Qed.

Lemma Stop_at e v :
  pc (Leader.Stop e v).1 = pc e /\ Leader.cancelled (Leader.Stop e v).1 = Leader.cancelled e.
Proof. unfold Leader.Stop, close_conn. by destruct (conn e). Qed.

Lemma main_ok timeout i v i' v' :
  inst_ok i -> main_turn timeout i v = Some (i', v') -> inst_ok i'.
Proof.
  intros [Hc [Hwg Hd] (Hl & Hq & Hs) HI Hr Hst] Ht. unfold main_turn in Ht.
  destruct (phase i) eqn:Hp; simpl in *; repeat case_match; simplify_eq;
    (split; simpl; rewrite ?Hp; simpl; try done; try (by intros _; apply Hc)).
  - eapply Lifecycle.inv_step; [exact HI|apply Lifecycle.step_parent].
  - intros _. destruct (Stop_at (elector i) v) as [_ Hcan]. rewrite H in Hcan. simpl in Hcan.
    rewrite Hcan. by apply Hc.
  - destruct (Stop_at (elector i) v) as [Hpc _]. rewrite H in Hpc. simpl in Hpc.
    by rewrite Hpc.
  - destruct (Stop_at (elector i) v) as [Hpc _]. rewrite H in Hpc. simpl in Hpc.
    by rewrite Hpc.
  - intros _. destruct Hc as (? & ? & ?); [done|]. by destruct (Pool.hasCancel (workers i)).
  - split; [done|]. intros _. rewrite <- Hwg. by apply Nat.eqb_eq.
Qed.

Lemma other_ok i v i' v' : inst_ok i -> phase i <> Exited -> other i v (i', v') -> inst_ok i'.
Proof.
  intros [Hc [Hwg Hd] (Hl & Hq & Hs) HI Hr Hst] Hex Ho.
  inversion Ho as [Hpc p|Hpc|s Hpc Hstart|t Hpc p|Hpc|s Hpc Hrun Hstop
    |s Hpc Hret|k ex s Hloop|p Hexit|Hlis|n Hreq]; clear Ho; simplify_eq.
  - destruct (elect_at (elector i) v Hpc) as (Hsc & Hcan & Hnd). fold p in Hsc, Hcan, Hnd.
    destruct (electing_idle _ Hpc) as [Hidle Hnot].
    split; simpl; rewrite ?Hcan, ?Hsc; try done; [by rewrite Hr|].
    intros Hs'. by destruct Hnot; apply Hst.
  - split; simpl; try done; [by rewrite Hr, Hpc|]. intros Hs'. apply Hst in Hs'. congruence.
  - assert (Hs' : Lifecycle.stopping (sched i) = false).
    { destruct (Lifecycle.stopping (sched i)); [|done]. exfalso.
      rewrite Hst in Hpc by done. done. }
    rewrite Hpc in Hr. simpl in Hr.
    assert (HI' : Lifecycle.Inv s) by (eapply Lifecycle.inv_step; [exact HI|by apply Lifecycle.step_Start]).
    unfold Lifecycle.Start in Hstart. rewrite Hs', Hr in Hstart. simplify_eq.
    split; simpl; done.
  - destruct (hold_at t (elector i) v Hpc) as (Hsc & Hcan & Hnd). fold p in Hsc, Hcan, Hnd.
    split; simpl; rewrite ?Hcan, ?Hsc; try done; [by rewrite Hr, Hpc|].
    intros Hs'. apply Hst in Hs'. congruence.
  - split; simpl; try done. by rewrite Hr, Hpc.
  - assert (HI' : Lifecycle.Inv s) by (eapply Lifecycle.inv_step; [exact HI|by apply Lifecycle.step_Stop]).
    unfold Lifecycle.Stop in Hstop. repeat case_match; simplify_eq; split; simpl; try done.
  - rewrite Hpc in Hr. simpl in Hr.
    assert (HI' : Lifecycle.Inv s).
    { eapply Lifecycle.inv_step; [exact HI|].
      destruct Hret as [?|[_ ?]]; [by apply Lifecycle.step_Stop_return|by apply Lifecycle.step_Stop]. }
    destruct Hret as [Hret|[Hret _]]; [|congruence]. unfold Lifecycle.Stop_return in Hret.
    case_match; simplify_eq. split; simpl; done.
  - assert (HI' : Lifecycle.Inv s) by (eapply Lifecycle.inv_step; [exact HI|by eapply Lifecycle.step_loop]).
    unfold Lifecycle.loop_step in Hloop. repeat case_match; simplify_eq; split; simpl; done.
  - unfold Pool.worker_exit in Hexit. case_match; simplify_eq. split; simpl; try done.
    split; [by rewrite Hwg|]. intros Hd'. by rewrite (Hd Hd').
  - split; simpl; try done. split_and!; try done. by rewrite <- Hl.
  - split; simpl; done.
Qed.

(** ** The cluster *)

Definition all_ok_cluster (c : Cluster) : Prop := map_Forall (fun _ => inst_ok) (cl_instances c).

Lemma cl_step_ok c c' : all_ok_cluster c -> cl_step c c' -> all_ok_cluster c'.
Proof.
  intros Hall [n cfg Hn|n i tm [i' v'] Hn _ Ht|n i [i' v'] Hn _ Hex Ho|x v _]; [| | |done];
    (apply map_Forall_insert_2; [|done]).
  - apply launch_ok.
  - by eapply main_ok, Ht; apply (Hall n).
  - by eapply other_ok, Ho; [apply (Hall n)|].
Qed.

(** Every step is a step of the election or invisible to it. *)
Lemma cl_step_electors c c' :
  all_ok_cluster c -> cl_step c c' ->
  electors_of c' = electors_of c \/ step (electors_of c) (electors_of c').
Proof.
  intros Hall Hstep.
  assert (Hmove : forall n i i' v p, cl_instances c !! n = Some i ->
    (elector i', v) = p -> move (elector i) (cl_server c) p ->
    step (electors_of c) (electors_of (cl_put n (i', v) c))).
  { intros n i i' v p Hn <- Hm. rewrite electors_of_put. eapply step_move; [|exact Hm].
    simpl. by rewrite lookup_fmap, Hn. }
  destruct Hstep as [n cfg Hn|n i tm [i' v'] Hn _ Ht|n i p Hn _ _ Ho|x v Hend].
  - right. rewrite electors_of_put. apply step_join. simpl. by rewrite lookup_fmap, Hn.
  - unfold main_turn in Ht. pose proof (io_cancel _ (Hall _ _ Hn)) as Hcan.
    destruct (phase i) eqn:Hp; repeat case_match; simplify_eq; simpl;
      try (left; by eapply electors_of_same).
    + right. eapply Hmove; [done|reflexivity|constructor].
    + right. eapply (Hmove n i); [done|reflexivity|]. simpl.
      match goal with H : Leader.Stop _ _ = _ |- _ => rewrite <- H end.
      apply move_Stop. by apply Hcan.
  - destruct Ho as [Hpc p|Hpc|s' Hpc _|t Hpc p|Hpc|s' Hpc _ _|s' Hpc _|k ex s' _|p _|_|m _];
      try (left; by eapply electors_of_same); right; (eapply Hmove; [done|reflexivity|]); simpl.
    + rewrite <- surjective_pairing. by apply move_elect.
    + by apply move_announce.
    + by apply move_acquire.
    + rewrite <- surjective_pairing. by apply move_hold.
    + by apply move_demote.
    + by apply move_release.
  - right. by apply (step_break (electors_of c) x).
Qed.

Lemma cl_reachable c :
  rtc cl_step cl_init c -> all_ok_cluster c /\ rtc step init (electors_of c).
Proof.
  intros Hc. cut (all_ok_cluster cl_init /\ rtc step init (electors_of cl_init)).
  - revert Hc. induction 1 as [|a b d Hab _ IH]; [done|]. intros [Ha Hr]. apply IH.
    split; [by eapply cl_step_ok|].
    destruct (cl_step_electors a b Ha Hab) as [->|Hs]; [done|]. by eapply rtc_r.
  - split; [by apply map_Forall_empty|]. unfold electors_of. simpl. by rewrite fmap_empty.
Qed.

(** With a connection, an instance schedules only as long as it leads. *)
Lemma scheduling_leads p : scheduling_at p = true -> connected_at p = true -> leading_at p = true.
Proof. by destruct p. Qed.

(** A scheduler with loops is the one of an instance that has not stopped it. *)
Lemma loops_scheduling i :
  inst_ok i -> Lifecycle.loops (sched i) <> [] ->
  scheduling_at (pc (elector i)) = true /\ Lifecycle.SchedulerActive (sched i) = 1%Z.
Proof.
  intros Hok Hl. rewrite <- (io_running _ Hok). pose proof (io_sched _ Hok) as HI.
  destruct (Lifecycle.running (sched i)) eqn:Hrun.
  - split; [done|]. by apply (Lifecycle.inv_running _ HI).
  - by destruct (Lifecycle.inv_idle _ HI Hrun).
Qed.

(** (C9) Leadership and scheduling fit together: the instances of a cluster, each with its
    elector, scheduler, workers and [main], refine the election of leaders, in which the
    scheduler is only a flag.  Hence, however all of it interleaves: the loops of a scheduler
    run only from the [onAcquire] to the end of the [onRelease] of its own elector, with the
    gauge [SchedulerActive] at one; and of all instances whose session is still alive at most
    one runs them. *)
Theorem cluster_refines_election c :
  rtc cl_step cl_init c ->
  rtc step init (electors_of c) /\
  (forall n i, cl_instances c !! n = Some i -> Lifecycle.loops (sched i) <> [] ->
     scheduling_at (pc (elector i)) = true /\ Lifecycle.SchedulerActive (sched i) = 1%Z) /\
  (forall n m i j x y, cl_instances c !! n = Some i -> cl_instances c !! m = Some j ->
     Lifecycle.loops (sched i) <> [] -> Lifecycle.loops (sched j) <> [] ->
     conn (elector i) = Some x -> conn (elector j) = Some y ->
     x ∈ alive (cl_server c) -> y ∈ alive (cl_server c) -> n = m).
Proof.
  intros [Hall Hr]%cl_reachable. split_and!; [done| |].
  - intros n i Hn. by apply loops_scheduling, (Hall n).
  - intros n m i j x y Hn Hm Hli Hlj Hx Hy Hax Hay. pose proof (leader_inv_reachable _ Hr) as HI.
    assert (Hlook : forall k ik, cl_instances c !! k = Some ik ->
      electors (electors_of c) !! k = Some (elector ik)).
    { intros k ik Hk. simpl. by rewrite lookup_fmap, Hk. }
    assert (Hlock : forall k ik z, cl_instances c !! k = Some ik ->
      Lifecycle.loops (sched ik) <> [] -> conn (elector ik) = Some z ->
      z ∈ alive (cl_server c) -> holder (cl_server c) = Some z).
    { intros k ik z Hk Hl Hz Hza. pose proof (inv_electors _ HI _ _ (Hlook _ _ Hk)) as Hok.
      apply (ok_lock _ _ Hok z Hz); [|exact Hza]. apply scheduling_leads.
      - by apply loops_scheduling; [apply (Hall k)|].
      - apply (ok_at _ _ Hok). by exists z. }
    pose proof (Hlock n i x Hn Hli Hx Hax) as H1. rewrite (Hlock m j y Hm Hlj Hy Hay) in H1.
    injection H1 as <-. by apply (inv_owned _ HI n m (elector i) (elector j) y); auto.
Qed.

(** (C10) The shutdown keeps its order: in every reachable state a worker, whatever it is
    doing, finds the queue and the store open, and so does a request that is accepted; the
    connections are closed only after the context was cancelled and all workers have
    returned; and when [main] has returned, nothing listens, no worker is left and both
    connections are closed.  (Requests that outlast the timeout, and the loops of the
    scheduler, may be left: see [shutdown_finishes] and [exit_with_scheduler_running].) *)
Theorem shutdown_order_safe c n i :
  rtc cl_step cl_init c -> cl_instances c !! n = Some i ->
  (0 < Pool.live (workers i) \/ listening i = true ->
     queueOpen i = true /\ storeOpen i = true) /\
  (queueOpen i = false \/ storeOpen i = false ->
     Leader.cancelled (elector i) = true /\ Pool.live (workers i) = 0) /\
  (phase i = Exited -> listening i = false /\ Pool.live (workers i) = 0 /\
     queueOpen i = false /\ storeOpen i = false).
Proof.
  intros [Hall _]%cl_reachable Hn.
  destruct (Hall _ _ Hn) as [Hc [Hwg Hd] (Hl & Hq & Hs) _ _ _].
  rewrite Hl, Hq, Hs. destruct (phase i); simpl in *; split_and!; try done;
    first [by intros [?|?] | rewrite (Hd eq_refl); intros [?|?]; [lia|done]
          |intros _; split; [by apply Hc|by apply Hd] | by rewrite (Hd eq_refl)].
Qed.

(** ** The shutdown ends *)

(** How many calls of [main] are left. *)
Definition remaining (p : Phase) : nat :=
  match p with
  | Serving => 9 | Cancelled => 8 | HubDown => 7 | ElectorStopped => 6 | HttpClosing => 5
  | HttpDown => 4 | PoolStopping => 3 | PoolDown => 2 | QueueClosed => 1 | Exited => 0
  end.

(** An instance that can go on shutting down. *)
Definition quitting (i : Instance) : Prop :=
  inst_ok i /\ phase i <> Serving /\ crashed_at (pc (elector i)) = false.

(** Nothing moves but [main] of the instance [n] and its workers, which return. *)
Inductive quit_step (n : nat) (c : Cluster) : Cluster -> Prop :=
| quit_main i timeout p : cl_instances c !! n = Some i -> crashed_at (pc (elector i)) = false ->
    main_turn timeout i (cl_server c) = Some p -> quit_step n c (cl_put n p c)
| quit_worker i p : cl_instances c !! n = Some i -> crashed_at (pc (elector i)) = false ->
    phase i <> Exited -> Pool.worker_exit (workers i) = Some p ->
    quit_step n c (cl_put n (set_workers p i, cl_server c) c).

(** The steps that are left to [main] and to the workers. *)
Definition quit_measure (i : Instance) : nat := remaining (phase i) + Pool.live (workers i).

(** What these steps leave alone. *)
Definition unmoved (i i' : Instance) : Prop :=
  requests i' = requests i /\ sched i' = sched i /\ pc (elector i') = pc (elector i).

Lemma main_turn_quits timeout i v i' v' :
  quitting i -> main_turn timeout i v = Some (i', v') ->
  quitting i' /\ unmoved i i' /\ quit_measure i' < quit_measure i.
Proof.
  intros (Hok & Hq & Hpc) Ht. pose proof (main_ok _ _ _ _ _ Hok Ht) as Hok'.
  assert (Hwg : Pool.live (Pool.Stop (workers i)) = Pool.live (workers i)) by done.
  unfold main_turn in Ht. unfold quitting, unmoved, quit_measure.
  destruct (phase i) eqn:Hp; [done|..]; repeat case_match; simplify_eq; simpl;
    try (split_and!; solve [done | lia]).
  destruct (Stop_at (elector i) v) as [Hpc' _].
  match goal with H : Leader.Stop _ _ = _ |- _ => rewrite H in Hpc' end.
  simpl in Hpc'. split_and!; try done; [by rewrite Hpc'|lia].
Qed.

Lemma worker_quits i (v : Server) p :
  quitting i -> phase i <> Exited -> Pool.worker_exit (workers i) = Some p ->
  quitting (set_workers p i) /\ unmoved i (set_workers p i) /\
  quit_measure (set_workers p i) < quit_measure i.
Proof.
  intros (Hok & Hq & Hpc) Hex Hp.
  assert (inst_ok (set_workers p i)) by (by apply (other_ok i v _ v); [..|constructor]).
  unfold Pool.worker_exit in Hp. case_match eqn:Hb; simplify_eq.
  apply andb_true_iff in Hb as [_ Hlt%Nat.ltb_lt]. unfold quit_measure. simpl.
  split_and!; [done|done|lia].
Qed.

Lemma quit_step_quits n c c' i :
  cl_instances c !! n = Some i -> quitting i -> quit_step n c c' ->
  exists i', cl_instances c' !! n = Some i' /\ quitting i' /\ unmoved i i' /\
    quit_measure i' < quit_measure i.
Proof.
  intros Hn Hi Hstep. destruct Hstep as [j tm [i' v'] Hj _ Ht|j p Hj _ Hex Hp];
    rewrite Hn in Hj; injection Hj as <-.
  - exists i'. split; [apply lookup_insert_eq|]. by eapply main_turn_quits.
  - exists (set_workers p i). split; [apply lookup_insert_eq|].
    by apply (worker_quits i (cl_server c)).
Qed.

(** Until [main] has returned, it or a worker can go on. *)
Lemma quit_progress n c i :
  cl_instances c !! n = Some i -> quitting i -> phase i = Exited \/ exists c', quit_step n c c'.
Proof.
  intros Hn (Hok & Hq & Hpc). destruct (main_turn true i (cl_server c)) as [p|] eqn:Ht.
  { right. eexists. by eapply quit_main. }
  unfold main_turn in Ht. destruct (phase i) eqn:Hp; repeat case_match; simplify_eq; [|by left].
  right. destruct (io_pool _ Hok) as [Hwg _]. destruct (io_cancel _ Hok) as (_ & Hcan & _).
  { by rewrite Hp. }
  destruct (Pool.worker_exit (workers i)) as [p|] eqn:Hw.
  - eexists. eapply quit_worker; try done. by rewrite Hp.
  - exfalso. unfold Pool.worker_exit, Pool.Stop_returns in *. rewrite Hcan in Hw. simpl in Hw.
    destruct (0 <? Pool.live (workers i)) eqn:Hl; [done|]. apply Nat.ltb_ge in Hl.
    rewrite Hwg in *. match goal with H : (_ =? 0)%nat = false |- _ => apply Nat.eqb_neq in H end. lia.
Qed.


End Cluster.

(** ** Start-up *)

(** (C36) The program starts or exits with code 1: it starts exactly if the configuration
    loads, PostgreSQL is connected and answers, the migrations are applied or there is
    nothing to apply, and Redis answers.  It then runs with the loaded configuration as many
    workers as that says (none for a count that is not positive), does not lead, and has its
    scheduler off. *)
Theorem boot_correct {P C S M} Getenv (L : BootLibs P C S M) :
  match boot Getenv L with
  | BExit code _ => code = 1%Z /\
      forall cfg, Load Getenv = Ok cfg ->
        is_ok (NewPostgresStorage (pgxpool_New L) (pool_Ping L) (PostgresURL cfg)) = false \/
        is_ok (iofs_New L) = false \/
        (exists src, iofs_New L = Ok src /\
           (is_ok (NewWithSourceInstance L src (PostgresURL cfg)) = false \/
            exists m e, NewWithSourceInstance L src (PostgresURL cfg) = Ok m /\
              m_Up L m = Some (UpError e))) \/
        is_ok (client_Ping L (redis_NewClient L (RedisURL cfg))) = false
  | BReady cfg level store rq =>
      Load Getenv = Ok cfg /\ connStr store = PostgresURL cfg /\
      pgxpool_New L (PostgresURL cfg) = Ok (pool store) /\
      is_ok (pool_Ping L (pool store)) = true /\
      (exists src m, iofs_New L = Ok src /\
         NewWithSourceInstance L src (PostgresURL cfg) = Ok m /\
         (m_Up L m = None \/ m_Up L m = Some ErrNoChange)) /\
      client _ rq = redis_NewClient L (RedisURL cfg) /\ is_ok (client_Ping L (client _ rq)) = true /\
      Pool.live (workers (launch cfg)) = Z.to_nat (WorkerCount cfg) /\
      IsLeader (elector (launch cfg)) = false /\
      Lifecycle.loops (sched (launch cfg)) = []
  end.
Proof.
  unfold boot, NewPostgresStorage, RunMigrations, NewRedisQueue.
  destruct (Load Getenv) as [cfg|]; [|done].
  destruct (pgxpool_New L _) as [p|] eqn:Hp.
  2:{ split; [done|]. intros ? [= <-]. left. by rewrite Hp. }
  destruct (pool_Ping L p) eqn:Hping.
  2:{ split; [done|]. intros ? [= <-]. left. by rewrite Hp, Hping. }
  cbn [connStr]. destruct (iofs_New L) as [src|] eqn:Hsrc.
  2:{ split; [done|]. intros ? [= <-]. right; by left. }
  destruct (NewWithSourceInstance L src (PostgresURL cfg)) as [m|] eqn:Hm.
  2:{ split; [done|]. intros ? [= <-]. right; right; left. exists src. split; [done|left]. by rewrite Hm. }
  assert (Hlive : Pool.live (workers (launch cfg)) = Z.to_nat (WorkerCount cfg)).
  { cbn [workers launch]. unfold Pool.Start. by rewrite Pool.spawn_spec. }
  destruct (m_Up L m) as [[|e]|] eqn:Hup.
  2:{ split; [done|]. intros ? [= <-]. right; right; left. exists src. split; [done|right]. eauto. }
  all: destruct (client_Ping L _) eqn:Hcl;
    [cbn [connStr pool client]; split_and!; [done|done|done|by rewrite Hping| |done
       |by rewrite Hcl|exact Hlive|done|done]; exists src, m; split_and!; [done|done|auto]
    |split; [done|]; intros ? [= <-]; right; right; right; by rewrite Hcl].
Qed.

(** ** Runs *)

(** A schedule of steps that can be computed. *)
Inductive Action :=
| AJoin (n : nat) (cfg : Config) | AMain (n : nat) | AElect (n : nat) | AAnnounce (n : nat)
| AOnAcquire (n : nat) | AWorker (n : nat) | ARequest (n : nat).

Section Runs.
Context `{AL : AdvisoryLocks}.

(** What the action does to an instance that may still move. *)
Definition moved (a : Action) (i : Instance) (v : Server) : option (Instance * Server) :=
  let e := elector i in
  match a with
  | AJoin _ _ | AMain _ => None
  | AElect _ =>
      if electing_at (pc e)
      then let p := elect_turn e v in Some (set_elector p.1 i, p.2) else None
  | AAnnounce _ => if decide (pc e = Acquired) then Some (set_elector (announce e) i, v) else None
  | AOnAcquire _ =>
      if decide (pc e = Announced)
      then (fun s => (set_sched s (set_elector (acquire e) i), v)) <$> Lifecycle.Start (sched i)
      else None
  | AWorker _ => (fun p => (set_workers p i, v)) <$> Pool.worker_exit (workers i)
  | ARequest _ => if listening i then Some (set_http true (S (requests i)) i, v) else None
  end.

Definition instance_at (a : Action) : nat :=
  match a with
  | AJoin n _ | AMain n | AElect n | AAnnounce n | AOnAcquire n | AWorker n | ARequest n => n
  end.

Definition perform (a : Action) (c : Cluster) : option Cluster :=
  let n := instance_at a in
  match a, cl_instances c !! n with
  | AJoin _ cfg, None => Some (cl_put n (launch cfg, cl_server c) c)
  | AMain _, Some i =>
      if crashed_at (pc (elector i)) then None
      else (fun r => cl_put n r c) <$> main_turn true i (cl_server c)
  | _, Some i =>
      if crashed_at (pc (elector i)) || bool_decide (phase i = Exited) then None
      else (fun r => cl_put n r c) <$> moved a i (cl_server c)
  | _, None => None
  end.

Fixpoint performs (l : list Action) (c : Cluster) : option Cluster :=
  match l with [] => Some c | a :: l => perform a c ≫= performs l end.

Lemma moved_other a i v p : moved a i v = Some p -> other i v p.
Proof.
  destruct a; simpl; intros Hm; try done.
  - case_match eqn:Hpc; [|done]. simplify_eq. by apply other_elect.
  - case_decide; [|done]. simplify_eq. by apply other_announce.
  - case_decide; [|done]. destruct (Lifecycle.Start (sched i)) eqn:Hs; [|done].
    injection Hm as <-. by apply other_onAcquire.
  - destruct (Pool.worker_exit (workers i)) eqn:Hw; [|done].
    injection Hm as <-. by apply other_worker.
  - case_match eqn:Hl; [|done]. simplify_eq. by apply other_request.
Qed.

Lemma perform_step a c c' : perform a c = Some c' -> cl_step c c'.
Proof.
  unfold perform. destruct (cl_instances c !! instance_at a) as [i|] eqn:Hn.
  - assert (Hmoved : (if crashed_at (pc (elector i)) || bool_decide (phase i = Exited) then None
      else (fun r => cl_put (instance_at a) r c) <$> moved a i (cl_server c)) = Some c' ->
      cl_step c c').
    { destruct (crashed_at _) eqn:Hcr; simpl; [done|]. case_bool_decide as Hex; [done|].
      destruct (moved a i (cl_server c)) as [p|] eqn:Hm; [|done]. intros [= <-].
      eapply cl_other; [done..|]. by eapply moved_other. }
    destruct a; try exact Hmoved.
    destruct (crashed_at _) eqn:Hcr; [done|].
    destruct (main_turn _ _ _) as [p|] eqn:Ht; [|done]. intros [= <-]. by eapply cl_main.
  - destruct a; try done. intros [= <-]. by apply cl_join.
Qed.

Lemma performs_steps l c c' : performs l c = Some c' -> rtc cl_step c c'.
Proof.
  revert c. induction l as [|a l IH]; intros c; simpl; [by intros [= <-]|].
  destruct (perform a c) as [c1|] eqn:Ha; [|done]. intros Hl.
  eapply rtc_l; [by eapply perform_step|]. by apply IH.
Qed.

(** Turns of [main] and of the workers of the instance [n]. *)
Definition quits (n : nat) (a : Action) : bool :=
  match a with AMain m | AWorker m => (m =? n)%nat | _ => false end.

Lemma performs_quit n l c c' :
  performs l c = Some c' -> forallb (quits n) l = true -> nsteps (quit_step n) (length l) c c'.
Proof.
  revert c. induction l as [|a l IH]; intros c; simpl.
  { intros [= <-] _. constructor. }
  destruct (perform a c) as [c1|] eqn:Hp; [|done]. simpl.
  intros Hrest [Ha Hl]%andb_true_iff. econstructor; [|by apply IH]. clear Hrest IH Hl.
  unfold perform in Hp. destruct (cl_instances c !! instance_at a) as [i|] eqn:Hn;
    destruct a; try done; simpl in *; apply Nat.eqb_eq in Ha; subst n;
    destruct (crashed_at _) eqn:Hcr; simpl in Hp; try done.
  - destruct (main_turn _ _ _) as [p|] eqn:Ht; [|done]. injection Hp as <-. by eapply quit_main.
  - case_bool_decide; [done|]. destruct (Pool.worker_exit (workers i)) as [p|] eqn:Hw; [|done].
    injection Hp as <-. by eapply quit_worker.
Qed.

End Runs.

Definition ex_env (key : string) : string :=
  if bool_decide (key = "GOQUEUE_WORKER_COUNT") then "2" else "x".

Definition ex_libs : BootLibs unit unit unit unit :=
  MkLibs _ _ _ _ (fun _ => Ok tt) (fun _ => Ok tt) (Ok tt) (fun _ _ => Ok tt)
    (fun _ => Some ErrNoChange) (fun _ => tt) (fun _ => Ok tt).

Example ex_boot :
  match boot ex_env ex_libs with BReady cfg _ _ _ => WorkerCount cfg = 2%Z | _ => False end.
Proof. vm_compute. reflexivity. Qed.

Definition ex_cfg : Config :=
  match Load ex_env with
  | Ok cfg => cfg
  | Err _ => MkConfig "" "" "" "" 0 0 0 "" 0
  end.

(** Two instances; the first leads and accepts a request; then it shuts down, while the request
    and its scheduler go on; one worker returns early, the other when [pool.Stop] waits. *)
Definition ex_leading : list Action :=
  [AJoin 0 ex_cfg; AJoin 1 ex_cfg; AElect 0; AElect 0; AElect 0; AAnnounce 0; AOnAcquire 0;
   AElect 1; AElect 1; AElect 1; AElect 1].

Definition ex_quitting : list Action :=
  [ARequest 0; AMain 0; AMain 0; AWorker 0; AMain 0; AMain 0].

Definition ex_finishing : list Action :=
  [AMain 0; AMain 0; AWorker 0; AMain 0; AMain 0; AMain 0].

Definition after (l : list Action) : Cluster := default cl_init (performs l cl_init).

Definition instance_of (n : nat) (c : Cluster) : Instance :=
  default (launch ex_cfg) (cl_instances c !! n).

Lemma after_reachable l : is_Some (performs l cl_init) -> rtc cl_step cl_init (after l).
Proof. intros [c Hc]. unfold after. rewrite Hc. by eapply performs_steps. Qed.

(** A run of [performs] and a lookup, decided by computation. *)
Ltac run_cluster :=
  first [try apply after_reachable; apply (bool_decide_unpack _); vm_compute; exact I
        |vm_compute; reflexivity].

Lemma cluster_refines_election_witness :
  let c := after ex_leading in
  Lifecycle.loops (sched (instance_of 0 c)) <> [] /\
  scheduling_at (pc (elector (instance_of 0 c))) = true.
Proof.
  intros c. assert (Hl : Lifecycle.loops (sched (instance_of 0 c)) <> []) by (by vm_compute).
  split; [exact Hl|].
  destruct (cluster_refines_election c) as (_ & Hs & _); [run_cluster|].
  apply (Hs 0); [vm_compute; reflexivity|exact Hl].
Defined.

Lemma shutdown_order_safe_witness :
  let i := instance_of 0 (after (ex_leading ++ ex_quitting)) in
  phase i = HttpClosing /\ (0 < Pool.live (workers i) \/ listening i = true ->
    queueOpen i = true /\ storeOpen i = true).
Proof.
  intros i. split; [run_cluster|].
  apply (shutdown_order_safe (after (ex_leading ++ ex_quitting)) 0 i); run_cluster.
Defined.


(** [main] waits neither for the scheduler nor, after the timeout, for the requests: it can
    return while the loops of the scheduler, possibly in the middle of a pass, and a request
    still run, with both connections closed. *)
Theorem exit_with_scheduler_running :
  exists c i, rtc cl_step cl_init c /\ cl_instances c !! 0 = Some i /\ phase i = Exited /\
    length (Lifecycle.loops (sched i)) = 3 /\ requests i = 1.
Proof.
  set (l := ex_leading ++ ex_quitting ++ ex_finishing).
  exists (after l), (instance_of 0 (after l)). split_and!; run_cluster.
Qed.
