(* ===== verification/Metrics.v ===== *)
(** * Metrics ([internal/metrics/metrics.go])

    The collectors of the program and the operations the goroutines perform on them.  The
    other files keep these operations as the trace [w_metrics]; here every collector is
    declared, the trace gets its meaning, and the programs of [System.v] are shown to use the
    collectors as they are declared.  The Prometheus client is an interface, the class
    [Prometheus], that says when it does not panic.  (The gauges of the elector and of the scheduler's life
    cycle are fields of the states of [Leader.v] and [Scheduler.v].) *)

From S2P Require Import Prelude Prog Model Services Sim Storage Queue Strconv Rfc3339 Json Events.
From S2P Require Import Worker Scheduler Api Main Dashboard System.
From Stdlib Require Import QArith_base.

Local Open Scope string_scope.
Local Open Scope go_scope.
Local Open Scope list_scope.
Local Close Scope Q_scope.

(** ** The declarations *)

Inductive Kind := Counter | Gauge | Histogram.

#[global] Instance Kind_eq_dec : EqDecision Kind.
Proof. solve_decision. Defined.

(** [CounterOpts], [GaugeOpts] and [HistogramOpts]; [Buckets] holds the arguments of
    [prometheus.ExponentialBuckets]. *)
Record Opts := MkOpts {
  Namespace : string;
  Subsystem : string;
  Name : string;
  Help : string;
  Buckets : option (Q * Q * nat)
}.

Record Collector := MkCollector {
  c_Kind : Kind;
  c_Opts : Opts;
  c_Labels : list string
}.

Definition JobsProcessed : Collector :=
  MkCollector Counter
    (MkOpts "goqueue" "" "jobs_processed_total"
       "Total number of jobs processed, by type and status" None)
    ["type"; "status"].

Definition QueueDepth : Collector :=
  MkCollector Gauge
    (MkOpts "goqueue" "" "queue_depth" "Current number of jobs waiting in each queue" None)
    ["queue"].

Definition JobDuration : Collector :=
  MkCollector Histogram
    (MkOpts "goqueue" "" "job_duration_seconds" "Duration of job processing in seconds"
       (Some ((1 # 100)%Q, 2%Q, 15)))
    ["type"].

Definition ActiveWorkers : Collector :=
  MkCollector Gauge
    (MkOpts "goqueue" "" "active_workers" "Number of workers currently processing jobs" None) [].

Definition ErrorsTotal : Collector :=
  MkCollector Counter
    (MkOpts "goqueue" "" "errors_total" "Total number of job processing errors, by type" None)
    ["type"].

Definition RetriesTotal : Collector :=
  MkCollector Counter
    (MkOpts "goqueue" "" "retries_total" "Total number of job retries, by type" None) ["type"].

Definition SchedulerActive : Collector :=
  MkCollector Gauge
    (MkOpts "goqueue" "" "scheduler_active"
       "Whether the scheduler is active (1) or inactive (0)" None) [].

Definition DBPoolAcquired : Collector :=
  MkCollector Gauge
    (MkOpts "goqueue" "db_pool" "acquired_conns"
       "Number of currently acquired database connections" None) [].

Definition DBPoolIdle : Collector :=
  MkCollector Gauge
    (MkOpts "goqueue" "db_pool" "idle_conns" "Number of idle database connections" None) [].

Definition DBPoolMax : Collector :=
  MkCollector Gauge
    (MkOpts "goqueue" "db_pool" "max_conns"
       "Maximum number of database connections in the pool" None) [].

Definition DBPoolTotal : Collector :=
  MkCollector Gauge
    (MkOpts "goqueue" "db_pool" "total_conns"
       "Total number of database connections in the pool" None) [].

Definition LeaderStatus : Collector :=
  MkCollector Gauge
    (MkOpts "goqueue" "" "leader_status"
       "Whether this instance is the leader (1) or standby (0)" None) [].

Definition LeaderElectionsTotal : Collector :=
  MkCollector Counter
    (MkOpts "goqueue" "" "leader_elections_total"
       "Total number of leader election attempts" None) ["result"].

(** The package variables, by the names under which the rest of the program uses them. *)
Definition collectors : list (string * Collector) :=
  [("JobsProcessed", JobsProcessed); ("QueueDepth", QueueDepth); ("JobDuration", JobDuration);
   ("ActiveWorkers", ActiveWorkers); ("ErrorsTotal", ErrorsTotal);
   ("RetriesTotal", RetriesTotal); ("SchedulerActive", SchedulerActive);
   ("DBPoolAcquired", DBPoolAcquired); ("DBPoolIdle", DBPoolIdle); ("DBPoolMax", DBPoolMax);
   ("DBPoolTotal", DBPoolTotal); ("LeaderStatus", LeaderStatus);
   ("LeaderElectionsTotal", LeaderElectionsTotal)].

Definition collector (x : string) : option Collector :=
  (list_to_map collectors : gmap string Collector) !! x.

(** ** What the library asks for

    The documentation of the Prometheus client says when it does not panic; the conditions are
    these.  Whether it panics otherwise is not relied on. *)

(** Letters, digits, underscores; no digit first. *)
Definition name_char (a : Ascii.ascii) : bool :=
  let n := Ascii.nat_of_ascii a in
  ((97 <=? n) && (n <=? 122) || (65 <=? n) && (n <=? 90) || (n =? 95))%nat.

Definition name_tail_char (a : Ascii.ascii) : bool :=
  let n := Ascii.nat_of_ascii a in (name_char a || (48 <=? n) && (n <=? 57))%nat.

Definition valid_name (s : string) : bool :=
  match String.list_ascii_of_string s with
  | [] => false
  | a :: l => name_char a && forallb name_tail_char l
  end.

Definition valid_label (s : string) : bool :=
  valid_name s && negb (String.prefix "__" s).

(** A collector under the name [fq]: a valid name, valid and different labels, [le] not among
    those of a histogram, and buckets [ExponentialBuckets] accepts. *)
Definition valid_collector (fq : string) (c : Collector) : bool :=
  valid_name fq && forallb valid_label (c_Labels c) && bool_decide (NoDup (c_Labels c)) &&
  match c_Kind c with
  | Histogram =>
      bool_decide ("le" ∉ c_Labels c) &&
      match Buckets (c_Opts c) with
      | Some (start, factor, count) =>
          negb (Qle_bool start 0) && negb (Qle_bool factor 1) && (0 <? count)%nat
      | None => true
      end
  | _ => true
  end.

(** Collectors for one registry, beside those of the Go runtime and of the process, whose
    names start with [go_] and [process_]. *)
Definition valid_collectors (names : list string) (l : list Collector) : bool :=
  forallb (fun p => valid_collector p.1 p.2) (zip names l) && bool_decide (NoDup names) &&
  forallb (fun fq => negb (String.prefix "go_" fq) && negb (String.prefix "process_" fq)) names.

(** The operations of each kind. *)
Definition allowed (k : Kind) (m : MetricOp) : bool :=
  match k, m with
  | Counter, MInc _ _ => true
  | Gauge, (MInc _ _ | MDec _ _ | MSet _ _ _) => true
  | Histogram, MObserve _ _ _ => true
  | _, _ => false
  end.

Definition metric_labels (m : MetricOp) : list string :=
  match m with MInc _ l | MDec _ l | MSet _ l _ | MObserve _ l _ => l end.

(** An operation that fits a collector: one of its kind, with one value per label, each of
    them valid UTF-8. *)
Definition op_fits (c : Collector) (m : MetricOp) : bool :=
  allowed (c_Kind c) m && (length (metric_labels m) =? length (c_Labels c))%nat &&
  forallb utf8 (metric_labels m).

(** The client.  [BuildFQName] joins the components of a name with underscores, leaving out
    empty ones.  [registers l]: constructing the collectors [l] and registering them does not
    panic.  [panics c m]: the operation [m] on the registered collector [c], the
    [WithLabelValues] in front of it included, panics. *)
Class Prometheus := {
  BuildFQName : string -> string -> string -> string;
  BuildFQName_short : forall ns n, ns <> "" -> n <> "" -> BuildFQName ns "" n = ns +:+ "_" +:+ n;
  BuildFQName_full : forall ns sub n, ns <> "" -> sub <> "" -> n <> "" ->
    BuildFQName ns sub n = ns +:+ "_" +:+ sub +:+ "_" +:+ n;
  fqName (c : Collector) : string :=
    BuildFQName (Namespace (c_Opts c)) (Subsystem (c_Opts c)) (Name (c_Opts c));
  registers : list Collector -> bool;
  registers_valid : forall l, valid_collectors (fqName <$> l) l = true -> registers l = true;
  panics : Collector -> MetricOp -> bool;
  panics_fitting : forall c m,
    valid_collector (fqName c) c = true -> op_fits c m = true -> panics c m = false
}.

(** An operation on a declared collector, which it fits. *)
Definition op_declared (m : MetricOp) : bool :=
  match collector (metric_name m) with Some c => op_fits c m | None => false end.

Lemma collector_names `{Prometheus} :
  fqName <$> (snd <$> collectors) =
    ["goqueue_jobs_processed_total"; "goqueue_queue_depth"; "goqueue_job_duration_seconds";
     "goqueue_active_workers"; "goqueue_errors_total"; "goqueue_retries_total";
     "goqueue_scheduler_active"; "goqueue_db_pool_acquired_conns";
     "goqueue_db_pool_idle_conns"; "goqueue_db_pool_max_conns"; "goqueue_db_pool_total_conns";
     "goqueue_leader_status"; "goqueue_leader_elections_total"].
Proof.
  unfold collectors, fqName. simpl.
  repeat (apply (f_equal2 cons); [first [by apply BuildFQName_short|by apply BuildFQName_full]|]).
  done.
Qed.

(** ** The trace means a value *)

(** The gauge (or counter) [x] after one more operation. *)
Definition update (x : string) (v : Z) (m : MetricOp) : Z :=
  if bool_decide (metric_name m = x) then
    match m with
    | MInc _ _ => v + 1
    | MDec _ _ => v - 1
    | MSet _ _ z => z
    | MObserve _ _ _ => v
    end%Z
  else v.

Definition value (x : string) (ops : list MetricOp) : Z := foldl (update x) 0%Z ops.

Lemma value_snoc x ops m : value x (ops ++ [m]) = update x (value x ops) m.
Proof. unfold value. by rewrite foldl_app. Qed.

(** ** The programs use the collectors as declared *)

(** Operations fit the collectors they name; operations leave the gauge of active workers
    alone. *)
Definition typed (e : Eff) : Prop :=
  match e with EMetric m => op_declared m = true | _ => True end.

Definition inactive (e : Eff) : Prop :=
  match e with EMetric m => metric_name m <> "ActiveWorkers" | _ => True end.

Definition ordinary (e : Eff) : Prop := typed e /\ inactive e.

(** A program without metric operations. *)
Definition unmetered (e : Eff) : Prop := match e with EMetric _ => False | _ => True end.

Lemma unmetered_ordinary {A} (p : go A) : effects unmetered p -> effects ordinary p.
Proof. apply effects_mono. by intros []; repeat split. Qed.

(** The common cases: sequencing, loops, branches, single effects. *)
Create HintDb effects.

Ltac effs :=
  repeat first
    [ done
    | progress intros
    | apply effects_bind
    | apply effects_for_each
    | apply effects_trigger
    | solve [eauto with effects]
    | case_match ].

Section Programs.
Context `{GoPlatform} `{UuidLib} `{LocalTime} `{Views}.
Context `{PG : Postgres} `{RD : Redis} `{HO : Host}.

Lemma unmetered_publish ev : effects unmetered (PublishJobEvent ev).
Proof. unfold PublishJobEvent. effs. Qed.

Lemma unmetered_GetJob id : effects unmetered (GetJob id).
Proof. unfold GetJob. effs. Qed.

Lemma unmetered_query_jobs ctx cond o : effects unmetered (query_jobs ctx cond o).
Proof. unfold query_jobs. effs. Qed.

Lemma unmetered_UpdateJobStatus id st : effects unmetered (UpdateJobStatus id st).
Proof. unfold UpdateJobStatus. effs. Qed.

Lemma unmetered_UpdateJobError id st rc e : effects unmetered (UpdateJobError id st rc e).
Proof. unfold UpdateJobError. effs. Qed.

Lemma unmetered_Push q s : effects unmetered (Push q s).
Proof. unfold Push. effs. Qed.

Lemma unmetered_Schedule s tm : effects unmetered (Schedule s tm).
Proof. unfold Schedule. effs. Qed.

Lemma unmetered_queue_stats ctx cond b : effects unmetered (queue_stats ctx cond b).
Proof. unfold queue_stats. effs. Qed.

Lemma unmetered_ListJobs f : effects unmetered (ListJobs f).
Proof. unfold ListJobs. effs. Qed.

#[local] Hint Resolve unmetered_publish unmetered_GetJob unmetered_query_jobs
  unmetered_UpdateJobStatus unmetered_UpdateJobError unmetered_Push unmetered_Schedule
  unmetered_queue_stats unmetered_ListJobs unmetered_ordinary : effects.

(** What a worker reports of a job of type [ty]. *)
Inductive job_op (ty : string) : MetricOp -> Prop :=
| op_retry : job_op ty (MInc "RetriesTotal" [ty])
| op_duration d : job_op ty (MObserve "JobDuration" [ty] d)
| op_processed result : result ∈ ["failed"; "success"] -> job_op ty (MInc "JobsProcessed" [ty; result])
| op_error : job_op ty (MInc "ErrorsTotal" [ty]).

Lemma job_op_typed ty m : utf8 ty = true -> job_op ty m -> op_declared m = true.
Proof.
  intros Hty [|d|result Hr|]; unfold op_declared, op_fits; cbn; rewrite Hty; try done.
  apply elem_of_cons in Hr as [-> |[-> |[]%elem_of_nil]%elem_of_cons]; done.
Qed.

Lemma job_op_inactive ty m : job_op ty m -> metric_name m <> "ActiveWorkers".
Proof. by intros []. Qed.

(** A worker performs no metric operations but these, and these only for a type that has a
    handler. *)
Lemma effects_process (P : Eff -> Prop) reg s :
  (forall e, unmetered e -> P e) ->
  (forall ty h m, Get reg ty = Some h -> job_op ty m -> P (EMetric m)) ->
  (forall ty h, Get reg ty = Some h -> inert h) -> effects P (process reg s).
Proof.
  intros Hun Hop Hinert.
  assert (Hlift : forall A (p : go A), effects unmetered p -> effects P p)
    by (intros A p; by apply effects_mono).
  assert (Hnow : P ENow) by (by apply Hun).
  unfold process. destruct (uuid_Parse s) as [id|]; [|done].
  apply effects_bind; [by apply Hlift, unmetered_GetJob|]. intros [job|e]; [|done].
  destruct (Get reg (JobType job)) as [h|] eqn:Hh.
  - assert (Hops : forall m, job_op (JobType job) m -> P (EMetric m)) by (intros m; by apply (Hop _ h)).
    assert (effects P (h (Payload job)))
      by (apply Hlift; eapply effects_mono; [|by eapply Hinert]; by intros []).
    unfold execute, report, handleFailure, Since, Worker.publishEvent.
    effs; first [by apply Hun|apply Hops; constructor; by apply (bool_decide_unpack _)].
  - apply effects_bind; [by apply Hlift, unmetered_UpdateJobError|done].
Qed.

Lemma ordinary_request apiKey probe rt h r :
  rt ∈ NewRouter apiKey probe -> rt_Endpoint rt = EHandler h -> effects ordinary (h r).
Proof.
  intros Hrt Hh. apply unmetered_ordinary.
  assert (Hkey : forall g, effects unmetered (g r) -> effects unmetered (APIKeyAuth apiKey g r)).
  { intros g Hg. unfold APIKeyAuth. by destruct (negb _). }
  unfold NewRouter, api_v1 in Hrt. simpl in Hrt.
  repeat (rewrite elem_of_cons in Hrt; destruct Hrt as [-> |Hrt];
    [simpl in Hh; first [discriminate Hh|injection Hh as <-]|]);
    [..|by apply elem_of_nil in Hrt]; try done; apply Hkey.
  all: unfold Handler.CreateJob, Handler.enqueue, Handler.ListJobs, Handler.GetJob,
    Handler.CancelJob, Handler.RetryJob, Handler.DeleteJob, Handler.GetQueues,
    Handler.GetQueueByName, Handler.GetStats, Handler.publishEvent, CreateJob, DeleteJob; effs.
Qed.

(** Every goroutine but a worker leaves the gauge of active workers alone. *)
Lemma goroutine_ordinary reg qs jobTimeout apiKey p :
  goroutine reg qs jobTimeout apiKey p ->
  (exists ctxErr, p = (worker_turn reg qs ctxErr ;;; Ret tt)) \/ effects ordinary p.
Proof.
  intros [ctxErr| | | | |stat|r selects p' Hp|probe external rt h r Hrt Hh]; [by eauto|right..].
  - unfold processScheduledJobs, enqueue_due, GetDueJobs, Scheduler.publishEvent. effs.
  - unfold recoverUnqueuedJobs, GetPendingUnqueued, repush. effs.
  - unfold recoverStaleJobs, GetStaleRunningJobs, fail_stale, Scheduler.publishEvent. effs.
  - unfold collect_depths, QueueLength. effs.
  - by unfold collect_pool.
  - apply unmetered_ordinary. eapply effects_mono; [|by eapply reading_dashboard]. by intros [].
  - apply effects_bind; [|done]. unfold serve. rewrite Hh. unfold RequestLogger.
    pose proof (ordinary_request _ _ _ _ r Hrt Hh). effs.
Qed.

Lemma goroutine_typed reg qs jobTimeout apiKey p :
  (forall ty h, Get reg ty = Some h -> inert h /\ utf8 ty = true) ->
  goroutine reg qs jobTimeout apiKey p -> effects typed p.
Proof.
  intros Hreg [[ctxErr ->]|Hp]%goroutine_ordinary.
  - assert (forall s, effects typed (process reg s)).
    { intros s. apply effects_process; [by intros []| |by intros ty h []%Hreg].
      intros ty h m [_ Hty]%Hreg. by apply job_op_typed. }
    unfold worker_turn, processJob, Pop. effs.
  - eapply effects_mono, Hp. by intros e [].
Qed.

(** Typed effects keep the trace typed. *)
Lemma safe_typed {A} (p : go A) :
  effects typed p ->
  safe exec (fun w => Forall (fun m => op_declared m = true) (w_metrics w)) (fun _ => True) p.
Proof.
  induction p as [a|e k IH]; simpl; [done|]. intros [He Hk] w Hw.
  destruct (exec e w) as [x w'] eqn:Hx. split; [|by apply IH].
  destruct e as [s|c| |d|n|m]; simpl in *; repeat case_match; simplify_eq; simpl; try done.
  apply Forall_app. auto.
Qed.

(** The declared collectors are valid, so that fitting operations do not panic. *)
Lemma collectors_valid `{Prometheus} :
  valid_collectors (fqName <$> (snd <$> collectors)) (snd <$> collectors) = true.
Proof. rewrite collector_names. vm_compute. reflexivity. Qed.

Lemma collector_valid `{Prometheus} x c :
  collector x = Some c -> valid_collector (fqName c) c = true.
Proof.
  unfold collector. intros Hc%elem_of_list_to_map_2%(list_elem_of_fmap_2 snd).
  change (snd (x, c)) with c in Hc.
  pose proof collectors_valid as Hv. unfold valid_collectors in Hv.
  apply andb_true_iff in Hv as [[Hv _]%andb_true_iff _].
  rewrite forallb_forall in Hv. apply (Hv (fqName c, c)), list_elem_of_In.
  apply list_elem_of_lookup in Hc as [i Hi]. apply list_elem_of_lookup. exists i.
  apply lookup_zip_Some. by rewrite list_lookup_fmap, Hi.
Qed.

Lemma declared_fine `{Prometheus} m :
  op_declared m = true -> exists c, collector (metric_name m) = Some c /\ panics c m = false.
Proof.
  unfold op_declared. destruct (collector (metric_name m)) as [c|] eqn:Hc; [|done].
  intros Hfit. exists c. split; [done|]. by eapply panics_fitting, Hfit; eapply collector_valid.
Qed.

(** (C33) No metric operation panics: all collectors register, names and labels being valid and
    no name being used twice; and however workers, scheduler passes, collectors, dashboard
    programs and requests interleave, every operation they perform is on a declared collector
    and does not panic, because it is one of the collector's kind, with one value per label,
    each of them valid UTF-8.  Jobs may have any type: only one that has a handler becomes a
    label, and the types of the handlers are valid UTF-8. *)
Theorem metrics_never_panic `{Prometheus} reg qs jobTimeout apiKey w ts w' :
  (forall ty h, Get reg ty = Some h -> inert h /\ utf8 ty = true) ->
  w_metrics w = [] ->
  rtc (pstep exec (goroutine reg qs jobTimeout apiKey)) ([], w) (ts, w') ->
  registers (snd <$> collectors) = true /\
  Forall (fun m => exists c, collector (metric_name m) = Some c /\ panics c m = false)
    (w_metrics w').
Proof.
  intros Hreg Hw Hsteps. split; [apply registers_valid, collectors_valid|].
  apply (Forall_impl (fun m => op_declared m = true)); [|by apply declared_fine].
  eapply (safe_reachable exec (fun w => Forall (fun m => op_declared m = true) (w_metrics w)));
    [|done|by rewrite Hw|exact Hsteps].
  intros p Hp. by eapply safe_typed, goroutine_typed.
Qed.

(** ** The gauge of active workers counts the workers *)

(** What an effect adds to the gauge; nothing may set it. *)
Definition delta (e : Eff) : option Z :=
  match e with
  | EMetric m =>
      if bool_decide (metric_name m = "ActiveWorkers") then
        match m with MInc _ _ => Some 1 | MDec _ _ => Some (-1) | _ => None end%Z
      else Some 0%Z
  | _ => Some 0%Z
  end.

(** [Q] holds of the answer of [p] and of [n] plus what it adds to the gauge, on every path;
    on the way the sum stays zero or one. *)
Fixpoint tally {A} (Q : A -> Z -> Prop) (n : Z) (p : go A) : Prop :=
  match p with
  | Ret a => Q a n
  | Vis e k =>
      match delta e with
      | Some d => (0 <= n <= 1)%Z /\ forall x, tally Q (n + d)%Z (k x)
      | None => False
      end
  end.

(** A goroutine that has incremented the gauge [n] times and will, on every path, have
    decremented it as often when it returns. *)
Definition owes {A} : Z -> go A -> Prop := tally (fun _ m => m = 0%Z).

Lemma tally_bind {A B} (Q : B -> Z -> Prop) n (p : go A) (f : A -> go B) :
  tally (fun a m => tally Q m (f a)) n p -> tally Q n (bind p f).
Proof.
  revert n. induction p as [a|e k IH]; simpl; intros n Hp; [done|].
  destruct (delta e); [|done]. destruct Hp. split; [done|]. intros x. by apply IH.
Qed.

Lemma tally_inactive {A} (Q : A -> Z -> Prop) n (p : go A) :
  (0 <= n <= 1)%Z -> effects inactive p -> (forall a, Q a n) -> tally Q n p.
Proof.
  intros Hn Hp HQ. induction p as [a|e k IH]; simpl in *; [done|]. destruct Hp as [He Hk].
  assert (delta e = Some 0%Z) as ->.
  { destruct e; simpl in *; try done. by rewrite bool_decide_eq_false_2. }
  split; [done|]. intros x. rewrite Z.add_0_r. auto.
Qed.

Lemma owes_goroutine reg qs jobTimeout apiKey p :
  (forall ty h, Get reg ty = Some h -> inert h) ->
  goroutine reg qs jobTimeout apiKey p -> owes 0 p.
Proof.
  intros Hinert [[ctxErr ->]|Hp]%goroutine_ordinary.
  2: { apply tally_inactive; [done| |done]. eapply effects_mono, Hp. by intros e []. }
  apply tally_bind. unfold worker_turn. apply tally_bind.
  apply tally_inactive; [done|by unfold Pop; effs|]. intros [v|e].
  - case_bool_decide; [done|]. apply tally_bind. unfold processJob. apply tally_bind.
    split; [done|]. intros []. apply tally_bind, tally_inactive; [done| |intros []; by split].
    apply effects_process; [by intros []| |done]. intros ty h m _. apply job_op_inactive.
  - by destruct ctxErr.
Qed.

Lemma exec_delta e w x w' d :
  exec e w = (x, w') -> delta e = Some d ->
  value "ActiveWorkers" (w_metrics w') = (value "ActiveWorkers" (w_metrics w) + d)%Z.
Proof.
  intros Hx Hd. destruct e as [s|c| |t|n|m]; cbn [exec delta] in *;
    try (repeat case_match; simplify_eq; by rewrite Z.add_0_r).
  injection Hx as <- <-. cbn [w_metrics]. rewrite value_snoc. unfold update.
  case_bool_decide; [|simplify_eq; by rewrite Z.add_0_r]. by destruct m; simplify_eq.
Qed.

(** What holds of the pool: each goroutine owes nothing or one decrement, and the gauge is
    their sum. *)
Definition counted (c : list (go unit) * World) : Prop :=
  exists busy, Forall2 owes busy c.1 /\
    value "ActiveWorkers" (w_metrics c.2) = foldr Z.add 0%Z busy.

Lemma sum_insert (l : list Z) i n d :
  l !! i = Some n ->
  foldr Z.add 0%Z (<[i := (n + d)%Z]> l) = (foldr Z.add 0%Z l + d)%Z.
Proof.
  revert i. induction l as [|x l IH]; intros [|i] Hi; simpl in *; simplify_eq; [lia|].
  rewrite IH by done. lia.
Qed.

Lemma counted_step spawn c c' :
  (forall p, spawn p -> owes 0 p) -> counted c -> pstep exec spawn c c' -> counted c'.
Proof.
  intros Hspawn Hc Hstep. destruct Hstep as [ts i e k w x w' Hi Hx|ts p w Hp];
    destruct Hc as (busy & Hall & Hsum); simpl in *.
  - destruct (Forall2_lookup_r _ _ _ _ _ Hall Hi) as (n & Hn & Howes). unfold owes in Howes.
    simpl in Howes.
    destruct (delta e) as [d|] eqn:Hd; [|done]. destruct Howes as [_ Howes].
    exists (<[i := (n + d)%Z]> busy). split; simpl.
    + apply Forall2_insert; [done|apply Howes].
    + rewrite (exec_delta _ _ _ _ _ Hx Hd), Hsum. by rewrite sum_insert.
  - exists (busy ++ [0%Z]). split; simpl.
    + apply Forall2_app; [done|]. constructor; [by apply Hspawn|constructor].
    + rewrite Hsum, foldr_app. simpl. done.
Qed.

Lemma owes_bound {A} n (p : go A) : owes n p -> (0 <= n <= 1)%Z.
Proof. unfold owes. destruct p as [a|e k]; simpl; [by intros ->|]. case_match; tauto. Qed.

Lemma owes_total busy (ts : list (go unit)) :
  Forall2 owes busy ts -> (0 <= foldr Z.add 0 busy <= Z.of_nat (length ts))%Z.
Proof.
  induction 1 as [|n p busy ts Hn _ IH]; simpl; [lia|]. apply owes_bound in Hn. lia.
Qed.

(** (C34) The gauge of active workers is exact at every moment: however the goroutines of the
    system interleave, each of them has at most one increment still to take back, it will
    have taken it back when it returns, whichever way it goes, and the gauge is the number of
    goroutines that have one.  Hence the gauge is never negative, never larger than the
    number of goroutines, and zero when all have returned. *)
Theorem active_workers_exact reg qs jobTimeout apiKey w ts w' :
  (forall ty h, Get reg ty = Some h -> inert h) ->
  value "ActiveWorkers" (w_metrics w) = 0%Z ->
  rtc (pstep exec (goroutine reg qs jobTimeout apiKey)) ([], w) (ts, w') ->
  exists busy, Forall2 owes busy ts /\ Forall (fun n => n = 0 \/ n = 1)%Z busy /\
    value "ActiveWorkers" (w_metrics w') = foldr Z.add 0%Z busy /\
    (0 <= value "ActiveWorkers" (w_metrics w') <= Z.of_nat (length ts))%Z /\
    (Forall (fun p => p = Ret tt) ts -> value "ActiveWorkers" (w_metrics w') = 0%Z).
Proof.
  intros Hinert Hw Hsteps.
  assert (Hc : counted (ts, w')).
  { revert Hsteps. apply (rtc_invariant counted); [|by exists []; split; [constructor|]].
    intros c c' Hc. apply counted_step; [|done]. intros p. by apply owes_goroutine. }
  destruct Hc as (busy & Hall & Hsum). simpl in *. exists busy. rewrite Hsum.
  split_and!; [done| |done| | |].
  - apply Forall_forall. intros n (i & Hi)%list_elem_of_lookup.
    destruct (Forall2_lookup_l _ _ _ _ _ Hall Hi) as (p & _ & Hp). apply owes_bound in Hp. lia.
  - by apply (owes_total _ ts).
  - by apply owes_total.
  - clear Hsteps Hsum. induction Hall as [|n p busy ts Hn _ IH]; [done|].
    intros [-> Hts]%Forall_cons. simpl in *. rewrite IH by done. by rewrite Hn.
Qed.

End Programs.

(** ** A run *)

(** A client that panics exactly when the conditions fail. *)
#[global] Instance sim_prometheus : Prometheus.
Proof.
  pose (name := fun ns sub n =>
    if bool_decide (sub = "") then ns +:+ "_" +:+ n else ns +:+ "_" +:+ sub +:+ "_" +:+ n).
  pose (full := fun c => name (Namespace (c_Opts c)) (Subsystem (c_Opts c)) (Name (c_Opts c))).
  refine {| BuildFQName := name; registers := fun l => valid_collectors (full <$> l) l;
            panics := fun c m => negb (op_fits c m) |}.
  - done.
  - intros ns sub n _ Hs Hn. unfold name. by rewrite (bool_decide_eq_false_2 _ Hs).
  - done.
  - intros c m _ Hm. by rewrite Hm.
Defined.

(** The next effect of goroutine [i]. *)
Definition advance (i : nat) (c : list (go unit) * World) : list (go unit) * World :=
  match c.1 !! i with
  | Some (Vis e k) => let (x, w') := exec e c.2 in (<[i := k x]> c.1, w')
  | _ => c
  end.

Lemma advance_steps i c : rtc ex_system c (advance i c).
Proof.
  destruct c as [ts w]. unfold advance. simpl. destruct (ts !! i) as [[a|e k]|] eqn:Hi; try done.
  destruct (exec e w) as [x w'] eqn:Hx. apply rtc_once. by eapply pstep_effect.
Qed.

(** A worker takes a job off its queue and has just announced itself. *)
Definition ex_busy : list (go unit) * World :=
  advance 0 (advance 0 ([worker_turn registry queues false ;;; Ret tt], ex_sworld [])).

Lemma ex_busy_steps : rtc ex_system ([], ex_sworld []) ex_busy.
Proof.
  eapply rtc_l; [apply (pstep_spawn exec _ []), (g_worker _ _ _ _ false)|].
  etrans; [apply (advance_steps 0)|]. apply (advance_steps 0).
Qed.

(** The types with a handler. *)
Lemma registry_utf8 ty h : Get registry ty = Some h -> utf8 ty = true.
Proof.
  unfold Get, registry, Register. simpl. rewrite !lookup_insert_Some, lookup_empty.
  intros Hty. by repeat destruct Hty as [[<- _]|[_ Hty]].
Qed.

Lemma metrics_never_panic_witness :
  w_metrics ex_busy.2 <> [] /\
  Forall (fun m => exists c, collector (metric_name m) = Some c /\ panics c m = false)
    (w_metrics ex_busy.2).
Proof.
  split; [vm_compute; discriminate|].
  refine (proj2 (metrics_never_panic registry queues (30 * Second) "k" (ex_sworld [])
    ex_busy.1 ex_busy.2 _ _ _)); [|reflexivity|].
  - intros ty h Hh. split; [by eapply registry_inert|]. by eapply registry_utf8.
  - rewrite <- surjective_pairing. exact ex_busy_steps.
Defined.

Lemma active_workers_exact_witness :
  value "ActiveWorkers" (w_metrics ex_busy.2) = 1%Z /\
  exists busy, Forall2 owes busy ex_busy.1 /\ foldr Z.add 0%Z busy = 1%Z.
Proof.
  assert (Hv : value "ActiveWorkers" (w_metrics ex_busy.2) = 1%Z) by (vm_compute; reflexivity).
  split; [exact Hv|].
  destruct (active_workers_exact registry queues (30 * Second) "k" (ex_sworld [])
    ex_busy.1 ex_busy.2 registry_inert) as (busy & Hall & _ & Hsum & _).
  - reflexivity.
  - rewrite <- surjective_pairing. exact ex_busy_steps.
  - exists busy. split; [exact Hall|]. rewrite <- Hsum. exact Hv.
Defined.
