(* ===== verification/Docs.v ===== *)
(** * The API documentation ([docs/docs.go])

    The Swagger document served under [/swagger/]: operations with their parameters, responses
    and schemas, without the descriptive texts.  The handlers of [Api.v] are compared with it:
    the routes, the status codes, and the JSON values of the responses, with the properties
    they have to have and no others.  The schema of the payload is wrong in the document and
    corrected for the comparison. *)

From S2P Require Import Prelude Prog Model Services Sim Storage Queue Strconv Rfc3339 Json Events.
From S2P Require Import Scheduler Api.

Local Open Scope string_scope.
Local Open Scope go_scope.
Local Open Scope list_scope.

#[local] Set Warnings "-register-all".

(** ** The document *)

Inductive Schema :=
| SAny
| SString
| SInteger
| SEnum (values : list string)
| SArray (items : Schema)
| SMap (additionalProperties : Schema)
| SObject (properties : list (string * Schema))
| SRef (definition : string).

Record Param := MkParam {
  pr_Name : string;
  pr_In : string;
  pr_Schema : Schema;
  pr_Required : bool;
  pr_Default : option Z
}.

Record Operation := MkOperation {
  op_Security : list string;
  op_Consumes : list string;
  op_Produces : list string;
  op_Tags : list string;
  op_Parameters : list Param;
  op_Responses : list (Z * Schema)
}.

Definition error_ref : Schema := SRef "internal_api.ErrorResponse".
Definition job_ref : Schema := SRef "github_com_goqueue_internal_model.Job".

Definition get_jobs : Operation :=
  MkOperation ["ApiKeyAuth"] [] ["application/json"] ["jobs"]
    [MkParam "status" "query" SString false None;
     MkParam "queue" "query" SString false None;
     MkParam "type" "query" SString false None;
     MkParam "page" "query" SInteger false (Some 1%Z);
     MkParam "limit" "query" SInteger false (Some 20%Z)]
    [(200%Z, SRef "internal_api.PaginatedResponse"); (500%Z, error_ref)].

Definition post_jobs : Operation :=
  MkOperation ["ApiKeyAuth"] ["application/json"] ["application/json"] ["jobs"]
    [MkParam "request" "body" (SRef "internal_api.CreateJobRequest") true None]
    [(201%Z, job_ref); (400%Z, error_ref); (500%Z, error_ref)].

Definition get_job : Operation :=
  MkOperation ["ApiKeyAuth"] [] ["application/json"] ["jobs"]
    [MkParam "id" "path" SString true None]
    [(200%Z, job_ref); (400%Z, error_ref); (404%Z, error_ref)].

Definition delete_job : Operation :=
  MkOperation ["ApiKeyAuth"] [] ["application/json"] ["jobs"]
    [MkParam "id" "path" SString true None]
    [(200%Z, SMap SString); (400%Z, error_ref); (409%Z, error_ref)].

Definition post_cancel : Operation :=
  MkOperation ["ApiKeyAuth"] [] ["application/json"] ["jobs"]
    [MkParam "id" "path" SString true None]
    [(200%Z, SMap SString); (400%Z, error_ref); (404%Z, error_ref); (409%Z, error_ref)].

Definition post_retry : Operation :=
  MkOperation ["ApiKeyAuth"] [] ["application/json"] ["jobs"]
    [MkParam "id" "path" SString true None]
    [(200%Z, SMap SString); (400%Z, error_ref); (404%Z, error_ref); (409%Z, error_ref)].

Definition get_queues : Operation :=
  MkOperation ["ApiKeyAuth"] [] ["application/json"] ["queues"] []
    [(200%Z, SMap (SMap SInteger)); (500%Z, error_ref)].

Definition get_queue : Operation :=
  MkOperation ["ApiKeyAuth"] [] ["application/json"] ["queues"]
    [MkParam "name" "path" SString true None]
    [(200%Z, SMap SInteger); (500%Z, error_ref)].

Definition get_stats : Operation :=
  MkOperation ["ApiKeyAuth"] [] ["application/json"] ["stats"] []
    [(200%Z, SMap SInteger); (500%Z, error_ref)].

Definition paths : list (string * list (string * Operation)) :=
  [("/jobs", [("get", get_jobs); ("post", post_jobs)]);
   ("/jobs/{id}", [("get", get_job); ("delete", delete_job)]);
   ("/jobs/{id}/cancel", [("post", post_cancel)]);
   ("/jobs/{id}/retry", [("post", post_retry)]);
   ("/queues", [("get", get_queues)]);
   ("/queues/{name}", [("get", get_queue)]);
   ("/stats", [("get", get_stats)])].

Definition job_schema : Schema :=
  SObject [("completed_at", SString); ("created_at", SString); ("error", SString);
    ("id", SString); ("max_retries", SInteger); ("payload", SArray SInteger);
    ("queue", SString); ("retry_count", SInteger); ("run_at", SString); ("started_at", SString);
    ("status", SRef "github_com_goqueue_internal_model.JobStatus"); ("type", SString);
    ("updated_at", SString)].

Definition status_schema : Schema :=
  SEnum ["pending"; "scheduled"; "running"; "completed"; "failed"; "retrying"; "dead";
         "cancelled"].

Definition request_schema : Schema :=
  SObject [("max_retries", SInteger); ("payload", SArray SInteger); ("queue", SString);
    ("run_at", SString); ("type", SString)].

Definition error_schema : Schema := SObject [("error", SString)].

Definition paginated_schema : Schema :=
  SObject [("data", SAny); ("pagination", SRef "internal_api.Pagination")].

Definition pagination_schema : Schema :=
  SObject [("limit", SInteger); ("page", SInteger); ("total", SInteger);
    ("total_pages", SInteger)].

Definition definitions : list (string * Schema) :=
  [("github_com_goqueue_internal_model.Job", job_schema);
   ("github_com_goqueue_internal_model.JobStatus", status_schema);
   ("internal_api.CreateJobRequest", request_schema);
   ("internal_api.ErrorResponse", error_schema);
   ("internal_api.PaginatedResponse", paginated_schema);
   ("internal_api.Pagination", pagination_schema)].

Record SecurityScheme := MkScheme { sec_Type : string; sec_Name : string; sec_In : string }.

Definition securityDefinitions : list (string * SecurityScheme) :=
  [("ApiKeyAuth", MkScheme "apiKey" "X-API-Key" "header")].

Record Spec := MkSpec {
  sw_Version : string;
  sw_Host : string;
  sw_BasePath : string;
  sw_Schemes : list string;
  sw_Title : string
}.

Definition SwaggerInfo : Spec := MkSpec "2.0" "localhost:8080" "/api/v1" [] "GoQueue API".

(** Method, full path and operation. *)
Definition operations : list (string * string * Operation) :=
  '(p, ms) ← paths; '(m, op) ← ms; [(m, sw_BasePath SwaggerInfo +:+ p, op)].

(** The value of a name in a JSON object of the document. *)
Fixpoint assoc {A} (l : list (string * A)) (name : string) : option A :=
  match l with
  | [] => None
  | (k, a) :: l => if String.eqb k name then Some a else assoc l name
  end.

(** ** The values the handlers encode *)

(** A JSON value; a [json.RawMessage] is kept as its text. *)
Inductive tree :=
| NNull
| NBool (b : bool)
| NInt (z : Z)
| NStr (s : string)
| NRaw (text : string)
| NArr (l : list tree)
| NObj (l : list (string * tree)).

(** A field with [omitempty]. *)
Definition omitempty {A} (name : string) (f : A -> tree) (x : option A) : list (string * tree) :=
  match x with Some a => [(name, f a)] | None => [] end.

Section Trees.
Context `{UuidLib} `{LocalTime}.

(** The encoder writes a time whose year has four digits (see [encodable]). *)
Definition NTime (t : Time) : tree :=
  NStr (match marshal_time (zone_offset t) t with Ok s => s | Err _ => "" end).

Definition tree_of_job (j : Job) : tree :=
  NObj ([("id", NStr (uuid_String (ID j))); ("queue", NStr (Queue j)); ("type", NStr (JobType j));
         ("payload", NRaw (Payload j)); ("status", NStr (Status j));
         ("max_retries", NInt (MaxRetries j)); ("retry_count", NInt (RetryCount j))] ++
        omitempty "run_at" NTime (RunAt j) ++ omitempty "started_at" NTime (StartedAt j) ++
        omitempty "completed_at" NTime (CompletedAt j) ++
        omitempty "error" NStr (if bool_decide (JobError j = "") then None else Some (JobError j)) ++
        [("created_at", NTime (CreatedAt j)); ("updated_at", NTime (UpdatedAt j))]).

(** No rows are a nil slice, which is written as [null]. *)
Definition tree_of_jobs (l : list Job) : tree :=
  match l with [] => NNull | _ => NArr (tree_of_job <$> l) end.

Definition tree_of_map {A} (f : A -> tree) (m : gmap string A) : tree :=
  NObj ((fun p => (p.1, f p.2)) <$> map_to_list m).

Definition tree_of (d : Data) : tree :=
  match d with
  | DJob j => tree_of_job j
  | DPaginatedResponse data p =>
      NObj [("data", tree_of_jobs data);
            ("pagination", NObj [("page", NInt (p_Page p)); ("limit", NInt (p_Limit p));
               ("total", NInt (p_Total p)); ("total_pages", NInt (p_TotalPages p))])]
  | DErrorResponse e => NObj [("error", NStr e)]
  | DStrings m => tree_of_map NStr m
  | DCounts m => tree_of_map NInt m
  | DQueues m => tree_of_map (tree_of_map NInt) m
  | DReady status ready db =>
      NObj [("db", NBool db); ("ready", NBool ready); ("status", NStr status)]
  end.

(** What [json.Encoder] can write: every time has a year of four digits and every
    [json.RawMessage] is one JSON value.  Otherwise it writes nothing, and the body of the
    response, whose status line is already out, stays empty. *)
Definition encodable_time (t : Time) : bool :=
  match marshal_time (zone_offset t) t with Ok _ => true | Err _ => false end.

Definition encodable_raw (text : string) : bool :=
  match scan_value maxNestingDepth (skip_ws (decode text)) with
  | Some rest => bool_decide (skip_ws rest = [])
  | None => false
  end.

Definition encodable_job (j : Job) : bool :=
  encodable_raw (Payload j) &&
  forallb encodable_time
    (option_list (RunAt j) ++ option_list (StartedAt j) ++ option_list (CompletedAt j) ++
     [CreatedAt j; UpdatedAt j]).

Definition encodable (d : Data) : bool :=
  match d with
  | DJob j => encodable_job j
  | DPaginatedResponse data _ => forallb encodable_job data
  | _ => true
  end.

End Trees.

(** ** Conformance *)

(** The properties of a job that are left out when they are empty ([omitempty]); the document
    requires none. *)
Definition omitted : list string := ["run_at"; "started_at"; "completed_at"; "error"].

(** A value has the shape of a schema over the definitions [defs]; references are followed
    [fuel] times.  An object has only documented properties, and all of them but [omitted]
    ones; a [json.RawMessage] has no shape of its own. *)
Fixpoint conforms (defs : list (string * Schema)) (fuel : nat) (s : Schema) (v : tree)
    {struct fuel} : bool :=
  match fuel with
  | O => false
  | S fuel =>
      match s, v with
      | SAny, _ => true
      | SString, NStr _ => true
      | SInteger, NInt _ => true
      | SEnum l, NStr x => bool_decide (x ∈ l)
      | SArray s, NArr l => forallb (conforms defs fuel s) l
      | SMap s, NObj l => forallb (fun p => conforms defs fuel s p.2) l
      | SObject ps, NObj l =>
          forallb (fun p => match assoc ps p.1 with
                            | Some s => conforms defs fuel s p.2
                            | None => false
                            end) l &&
          forallb (fun q => bool_decide (q.1 ∈ l.*1) || bool_decide (q.1 ∈ omitted)) ps
      | SRef name, v =>
          match assoc defs name with Some s => conforms defs fuel s v | None => false end
      | _, _ => false
      end
  end.

(** The definitions with one correction: a [payload] is any JSON value.  The document has it as
    an array of integers (see [payload_documented_as_bytes]). *)
Definition any_payload (s : Schema) : Schema :=
  match s with
  | SObject ps => SObject ((fun p => if String.eqb p.1 "payload" then (p.1, SAny) else p) <$> ps)
  | s => s
  end.

Definition corrected : list (string * Schema) :=
  (fun p => (p.1, any_payload p.2)) <$> definitions.

(** Enough for the references of the document, and for the objects between them. *)
Definition conforming : Schema -> tree -> bool := conforms corrected 5.

(** ** The handlers and the document *)

Definition upper (method : string) : string :=
  if bool_decide (method = "get") then "GET" else if bool_decide (method = "post") then "POST"
  else if bool_decide (method = "delete") then "DELETE" else method.

(** The response is one of the documented ones, its body possibly empty when it cannot be
    written. *)
Definition documented `{UuidLib} `{LocalTime} (op : Operation) (resp : Response) : bool :=
  existsb (fun p => (p.1 =? resp_Status resp)%Z &&
                    implb (encodable (resp_Body resp)) (conforming p.2 (tree_of (resp_Body resp))))
    (op_Responses op).

Section Conformance.
Context `{UuidLib} `{LocalTime}.

(** The statuses of the enumeration are the valid ones. *)
Lemma status_documented st : IsValid st = true -> conforming status_schema (NStr st) = true.
Proof.
  unfold IsValid. destruct (validStatuses !! st) as [b|] eqn:Hs; [intros _|done].
  apply elem_of_list_to_map_2 in Hs. unfold conforming. cbn [conforms status_schema].
  apply bool_decide_eq_true_2.
  repeat (apply elem_of_cons in Hs as [[= -> _]|Hs]; [by apply (bool_decide_unpack _)|]).
  by apply elem_of_nil in Hs.
Qed.

Lemma object_documented defs fuel ps l :
  (forall p, p ∈ l -> exists s, assoc ps p.1 = Some s /\ conforms defs fuel s p.2 = true) ->
  (forall q, q ∈ ps.*1 -> q ∈ l.*1 \/ q ∈ omitted) ->
  conforms defs (S fuel) (SObject ps) (NObj l) = true.
Proof.
  intros Hl Hps. cbn [conforms]. apply andb_true_iff. split; apply forallb_forall.
  - intros p Hp%list_elem_of_In. by destruct (Hl p Hp) as (s & -> & Hs).
  - intros q Hq%list_elem_of_In%(list_elem_of_fmap_2 fst). apply orb_true_iff.
    rewrite !bool_decide_eq_true. auto.
Qed.

Lemma elem_of_omitempty {A} name (f : A -> tree) x p :
  p ∈ omitempty name f x -> exists a, p = (name, f a).
Proof.
  destruct x as [a|]; [|by intros ?%elem_of_nil]. intros ->%list_elem_of_singleton. by exists a.
Qed.

Lemma job_documented j : IsValid (Status j) = true -> conforming job_ref (tree_of_job j) = true.
Proof.
  intros Hst%status_documented.
  change (conforms corrected 4 (any_payload job_schema) (tree_of_job j) = true).
  apply object_documented.
  - intros p. rewrite !elem_of_app. intros [Hp|[Hp|[Hp|[Hp|[Hp|Hp]]]]].
    + repeat (apply elem_of_cons in Hp as [-> |Hp];
        [eexists; split; [reflexivity|first [reflexivity|exact Hst]]|]).
      by apply elem_of_nil in Hp.
    + apply elem_of_omitempty in Hp as [a ->]. by eexists.
    + apply elem_of_omitempty in Hp as [a ->]. by eexists.
    + apply elem_of_omitempty in Hp as [a ->]. by eexists.
    + apply elem_of_omitempty in Hp as [a ->]. by eexists.
    + repeat (apply elem_of_cons in Hp as [-> |Hp]; [by eexists|]). by apply elem_of_nil in Hp.
  - rewrite !fmap_app. intros q Hq. cbn in Hq.
    repeat (apply elem_of_cons in Hq as [-> |Hq];
      [first [by right; apply (bool_decide_unpack _)
             |left; rewrite !elem_of_app; cbn; set_solver]|]).
    by apply elem_of_nil in Hq.
Qed.

Lemma map_documented {A} defs (f : A -> tree) fuel s (m : gmap string A) :
  (forall a, conforms defs fuel s (f a) = true) ->
  conforms defs (S fuel) (SMap s) (tree_of_map f m) = true.
Proof.
  intros Hf. unfold tree_of_map. cbn [conforms]. generalize (map_to_list m) as l.
  induction l as [|p l IH]; [done|]. rewrite fmap_cons. cbn [forallb snd]. by rewrite Hf, IH.
Qed.

End Conformance.

Section Documented.
Context `{UuidLib} `{LocalTime} `{PG : Postgres} `{RD : Redis} `{HO : Host}.

(** Responses with the documented code [c] and a conforming body. *)
Lemma documented_in op c s d :
  (c, s) ∈ op_Responses op -> conforming s (tree_of d) = true ->
  documented op (writeJSON c d) = true.
Proof.
  intros Hin Hs. unfold documented. apply existsb_exists. exists (c, s).
  split; [by apply list_elem_of_In|]. cbn [fst snd resp_Status resp_Body writeJSON].
  rewrite Z.eqb_refl, Hs. by destruct (encodable d).
Qed.

Lemma error_documented op c msg :
  (c, error_ref) ∈ op_Responses op -> documented op (writeError c msg) = true.
Proof. intros Hin. by apply (documented_in op c error_ref). Qed.

(** Rows have valid statuses. *)
Definition valid_rows (t : Table) : Prop := map_Forall (fun _ j => IsValid (Status j) = true) t.

(** Find a code in the list of an operation. *)
Ltac listed := solve [cbn; repeat first [left | right]].

(** The responses of a handler, its branches taken one by one. *)
Ltac doc_step :=
  first [apply error_documented; listed
        |apply wp_ret
        |apply wp_bind, wp_any; intros
        |case_match].

Lemma doc_CreateJob r w :
  wp_go (Handler.CreateJob r) (fun resp _ => documented post_jobs resp = true) w.
Proof.
  unfold Handler.CreateJob. destruct (r_Decode r) as [req|]; [|repeat doc_step].
  destruct (_ || _); [repeat doc_step|].
  destruct (Handler.new_job req) as [job|] eqn:Hjob; [|repeat doc_step].
  assert (Hst : IsValid (Status job) = true).
  { unfold Handler.new_job in Hjob. repeat case_match; simplify_eq; done. }
  apply wp_bind, wp_CreateJob. intros [created|e] w1 _ Hc; [|repeat doc_step].
  apply wp_bind, wp_any. intros _ w2. apply wp_ret, (documented_in _ _ job_ref); [listed|].
  apply job_documented. by destruct Hc as (id & now & _ & -> & _).
Qed.

Lemma doc_GetJob r w :
  keyed (tbl w) -> valid_rows (tbl w) ->
  wp_go (Handler.GetJob r) (fun resp _ => documented get_job resp = true) w.
Proof.
  intros Hk Hv. unfold Handler.GetJob. destruct (uuid_Parse _) as [id|]; [|repeat doc_step].
  apply wp_bind, wp_GetJob; [done|]. intros [j|e] w1 _ Hj; [|repeat doc_step].
  apply wp_ret, (documented_in _ _ job_ref); [listed|]. apply job_documented, (Hv id), Hj. done.
Qed.

Lemma doc_ListJobs r w :
  wp_go (Handler.ListJobs r) (fun resp _ => documented get_jobs resp = true) w.
Proof.
  apply wp_bind, wp_any. intros [[jobs total]|e] w1; [|repeat doc_step].
  apply wp_ret, (documented_in _ _ (SRef "internal_api.PaginatedResponse")); [listed|].
  by destruct jobs.
Qed.

(** Both may also answer 500, which is not documented. *)
Definition documented_or_500 (op : Operation) (resp : Response) : Prop :=
  documented op resp = true \/ exists msg, resp = writeError StatusInternalServerError msg.

Lemma status_map_documented op st :
  (200%Z, SMap SString) ∈ op_Responses op ->
  documented op (writeJSON StatusOK (DStrings {["status" := st]})) = true.
Proof. intros Hin. apply (documented_in _ _ (SMap SString)); [done|]. by apply map_documented. Qed.

Lemma doc_CancelJob r w :
  wp_go (Handler.CancelJob r) (fun resp _ => documented_or_500 post_cancel resp) w.
Proof.
  unfold Handler.CancelJob.
  destruct (uuid_Parse _) as [id|]; [|left; apply error_documented; listed].
  apply wp_bind, wp_any. intros [job|e] w1; [|left; apply error_documented; listed].
  destruct (negb _); [left; apply error_documented; listed|].
  apply wp_bind, wp_any. intros [u|e] w2; [|right; by eexists].
  apply wp_bind, wp_any. intros _ w3. left. apply status_map_documented. listed.
Qed.

Lemma doc_RetryJob r w :
  wp_go (Handler.RetryJob r) (fun resp _ => documented_or_500 post_retry resp) w.
Proof.
  unfold Handler.RetryJob.
  destruct (uuid_Parse _) as [id|]; [|left; apply error_documented; listed].
  apply wp_bind, wp_any. intros [job|e] w1; [|left; apply error_documented; listed].
  destruct (negb _); [left; apply error_documented; listed|].
  apply wp_bind, wp_any. intros [u|e] w2; [|right; by eexists].
  apply wp_bind, wp_any. intros _ w3. apply wp_bind, wp_any. intros _ w4.
  left. apply status_map_documented. listed.
Qed.

Lemma doc_DeleteJob r w :
  wp_go (Handler.DeleteJob r) (fun resp _ => documented delete_job resp = true) w.
Proof.
  unfold Handler.DeleteJob. destruct (uuid_Parse _) as [id|]; [|repeat doc_step].
  apply wp_bind, wp_any. intros [u|e] w1; [|repeat doc_step].
  apply wp_ret, status_map_documented. listed.
Qed.

(** The three statistics. *)
Lemma doc_stats r w :
  wp_go (Handler.GetQueues r) (fun resp _ => documented get_queues resp = true) w /\
  wp_go (Handler.GetQueueByName r) (fun resp _ => documented get_queue resp = true) w /\
  wp_go (Handler.GetStats r) (fun resp _ => documented get_stats resp = true) w.
Proof.
  split_and!; (apply wp_bind, wp_any; intros [l|e] w1; [|repeat doc_step]); apply wp_ret.
  - apply (documented_in _ _ (SMap (SMap SInteger))); [listed|].
    apply map_documented. intros m. by apply map_documented.
  - apply (documented_in _ _ (SMap SInteger)); [listed|]. by apply map_documented.
  - apply (documented_in _ _ (SMap SInteger)); [listed|]. by apply map_documented.
Qed.

(** The documented operations as routes: method, pattern, operation. *)
Definition documented_routes : list (string * string * Operation) :=
  (fun o => (upper o.1.1, o.1.2, o.2)) <$> operations.

(** What an operation may answer: without the key 401, with it a documented response, and 500
    where two operations do not document it. *)
Definition answers (apiKey path : string) (op : Operation) (r : Request) (resp : Response) : Prop :=
  (r_Header r "X-API-Key" <> apiKey /\
     resp = writeError StatusUnauthorized "invalid or missing API key") \/
  (r_Header r "X-API-Key" = apiKey /\ documented op resp = true) \/
  (r_Header r "X-API-Key" = apiKey /\
     path ∈ ["/api/v1/jobs/{id}/cancel"; "/api/v1/jobs/{id}/retry"] /\
     exists msg, resp = writeError StatusInternalServerError msg).

Lemma doc_auth apiKey path op h r w :
  wp_go (h r) (fun resp _ => documented op resp = true) w ->
  wp_go (APIKeyAuth apiKey h r) (fun resp _ => answers apiKey path op r resp) w.
Proof.
  intros Hh. unfold APIKeyAuth. case_bool_decide; cbn [negb].
  - eapply wp_mono; [exact Hh|]. intros resp w' Hd. right; left. done.
  - apply wp_ret. by left.
Qed.

Lemma doc_auth_500 apiKey path op h r w :
  path ∈ ["/api/v1/jobs/{id}/cancel"; "/api/v1/jobs/{id}/retry"] ->
  wp_go (h r) (fun resp _ => documented_or_500 op resp) w ->
  wp_go (APIKeyAuth apiKey h r) (fun resp _ => answers apiKey path op r resp) w.
Proof.
  intros Hpath Hh. unfold APIKeyAuth. case_bool_decide; cbn [negb].
  - eapply wp_mono; [exact Hh|]. intros resp w' [Hd|Hd]; right; [by left|by right].
  - apply wp_ret. by left.
Qed.

Lemma doc_routes apiKey rt h r w :
  keyed (tbl w) -> valid_rows (tbl w) -> rt ∈ api_v1 apiKey -> rt_Endpoint rt = EHandler h ->
  exists op, (rt_Method rt, rt_Pattern rt, op) ∈ documented_routes /\
    wp_go (h r) (fun resp _ => answers apiKey (rt_Pattern rt) op r resp) w.
Proof.
  intros Hk Hv Hrt Hh. destruct (doc_stats r w) as (Hqs & Hq & Hst).
  unfold api_v1 in Hrt. cbn [fmap list_fmap] in Hrt.
  repeat (rewrite elem_of_cons in Hrt; destruct Hrt as [-> |Hrt]; [injection Hh as <-|]);
    [..|by apply elem_of_nil in Hrt].
  - exists post_jobs. split; [listed|]. apply doc_auth, doc_CreateJob.
  - exists get_jobs. split; [listed|]. apply doc_auth, doc_ListJobs.
  - exists get_job. split; [listed|]. by apply doc_auth, doc_GetJob.
  - exists post_cancel. split; [listed|]. apply doc_auth_500, doc_CancelJob. listed.
  - exists post_retry. split; [listed|]. apply doc_auth_500, doc_RetryJob. listed.
  - exists delete_job. split; [listed|]. apply doc_auth, doc_DeleteJob.
  - exists get_queues. split; [listed|]. by apply doc_auth.
  - exists get_queue. split; [listed|]. by apply doc_auth.
  - exists get_stats. split; [listed|]. by apply doc_auth.
Qed.


End Documented.

(** ** Parameters and examples *)

(** The documented defaults of [page] and [limit] are those of the handler. *)
Theorem documented_defaults r :
  r_Query r "page" = "" -> r_Query r "limit" = "" ->
  (fun p => (pr_Name p, pr_Default p)) <$>
    filter (fun p => pr_Default p <> None) (op_Parameters get_jobs) =
  [("page", Some (Handler.query_page r)); ("limit", Some (Handler.query_limit r))].
Proof. intros Hp Hl. unfold Handler.query_page, Handler.query_limit. by rewrite Hp, Hl. Qed.

(** The payload is documented as an array of integers, the bytes of a [json.RawMessage], but
    it is any JSON value: a request without a payload creates a job whose payload is the empty
    object, which no value of the documented schema is. *)
Theorem payload_documented_as_bytes :
  assoc (match job_schema with SObject ps => ps | _ => [] end) "payload" = Some (SArray SInteger) /\
  (exists r job, requested r = Some job /\ Payload job = "{}") /\
  conforms definitions 5 (SArray SInteger) (NObj []) = false.
Proof.
  split_and!; [done| |done]. exists (ex_request "k" "" "" (ex_body None)). eexists. split; [|].
  - vm_compute. reflexivity.
  - reflexivity.
Qed.

